(* ===== verification/_CoqProject ===== *)
-Q . S2P
Prelude.v
Text.v
Proto.v
StateMachine.v
Lease.v
Stores.v
LeaseSafety.v
Journal.v
Events.v
Operations.v
Capsules.v
Codec.v
Restore.v
Objects.v
Collection.v
Runtime.v
Ops.v
Executor.v
CapsuleTransfer.v
Reconcile.v
Reconciler.v
Fleet.v
FleetSafety.v
Service.v
Pages.v
Requests.v
Watch.v
HypemanClient.v
Logs.v
Hypeman.v
HypemanSafety.v
HypemanPlans.v
Names.v
Guest.v
GuestSafety.v
GuestExec.v
Passthrough.v
Docker.v
Delivery.v
Channel.v
Bridge.v
Net.v
Preflight.v
Startup.v
Wake.v
Cli.v
Commands.v
Bucket.v
Verbs.v
