(* ===== verification/Prelude.v ===== *)
(** A verification development for barista, a node agent that runs agent sessions in
    sandboxes: Rust sources under src/crates.

    * The program

    A node agent (src/crates/barista-node-agent) keeps a journal in SQLite ([db.rs]) of
    instances, operations, events, snapshots, capsules and held leases. A client's
    requests arrive at the gRPC handlers ([service.rs]), which validate them, read the
    journal, and turn most of them into long-running operations ([ops.rs]): submission
    journals an operation with its instance's transitional state in one transaction and spawns an executor; the executor
    calls the runtime, a trait over the sandbox substrate ([runtime/mod.rs]), and records
    the outcome and the instance's state in one transaction; after a crash, recovery
    settles what was left. Before a restore, a create or a grant, pure decisions
    ([restore.rs], [admission.rs], [grants.rs]) are taken. Snapshots leave a node as
    capsules: manifests whose identity is their content ([capsule.rs],
    [snapshot_key.rs]) over a content-addressed object store with reference counts and
    a collector ([objects.rs]). Everything that happens is an event in a journal that
    clients watch from a cursor ([events.rs], [service.rs], [reconcile.rs]). Across
    nodes, a session name is owned through a lease in a bucket with conditional writes
    (src/crates/barista-fleet, [lease.rs]): a node of a fleet renews the leases it holds,
    stops what it lost, gives up what nobody wants and takes up what is desired
    ([fleet_phase.rs]), as one step of the reconciler's tick ([reconcile.rs]), which also
    fires alarms and deadlines, sweeps orphans, probes and prunes.

    The runtime that ships is a client of hypeman ([runtime/hypeman]), a substrate with an
    HTTP interface: a sandbox is an instance there, with a volume that carries its
    credentials and, when it publishes a port, an ingress on a port of the node. In each
    sandbox runs the guest agent (src/crates/barista-guest-agent), which starts the
    workload, performs the restore duties, and serves exec, files and stats on a channel
    only its node may use. A client's exec and file transfers pass through the node
    ([passthrough.rs], [guest.rs]). A second runtime drives Docker ([runtime/fake.rs]). A
    node starts ([main.rs], [lib.rs]) by choosing its runtime, checking what the substrate
    needs ([config.rs], [preflight.rs]) and settling what the last process left. The command line (src/crates/barista-cli) waits for
    operations, relays an exec, copies files and reads the times an operator types.

    * The files

    - [Prelude]: results, record update, machine integers, lists, tactics.
    - [Text]: what the sources use of [str]; calls that thread a state.
    - [Proto]: the contract's messages and enumerations.
    - [StateMachine]: [state_machine.rs]; the transition tables and what they imply.
    - [Lease], [Stores], [LeaseSafety]: [barista-fleet/src/lease.rs] over an object-store
      interface given as classes with laws; two backends that satisfy them; the protocol
      under interleaving, with its refinement to an abstract lock.
    - [Journal]: the tables, rows and instance methods of [db.rs].
    - [Events]: the event table, its retention and its floor.
    - [Operations]: the operations table, [finish_operation], [submit_atomically].
    - [Capsules]: snapshots, capsules, object references and capsule operations in [db.rs].
    - [Codec]: hex, base64, canonical manifests, capsule ids, template hashes.
    - [Restore]: the decisions of [restore.rs], [admission.rs] and [grants.rs].
    - [Objects], [Collection]: the object store and its collector; the collector call by
      call beside the tasks that register, delete and upload.
    - [Runtime]: the runtime trait as a record, the agent's world and its monad.
    - [Ops]: [ops.rs] in that monad, every verb.
    - [Executor]: what submission, execution and recovery guarantee.
    - [CapsuleTransfer]: [capsule_ops.rs], export to and import from the object store.
    - [Reconcile], [Reconciler]: [reconcile.rs], every step of a tick; its guarantees.
    - [Fleet], [FleetSafety]: [fleet.rs], [fleet_phase.rs] and [desired.rs], a pass over a
      fleet's sessions; its guarantees, those of the whole tick included.
    - [Service], [Pages], [Requests]: [service.rs], every handler; the paged listings;
      what the handlers answer and what they leave in the journal.
    - [Watch]: [replay_journal] and [watch_events] of [service.rs], step by step beside the
      tasks that journal, broadcast and prune events.
    - [HypemanClient], [Logs]: [client.rs], the requests and answers; its log stream.
    - [Hypeman], [HypemanSafety], [HypemanPlans], [Names]: [runtime.rs], [ingress.rs],
      [token_volume.rs], [agent_volume.rs], [channel.rs]; what a call has done to the
      substrate, read off the log of exchanges; its choice of ports and of duplicates; its
      names and paths.
    - [Guest], [GuestSafety], [GuestExec]: the guest agent and its guarantees; an exec as a
      step relation of its tasks and its process.
    - [Passthrough]: [passthrough.rs], [guest.rs], by themselves and with the guest agent at
      the other end of a connection that may break.
    - [Docker]: [runtime/fake.rs], the runtime trait over a Docker daemon.
    - [Delivery]: both runtimes composed with the start of the guest agent.
    - [Channel]: [identity.rs], and the two ends of the guest channel in [channel.rs] and the
      guest agent's [serve.rs], over certificates and a handshake given as a class with laws.
    - [Bridge]: the guest agent's [bridge.rs] as a step relation of its two loops, with the
      Docker exec that runs it.
    - [Net]: addresses as the standard library reads them; [config.rs], [check_listen_addr].
    - [Preflight]: [preflight.rs], the prerequisites, the substrate's answers, the initrd.
    - [Startup]: [main.rs], [lib.rs] and [node_info.rs], from the arguments to the
      bootstrapped agent.
    - [Wake], [Cli]: [wake.rs], [follow.rs] and [exec.rs] of the command line, the last
      composed with [Passthrough].
    - [Commands]: [main.rs], [render.rs], [node.rs], [instances.rs] and [doctor.rs] of the
      command line: the requests of its verbs, its texts, its exit codes.
    - [Bucket]: [barista-fleet/src/store.rs], the joining of a fleet, the writing of desired
      records, and the fleet verbs of the command line.
    - [Verbs]: the capsule verbs, the listings and the streams of the command line.

    A SQLite database is a record of [gmap]s and lists; a method is a function on it, a
    transaction that rolls back returns the database it started from. Enumeration columns
    hold the enumeration and message columns the message. Each clock reading is an
    argument of the function that makes it. The agent's verbs run in a state monad over
    the journal, the object store and the substrate, with three schedules: the clock at
    its n-th reading, the failure, if any, of the n-th journal call, and the n-th
    generated name. Code outside the sources is a parameter: SHA-256, the bucket, the
    JSON codec, the substrate and its guests, the certificate library; for the hypeman runtime
    the substrate's server, for the guest agent the operating system ([Guest.Machine]), for
    an exec the process. Where the agent's verbs call the runtime, it is the record of
    [Runtime], not the hypeman implementation.

    * What is shown

    - Leases: each step of each node, under any interleaving and arbitrary clocks,
      implements an abstract lock; one epoch has one owner; at most one node is unfenced,
      and a superseded one never writes; every branch of each verb; bounded retries.
    - Operations: one executor per instance; idempotency keys unique and, but for what is
      refused before the key is looked up, answered with the original; legal histories;
      submission and finishing all or nothing; a canceled operation keeps its claim until
      its executor finishes; deadlines taken once.
    - Executors: whatever the substrate answers and whichever journal calls fail, outcome
      and instance state are recorded together or both left for recovery; moves follow the
      state machine, successful forks excepted; recovery settles everything and spares
      live sandboxes; a capsule restore gets the manifest's verified objects.
    - Events, while the clock does not step back: the floor is honest, and a watch sends
      what it owes in order and once, but for what retention deletes in the middle of a
      replay.
    - Capsules and objects: exact reference counts, collections that spare what stays in
      use while they run, content addressing, identities that determine the content, round
      trips.
    - Capsule transfer: what is imported was verified first, and an exported capsule
      imports as the same capsule.
    - Reconciler: triggers fire only when due and once; sweeps spare what is live; a
      vanished sandbox fails its instance at the third absence; deadlines do not
      overflow; a tick spawns at most one executor per instance.
    - Fleet: a pass advances a session only under a held lease that names the instance
      (alarms and requests ask for no lease); held leases are this node's and journaled;
      while the journal can be read a fenced lease is kept until its workload is at rest, and one nobody wants until its instance is gone; a partition destroys
      nothing, and is reported once.
    - Requests: every operation a request is answered with is the journal's, under the
      request's key and of the verb, instance and payload it asks for; listings return each
      row once, in order, within the page's bounds, for ids of the contract's form;
      alarms are stored exactly and never in the past; a cancellation says what it did;
      a capsule request with a key runs once.
    - Decisions: restores exact or declared, admission exact, grant epochs never shared.
    - State machine: reachability, terminal and transitional states from the table.
    - Hypeman runtime, whatever the substrate answers: a start that fails has asked for
      the deletion of what it made, and one that succeeds has seen its sandbox running; a destroy that
      succeeds had each deletion confirmed; of several sandboxes the most alive is kept; a
      planned port is in range, unclaimed and unreserved; polling ends; names are the
      substrate's, and different for different nodes and instances; the log stream does
      not depend on how the bytes were cut, for frames below the limit.
    - Guest: the channel answers only who presents the instance's token, and the network is
      listened on only with a TLS identity; the restore duties report what they did; tails keep the last bytes and count the others; no process gets the
      agent's own variables; an exec's output and exit code are the process's.
    - Through the node, with the guest agent: an upload that is acknowledged is the file in the guest, one that is
      cut is refused; a download that ends is the slice asked for; an exec's frames arrive in
      order, unchanged; a file copied in and out is the same file.
    - Start: the base address passes its check exactly when it is loopback, as IPv4 or
      bracketed IPv6; a node starts on hypeman only there, and not on a substrate that
      lists its instances to an unauthenticated caller unless the operator accepts that; the
      initrd's members are read back and those of another architecture reported, and only
      a member without a name can stop the inspection; after a start no operation is in
      flight, whatever was interrupted.
    - Delivery: the token, process, hooks and identity a runtime puts into a sandbox are
      what the guest agent reads there, on both runtimes.
    - Docker: the lines of a log do not depend on the daemon's frames.
    - Channel: of all certificates a node ever issues an instance's anchor takes two, each in
      its own role; a channel opens exactly between the two ends of one minting while both
      clocks are within its validity; the listener outlives every failure to accept, and
      serves only finished handshakes; a log line of an identity shows no key.
    - Bridge: each side gets a beginning of what the other wrote, in order, nothing read is
      held back, and what the agent wrote can always still leave.
    - Bucket: plain HTTP only where the URL spells it out; user information removed from
      every authority that is set apart; an applied session with a plain name is the one the
      nodes find.
    - Command line: an exported manifest is the one an import asks for; a verb exits with the code of its operation, a refusal like the failure
      with the same reason; [doctor] succeeds only when everything it needs was found; dates count days; time stamps and durations are read exactly; a wait
      that ends reports the journal's operation.

    Some lemmas record behaviour that differs from what comments in the sources say:
    [Operations.finish_keeps_credentials_and_epoch],
    [Executor.canceled_fork_is_stranded], [Events.floor_dishonest_after_clock_step],
    [Watch.retention_can_open_a_gap], [Collection.collection_can_take_a_live_object],
    [Executor.named_snapshot_is_not_replayed],
    [Capsules.unknown_hook_reads_as_not_run], [FleetSafety.unread_journal_drops_the_fence],
    [FleetSafety.reacquired_stays_marked], [Requests.restore_skips_admission],
    [Pages.odd_id_ends_the_listing], [Names.names_collide], [Names.dots_are_not_escaped],
    [Logs.full_frame_refused_when_cut], [GuestExec.break_can_race_the_exit],
    [GuestExec.output_can_follow_the_exit], [Passthrough.relay_can_lose_the_break],
    [Wake.offsets_can_panic], [Wake.negative_hours_are_read],
    [Preflight.empty_name_panics], [Docker.long_grace_is_negative],
    [Bucket.slashed_name_is_not_desired], [Bucket.credentials_can_remain],
    [Bucket.empty_bucket_is_understood], [Bucket.empty_host_is_understood],
    [Verbs.storage_keeps_its_prefix].

    * Bounds and fuel

    Integers are [Z] with the wrap-around of their width written out at casts and where
    arithmetic may overflow. Recursion is structural except for these loops, which take
    fuel; their theorems give an amount that is enough and show that the loop returns:
    - the retention sweep and a client's walk over the pages of a listing: one page per row, and one more, for the last;
    - the retries of an acquisition: as many as the source makes;
    - polling for a sandbox (901 rounds) and dialling a guest (81): the time allowed over
      the pause between two rounds, plus one, when the clock advances by the pause;
    - choosing a port: one round per port of the range, plus one;
    - removing user information from a URL: one round per byte, plus one;
    - walking an archive, whose members are each longer than a byte, cutting frames from a log, reading a file, cutting one into chunks and trimming a
      text: one round per byte, plus one.

    * What is not modelled

    The guest's pty device, its signals and unix sockets, and the bridge's diagnostics and
    terminal mode; argument parsing, JSON output and the local terminal of the command line;
    the doubles only the tests use; of a start, the server, its sockets and signals and the
    TLS provider; the checkpoint of the write-ahead log. Certificates, handshakes, JSON text, HTTP, TLS, base64, protobuf encoding and tar with gzip are
    libraries, and parameters. In what is modelled: log lines; the cancellation of a
    request whose client has gone (a handler runs to its end here); a log stream, which
    is the list of the items read from it; errors of SQLite and
    the local file system except as the schedule above, where a failing journal call does
    nothing, the collection at the start excepted, which is not scheduled; the interval timer of the reconciler, and the concurrency of its probes,
    which run in sequence here; the call an executor makes to
    [fleet_phase::stamp_lease_state] after a move, which touches only the bucket and the
    agent's in-memory leases (the function itself is in [Fleet]);
    the delays configured for tests; other tasks running between the steps of one executor
    or one handler, but for a watch and a collection ([Watch], [Collection]); the failing of
    operations at a restart is one journal call; the order SQL leaves open among equal keys; the escapes of the
    [{:?}] format; white space beyond ASCII in [split_whitespace]; the host time the guest
    is given with its restore duties, on the node's side. In the guest: another process
    that changes a file during a transfer; a command without a timeout is waited for as
    long as it runs. A client that leaves a stream has read a prefix of it. Trimming knows
    the white space of ASCII. *)

From stdpp Require Export base tactics numbers list list_numbers gmap strings pretty sorting relations.
From Stdlib Require Export ZArith Lia.

#[global] Open Scope Z_scope.

(** * Results

    Rust's [Result<T, E>] and the [?] operator. *)

Inductive res (E A : Type) : Type :=
| Ok (a : A)
| Err (e : E).
Arguments Ok {E A} a.
Arguments Err {E A} e.

Definition res_bind {E A B} (m : res E A) (k : A -> res E B) : res E B :=
  match m with Ok a => k a | Err e => Err e end.

Definition res_map_err {E F A} (f : E -> F) (m : res E A) : res F A :=
  match m with Ok a => Ok a | Err e => Err (f e) end.

(** [.ok()] *)
Definition res_ok {E A} (m : res E A) : option A :=
  match m with Ok a => Some a | Err _ => None end.

Declare Scope res_scope.
Delimit Scope res_scope with res.
Notation "'let?' x := m 'in' k" := (res_bind m (fun x => k))
  (at level 10, x pattern, m at level 100, k at level 200) : res_scope.
#[global] Open Scope res_scope.

(** * Record update

    [r <| f := v |>] is the functional update [R { f: v, ..r }] of the source. A
    record type [R] is made updatable by an instance of [Rebuild R], the identity
    written with the record's own constructor and projections. *)

Class Rebuild (R : Type) := rebuild : R -> R.
Class Setter {R E : Type} (proj : R -> E) := set_field : (E -> E) -> R -> R.
Arguments set_field {R E} proj {_}.

Ltac solve_setter :=
  lazymatch goal with
  | |- @Setter ?R ?E ?proj =>
      let inst := constr:(_ : Rebuild R) in
      let body := eval hnf in inst in
      let abst := eval pattern proj in body in
      lazymatch abst with
      | ?f _ =>
          let u := eval cbv beta in (fun (upd : E -> E) => f (fun r => upd (proj r))) in
          exact u
      end
  end.
#[global] Hint Extern 1 (Setter _) => solve_setter : typeclass_instances.

Notation "r <| f := v |>" := (set_field f (fun _ => v) r)
  (at level 1, v at level 99, left associativity, format "r <| f  :=  v |>").

(** * Machine integers

    Rust integers are [Z]; where the source casts or may overflow, the wrap-around
    of the width is written out. Arithmetic on [u64]/[i64] wraps, as in a build
    without overflow checks (the workspace defines no profile that enables them). *)

Definition u64_max : Z := 2 ^ 64 - 1.
Definition i64_max : Z := 2 ^ 63 - 1.
Definition i64_min : Z := - 2 ^ 63.

Definition wrap_u64 (z : Z) : Z := z mod 2 ^ 64.
Definition wrap_u32 (z : Z) : Z := z mod 2 ^ 32.
Definition wrap_u8 (z : Z) : Z := z mod 2 ^ 8.
Definition wrap_i64 (z : Z) : Z := (z + 2 ^ 63) mod 2 ^ 64 - 2 ^ 63.

(** [x as i64] of an unsigned value and [x as u64] of a signed one. *)
Definition as_i64 (z : Z) : Z := wrap_i64 z.
Definition as_u64 (z : Z) : Z := wrap_u64 z.

Definition sat_i64 (z : Z) : Z := Z.max i64_min (Z.min i64_max z).

Definition is_u64 (z : Z) : Prop := 0 <= z <= u64_max.
Definition is_i64 (z : Z) : Prop := i64_min <= z <= i64_max.
Definition is_byte (z : Z) : Prop := 0 <= z < 256.

Lemma wrap_u64_small z : is_u64 z -> wrap_u64 z = z.
Proof. unfold is_u64, u64_max, wrap_u64. intros. apply Z.mod_small. lia. Qed.

Lemma wrap_u64_range z : is_u64 (wrap_u64 z).
Proof. unfold is_u64, u64_max, wrap_u64. pose proof (Z.mod_pos_bound z (2 ^ 64)). lia. Qed.

Lemma wrap_i64_small z : is_i64 z -> wrap_i64 z = z.
Proof. unfold is_i64, i64_max, i64_min, wrap_i64. intros. rewrite Z.mod_small; lia. Qed.

Lemma wrap_i64_range z : is_i64 (wrap_i64 z).
Proof.
  unfold is_i64, i64_max, i64_min, wrap_i64.
  pose proof (Z.mod_pos_bound (z + 2 ^ 63) (2 ^ 64)). lia.
Qed.

(** An unsigned 64-bit value survives the trip through SQLite's signed column. *)
Lemma as_u64_as_i64 z : is_u64 z -> as_u64 (as_i64 z) = z.
Proof.
  unfold is_u64, u64_max, as_u64, as_i64, wrap_u64, wrap_i64. intros H.
  destruct (decide (z < 2 ^ 63)).
  - rewrite (Z.mod_small (z + 2 ^ 63)) by lia.
    replace (z + 2 ^ 63 - 2 ^ 63) with z by lia. apply Z.mod_small; lia.
  - replace (z + 2 ^ 63) with ((z - 2 ^ 63) + 1 * 2 ^ 64) by lia.
    rewrite Z.mod_add, (Z.mod_small (z - 2 ^ 63)) by lia.
    replace (z - 2 ^ 63 - 2 ^ 63) with (z + (-1) * 2 ^ 64) by lia.
    rewrite Z.mod_add by lia. apply Z.mod_small; lia.
Qed.

Lemma as_i64_small z : 0 <= z <= i64_max -> as_i64 z = z.
Proof. intros. apply wrap_i64_small. unfold is_i64, i64_max, i64_min in *. lia. Qed.

Lemma as_u64_small z : 0 <= z <= i64_max -> as_u64 z = z.
Proof. intros. apply wrap_u64_small. unfold is_u64, i64_max, u64_max in *. lia. Qed.

(** * Durations

    [std::time::Duration], in nanoseconds. *)

Definition duration := Z.
Definition from_secs (s : Z) : duration := s * 1000000000.
Definition as_millis (d : duration) : Z := d / 1000000.

(** * Formatting *)

Definition empty_str : string := EmptyString.
Definition is_empty (s : string) : bool := bool_decide (s = empty_str).

Definition dquote : string := String (Ascii.ascii_of_nat 34) EmptyString.

(** [{:?}] of a string without characters that need escaping. *)
Definition quoted (s : string) : string := dquote +:+ s +:+ dquote.

(** [{b}] of a boolean. *)
Definition fmt_bool (b : bool) : string := if b then "true" else "false".

Fixpoint join (sep : string) (l : list string) : string :=
  match l with
  | [] => empty_str
  | [x] => x
  | x :: l' => x +:+ sep +:+ join sep l'
  end.

Lemma is_empty_true s : is_empty s = true <-> s = empty_str.
Proof. unfold is_empty. apply bool_decide_eq_true. Qed.

Lemma is_empty_false s : is_empty s = false <-> s <> empty_str.
Proof. unfold is_empty. apply bool_decide_eq_false. Qed.

(** * Options *)

Definition is_some {A} (o : option A) : bool := match o with Some _ => true | None => false end.
Definition option_filter {A} (p : A -> bool) (o : option A) : option A :=
  match o with Some a => if p a then Some a else None | None => None end.

(** * Lists *)

Section Filter.
Context {A : Type} (P : A -> Prop) `{!forall x, Decision (P x)}.

Lemma filter_all (l : list A) : Forall P l -> filter P l = l.
Proof. induction 1; [done|]. rewrite filter_cons_True by done. by f_equal. Qed.

Lemma filter_none (l : list A) : Forall (fun x => ~ P x) l -> filter P l = [].
Proof. induction 1; [done|]. by rewrite filter_cons_False. Qed.

Lemma filter_ext_in (Q : A -> Prop) `{!forall x, Decision (Q x)} (l : list A) :
  (forall x, x ∈ l -> P x <-> Q x) -> filter P l = filter Q l.
Proof.
  intros Hl. induction l as [|x l IH]; [done|]. rewrite !filter_cons.
  rewrite IH by (intros; apply Hl; by right).
  assert (P x <-> Q x) by (apply Hl; by left). do 2 case_decide; tauto.
Qed.
End Filter.

(** * Automation *)

Create HintDb barista.

(** Case-split every match or conditional the goal or a hypothesis is stuck on. *)
Ltac split_match :=
  match goal with
  | |- context [match ?x with _ => _ end] =>
      lazymatch x with context [match _ with _ => _ end] => fail | _ => destruct x eqn:? end
  | H : context [match ?x with _ => _ end] |- _ =>
      lazymatch x with context [match _ with _ => _ end] => fail | _ => destruct x eqn:? end
  end.

(** Turn the boolean equations the model's guards produce into propositions. *)
Ltac to_prop :=
  repeat match goal with
  | H : bool_decide _ = true |- _ => apply bool_decide_eq_true in H
  | H : bool_decide _ = false |- _ => apply bool_decide_eq_false in H
  | H : (_ && _)%bool = true |- _ => apply andb_true_iff in H as [? ?]
  | H : (_ || _)%bool = false |- _ => apply orb_false_iff in H as [? ?]
  | H : negb _ = true |- _ => apply negb_true_iff in H
  | H : negb _ = false |- _ => apply negb_false_iff in H
  | H : is_empty _ = true |- _ => apply is_empty_true in H
  | H : is_empty _ = false |- _ => apply is_empty_false in H
  | H : (_ <=? _) = true |- _ => apply Z.leb_le in H
  | H : (_ <=? _) = false |- _ => apply Z.leb_gt in H
  | H : (_ <? _) = true |- _ => apply Z.ltb_lt in H
  | H : (_ <? _) = false |- _ => apply Z.ltb_ge in H
  | H : (_ =? _) = true |- _ => apply Z.eqb_eq in H
  | H : (_ =? _) = false |- _ => apply Z.eqb_neq in H
  end.

(** The workhorse: split, simplify, and close what congruence and lia close. *)
Ltac crush := repeat (split_match; simplify_eq/=); to_prop; try done; try lia.
