(* ===== verification/Text.v ===== *)
(** Text and calls: what the sources use of [str], and the state-passing calls of the code
    that talks to a server, a guest or an operating system. *)

From S2P Require Import Prelude.
From Stdlib Require Import Ascii.

(** * Text *)

Definition ascii_space (c : ascii) : bool :=
  let n := Ascii.nat_of_ascii c in ((n =? 32) || (9 <=? n) && (n <=? 13))%nat.
Fixpoint trim_start_by (p : ascii -> bool) (s : string) : string :=
  match s with String c s' => if p c then trim_start_by p s' else s | EmptyString => s end.
Fixpoint trim_end_by (p : ascii -> bool) (s : string) : string :=
  match s with
  | EmptyString => EmptyString
  | String c s' => let t := trim_end_by p s' in if p c && is_empty t then EmptyString else String c t
  end.
Definition trim_by (p : ascii -> bool) (s : string) : string := trim_end_by p (trim_start_by p s).

(** [str::parse::<u16>] *)
Definition digit (c : ascii) : option Z :=
  let n := Ascii.nat_of_ascii c in
  if ((48 <=? n) && (n <=? 57))%nat then Some (Z.of_nat n - 48) else None.
Fixpoint digits (acc : Z) (s : string) : option Z :=
  match s with
  | EmptyString => Some acc
  | String c s' => d ← digit c; digits (acc * 10 + d) s'
  end.
Definition parse_u16 (s : string) : option Z :=
  let s := match s with String c s' => if bool_decide (c = "+"%char) then s' else s | _ => s end in
  if is_empty s then None
  else v ← digits 0 s; if v <=? 65535 then Some v else None.

Lemma digits_nonneg s acc z : 0 <= acc -> digits acc s = Some z -> 0 <= z.
Proof.
  revert acc. induction s as [|c s IH]; intros acc Ha; [by intros [= <-]|].
  cbn [digits]. unfold digit. destruct (_ && _)%nat eqn:E; [|done]. apply IH.
  apply andb_true_iff in E as [E%Nat.leb_le _]. lia.
Qed.
Lemma parse_u16_bounds s z : parse_u16 s = Some z -> 0 <= z <= 65535.
Proof.
  unfold parse_u16. cbv zeta. destruct (is_empty _); [done|].
  destruct (digits 0 _) as [v|] eqn:E; [|done]. cbn [mbind option_bind].
  destruct (v <=? 65535) eqn:Ev; intros [= <-]. apply digits_nonneg in E; lia.
Qed.

Fixpoint contains_char (c : ascii) (s : string) : bool :=
  match s with EmptyString => false | String d s' => bool_decide (c = d) || contains_char c s' end.
Fixpoint any_char (p : ascii -> bool) (s : string) : bool :=
  match s with EmptyString => false | String d s' => p d || any_char p s' end.
Lemma append_assoc (a b c : string) : (a +:+ b) +:+ c = a +:+ b +:+ c.
Proof. induction a as [|x a IH]; [done|]. exact (f_equal (String x) IH). Qed.
Lemma append_empty_r (a : string) : a +:+ empty_str = a.
Proof. induction a as [|x a IH]; [done|]. exact (f_equal (String x) IH). Qed.
(** [split_once] *)
Fixpoint split_once (c : ascii) (s : string) : option (string * string) :=
  match s with
  | EmptyString => None
  | String d s' => if bool_decide (c = d) then Some (EmptyString, s')
                   else '(a, b) ← split_once c s'; Some (String d a, b)
  end.

(** * Concatenation *)

Lemma append_cons c a b : String c a +:+ b = String c (a +:+ b).
Proof. reflexivity. Qed.
Lemma length_append a b : String.length (a +:+ b) = (String.length a + String.length b)%nat.
Proof. induction a as [|c a IH]; [done|]. rewrite append_cons. cbn [String.length]. by rewrite IH. Qed.

(** * Calls *)

(** A call that may change the state of what it talks to. *)
Definition Call (W A : Type) : Type := W -> W * A.
Definition pass_back {W A} (a : A) : Call W A := fun w => (w, a).
Definition then_ {W A B} (m : Call W A) (k : A -> Call W B) : Call W B :=
  fun w => let '(w', a) := m w in k a w'.
(** [m?] with its error turned by [f]. *)
Definition try_ {W E F A B} (m : Call W (res E A)) (f : E -> F) (k : A -> Call W (res F B)) : Call W (res F B) :=
  then_ m (fun r => match r with Ok a => k a | Err e => pass_back (Err (f e)) end).
Notation "'let@' x := m 'in' k" := (then_ m (fun x => k))
  (at level 10, x pattern, m at level 100, k at level 200).
Notation "'let@?' x := m 'or' f 'in' k" := (try_ m f (fun x => k))
  (at level 10, x pattern, m at level 100, f at level 100, k at level 200).
