(* ===== verification/Proto.v ===== *)
(** The messages and enumerations of the node contract that the modelled code
    branches on: src/crates/barista-proto/src/generated/barista.node.v1alpha1.rs.
    Enumerations keep the contract's constructors and i32 discriminants; messages
    are records with the contract's fields. *)

From S2P Require Import Prelude.

(** * Enumerations *)

Module InstanceState.
Inductive t : Type :=
| Unspecified | Creating | Created | Starting | Running | Checkpointing | Pausing
| Paused | Resuming | Stopping | Stopped | Destroying | Destroyed | Failed.

#[global] Instance eq_dec : EqDecision t.
Proof. solve_decision. Defined.

(** [state as i32] *)
Definition to_i32 (s : t) : Z :=
  match s with
  | Unspecified => 0 | Creating => 1 | Created => 2 | Starting => 3 | Running => 4
  | Checkpointing => 5 | Pausing => 6 | Paused => 7 | Resuming => 8 | Stopping => 9
  | Stopped => 10 | Destroying => 11 | Destroyed => 12 | Failed => 13
  end.

(** [InstanceState::try_from(i32)] *)
Definition try_from (z : Z) : option t :=
  match z with
  | 0 => Some Unspecified | 1 => Some Creating | 2 => Some Created | 3 => Some Starting
  | 4 => Some Running | 5 => Some Checkpointing | 6 => Some Pausing | 7 => Some Paused
  | 8 => Some Resuming | 9 => Some Stopping | 10 => Some Stopped | 11 => Some Destroying
  | 12 => Some Destroyed | 13 => Some Failed | _ => None
  end.

Definition as_str_name (s : t) : string :=
  match s with
  | Unspecified => "INSTANCE_STATE_UNSPECIFIED"
  | Creating => "INSTANCE_STATE_CREATING"
  | Created => "INSTANCE_STATE_CREATED"
  | Starting => "INSTANCE_STATE_STARTING"
  | Running => "INSTANCE_STATE_RUNNING"
  | Checkpointing => "INSTANCE_STATE_CHECKPOINTING"
  | Pausing => "INSTANCE_STATE_PAUSING"
  | Paused => "INSTANCE_STATE_PAUSED"
  | Resuming => "INSTANCE_STATE_RESUMING"
  | Stopping => "INSTANCE_STATE_STOPPING"
  | Stopped => "INSTANCE_STATE_STOPPED"
  | Destroying => "INSTANCE_STATE_DESTROYING"
  | Destroyed => "INSTANCE_STATE_DESTROYED"
  | Failed => "INSTANCE_STATE_FAILED"
  end.

(** The derived [Debug] form. *)
Definition debug (s : t) : string :=
  match s with
  | Unspecified => "Unspecified" | Creating => "Creating" | Created => "Created"
  | Starting => "Starting" | Running => "Running" | Checkpointing => "Checkpointing"
  | Pausing => "Pausing" | Paused => "Paused" | Resuming => "Resuming"
  | Stopping => "Stopping" | Stopped => "Stopped" | Destroying => "Destroying"
  | Destroyed => "Destroyed" | Failed => "Failed"
  end.
End InstanceState.

Module OperationState.
Inductive t : Type :=
| Unspecified | Queued | Running | Done | Failed | AwaitingInput | Canceled.

#[global] Instance eq_dec : EqDecision t.
Proof. solve_decision. Defined.

Definition to_i32 (s : t) : Z :=
  match s with
  | Unspecified => 0 | Queued => 1 | Running => 2 | Done => 3 | Failed => 4
  | AwaitingInput => 5 | Canceled => 6
  end.

Definition as_str_name (s : t) : string :=
  match s with
  | Unspecified => "OPERATION_STATE_UNSPECIFIED"
  | Queued => "OPERATION_STATE_QUEUED"
  | Running => "OPERATION_STATE_RUNNING"
  | Done => "OPERATION_STATE_DONE"
  | Failed => "OPERATION_STATE_FAILED"
  | AwaitingInput => "OPERATION_STATE_AWAITING_INPUT"
  | Canceled => "OPERATION_STATE_CANCELED"
  end.
End OperationState.

Module ErrorReason.
Inductive t : Type :=
| Unspecified | InvalidSpec | TemplateNotFound | BundleMismatch | CpuClassMismatch
| CapabilityMissing | ConcurrentOperation | GuestUnreachable | HookTimeout
| ResourcesExhausted | SnapshotInvalidated | SubstrateUnavailable | CursorTooOld
| SnapshotNameConflict | ForkModeUnavailable | CapsuleVerificationFailed
| CapsuleIncompatible | CapsuleNotFound | ObjectStoreUnavailable | EpochRevoked.

#[global] Instance eq_dec : EqDecision t.
Proof. solve_decision. Defined.

(** The [{:?}] form. *)
Definition debug (e : t) : string :=
  match e with
  | Unspecified => "Unspecified" | InvalidSpec => "InvalidSpec" | TemplateNotFound => "TemplateNotFound"
  | BundleMismatch => "BundleMismatch" | CpuClassMismatch => "CpuClassMismatch"
  | CapabilityMissing => "CapabilityMissing" | ConcurrentOperation => "ConcurrentOperation"
  | GuestUnreachable => "GuestUnreachable" | HookTimeout => "HookTimeout"
  | ResourcesExhausted => "ResourcesExhausted" | SnapshotInvalidated => "SnapshotInvalidated"
  | SubstrateUnavailable => "SubstrateUnavailable" | CursorTooOld => "CursorTooOld"
  | SnapshotNameConflict => "SnapshotNameConflict" | ForkModeUnavailable => "ForkModeUnavailable"
  | CapsuleVerificationFailed => "CapsuleVerificationFailed" | CapsuleIncompatible => "CapsuleIncompatible"
  | CapsuleNotFound => "CapsuleNotFound" | ObjectStoreUnavailable => "ObjectStoreUnavailable"
  | EpochRevoked => "EpochRevoked"
  end.

Definition as_str_name (e : t) : string :=
  match e with
  | Unspecified => "ERROR_REASON_UNSPECIFIED"
  | InvalidSpec => "ERROR_REASON_INVALID_SPEC"
  | TemplateNotFound => "ERROR_REASON_TEMPLATE_NOT_FOUND"
  | BundleMismatch => "ERROR_REASON_BUNDLE_MISMATCH"
  | CpuClassMismatch => "ERROR_REASON_CPU_CLASS_MISMATCH"
  | CapabilityMissing => "ERROR_REASON_CAPABILITY_MISSING"
  | ConcurrentOperation => "ERROR_REASON_CONCURRENT_OPERATION"
  | GuestUnreachable => "ERROR_REASON_GUEST_UNREACHABLE"
  | HookTimeout => "ERROR_REASON_HOOK_TIMEOUT"
  | ResourcesExhausted => "ERROR_REASON_RESOURCES_EXHAUSTED"
  | SnapshotInvalidated => "ERROR_REASON_SNAPSHOT_INVALIDATED"
  | SubstrateUnavailable => "ERROR_REASON_SUBSTRATE_UNAVAILABLE"
  | CursorTooOld => "ERROR_REASON_CURSOR_TOO_OLD"
  | SnapshotNameConflict => "ERROR_REASON_SNAPSHOT_NAME_CONFLICT"
  | ForkModeUnavailable => "ERROR_REASON_FORK_MODE_UNAVAILABLE"
  | CapsuleVerificationFailed => "ERROR_REASON_CAPSULE_VERIFICATION_FAILED"
  | CapsuleIncompatible => "ERROR_REASON_CAPSULE_INCOMPATIBLE"
  | CapsuleNotFound => "ERROR_REASON_CAPSULE_NOT_FOUND"
  | ObjectStoreUnavailable => "ERROR_REASON_OBJECT_STORE_UNAVAILABLE"
  | EpochRevoked => "ERROR_REASON_EPOCH_REVOKED"
  end.
End ErrorReason.

Module SnapshotKind.
Inductive t : Type := Unspecified | MemoryAndDisk | DiskOnly.

#[global] Instance eq_dec : EqDecision t.
Proof. solve_decision. Defined.

Definition try_from (z : Z) : option t :=
  match z with 0 => Some Unspecified | 1 => Some MemoryAndDisk | 2 => Some DiskOnly | _ => None end.

Definition to_i32 (k : t) : Z :=
  match k with Unspecified => 0 | MemoryAndDisk => 1 | DiskOnly => 2 end.

Definition as_str_name (k : t) : string :=
  match k with
  | Unspecified => "SNAPSHOT_KIND_UNSPECIFIED"
  | MemoryAndDisk => "SNAPSHOT_KIND_MEMORY_AND_DISK"
  | DiskOnly => "SNAPSHOT_KIND_DISK_ONLY"
  end.
End SnapshotKind.

Module SnapshotTier.
Inductive t : Type := Unspecified | Local | ObjectStore.

#[global] Instance eq_dec : EqDecision t.
Proof. solve_decision. Defined.

Definition to_i32 (s : t) : Z :=
  match s with Unspecified => 0 | Local => 1 | ObjectStore => 2 end.
End SnapshotTier.

Module TtlAction.
Inductive t : Type := Unspecified | Pause | Stop | Destroy.

#[global] Instance eq_dec : EqDecision t.
Proof. solve_decision. Defined.

Definition try_from (z : Z) : option t :=
  match z with
  | 0 => Some Unspecified | 1 => Some Pause | 2 => Some Stop | 3 => Some Destroy | _ => None
  end.

(** The [{:?}] form. *)
Definition debug (a : t) : string :=
  match a with Unspecified => "Unspecified" | Pause => "Pause" | Stop => "Stop" | Destroy => "Destroy" end.
End TtlAction.

Module ForkMode.
Inductive t : Type := Unspecified | Cow | FullCopy.

#[global] Instance eq_dec : EqDecision t.
Proof. solve_decision. Defined.

Definition to_i32 (m : t) : Z :=
  match m with Unspecified => 0 | Cow => 1 | FullCopy => 2 end.

Definition as_str_name (m : t) : string :=
  match m with
  | Unspecified => "FORK_MODE_UNSPECIFIED"
  | Cow => "FORK_MODE_COW"
  | FullCopy => "FORK_MODE_FULL_COPY"
  end.
End ForkMode.

Module CapsuleObjectType.
Inductive t : Type := Unspecified | Memory | Disk | Metadata.

#[global] Instance eq_dec : EqDecision t.
Proof. solve_decision. Defined.

Definition try_from (z : Z) : option t :=
  match z with
  | 0 => Some Unspecified | 1 => Some Memory | 2 => Some Disk | 3 => Some Metadata | _ => None
  end.

Definition to_i32 (k : t) : Z :=
  match k with Unspecified => 0 | Memory => 1 | Disk => 2 | Metadata => 3 end.

Definition as_str_name (k : t) : string :=
  match k with
  | Unspecified => "CAPSULE_OBJECT_TYPE_UNSPECIFIED"
  | Memory => "CAPSULE_OBJECT_TYPE_MEMORY"
  | Disk => "CAPSULE_OBJECT_TYPE_DISK"
  | Metadata => "CAPSULE_OBJECT_TYPE_METADATA"
  end.
End CapsuleObjectType.

Module CapsuleStorage.
Inductive t : Type := Unspecified | LocalDir | ObjectStore.

#[global] Instance eq_dec : EqDecision t.
Proof. solve_decision. Defined.

Definition try_from (z : Z) : option t :=
  match z with 0 => Some Unspecified | 1 => Some LocalDir | 2 => Some ObjectStore | _ => None end.

Definition to_i32 (s : t) : Z :=
  match s with Unspecified => 0 | LocalDir => 1 | ObjectStore => 2 end.

Definition as_str_name (s : t) : string :=
  match s with
  | Unspecified => "CAPSULE_STORAGE_UNSPECIFIED"
  | LocalDir => "CAPSULE_STORAGE_LOCAL_DIR"
  | ObjectStore => "CAPSULE_STORAGE_OBJECT_STORE"
  end.
End CapsuleStorage.

Module SubstrateHealth.
Inductive t : Type := Unspecified | Healthy | Unreachable.

Definition to_i32 (h : t) : Z :=
  match h with Unspecified => 0 | Healthy => 1 | Unreachable => 2 end.
End SubstrateHealth.

Module EventType.
Inductive t : Type :=
| Unspecified | StateChanged | OperationProgress | ReadyChanged | TtlWarning | Degradation
| Restored | WakeFired | Fenced | IdleFired | LineageRecorded | EpochRotated
| CapsuleExported | CapsuleImported.

#[global] Instance eq_dec : EqDecision t.
Proof. solve_decision. Defined.
End EventType.

(** * Messages *)

Record RuntimeCapabilities := {
  memory_snapshot : bool;
  disk_snapshot : bool;
  live_checkpoint : bool;
  guest_agent : bool;
  hardware_isolation : bool;
  lazy_restore : bool;
  cow_fork : bool;
  egress_control : bool;
  full_copy_fork : bool;
  object_store_snapshots : bool;
  capsule_export : bool;
  capsule_import : bool;
  safe_grant_rebind : bool }.

Record OciImageRef := { image : string; digest : string }.

Record TemplateRef := {
  oci : option OciImageRef;
  runtime_bundle_ref : string;
  template_hash_field : string;
  arch : string }.

Record Resources := { vcpu : Z; mem_mib : Z; disk_mib : Z }.

Record Process := {
  start_cmd : list string;
  ready_cmd : list string;
  env : gmap string string;
  workdir : string }.

Record Hooks := {
  pre_snapshot_cmd : list string;
  post_restore_cmd : list string;
  pre_snapshot_timeout_ms : Z;
  post_restore_timeout_ms : Z }.

Record EgressPolicy := { mediated : bool; egress_mode : Z }.

Record InstanceSpec := mkInstanceSpec {
  instance_id : string;
  template : option TemplateRef;
  resources : option Resources;
  process : option Process;
  hooks : option Hooks;
  ttl_seconds : Z;
  ttl_action : Z;
  labels : gmap string string;
  egress : option EgressPolicy;
  idle_action : option Z }.

#[global] Instance rebuild_InstanceSpec : Rebuild InstanceSpec := fun s =>
  mkInstanceSpec (instance_id s) (template s) (resources s) (process s) (hooks s)
    (ttl_seconds s) (ttl_action s) (labels s) (egress s) (idle_action s).

Record Lineage := {
  lineage_id : string;
  source_snapshot_id : string;
  source_capsule_id : string;
  parent_instance_id : string }.

Record StopReason := {
  requested : bool;
  exit_code : option Z;
  detail : string }.

Record HookOutcome := { ran : bool; timed_out : bool; hook_exit_code : Z }.

Record ErrorDetail := { reason : ErrorReason.t; message : string }.

(** [prost_types::Timestamp] *)
Record Timestamp := { seconds : Z; nanos : Z }.

Record CapsuleObject := {
  obj_digest : string;
  obj_length : Z;
  obj_type : Z;
  media_type : string }.

Record CapsuleManifest := {
  schema_version : string;
  cm_cpu_class : string;
  cm_template_hash : string;
  cm_runtime_bundle_ref : string;
  cm_kind : Z;
  cm_objects : list CapsuleObject;
  cm_lineage_id : string;
  architecture : string;
  cm_created_at : option Timestamp;
  required_restore_capabilities : list string }.

(** * Answers *)

Record InstanceNetwork := { address : string }.

Record Instance_ := mkInstance_ {
  in_spec : option InstanceSpec;
  in_state : Z;
  in_ready : bool;
  in_runtime : string;
  in_created_at : option Timestamp;
  in_updated_at : option Timestamp;
  in_ttl_deadline : option Timestamp;
  in_latest_snapshot_id : string;
  in_wake_at : option Timestamp;
  in_stop_reason : option StopReason;
  in_network : option InstanceNetwork;
  in_lineage : option Lineage;
  in_execution_epoch : Z }.

#[global] Instance rebuild_Instance : Rebuild Instance_ := fun i =>
  mkInstance_ (in_spec i) (in_state i) (in_ready i) (in_runtime i) (in_created_at i) (in_updated_at i)
    (in_ttl_deadline i) (in_latest_snapshot_id i) (in_wake_at i) (in_stop_reason i) (in_network i) (in_lineage i)
    (in_execution_epoch i).

Record Snapshot := {
  sn_snapshot_id : string;
  sn_instance_id : string;
  sn_kind : Z;
  sn_cpu_class : string;
  sn_template_hash : string;
  sn_runtime_bundle_ref : string;
  sn_tier : Z;
  sn_size_bytes : Z;
  sn_created_at : option Timestamp;
  sn_pre_snapshot_hook : option HookOutcome;
  sn_name : string }.

Record Operation := {
  po_op_id : string;
  po_kind : string;
  po_instance_id : string;
  po_state : Z;
  po_current_step : string;
  po_error : option ErrorDetail;
  po_degraded : string;
  po_created_at : option Timestamp;
  po_finished_at : option Timestamp;
  po_froze_workload : bool;
  po_actual_fork_mode : Z;
  po_capsule_id : string }.

Record Capsule := {
  pc_capsule_id : string;
  pc_manifest : option CapsuleManifest;
  pc_storage : Z;
  pc_total_size_bytes : Z;
  pc_created_at : option Timestamp }.

Record HeldLease := { hl_session : string; hl_session_epoch : Z; hl_session_instance : string }.
Record FleetInfo := { fi_bucket : string; fi_advertise : string; fi_held : list HeldLease }.
Record RuntimeInfo := {
  ri_name : string;
  ri_capabilities : option RuntimeCapabilities;
  ri_version : string;
  ri_health : Z;
  ri_health_detail : string }.
Record NodeInfo := {
  ni_node_id : string;
  ni_arch : string;
  ni_cpu_class : string;
  ni_runtimes : list RuntimeInfo;
  ni_total_resources : option Resources;
  ni_allocatable_resources : option Resources;
  ni_agent_version : string;
  ni_fleet : option FleetInfo }.

Record ListInstancesResponse := { li_instances : list Instance_; li_next_page_token : string }.

(** * Requests *)

Record CreateInstanceRequest := {
  ci_spec : option InstanceSpec; ci_idempotency_key : string; ci_require_hardware_isolation : bool }.
Record StartInstanceRequest := { si_instance_id : string; si_idempotency_key : string }.
Record StopInstanceRequest := { st_instance_id : string; st_idempotency_key : string; st_grace_seconds : Z }.
Record DestroyInstanceRequest := { di_instance_id : string; di_idempotency_key : string; di_keep_snapshots : bool }.
Record PauseInstanceRequest := {
  pi_instance_id : string; pi_idempotency_key : string; pi_keep_memory : option bool; pi_require_memory : bool }.
Inductive ResumeTarget : Type := TargetInstanceId (id : string) | TargetSnapshotId (id : string).
Record ResumeInstanceRequest := {
  ru_idempotency_key : string; ru_require_memory : bool; ru_target : option ResumeTarget }.
Record SetWakeRequest := { sw_instance_id : string; sw_wake_at : option Timestamp }.
Record ListInstancesRequest := mkListInstancesRequest {
  lr_states : list Z; lr_label_selector : gmap string string; lr_page_size : Z; lr_page_token : string }.
#[global] Instance rebuild_ListInstancesRequest : Rebuild ListInstancesRequest := fun r =>
  mkListInstancesRequest (lr_states r) (lr_label_selector r) (lr_page_size r) (lr_page_token r).
Record DeleteSnapshotRequest := { ds_snapshot_id : string; ds_idempotency_key : string }.
Record CreateSnapshotRequest := { cs_instance_id : string; cs_idempotency_key : string; cs_name : string }.
Record ForkInstanceRequest := {
  fr_source_snapshot_id : string;
  fr_target_instance_id : string;
  fr_idempotency_key : string;
  fr_require_cow : bool;
  fr_target_spec : option InstanceSpec }.
Record ExportCapsuleRequest := { ec_snapshot_id : string; ec_idempotency_key : string; ec_tier : Z }.
Record ImportCapsuleRequest := {
  ic_manifest : option CapsuleManifest; ic_storage : Z; ic_idempotency_key : string }.
Record DeleteCapsuleRequest := { dc_capsule_id : string; dc_idempotency_key : string }.
Record CancelOperationRequest := { co_op_id : string; co_reason : string }.
Record WatchLogsRequest := { wl_instance_id : string; wl_tail : Z; wl_follow : bool }.

#[global] Instance OciImageRef_eq_dec : EqDecision OciImageRef.
Proof. solve_decision. Defined.
#[global] Instance TemplateRef_eq_dec : EqDecision TemplateRef.
Proof. solve_decision. Defined.
#[global] Instance Resources_eq_dec : EqDecision Resources.
Proof. solve_decision. Defined.
#[global] Instance Process_eq_dec : EqDecision Process.
Proof. solve_decision. Defined.
#[global] Instance Hooks_eq_dec : EqDecision Hooks.
Proof. solve_decision. Defined.
#[global] Instance EgressPolicy_eq_dec : EqDecision EgressPolicy.
Proof. solve_decision. Defined.
#[global] Instance InstanceSpec_eq_dec : EqDecision InstanceSpec.
Proof. solve_decision. Defined.
#[global] Instance Lineage_eq_dec : EqDecision Lineage.
Proof. solve_decision. Defined.
#[global] Instance StopReason_eq_dec : EqDecision StopReason.
Proof. solve_decision. Defined.

(** Journaled discriminants decode to the state that was encoded, and nothing else
    decodes to a state. *)
Lemma instance_state_try_from_to_i32 s : InstanceState.try_from (InstanceState.to_i32 s) = Some s.
Proof. by destruct s. Qed.
