(* ===== verification/StateMachine.v ===== *)
(** The instance and operation state machines:
    src/crates/barista-node-agent/src/state_machine.rs.

    The transition tables are lists, the predicates are boolean functions, and the
    reachability facts are about the reflexive-transitive closure of the relation
    the tables denote. *)

From S2P Require Import Prelude Proto.
Import InstanceState.
Module Op := OperationState.

(** * Instance states *)

Definition TRANSITIONS : list (InstanceState.t * InstanceState.t) :=
  [ (Creating, Created);
    (Created, Starting);
    (Starting, Running);
    (Running, Checkpointing);
    (Checkpointing, Running);
    (Running, Pausing);
    (Pausing, Paused);
    (Paused, Resuming);
    (Resuming, Running);
    (Running, Stopping);
    (Stopping, Stopped);
    (Stopped, Starting) ].

Definition is_transitional (s : InstanceState.t) : bool :=
  match s with
  | Creating | Starting | Checkpointing | Pausing | Resuming | Stopping | Destroying => true
  | _ => false
  end.

Definition is_terminal (s : InstanceState.t) : bool :=
  match s with
  | Destroyed | Failed => true
  | _ => false
  end.

Definition can_transition (from to : InstanceState.t) : bool :=
  if bool_decide (to = Destroying) || bool_decide (to = Destroyed)
  then negb (bool_decide (from = Destroyed))
  else if bool_decide (to = Failed) then is_transitional from
  else bool_decide ((from, to) ∈ TRANSITIONS).

(** * Operation states *)

Definition ALL_OP_STATES : list Op.t :=
  [Op.Unspecified; Op.Queued; Op.Running; Op.AwaitingInput; Op.Done; Op.Failed; Op.Canceled].

Definition OP_TRANSITIONS : list (Op.t * Op.t) :=
  [ (Op.Queued, Op.Running);
    (Op.Running, Op.AwaitingInput);
    (Op.AwaitingInput, Op.Running) ].

Definition op_is_in_flight (s : Op.t) : bool :=
  match s with
  | Op.Queued | Op.Running | Op.AwaitingInput => true
  | _ => false
  end.

Definition op_is_settled (s : Op.t) : bool :=
  match s with
  | Op.Done | Op.Failed | Op.Canceled => true
  | _ => false
  end.

Definition op_can_transition (from to : Op.t) : bool :=
  if bool_decide (from = Op.Unspecified) || bool_decide (to = Op.Unspecified) then false
  else if op_is_settled from then false
  else if op_is_settled to then true
  else bool_decide ((from, to) ∈ OP_TRANSITIONS).

(** * The relations the tables denote *)

Definition step (from to : InstanceState.t) : Prop := can_transition from to = true.
Definition op_step (from to : Op.t) : Prop := op_can_transition from to = true.

(** * Lemmas *)

Lemma step_destroyed_stuck to : ~ step Destroyed to.
Proof. by destruct to. Qed.

Lemma step_from_failed to : step Failed to -> to = Destroying \/ to = Destroyed.
Proof. destruct to; cbv; intuition congruence. Qed.

Lemma step_from_destroying to :
  step Destroying to -> to = Destroying \/ to = Destroyed \/ to = Failed.
Proof. destruct to; cbv; intuition congruence. Qed.

Lemma rtc_step_destroyed s : rtc step Destroyed s -> s = Destroyed.
Proof. inversion 1; [done|]. exfalso. by eapply step_destroyed_stuck. Qed.

Lemma step_not_unspecified from : ~ step from Unspecified.
Proof. by destruct from. Qed.

Lemma op_step_settled_stuck from to : op_is_settled from = true -> ~ op_step from to.
Proof. by destruct from, to. Qed.

Lemma rtc_op_step_settled from to :
  op_is_settled from = true -> rtc op_step from to -> to = from.
Proof. intros Hs. inversion 1; [done|]. exfalso. by eapply op_step_settled_stuck. Qed.

Lemma op_in_flight_not_settled s : op_is_in_flight s = true -> op_is_settled s = false.
Proof. by destruct s. Qed.

Lemma op_settled_not_in_flight s : op_is_settled s = true -> op_is_in_flight s = false.
Proof. by destruct s. Qed.

#[export] Hint Resolve op_in_flight_not_settled op_settled_not_in_flight : barista.

Ltac via s := apply (rtc_l _ _ s); [done|].

(** The path every ordinary life starts with, as far as RUNNING. *)
Lemma creating_reaches_running : rtc step Creating Running.
Proof. via Created. via Starting. by apply rtc_once. Qed.

Lemma running_reaches s :
  s <> Unspecified -> s <> Creating -> s <> Created -> rtc step Running s.
Proof.
  intros; destruct s; first
    [ done | reflexivity | by apply rtc_once | by via Stopping; apply rtc_once
    | by via Pausing; apply rtc_once | by via Stopping; via Stopped; apply rtc_once
    | by via Pausing; via Paused; apply rtc_once ].
Qed.

(** * Properties *)

(** The states reachable from CREATING along legal transitions are exactly the
    states of the contract other than its zero value: no state is dead, and
    UNSPECIFIED is never entered. *)
Theorem reachable_from_creating s : rtc step Creating s <-> s <> Unspecified.
Proof.
  split.
  - intros H ->. apply rtc_inv_r in H as [? | (s & _ & Hs)]; [done|].
    by eapply step_not_unspecified.
  - intros Hs. destruct (decide (s = Creating)) as [->|]; [done|].
    destruct (decide (s = Created)) as [->|]; [by apply rtc_once|].
    etrans; [apply creating_reaches_running | by apply running_reaches].
Qed.

(** [is_terminal] is exactly "not executing, and nothing but a destroy leaves
    it", over every real state; an executing state always has a failure exit and a
    success exit into a state where nothing executes (DESTROYED only for a destroy);
    and only DESTROYING may be re-entered from itself. *)
Theorem terminal_and_transitional_from_table s :
  s <> Unspecified ->
  (is_terminal s = true <->
     is_transitional s = false /\
     forall to, to <> s -> step s to -> to = Destroying \/ to = Destroyed) /\
  (is_transitional s = true <-> step s Failed) /\
  (is_transitional s = true -> exists to,
     is_transitional to = false /\ to <> Failed /\ (to = Destroyed -> s = Destroying) /\ step s to) /\
  (step s s <-> s = Destroying).
Proof.
  intros Hs. split_and!.
  - split.
    + destruct s; try done; intros _; (split; [done|]; intros to _ Hst).
      * by apply step_destroyed_stuck in Hst.
      * by apply step_from_failed.
    + intros [Ht Ha]. destruct s; try done; exfalso.
      * destruct (Ha Starting); try done.
      * destruct (Ha Pausing); try done.
      * destruct (Ha Resuming); try done.
      * destruct (Ha Starting); try done.
  - by destruct s.
  - destruct s; try done; intros _;
      first [by exists Created | by exists Running | by exists Paused | by exists Stopped
            | by exists Destroyed].
  - by destruct s.
Qed.

Lemma terminal_and_transitional_from_table_witness :
  Running <> Unspecified /\ (step Running Running <-> Running = Destroying).
Proof.
  split; [done|].
  exact (proj2 (proj2 (proj2 (terminal_and_transitional_from_table Running ltac:(done))))).
Defined.

(** Destruction is available and final. From every state but DESTROYED a
    destroy can be entered and completed; from DESTROYED no sequence of legal
    transitions leads anywhere else, and a FAILED instance can only be reclaimed
    or fail again while it is. *)
Theorem destroy_available_and_final s :
  (s <> Destroyed -> step s Destroying /\ step Destroying Destroyed) /\
  (forall s', rtc step Destroyed s' -> s' = Destroyed) /\
  (forall s', rtc step Failed s' -> s' ∈ [Failed; Destroying; Destroyed]).
Proof.
  split_and!.
  - intros. by destruct s.
  - apply rtc_step_destroyed.
  - assert (forall a b, rtc step a b -> a ∈ [Failed; Destroying; Destroyed] ->
                        b ∈ [Failed; Destroying; Destroyed]) as Hgen.
    { induction 1 as [|a b c Hab _ IH]; [done|]. intros Ha. apply IH. clear IH.
      rewrite !elem_of_cons, elem_of_nil in Ha.
      destruct Ha as [-> | [-> | [-> | []]]].
      - destruct (step_from_failed _ Hab) as [-> | ->]; set_solver.
      - destruct (step_from_destroying _ Hab) as [-> | [-> | ->]]; set_solver.
      - by apply step_destroyed_stuck in Hab. }
    intros s' H. eapply Hgen; [done|]. set_solver.
Qed.

(** An operation settles once. Every real operation state is in flight or
    settled and not both; any in-flight operation may settle as DONE, FAILED or
    CANCELED; and no sequence of legal transitions leads out of a settled state. *)
Theorem operation_settles_once s :
  s <> Op.Unspecified ->
  (op_is_in_flight s = negb (op_is_settled s)) /\
  (op_is_in_flight s = true -> forall to, op_is_settled to = true -> op_step s to) /\
  (op_is_settled s = true -> forall to, rtc op_step s to -> to = s).
Proof.
  intros Hs. split_and!.
  - by destruct s.
  - intros Hf to Ht. by destruct s, to.
  - intros Hd to. by apply rtc_op_step_settled.
Qed.

Lemma operation_settles_once_witness :
  Op.Canceled <> Op.Unspecified /\ op_is_in_flight Op.Canceled = false.
Proof.
  split; [done|].
  rewrite (proj1 (operation_settles_once Op.Canceled ltac:(done))). reflexivity.
Defined.
