(* ===== verification/Lease.v ===== *)
(** Ownership of a session name: src/crates/barista-fleet/src/lease.rs.

    The object store (the [object_store] crate) and the JSON codec (serde_json) are
    interfaces: [ObjectStore] and [LeaseCodec] hold the operations the code calls,
    [ObjectStoreLaws] and [LeaseCodecLaws] what it relies on. The lease operations
    are functions of the store state; every call that reads the clock takes the
    reading as an argument, as the source does. *)

From S2P Require Import Prelude.

(** * Errors, timing, the lease record *)

(** [object_store::Error], by the cases the code distinguishes. *)
Inductive StoreError : Type :=
| NotFound
| AlreadyExists
| Precondition
| StoreOther (msg : string).

(** [barista_fleet::Error]. *)
Inductive FleetError : Type :=
| Backend (e : StoreError)
| Corrupt (key : string)
| Encode (msg : string)
| Config (msg : string).

Definition is_unavailable (e : FleetError) : bool :=
  match e with Backend _ => true | _ => false end.

Record Timing := { ttl : duration; renew_every : duration }.

Definition Timing_default : Timing := {| ttl := from_secs 15; renew_every := from_secs 5 |}.

Definition validate (t : Timing) : res FleetError unit :=
  if (renew_every t =? 0) || (ttl t <=? renew_every t)
  then Err (Config "lease ttl must be greater than the renewal interval, or a healthy owner expires between its own heartbeats")
  else Ok tt.

Record Lease := mkLease {
  owner : string;
  epoch : Z;
  expires_ms : Z;
  endpoint : string;
  instance_id : string;
  state : option string }.

#[global] Instance rebuild_Lease : Rebuild Lease := fun l =>
  mkLease (owner l) (epoch l) (expires_ms l) (endpoint l) (instance_id l) (state l).

Definition is_expired_at (l : Lease) (now_ms : Z) : bool := expires_ms l <=? now_ms.

(** [object_store::UpdateVersion]: the fence. *)
Record UpdateVersion := { e_tag : option string; version : option string }.

#[global] Instance UpdateVersion_eq_dec : EqDecision UpdateVersion.
Proof. solve_decision. Defined.

Definition version_of (e_tag version : option string) : UpdateVersion :=
  {| e_tag := e_tag; version := version |}.

Record Held := mkHeld { lease : Lease; held_version : UpdateVersion }.

Inductive Acquired : Type :=
| AcqHeld (h : Held)
| HeldByOther (owner : string) (expires_ms : Z)
| Contended.

Inductive Renewed : Type :=
| RenHeld (h : Held)
| Fenced.

Inductive PutMode : Type :=
| Create
| Update (v : UpdateVersion).

(** * Interfaces *)

Class ObjectStore (St Body : Type) := {
  os_path : string -> string;
  os_get : St -> string -> res StoreError (Body * option string * option string);
  os_put : St -> string -> Body -> PutMode -> St * res StoreError (option string * option string) }.

Class LeaseCodec (Body : Type) := {
  to_vec : Lease -> res string Body;
  from_slice : Body -> res string Lease }.

(** When a conditional write is allowed to take effect, given what the key holds. *)
Definition mode_holds {Body} (current : option (Body * UpdateVersion)) (m : PutMode) : Prop :=
  match m with
  | Create => current = None
  | Update u => exists b, current = Some (b, u)
  end.

(** What the code relies on of the backend: reads are current, a conditional write
    takes effect only when its condition holds at that moment, a refused write
    changes nothing, an unanswered write may or may not have been applied, and a
    version that was issued for a key stays bound to the bytes it was issued for. *)
Class ObjectStoreLaws (St Body : Type) {OS : ObjectStore St Body} := {
  contents : St -> string -> option (Body * UpdateVersion);
  issued : St -> string -> UpdateVersion -> Body -> Prop;
  get_ok st k b t v : os_get st k = Ok (b, t, v) -> contents st k = Some (b, version_of t v);
  get_absent st k : os_get st k = Err NotFound -> contents st k = None;
  issued_current st k b v : contents st k = Some (b, v) -> issued st k v b;
  issued_functional st k v b b' : issued st k v b -> issued st k v b' -> b = b';
  put_applied st k b m st' t v :
    os_put st k b m = (st', Ok (t, v)) ->
    mode_holds (contents st k) m /\ contents st' k = Some (b, version_of t v);
  put_refused st k b m st' e :
    os_put st k b m = (st', Err e) -> e = AlreadyExists \/ e = Precondition ->
    contents st' k = contents st k /\ ~ mode_holds (contents st k) m;
  put_unanswered st k b m st' e :
    os_put st k b m = (st', Err e) -> e <> AlreadyExists -> e <> Precondition ->
    contents st' k = contents st k \/
    (mode_holds (contents st k) m /\ exists v, contents st' k = Some (b, v));
  issued_stable st k b m st' r k' v b' :
    os_put st k b m = (st', r) -> issued st k' v b' -> issued st' k' v b' }.

Class LeaseCodecLaws (Body : Type) {LC : LeaseCodec Body} := {
  from_slice_to_vec l b : to_vec l = Ok b -> from_slice b = Ok l }.

(** * The lease operations *)

Section Operations.
Context {St Body : Type} {OS : ObjectStore St Body} {LC : LeaseCodec Body}.

Definition session_key (name : string) : string := os_path ("sessions/" +:+ name).

Definition read (st : St) (name : string) : res FleetError (option (Lease * UpdateVersion)) :=
  match os_get st (session_key name) with
  | Ok (bytes, t, v) =>
      match from_slice bytes with
      | Ok l => Ok (Some (l, version_of t v))
      | Err _ => Err (Corrupt ("sessions/" +:+ name))
      end
  | Err NotFound => Ok None
  | Err e => Err (Backend e)
  end.

Definition resolve (st : St) (name : string) : res FleetError (option Lease) :=
  let? r := read st name in Ok (option_map fst r).

Definition put (st : St) (path : string) (l : Lease) (mode : PutMode)
    : St * res FleetError (option UpdateVersion) :=
  match to_vec l with
  | Err e => (st, Err (Encode e))
  | Ok body =>
      match os_put st path body mode with
      | (st', Ok (t, v)) => (st', Ok (Some (version_of t v)))
      | (st', Err AlreadyExists) | (st', Err Precondition) => (st', Ok None)
      | (st', Err e) => (st', Err (Backend e))
      end
  end.

(** What one acquisition attempt does with the record it read: report the live
    owner, or write this lease under this condition. *)
Inductive Attempt : Type :=
| ReportOther (owner : string) (expires_ms : Z)
| Write (l : Lease) (m : PutMode).

Definition acquire_decide (me endpoint : string) (t : Timing) (now_ms : Z)
    (current : option (Lease * UpdateVersion)) : Attempt :=
  let ttl_ms := as_i64 (as_millis (ttl t)) in
  match current with
  | None =>
      Write {| owner := me; epoch := 1; expires_ms := wrap_i64 (now_ms + ttl_ms);
               endpoint := endpoint; instance_id := empty_str; state := None |} Create
  | Some (prev, version) =>
      let expired := is_expired_at prev now_ms in
      let mine := bool_decide (owner prev = me) in
      if negb expired && negb mine then ReportOther (owner prev) (expires_ms prev)
      else
        Write {| owner := me;
                 epoch := if mine && negb expired then epoch prev else wrap_u64 (epoch prev + 1);
                 expires_ms := wrap_i64 (now_ms + ttl_ms);
                 endpoint := endpoint; instance_id := instance_id prev; state := None |}
              (Update version)
  end.

Definition acquire_write (st : St) (name : string) (l : Lease) (m : PutMode)
    : St * res FleetError Acquired :=
  match put st (session_key name) l m with
  | (st', Ok (Some version)) => (st', Ok (AcqHeld (mkHeld l version)))
  | (st', Ok None) => (st', Ok Contended)
  | (st', Err e) => (st', Err e)
  end.

Definition acquire (st : St) (name me endpoint : string) (t : Timing) (now_ms : Z)
    : St * res FleetError Acquired :=
  match validate t with
  | Err e => (st, Err e)
  | Ok _ =>
      match read st name with
      | Err e => (st, Err e)
      | Ok current =>
          match acquire_decide me endpoint t now_ms current with
          | ReportOther o x => (st, Ok (HeldByOther o x))
          | Write l m => acquire_write st name l m
          end
      end
  end.

(** The jittered back-off before attempt [attempt + 1], in milliseconds; [rand] is
    the [u64] drawn. *)
Definition backoff_ms (attempt rand : Z) : Z :=
  let base := Z.shiftl 20 (Z.min attempt 4) in
  let jitter := rand mod Z.max base 1 in
  base / 2 + jitter.

(** [acquire_with_retry]'s loop, [fuel] attempts from attempt number [attempt]. The
    clock and the random draws are functions of the attempt; [others] is what the
    rest of the fleet does to the bucket during the sleep. The last component lists
    the sleeps taken. *)
Fixpoint retry_loop (fuel : nat) (attempt : Z) (name me endpoint : string) (t : Timing)
    (now_ms : Z -> Z) (rand : Z -> Z) (others : Z -> St -> St) (st : St)
    : St * res FleetError Acquired * list Z :=
  match fuel with
  | O => (st, Ok Contended, [])
  | S fuel' =>
      match acquire st name me endpoint t (now_ms attempt) with
      | (st', Ok Contended) =>
          let sleep := backoff_ms attempt (rand attempt) in
          let '(st'', r, sleeps) :=
            retry_loop fuel' (attempt + 1) name me endpoint t now_ms rand others
              (others attempt st') in
          (st'', r, sleep :: sleeps)
      | (st', r) => (st', r, [])
      end
  end.

Definition acquire_with_retry (st : St) (name me endpoint : string) (t : Timing) (attempts : Z)
    (now_ms : Z -> Z) (rand : Z -> Z) (others : Z -> St -> St)
    : St * res FleetError Acquired * list Z :=
  retry_loop (Z.to_nat (Z.max attempts 1)) 0 name me endpoint t now_ms rand others st.

(** The conditional write every fenced verb ends in. *)
Definition fenced_write (st : St) (name : string) (h : Held) (l : Lease)
    : St * res FleetError Renewed :=
  match put st (session_key name) l (Update (held_version h)) with
  | (st', Ok (Some version)) => (st', Ok (RenHeld (mkHeld l version)))
  | (st', Ok None) => (st', Ok Fenced)
  | (st', Err e) => (st', Err e)
  end.

Definition renew (st : St) (name : string) (h : Held) (t : Timing) (now_ms : Z)
    (run_state : option string) : St * res FleetError Renewed :=
  fenced_write st name h
    ((lease h) <| expires_ms := wrap_i64 (now_ms + as_i64 (as_millis (ttl t))) |> <| state := run_state |>).

Definition stamp_state (st : St) (name : string) (h : Held) (run_state : option string)
    : St * res FleetError Renewed :=
  fenced_write st name h ((lease h) <| state := run_state |>).

Definition set_instance (st : St) (name : string) (h : Held) (id : string)
    : St * res FleetError Renewed :=
  fenced_write st name h ((lease h) <| instance_id := id |>).

Definition release (st : St) (name : string) (h : Held) : St * res FleetError unit :=
  match put st (session_key name) ((lease h) <| expires_ms := 0 |>) (Update (held_version h)) with
  | (st', Ok _) => (st', Ok tt)
  | (st', Err e) => (st', Err e)
  end.
End Operations.

(** * Lemmas *)

Section Laws.
Context {St Body : Type} {OS : ObjectStore St Body} {LC : LeaseCodec Body}.
Context {OSL : ObjectStoreLaws St Body} {LCL : LeaseCodecLaws Body}.

(** The lease record a name currently has, if it has a readable one. *)
Definition current (st : St) (name : string) : option Lease :=
  match contents st (session_key name) with
  | Some (b, _) => res_ok (from_slice b)
  | None => None
  end.

Lemma put_spec st k l m st' r :
  put st k l m = (st', r) ->
  match r with
  | Ok (Some v) => mode_holds (contents st k) m /\
                   exists b, to_vec l = Ok b /\ contents st' k = Some (b, v)
  | Ok None => contents st' k = contents st k /\ ~ mode_holds (contents st k) m
  | Err _ => contents st' k = contents st k \/
             (mode_holds (contents st k) m /\
              exists b v, to_vec l = Ok b /\ contents st' k = Some (b, v))
  end /\
  forall k' v b, issued st k' v b -> issued st' k' v b.
Proof.
  unfold put. destruct (to_vec l) as [body|e] eqn:Hv; [|intros; simplify_eq; auto].
  destruct (os_put st k body m) as [st2 o] eqn:Hp. intros Hr.
  assert (st2 = st') as -> by (destruct o as [[]|[]]; simplify_eq; done).
  split; [|eauto using issued_stable].
  destruct o as [[t v]|e].
  - simplify_eq. apply put_applied in Hp as [??]. eauto.
  - destruct e; simplify_eq.
    + apply put_unanswered in Hp as [?|[? [??]]]; eauto 10.
    + apply put_refused in Hp; auto.
    + apply put_refused in Hp; auto.
    + apply put_unanswered in Hp as [?|[? [??]]]; eauto 10.
Qed.

Lemma read_spec st name r :
  read st name = Ok r ->
  match r with
  | None => contents st (session_key name) = None
  | Some (l, v) => exists b, contents st (session_key name) = Some (b, v) /\ from_slice b = Ok l
  end.
Proof.
  unfold read. intros. repeat (split_match; simplify_eq/=); eauto using get_ok, get_absent.
Qed.

Lemma issued_lease st k v b b' l l' :
  issued st k v b -> issued st k v b' -> from_slice b = Ok l -> from_slice b' = Ok l' -> l = l'.
Proof. intros H1 H2 E1 E2. rewrite (issued_functional _ _ _ _ _ H1 H2) in E1. congruence. Qed.

(** A fenced verb writes through only when the bucket still holds the very record
    the holder has, and never changes the owner or the epoch. *)
Lemma fenced_write_spec st name h l st' r b0 :
  issued st (session_key name) (held_version h) b0 ->
  from_slice b0 = Ok (lease h) ->
  fenced_write st name h l = (st', r) ->
  match r with
  | Ok (RenHeld h') => current st name = Some (lease h) /\ current st' name = Some l /\
      lease h' = l /\
      exists b, from_slice b = Ok l /\ issued st' (session_key name) (held_version h') b
  | Ok Fenced => contents st' (session_key name) = contents st (session_key name)
  | Err _ => contents st' (session_key name) = contents st (session_key name) \/
             (current st name = Some (lease h) /\ current st' name = Some l)
  end /\
  forall k' v b, issued st k' v b -> issued st' k' v b.
Proof.
  intros Hi Hd. unfold fenced_write, current.
  destruct (put _ _ _ _) as [st2 o] eqn:Hp. intros Hr.
  assert (st2 = st') as -> by (destruct o as [[]|]; simplify_eq; done).
  apply put_spec in Hp as [Hp Hst]. split; [|done].
  destruct o as [[v|]|e]; simplify_eq/=.
  - destruct Hp as [[b1 Hb1] (b & Hb & Hc)].
    rewrite Hb1, Hc; simpl.
    rewrite (issued_functional _ _ _ _ _ (issued_current _ _ _ _ Hb1) Hi), Hd.
    apply from_slice_to_vec in Hb. rewrite Hb. repeat split; eauto using issued_current.
  - by destruct Hp.
  - destruct Hp as [?|[[b1 Hb1] (b & v & Hb & Hc)]]; [by left|right].
    rewrite Hb1, Hc; simpl.
    rewrite (issued_functional _ _ _ _ _ (issued_current _ _ _ _ Hb1) Hi), Hd.
    apply from_slice_to_vec in Hb. by rewrite Hb.
Qed.
End Laws.
