(* ===== verification/Stores.v ===== *)
(** Two backends that satisfy [Lease.ObjectStoreLaws]: one whose versions count
    writes, as the in-memory store of the tests does, and one whose versions are
    content hashes, as an ETag is on common object stores. The lease protocol's
    theorems hold over both, and the witnesses run on the first. *)

From S2P Require Import Prelude Lease.

(** * Versions that count writes *)

Section Counting.
Context {Body : Type}.

(** The writes, newest first; a write's version is the number of writes before it. *)
Definition LogStore : Type := list (string * Body).

Definition log_version (n : nat) : UpdateVersion := version_of (Some (pretty n)) None.

Fixpoint log_contents (st : LogStore) (k : string) : option (Body * UpdateVersion) :=
  match st with
  | [] => None
  | (k', b) :: st' =>
      if decide (k' = k) then Some (b, log_version (length st')) else log_contents st' k
  end.

Definition log_get (st : LogStore) (k : string)
    : res StoreError (Body * option string * option string) :=
  match log_contents st k with
  | Some (b, v) => Ok (b, e_tag v, version v)
  | None => Err NotFound
  end.

Definition log_put (st : LogStore) (k : string) (b : Body) (m : PutMode)
    : LogStore * res StoreError (option string * option string) :=
  let written := ((k, b) :: st, Ok (Some (pretty (length st)), None)) in
  match m, log_contents st k with
  | Create, None => written
  | Create, Some _ => (st, Err AlreadyExists)
  | Update u, Some (_, v) => if decide (v = u) then written else (st, Err Precondition)
  | Update _, None => (st, Err Precondition)
  end.

#[global] Instance log_store : ObjectStore LogStore Body :=
  {| os_path := id; os_get := log_get; os_put := log_put |}.

Definition log_issued (st : LogStore) (k : string) (v : UpdateVersion) (b : Body) : Prop :=
  exists newer older, st = newer ++ (k, b) :: older /\ v = log_version (length older).

Lemma log_version_inj n m : log_version n = log_version m -> n = m.
Proof. unfold log_version, version_of. intros [= H]. by apply (inj pretty) in H. Qed.

Lemma log_issued_current st k b v : log_contents st k = Some (b, v) -> log_issued st k v b.
Proof.
  induction st as [|[k' b'] st IH]; simpl; [done|]. case_decide as Hk; intros H; simplify_eq.
  - by exists [], st.
  - destruct (IH H) as (n & o & -> & ->). by exists ((k', b') :: n), o.
Qed.

Lemma log_issued_functional st k v b b' : log_issued st k v b -> log_issued st k v b' -> b = b'.
Proof.
  intros (n & o & -> & ->) (n' & o' & E & Hl%log_version_inj).
  apply app_inj_2 in E as [_ E]; [by simplify_eq|]. simpl. by rewrite Hl.
Qed.

Lemma log_put_cases st k b m st' r :
  log_put st k b m = (st', r) ->
  (mode_holds (log_contents st k) m /\ st' = (k, b) :: st /\
   r = Ok (Some (pretty (length st)), None)) \/
  (~ mode_holds (log_contents st k) m /\ st' = st /\ (r = Err AlreadyExists \/ r = Err Precondition)).
Proof.
  unfold log_put. intros H. destruct m as [|u]; destruct (log_contents st k) as [[b0 v]|] eqn:E;
    simpl; try case_decide; simplify_eq; try (left; eauto; done);
    right; (split; [|auto]); try (intros [? ?]; simplify_eq); done.
Qed.

#[global] Program Instance log_store_laws : ObjectStoreLaws LogStore Body :=
  {| contents := log_contents; issued := log_issued |}.
Next Obligation.
  simpl. unfold log_get. intros st k b t v H. destruct (log_contents st k) as [[b' [t' v']]|]; by simplify_eq.
Qed.
Next Obligation. simpl. unfold log_get. intros st k. by destruct (log_contents st k) as [[]|]. Qed.
Next Obligation. simpl. intros. by apply log_issued_current. Qed.
Next Obligation. simpl. intros. by eapply log_issued_functional. Qed.
Next Obligation.
  simpl. intros st k b m st' t v H. destruct (log_put_cases _ _ _ _ _ _ H) as [(? & -> & ?)|(_ & _ & [?|?])];
    simplify_eq. split; [done|]. simpl. by rewrite decide_True.
Qed.
Next Obligation.
  simpl. intros st k b m st' e H _. destruct (log_put_cases _ _ _ _ _ _ H) as [(_ & _ & ?)|(? & -> & _)];
    by simplify_eq.
Qed.
Next Obligation.
  simpl. intros st k b m st' e H ? ?.
  destruct (log_put_cases _ _ _ _ _ _ H) as [(_ & _ & ?)|(_ & -> & _)]; [by simplify_eq|by left].
Qed.
Next Obligation.
  simpl. intros st k b m st' r k' v b' H (n & o & -> & ->).
  destruct (log_put_cases _ _ _ _ _ _ H) as [(_ & -> & _)|(_ & -> & _)]; [|by exists n, o].
  by exists ((k, b) :: n), o.
Qed.
End Counting.

Arguments LogStore Body : clear implicits.

(** * Versions that hash the content *)

Section Hashing.
Context {Body : Type} (hash : Body -> string) {hash_inj : Inj eq eq hash}.

Definition hash_version (b : Body) : UpdateVersion := version_of (Some (hash b)) None.

Definition hash_get (st : gmap string Body) (k : string)
    : res StoreError (Body * option string * option string) :=
  match st !! k with Some b => Ok (b, Some (hash b), None) | None => Err NotFound end.

Definition hash_put (st : gmap string Body) (k : string) (b : Body) (m : PutMode)
    : gmap string Body * res StoreError (option string * option string) :=
  let written := (<[k := b]> st, Ok (Some (hash b), None)) in
  match m, st !! k with
  | Create, None => written
  | Create, Some _ => (st, Err AlreadyExists)
  | Update u, Some b0 => if decide (hash_version b0 = u) then written else (st, Err Precondition)
  | Update _, None => (st, Err Precondition)
  end.

Definition hash_store : ObjectStore (gmap string Body) Body :=
  {| os_path := id; os_get := hash_get; os_put := hash_put |}.

Definition hash_contents (st : gmap string Body) (k : string) : option (Body * UpdateVersion) :=
  (fun b => (b, hash_version b)) <$> st !! k.

Lemma hash_put_cases st k b m st' r :
  hash_put st k b m = (st', r) ->
  (mode_holds (hash_contents st k) m /\ st' = <[k := b]> st /\ r = Ok (Some (hash b), None)) \/
  (~ mode_holds (hash_contents st k) m /\ st' = st /\ (r = Err AlreadyExists \/ r = Err Precondition)).
Proof.
  unfold hash_put, hash_contents. intros H.
  destruct m as [|u]; destruct (st !! k) as [b0|] eqn:E;
    simpl; try case_decide; simplify_eq; try (left; eauto; done);
    right; (split; [|auto]); try (intros [? ?]; simplify_eq); done.
Qed.

Lemma hash_store_laws : @ObjectStoreLaws (gmap string Body) Body hash_store.
Proof.
  refine (@Build_ObjectStoreLaws _ _ hash_store hash_contents (fun _ _ v b => v = hash_version b)
            _ _ _ _ _ _ _ _); unfold hash_contents; simpl.
  - unfold hash_get. intros st k b t v H. destruct (st !! k) eqn:E; by simplify_eq.
  - unfold hash_get. intros st k. by destruct (st !! k).
  - intros st k b v H. destruct (st !! k); by simplify_eq/=.
  - unfold hash_version, version_of. intros _ _ v b b' -> [= H]. by apply (inj hash) in H.
  - intros st k b m st' t v H. destruct (hash_put_cases _ _ _ _ _ _ H) as [(? & -> & ?)|(_ & _ & [?|?])];
      simplify_eq. split; [done|]. by rewrite lookup_insert_eq.
  - intros st k b m st' e H _. destruct (hash_put_cases _ _ _ _ _ _ H) as [(_ & _ & ?)|(? & -> & _)];
      by simplify_eq.
  - intros st k b m st' e H ? ?.
    destruct (hash_put_cases _ _ _ _ _ _ H) as [(_ & _ & ?)|(_ & -> & _)]; [by simplify_eq|by left].
  - done.
Defined.
End Hashing.

(** The codec of the witnesses: the body is the record. *)
#[global] Instance plain_codec : LeaseCodec Lease :=
  {| to_vec l := Ok l; from_slice b := Ok b |}.

#[global] Instance plain_codec_laws : LeaseCodecLaws Lease.
Proof. constructor. by intros l b [=]; subst. Qed.
