(* ===== verification/LeaseSafety.v ===== *)
(** Safety of the lease protocol under interleaving.

    A fleet of nodes runs the operations of [Lease] against one bucket and one
    session name. A store call is atomic; an acquisition is its read and its
    conditional write as two steps, with anything in between. Clocks are arbitrary:
    every step takes any clock reading. [lock_step] is the abstract contract of a
    name, and [step_refines] shows each protocol step implements it. *)

From S2P Require Import Prelude Lease Stores.

(** * The abstract contract of a name

    A name has no owner yet, or an epoch and the owner of that epoch. It gets its
    first owner at epoch 1; afterwards the owner changes only with the epoch. *)
Inductive lock_step : option (Z * string) -> option (Z * string) -> Prop :=
| lock_same a : lock_step a a
| lock_first o : lock_step None (Some (1, o))
| lock_takeover e o o' : lock_step (Some (e, o)) (Some (wrap_u64 (e + 1), o')).

(** * The fleet *)

Section Fleet.
Context {St Body : Type} {OS : ObjectStore St Body} {LC : LeaseCodec Body}.
Context {OSL : ObjectStoreLaws St Body} {LCL : LeaseCodecLaws Body}.
Variable name : string.

Record Sys := mkSys {
  store : St;
  held : gmap string Held;
  pending : gmap string (Lease * PutMode) }.

(** What a node keeps after a fenced verb: the new version, nothing once fenced,
    and what it had when the backend did not answer. *)
Definition after_renewal (n : string) (r : res FleetError Renewed) (m : gmap string Held)
    : gmap string Held :=
  match r with
  | Ok (RenHeld h) => <[n := h]> m
  | Ok Fenced => delete n m
  | Err _ => m
  end.

(** A stamp that is refused leaves the fence to the next renewal. *)
Definition after_stamp (n : string) (r : res FleetError Renewed) (m : gmap string Held)
    : gmap string Held :=
  match r with
  | Ok (RenHeld h) => <[n := h]> m
  | _ => m
  end.

Definition after_acquire (n : string) (r : res FleetError Acquired) (m : gmap string Held)
    : gmap string Held :=
  match r with
  | Ok (AcqHeld h) => <[n := h]> m
  | _ => m
  end.

(** A release the backend did not answer is tried again: the lease is kept. *)
Definition after_release (n : string) (r : res FleetError unit) (m : gmap string Held) : gmap string Held :=
  match r with
  | Ok _ => delete n m
  | Err _ => m
  end.

Inductive sys_step : Sys -> Sys -> Prop :=
| step_read s n ep t now cur l m :
    read (store s) name = Ok cur ->
    acquire_decide n ep t now cur = Write l m ->
    sys_step s (mkSys (store s) (held s) (<[n := (l, m)]> (pending s)))
| step_write s n l m st' r :
    pending s !! n = Some (l, m) ->
    acquire_write (store s) name l m = (st', r) ->
    sys_step s (mkSys st' (after_acquire n r (held s)) (delete n (pending s)))
| step_renew s n h t now run st' r :
    held s !! n = Some h ->
    renew (store s) name h t now run = (st', r) ->
    sys_step s (mkSys st' (after_renewal n r (held s)) (pending s))
| step_stamp s n h run st' r :
    held s !! n = Some h ->
    stamp_state (store s) name h run = (st', r) ->
    sys_step s (mkSys st' (after_stamp n r (held s)) (pending s))
| step_set_instance s n h id st' r :
    held s !! n = Some h ->
    set_instance (store s) name h id = (st', r) ->
    sys_step s (mkSys st' (after_renewal n r (held s)) (pending s))
| step_release s n h st' r :
    held s !! n = Some h ->
    release (store s) name h = (st', r) ->
    sys_step s (mkSys st' (after_release n r (held s)) (pending s))
| step_crash s n :
    sys_step s (mkSys (store s) (delete n (held s)) (delete n (pending s))).

Definition init (s : Sys) : Prop :=
  contents (store s) (session_key name) = None /\ held s = ∅ /\ pending s = ∅.

Definition reachable (n : nat) (s : Sys) : Prop := exists s0, init s0 /\ nsteps sys_step n s0 s.

(** The abstraction: the epoch and owner the bucket records. *)
Definition abs (s : Sys) : option (Z * string) :=
  option_map (fun l => (epoch l, owner l)) (current (store s) name).

(** * The invariant *)

Definition readable (st : St) : Prop :=
  forall b v, contents st (session_key name) = Some (b, v) -> exists l, from_slice b = Ok l.

Definition held_ok (st : St) (n : string) (h : Held) : Prop :=
  owner (lease h) = n /\
  exists b, issued st (session_key name) (held_version h) b /\ from_slice b = Ok (lease h).

Definition pending_ok (st : St) (n : string) (l : Lease) (m : PutMode) : Prop :=
  owner l = n /\
  match m with
  | Create => epoch l = 1
  | Update v => exists b prev,
      issued st (session_key name) v b /\ from_slice b = Ok prev /\
      (epoch l = epoch prev /\ owner l = owner prev \/ epoch l = wrap_u64 (epoch prev + 1))
  end.

Definition inv (s : Sys) : Prop :=
  readable (store s) /\
  map_Forall (held_ok (store s)) (held s) /\
  map_Forall (fun n '(l, m) => pending_ok (store s) n l m) (pending s).

(** ** Stability of the invariant's parts *)

Definition extends (st st' : St) : Prop :=
  forall k v b, issued st k v b -> issued st' k v b.

Lemma held_ok_extends st st' n h : extends st st' -> held_ok st n h -> held_ok st' n h.
Proof. intros He (? & b & ? & ?). split; [done|]. exists b. eauto. Qed.

Lemma pending_ok_extends st st' n l m :
  extends st st' -> pending_ok st n l m -> pending_ok st' n l m.
Proof.
  intros He [? Hm]. split; [done|]. destruct m; [done|].
  destruct Hm as (b & prev & ? & ? & ?). eauto 10.
Qed.

Lemma inv_extend st st' (hm hm' : gmap string Held) (pm pm' : gmap string (Lease * PutMode)) :
  extends st st' -> readable st' ->
  map_Forall (held_ok st) hm -> map_Forall (fun n '(l, m) => pending_ok st n l m) pm ->
  (forall n h, hm' !! n = Some h -> hm !! n = Some h \/ held_ok st' n h) ->
  (forall n x, pm' !! n = Some x -> pm !! n = Some x) ->
  inv (mkSys st' hm' pm').
Proof.
  intros He Hr Hh Hp Hh' Hp'. split_and!; simpl; [done|..].
  - intros n h Hn. destruct (Hh' _ _ Hn); [|done]. eauto using held_ok_extends.
  - intros n [l m] Hn. eapply pending_ok_extends; [done|]. by apply (Hp n (l, m)), Hp'.
Qed.

Lemma readable_unchanged st st' :
  contents st' (session_key name) = contents st (session_key name) -> readable st -> readable st'.
Proof. intros E Hr b v. rewrite E. apply Hr. Qed.

Lemma current_readable st l : current st name = Some l -> readable st.
Proof.
  unfold current, readable. intros H b v Hc. rewrite Hc in H. destruct (from_slice b); [eauto|done].
Qed.

Lemma current_unchanged st st' :
  contents st' (session_key name) = contents st (session_key name) ->
  current st' name = current st name.
Proof. unfold current. by intros ->. Qed.

(** ** Fenced verbs *)

(** A fenced verb keeps the invariant and the abstract state. *)
Lemma fenced_write_keeps s n h l st' r (hm' : gmap string Held) :
  inv s -> held s !! n = Some h -> fenced_write (store s) name h l = (st', r) ->
  owner l = owner (lease h) -> epoch l = epoch (lease h) ->
  (forall n' h', hm' !! n' = Some h' ->
     held s !! n' = Some h' \/ n' = n /\ r = Ok (RenHeld h')) ->
  inv (mkSys st' hm' (pending s)) /\ abs (mkSys st' hm' (pending s)) = abs s.
Proof.
  intros (Hr & Hh & Hp) Hn Hw Ho He Hm'.
  destruct (Hh _ _ Hn) as (Hown & b0 & Hi & Hd).
  destruct (fenced_write_spec _ _ _ _ _ _ _ Hi Hd Hw) as [Hspec Hext].
  assert (readable st' /\ abs (mkSys st' hm' (pending s)) = abs s) as [Hr' Habs].
  { unfold abs; simpl. destruct r as [[h'|]|e].
    - destruct Hspec as (E & E' & _). rewrite E, E'. simpl. rewrite Ho, He.
      eauto using current_readable.
    - rewrite (current_unchanged _ _ Hspec). eauto using readable_unchanged.
    - destruct Hspec as [E | [E E']].
      + rewrite (current_unchanged _ _ E). eauto using readable_unchanged.
      + rewrite E, E'. simpl. rewrite Ho, He. eauto using current_readable. }
  split; [|done]. eapply inv_extend; eauto.
  intros n' h' [?|[-> ->]]%Hm'; [by left|right].
  destruct Hspec as (_ & _ & <- & b & Hb & Hb'). split; [congruence|eauto].
Qed.

Lemma fenced_write_locks s n h l st' r (hm' : gmap string Held) :
  inv s -> held s !! n = Some h -> fenced_write (store s) name h l = (st', r) ->
  owner l = owner (lease h) -> epoch l = epoch (lease h) ->
  (forall n' h', hm' !! n' = Some h' ->
     held s !! n' = Some h' \/ n' = n /\ r = Ok (RenHeld h')) ->
  inv (mkSys st' hm' (pending s)) /\ lock_step (abs s) (abs (mkSys st' hm' (pending s))).
Proof.
  intros Hi Hn Hw Ho He Hm.
  destruct (fenced_write_keeps _ _ _ _ _ _ _ Hi Hn Hw Ho He Hm) as [? ->]. split; [done|constructor].
Qed.

Lemma after_renewal_lookup n r m n' h' :
  after_renewal n r m !! n' = Some h' -> m !! n' = Some h' \/ n' = n /\ r = Ok (RenHeld h').
Proof.
  unfold after_renewal. destruct r as [[h|]|]; [|intros [_ ?]%lookup_delete_Some|]; auto.
  intros [[<- <-]|[? ?]]%lookup_insert_Some; auto.
Qed.

Lemma after_stamp_lookup n r m n' h' :
  after_stamp n r m !! n' = Some h' -> m !! n' = Some h' \/ n' = n /\ r = Ok (RenHeld h').
Proof.
  unfold after_stamp. destruct r as [[h|]|]; auto.
  intros [[<- <-]|[? ?]]%lookup_insert_Some; auto.
Qed.

Lemma release_as_fenced_write st h st' r :
  release st name h = (st', r) ->
  exists r', fenced_write st name h ((lease h) <| expires_ms := 0 |>) = (st', r').
Proof.
  unfold release, fenced_write. destruct (put _ _ _ _) as [st2 [[v|]|e]]; intros; simplify_eq; eauto.
Qed.

(** ** Acquisition *)

Lemma acquire_decide_ok st n ep t now cur l m :
  read st name = Ok cur -> acquire_decide n ep t now cur = Write l m -> pending_ok st n l m.
Proof.
  intros Hrd Hd. apply read_spec in Hrd. unfold acquire_decide in Hd.
  destruct cur as [[prev v]|]; [|by simplify_eq].
  destruct Hrd as (b & Hc & Hb).
  destruct (negb _ && negb _) eqn:Hlive; simplify_eq/=. split; [done|]. simpl.
  exists b, prev. split_and!; eauto using issued_current.
  destruct (bool_decide (owner prev = n) && _) eqn:E; [left|by right]. to_prop. done.
Qed.

Lemma acquire_write_keeps s n l m st' r s' :
  inv s -> pending s !! n = Some (l, m) ->
  acquire_write (store s) name l m = (st', r) ->
  s' = mkSys st' (after_acquire n r (held s)) (delete n (pending s)) ->
  inv s' /\ lock_step (abs s) (abs s').
Proof.
  intros (Hr & Hh & Hp) Hn. specialize (Hp _ _ Hn) as Hok. destruct Hok as [Hown Hm].
  unfold acquire_write. destruct (put _ _ _ _) as [st2 o] eqn:Hput. intros Hw ->.
  assert (st2 = st') as -> by (destruct o as [[]|]; simplify_eq; done).
  apply put_spec in Hput as [Hput Hext].
  assert (contents st' (session_key name) = contents (store s) (session_key name) \/
          mode_holds (contents (store s) (session_key name)) m /\
          exists b v, from_slice b = Ok l /\ contents st' (session_key name) = Some (b, v)) as Hcase.
  { destruct o as [[v|]|e].
    - destruct Hput as [? (b & ?%from_slice_to_vec & ?)]. eauto 10.
    - destruct Hput; by left.
    - destruct Hput as [?|[? (b & v & ?%from_slice_to_vec & ?)]]; eauto 10. }
  assert (readable st') as Hr'.
  { destruct Hcase as [?|[_ (b & v & Hb & Hc)]]; [eauto using readable_unchanged|].
    intros b' v' Hc'. rewrite Hc in Hc'. simplify_eq. eauto. }
  split.
  - apply (inv_extend (store s) st' (held s) _ (pending s)); try done;
      [|by intros ?? [_ ?]%lookup_delete_Some].
    intros n' h'. unfold after_acquire.
    destruct r as [[h| |]|]; simplify_eq; auto.
    intros [[<- <-]|[? ?]]%lookup_insert_Some; auto. right.
    destruct o as [[v|]|]; simplify_eq/=. split; [done|].
    destruct Hput as [_ (b & ?%from_slice_to_vec & ?)]. eauto using issued_current.
  - unfold abs; simpl. destruct Hcase as [E|[Hmode (b & v & Hb & Hc)]].
    { rewrite (current_unchanged _ _ E). constructor. }
    unfold current. rewrite Hc, Hb. simpl. rewrite Hown.
    destruct m as [|u]; simpl in *.
    + rewrite Hmode, Hm. constructor.
    + destruct Hmode as [b1 Hb1]. destruct Hm as (b2 & prev & Hi & Hd & He).
      rewrite Hb1. rewrite (issued_functional _ _ _ _ _ (issued_current _ _ _ _ Hb1) Hi), Hd. simpl.
      destruct He as [[-> Ho] | ->]; [|constructor]. rewrite <- Ho, Hown. constructor.
Qed.

(** * Every protocol step implements the abstract contract *)

Lemma step_refines s s' : inv s -> sys_step s s' -> inv s' /\ lock_step (abs s) (abs s').
Proof.
  intros Hinv Hstep. destruct Hstep as
    [s n ep t now cur l m Hrd Hd|s n l m st' r Hn Hw|s n h t now run st' r Hn Hw
    |s n h run st' r Hn Hw|s n h id st' r Hn Hw|s n h st' r Hn Hw|s n].
  - split; [|constructor]. destruct Hinv as (Hr & Hh & Hp). split_and!; [done..|].
    apply map_Forall_insert_2; [|done]. by eapply acquire_decide_ok.
  - by eapply acquire_write_keeps.
  - apply (fenced_write_locks s n h _ _ _ _ Hinv Hn Hw eq_refl eq_refl), after_renewal_lookup.
  - apply (fenced_write_locks s n h _ _ _ _ Hinv Hn Hw eq_refl eq_refl), after_stamp_lookup.
  - apply (fenced_write_locks s n h _ _ _ _ Hinv Hn Hw eq_refl eq_refl), after_renewal_lookup.
  - apply release_as_fenced_write in Hw as [r' Hw].
    apply (fenced_write_locks s n h _ _ _ _ Hinv Hn Hw eq_refl eq_refl).
    unfold after_release. destruct r as [[]|]; [|by left]. intros ?? [_ ?]%lookup_delete_Some. by left.
  - destruct Hinv as (Hr & Hh & Hp). split; [|constructor].
    split_and!; [done|by apply map_Forall_delete..].
Qed.

Lemma init_inv s : init s -> inv s.
Proof.
  intros (Hc & Hh & Hp). split_and!.
  - intros b v. by rewrite Hc.
  - rewrite Hh. apply map_Forall_empty.
  - rewrite Hp. apply map_Forall_empty.
Qed.

Lemma run_inv n s s' : inv s -> nsteps sys_step n s s' -> inv s'.
Proof. intros Hi Hr. induction Hr; [done|]. eapply IHHr, step_refines; eauto. Qed.

Lemma reachable_inv n s : reachable n s -> inv s.
Proof. intros (s0 & Hi & Hr). eauto using run_inv, init_inv. Qed.

(** ** Epochs along a run *)

Lemma step_extends s s' : sys_step s s' -> extends (store s) (store s').
Proof.
  assert (forall st h l st' r, fenced_write st name h l = (st', r) -> extends st st') as Hf.
  { unfold fenced_write. intros st h l st' r. destruct (put _ _ _ _) as [st2 o] eqn:E.
    apply put_spec in E as [_ E]. destruct o as [[]|]; intros; by simplify_eq. }
  destruct 1 as [| s n l m st' r _ Hw| | | | s n h st' r _ Hw|]; simpl; eauto; try (by intros ???).
  - unfold acquire_write in Hw. destruct (put _ _ _ _) as [st2 o] eqn:E.
    apply put_spec in E as [_ E]. destruct o as [[]|]; by simplify_eq.
  - apply release_as_fenced_write in Hw as [? ?]. eauto.
Qed.

Lemma run_extends n s s' : nsteps sys_step n s s' -> extends (store s) (store s').
Proof. induction 1; [by intros ???|]. intros k v b Hi. eapply IHnsteps, step_extends; eauto. Qed.

Lemma lock_step_forward e o b :
  0 <= e < u64_max -> lock_step (Some (e, o)) b ->
  exists e' o', b = Some (e', o') /\ e <= e' <= e + 1 /\ (e = e' -> o = o').
Proof.
  intros He. inversion 1; subst; [by exists e, o; split_and!; try lia|].
  exists (wrap_u64 (e + 1)), o'. rewrite wrap_u64_small by (unfold is_u64, u64_max in *; lia).
  split_and!; [done|lia..].
Qed.

Lemma run_forward n s s' e o :
  nsteps sys_step n s s' -> inv s -> abs s = Some (e, o) -> 0 <= e -> e + Z.of_nat n <= u64_max ->
  exists e' o', abs s' = Some (e', o') /\ e <= e' <= e + Z.of_nat n /\ (e = e' -> o = o').
Proof.
  intros Hr. revert e o. induction Hr as [s|n s1 s2 s3 Hst Hr IH]; intros e o Hi Ha He Hb.
  { exists e, o. split_and!; [done|lia..|done]. }
  destruct (step_refines _ _ Hi Hst) as [Hi2 Hl]. rewrite Ha in Hl.
  destruct (lock_step_forward e o (abs s2)) as (e2 & o2 & Ha2 & ? & Ho2); [lia|done|].
  destruct (IH e2 o2) as (e3 & o3 & ? & ? & Ho3); [done|done|lia|lia|].
  exists e3, o3. split_and!; [done|lia|lia|]. intros. rewrite Ho2 by lia. apply Ho3. lia.
Qed.

Lemma reachable_epoch n s e o :
  reachable n s -> Z.of_nat n <= u64_max -> abs s = Some (e, o) -> 1 <= e <= Z.of_nat n.
Proof.
  intros (s0 & Hi & Hr) Hb.
  assert (abs s0 = None) as H0. { destruct Hi as [Hc _]. unfold abs, current. by rewrite Hc. }
  apply init_inv in Hi. revert Hb. induction Hr as [s|n s1 s2 s3 Hst Hr IH]; intros Hb Ha.
  { congruence. }
  destruct (step_refines _ _ Hi Hst) as [Hi2 Hl]. rewrite H0 in Hl.
  assert (abs s2 = None \/ exists o1, abs s2 = Some (1, o1)) as [E|[o1 E]] by (inversion Hl; eauto).
  - specialize (IH Hi2 E ltac:(lia) Ha). lia.
  - destruct (run_forward _ _ _ 1 o1 Hr Hi2 E) as (e' & o' & Ha' & ? & _); [lia|lia|].
    rewrite Ha in Ha'. simplify_eq. lia.
Qed.

(** A holder whose epoch the bucket has left behind writes nothing, whichever
    fenced verb it uses. *)
Lemma superseded_write s n h l st' r e o :
  inv s -> held_ok (store s) n h -> abs s = Some (e, o) -> epoch (lease h) <> e ->
  fenced_write (store s) name h l = (st', r) ->
  (forall h', r <> Ok (RenHeld h')) /\
  contents st' (session_key name) = contents (store s) (session_key name).
Proof.
  intros Hi (_ & b & Hb & Hd) Ha He Hw.
  assert (current (store s) name <> Some (lease h)) as Hne.
  { intros E. unfold abs in Ha. rewrite E in Ha. simplify_eq/=. }
  destruct (fenced_write_spec _ _ _ _ _ _ _ Hb Hd Hw) as [Hs _].
  destruct r as [[h'|]|e']; split; try done.
  - by destruct Hs as [? _].
  - by destruct Hs as [? _].
  - by destruct Hs as [|[? _]].
Qed.

(** * Properties *)

(** C1: refinement. In every reachable fleet state, whatever the clocks read, each
    protocol step of any node implements one step of the abstract contract of a
    name: the record is first created at epoch 1, and afterwards its owner changes
    only together with an epoch advance by one. *)
Theorem lease_protocol_refines_lock n s s' :
  reachable n s -> sys_step s s' -> lock_step (abs s) (abs s').
Proof. intros Hr Hs. eapply step_refines; eauto using reachable_inv. Qed.

(** One owner per epoch. Along any run short enough not to exhaust the 64-bit
    epoch, once a name has an owner it always has one, epochs never go back, and
    two moments with the same epoch have the same owner. *)
Theorem epoch_has_one_owner m n s1 s2 e1 o1 :
  reachable m s1 -> nsteps sys_step n s1 s2 -> Z.of_nat (m + n) <= u64_max ->
  abs s1 = Some (e1, o1) ->
  exists e2 o2, abs s2 = Some (e2, o2) /\ e1 <= e2 /\ (e1 = e2 -> o1 = o2).
Proof.
  intros Hr Hn Hb Ha. pose proof (reachable_epoch _ _ _ _ Hr ltac:(lia) Ha).
  destruct (run_forward _ _ _ _ _ Hn (reachable_inv _ _ Hr) Ha) as (e2 & o2 & ? & ? & ?); [lia..|].
  exists e2, o2. split_and!; auto; lia.
Qed.

(** C6: at most one writer. In every reachable state at most one node holds the
    version that is current in the bucket, so at most one node's next fenced write
    can be accepted; and that node is the owner the record names. *)
Theorem at_most_one_unfenced n s n1 n2 h1 h2 b1 b2 :
  reachable n s ->
  held s !! n1 = Some h1 -> held s !! n2 = Some h2 ->
  contents (store s) (session_key name) = Some (b1, held_version h1) ->
  contents (store s) (session_key name) = Some (b2, held_version h2) ->
  n1 = n2 /\ current (store s) name = Some (lease h1) /\ owner (lease h1) = n1.
Proof.
  intros Hr H1 H2 C1 C2. destruct (reachable_inv _ _ Hr) as (_ & Hh & _).
  destruct (Hh _ _ H1) as (O1 & b & I1 & D1). destruct (Hh _ _ H2) as (O2 & b' & I2 & D2).
  assert (held_version h1 = held_version h2) as E by congruence.
  pose proof (issued_functional _ _ _ _ _ (issued_current _ _ _ _ C1) I1) as ->.
  assert (lease h1 = lease h2) as El by (rewrite E in I1; eauto using issued_lease).
  unfold current. rewrite C1, D1, <- O1, <- O2, <- El. done.
Qed.

(** C5: a superseded holder is fenced for good. Once the bucket records a later
    epoch than a node's, none of that node's fenced verbs is ever accepted again,
    at any later point of the run, and none of them changes the record. *)
Theorem superseded_never_writes m k s s' n h e o t now run id :
  reachable m s -> held s !! n = Some h -> abs s = Some (e, o) -> epoch (lease h) < e ->
  nsteps sys_step k s s' -> Z.of_nat (m + k) <= u64_max ->
  (forall h', snd (renew (store s') name h t now run) <> Ok (RenHeld h')) /\
  (forall h', snd (stamp_state (store s') name h run) <> Ok (RenHeld h')) /\
  (forall h', snd (set_instance (store s') name h id) <> Ok (RenHeld h')) /\
  contents (fst (renew (store s') name h t now run)) (session_key name) =
    contents (store s') (session_key name) /\
  contents (fst (stamp_state (store s') name h run)) (session_key name) =
    contents (store s') (session_key name) /\
  contents (fst (set_instance (store s') name h id)) (session_key name) =
    contents (store s') (session_key name) /\
  contents (fst (release (store s') name h)) (session_key name) =
    contents (store s') (session_key name).
Proof.
  intros Hr Hh Ha He Hn Hb. pose proof (reachable_inv _ _ Hr) as Hi.
  pose proof (reachable_epoch _ _ _ _ Hr ltac:(lia) Ha).
  destruct (run_forward _ _ _ _ _ Hn Hi Ha) as (e' & o' & Ha' & ? & _); [lia..|].
  assert (held_ok (store s') n h) as Hok.
  { eapply held_ok_extends; [by eapply run_extends|]. by apply Hi. }
  assert (forall l st' r, fenced_write (store s') name h l = (st', r) ->
    (forall h', r <> Ok (RenHeld h')) /\
    contents st' (session_key name) = contents (store s') (session_key name)) as Hw.
  { intros. eapply superseded_write; eauto using run_inv. lia. }
  destruct (renew _ _ _ _ _ _) as [st1 r1] eqn:E1. destruct (stamp_state _ _ _ _) as [st2 r2] eqn:E2.
  destruct (set_instance _ _ _ _) as [st3 r3] eqn:E3. destruct (release _ _ _) as [st4 r4] eqn:E4.
  apply release_as_fenced_write in E4 as [r4' E4].
  apply Hw in E1 as [??], E2 as [??], E3 as [??], E4 as [_ ?]. simpl. split_and!; done.
Qed.

(** What each fenced verb writes. When the backend accepts it, the bucket holds
    exactly the holder's record with only this changed: a renewal moves the expiry
    and the run state, a stamp only the run state (never the expiry, so it does not
    extend liveness), an instance assignment only the instance. None moves the
    owner or the epoch. *)
Theorem fenced_verbs_write_only_their_field m s n h t now run id st' h' :
  reachable m s -> held s !! n = Some h ->
  (renew (store s) name h t now run = (st', Ok (RenHeld h')) ->
     lease h' = mkLease (owner (lease h)) (epoch (lease h))
                  (wrap_i64 (now + as_i64 (as_millis (ttl t))))
                  (endpoint (lease h)) (instance_id (lease h)) run /\
     current st' name = Some (lease h')) /\
  (stamp_state (store s) name h run = (st', Ok (RenHeld h')) ->
     lease h' = mkLease (owner (lease h)) (epoch (lease h)) (expires_ms (lease h))
                  (endpoint (lease h)) (instance_id (lease h)) run /\
     current st' name = Some (lease h')) /\
  (set_instance (store s) name h id = (st', Ok (RenHeld h')) ->
     lease h' = mkLease (owner (lease h)) (epoch (lease h)) (expires_ms (lease h))
                  (endpoint (lease h)) id (state (lease h)) /\
     current st' name = Some (lease h')).
Proof.
  intros Hr Hh. destruct (reachable_inv _ _ Hr) as (_ & Hok & _).
  destruct (Hok _ _ Hh) as (_ & b & Hb & Hd).
  split_and!; intros Hw; destruct (fenced_write_spec _ _ _ _ _ _ _ Hb Hd Hw) as [(_ & ? & -> & _) _];
    done.
Qed.

(** ** What an acquisition does *)

(** A live lease of another node is left alone. *)
Lemma acquire_spares_live_other st me ep t now st' r prev :
  acquire st name me ep t now = (st', r) -> current st name = Some prev ->
  is_expired_at prev now = false -> owner prev <> me -> st' = st.
Proof.
  unfold acquire, current. intros Ha Hc Hx Ho.
  destruct (validate t); [|by simplify_eq]. destruct (read st name) as [cur|] eqn:Hr; [|by simplify_eq].
  apply read_spec in Hr. destruct cur as [[l v]|]; [|by rewrite Hr in Hc].
  destruct Hr as (b & Hb & Hd). rewrite Hb in Hc. simpl in Hc. rewrite Hd in Hc. simplify_eq/=.
  unfold acquire_decide in Ha. rewrite Hx, bool_decide_false in Ha by done. by simplify_eq/=.
Qed.

(** The lease an attempt writes when it writes, from the record it read. *)
Definition next_lease (me ep : string) (t : Timing) (now : Z) (prev : option Lease) : Lease :=
  match prev with
  | None => mkLease me 1 (wrap_i64 (now + as_i64 (as_millis (ttl t)))) ep empty_str None
  | Some p =>
      mkLease me
        (if decide (owner p = me /\ now < expires_ms p) then epoch p else wrap_u64 (epoch p + 1))
        (wrap_i64 (now + as_i64 (as_millis (ttl t)))) ep (instance_id p) None
  end.

Lemma acquire_decide_next st me ep t now cur l m :
  read st name = Ok cur -> acquire_decide me ep t now cur = Write l m ->
  l = next_lease me ep t now (current st name) /\
  (forall p, current st name = Some p -> owner p = me \/ expires_ms p <= now).
Proof.
  intros Hr Hd. apply read_spec in Hr. unfold current. destruct cur as [[p v]|].
  - destruct Hr as (b & -> & Hb). simpl. rewrite Hb. simpl.
    unfold acquire_decide, is_expired_at in Hd.
    destruct (Z.leb_spec (expires_ms p) now); destruct (decide (owner p = me));
      rewrite ?bool_decide_true, ?bool_decide_false in Hd by done; simplify_eq/=;
      (split; [f_equal; case_decide; intuition lia|intros; simplify_eq; auto]).
  - rewrite Hr. simpl in *. simplify_eq. split; [done|]. by intros.
Qed.
End Fleet.

Arguments Sys St : clear implicits.
Arguments mkSys {St}.

Section Acquisition.
Context {St Body : Type} {OS : ObjectStore St Body} {LC : LeaseCodec Body}.
Context {OSL : ObjectStoreLaws St Body} {LCL : LeaseCodecLaws Body}.

(** Outcomes of one acquisition. [Held]: the bucket now holds exactly the
    record returned, it names the caller, its epoch is 1 for a new name, kept for a
    caller that still held the name and advanced otherwise, and the instance the
    previous owner recorded is carried over; the previous lease was the caller's own
    or expired. [HeldByOther]: the named owner is someone else's live lease and
    nothing was written. [Contended]: nothing was written. An error leaves the record
    or, when the write went unanswered, the record [Held] would have left. *)
Theorem acquire_outcomes st name me ep t now st' r :
  acquire st name me ep t now = (st', r) ->
  match r with
  | Ok (AcqHeld h) =>
      lease h = next_lease me ep t now (current st name) /\
      current st' name = Some (lease h) /\
      (forall p, current st name = Some p -> owner p = me \/ expires_ms p <= now)
  | Ok (HeldByOther o x) =>
      st' = st /\ o <> me /\ now < x /\
      exists p, current st name = Some p /\ owner p = o /\ expires_ms p = x
  | Ok Contended => contents st' (session_key name) = contents st (session_key name)
  | Err _ => current st' name = current st name \/
             current st' name = Some (next_lease me ep t now (current st name))
  end.
Proof.
  unfold acquire. intros Ha.
  destruct (validate t); [|simplify_eq; auto]. destruct (read st name) as [cur|] eqn:Hr; [|simplify_eq; auto].
  destruct (acquire_decide me ep t now cur) as [o x|l m] eqn:Hd.
  - simplify_eq. apply read_spec in Hr. unfold acquire_decide in Hd.
    destruct cur as [[p v]|]; [|done]. destruct Hr as (b & Hb & Hdc).
    destruct (negb _ && negb _) eqn:E; simplify_eq. unfold is_expired_at in E. to_prop.
    split_and!; auto. exists p. unfold current. rewrite Hb. simpl. by rewrite Hdc.
  - apply (acquire_decide_next _ _ _ _ _ _ _ _ _ Hr) in Hd as [-> Hp]. unfold acquire_write in Ha.
    destruct (put _ _ _ _) as [st2 o] eqn:Hput.
    assert (st2 = st') as -> by (destruct o as [[]|]; simplify_eq; done).
    apply put_spec in Hput as [Hput _]. unfold current in *. destruct o as [[v|]|e]; simplify_eq/=.
    + destruct Hput as [_ (b & ?%from_slice_to_vec & ->)]. simpl. rewrite H. done.
    + by destruct Hput.
    + destruct Hput as [->|[_ (b & v & ?%from_slice_to_vec & ->)]]; [by left|right].
      simpl. by rewrite H.
Qed.

Lemma backoff_range attempt rand : 0 <= attempt -> 10 <= backoff_ms attempt rand < 480.
Proof.
  intros Ha. unfold backoff_ms.
  assert (exists i, Z.min attempt 4 = i /\ (i = 0 \/ i = 1 \/ i = 2 \/ i = 3 \/ i = 4)) as (i & -> & Hi)
    by (eexists; split; [done|lia]).
  assert (exists b, Z.shiftl 20 i = b /\ 20 <= b <= 320) as (b & -> & Hb)
    by (destruct Hi as [-> | [-> | [-> | [-> | ->]]]]; eexists; (split; [reflexivity|]); vm_compute; split; discriminate).
  rewrite Z.max_l by lia. Z.to_euclidean_division_equations. lia.
Qed.

Lemma retry_loop_bounds fuel attempt name me ep t now rand others st st' r sleeps :
  0 <= attempt ->
  retry_loop fuel attempt name me ep t now rand others st = (st', r, sleeps) ->
  (length sleeps <= fuel)%nat /\
  (r = Ok Contended <-> length sleeps = fuel) /\
  Forall (fun ms => 10 <= ms < 480) sleeps.
Proof.
  revert attempt st sleeps. induction fuel as [|fuel IH]; intros attempt st sleeps Hat; simpl.
  { intros. simplify_eq. split_and!; [done..|constructor]. }
  destruct (acquire st name me ep t (now attempt)) as [st1 r1] eqn:Ea.
  destruct r1 as [[h|o x|]|e]; [intros; simplify_eq; simpl; split_and!; (done || lia || constructor)..| |
    intros; simplify_eq; simpl; split_and!; (done || lia || constructor)].
  destruct (retry_loop fuel _ _ _ _ _ _ _ _ _) as [[st2 r2] sl] eqn:El. intros. simplify_eq.
  apply IH in El as (? & ? & ?); [|lia]. simpl. split_and!; [lia|split; [intros ->; f_equal; tauto|intros [= Hc]; tauto]|].
  constructor; [by apply backoff_range|done].
Qed.

(** The contended retry ends. Whatever the rest of the fleet does meanwhile, it
    makes at most [max attempts 1] attempts, gives up as [Contended] exactly when
    every one of them lost its race, and each back-off is between 10 and 480 ms. *)
Theorem acquire_with_retry_bounded name me ep t attempts now rand others st :
  let '(_, r, sleeps) := acquire_with_retry st name me ep t attempts now rand others in
  Z.of_nat (length sleeps) <= Z.max attempts 1 /\
  (r = Ok Contended <-> Z.of_nat (length sleeps) = Z.max attempts 1) /\
  Forall (fun ms => 10 <= ms < 480) sleeps.
Proof.
  destruct (acquire_with_retry _ _ _ _ _ _ _ _ _) as [[st' r] sleeps] eqn:E.
  apply retry_loop_bounds in E as (? & Hc & ?); [|lia]. split_and!; [lia| |done].
  rewrite Hc. lia.
Qed.
End Acquisition.

(** * A run: [a] acquires the name, dies, and [b] takes it over *)

Definition run_a : Held := mkHeld (mkLease "a" 1 15000 "ep" empty_str None) (log_version 0).
Definition run_b : Held := mkHeld (mkLease "b" 2 35000 "ep" empty_str None) (log_version 1).
Definition run_entry (h : Held) : string * Lease := ("sessions/web", lease h).
Definition run0 : Sys (LogStore Lease) := mkSys [] ∅ ∅.
Definition run1 : Sys (LogStore Lease) := mkSys [] ∅ {["a" := (lease run_a, Create)]}.
Definition run2 : Sys (LogStore Lease) := mkSys [run_entry run_a] {["a" := run_a]} ∅.
Definition run3 : Sys (LogStore Lease) :=
  mkSys [run_entry run_a] {["a" := run_a]} {["b" := (lease run_b, Update (log_version 0))]}.
Definition run4 : Sys (LogStore Lease) :=
  mkSys [run_entry run_b; run_entry run_a] {["b" := run_b; "a" := run_a]} ∅.

Lemma run_step1 : sys_step "web" run0 run1.
Proof. apply (step_read "web" run0 "a" "ep" Timing_default 0 None); reflexivity. Qed.

Lemma run_step2 : sys_step "web" run1 run2.
Proof.
  apply (step_write "web" run1 "a" (lease run_a) Create [run_entry run_a] (Ok (AcqHeld run_a)));
    reflexivity.
Qed.

Lemma run_step3 : sys_step "web" run2 run3.
Proof.
  apply (step_read "web" run2 "b" "ep" Timing_default 20000 (Some (lease run_a, log_version 0)));
    reflexivity.
Qed.

Lemma run_step4 : sys_step "web" run3 run4.
Proof.
  apply (step_write "web" run3 "b" (lease run_b) (Update (log_version 0)) (store run4)
           (Ok (AcqHeld run_b))); reflexivity.
Qed.

Lemma run_reach2 : reachable "web" 2 run2.
Proof.
  exists run0. split; [done|]. eapply nsteps_l; [exact run_step1|].
  eapply nsteps_l; [exact run_step2|constructor].
Qed.

Lemma run_2_to_4 : nsteps (sys_step "web") 2 run2 run4.
Proof. eapply nsteps_l; [exact run_step3|]. eapply nsteps_l; [exact run_step4|constructor]. Qed.

Lemma run_reach4 : reachable "web" 4 run4.
Proof.
  destruct run_reach2 as (s0 & Hi & Hr). exists s0. split; [done|].
  apply (nsteps_trans 2 2 _ run2 _ Hr run_2_to_4).
Qed.

Lemma lease_protocol_refines_lock_witness : lock_step (abs "web" run2) (abs "web" run3).
Proof. exact (lease_protocol_refines_lock "web" 2 run2 run3 run_reach2 run_step3). Defined.

Lemma epoch_has_one_owner_witness :
  exists e2 o2, abs "web" run4 = Some (e2, o2) /\ 1 <= e2 /\ (1 = e2 -> "a" = o2).
Proof.
  apply (epoch_has_one_owner "web" 2 2 run2 run4 1 "a" run_reach2 run_2_to_4);
    [vm_compute; discriminate|reflexivity].
Defined.

Lemma at_most_one_unfenced_witness :
  "b" = "b" /\ current (store run4) "web" = Some (lease run_b) /\ owner (lease run_b) = "b".
Proof.
  apply (at_most_one_unfenced "web" 4 run4 "b" "b" run_b run_b (lease run_b) (lease run_b) run_reach4);
    reflexivity.
Defined.

Lemma superseded_never_writes_witness :
  snd (renew (store run4) "web" run_a Timing_default 21000 None) = Ok Fenced /\
  forall h', snd (renew (store run4) "web" run_a Timing_default 21000 None) <> Ok (RenHeld h').
Proof.
  split; [reflexivity|].
  apply (superseded_never_writes "web" 4 0 run4 run4 "a" run_a 2 "b" Timing_default 21000 None empty_str run_reach4);
    [reflexivity..|constructor|vm_compute; discriminate].
Defined.

Lemma fenced_verbs_write_only_their_field_witness :
  lease (mkHeld (mkLease "b" 2 36000 "ep" empty_str (Some "paused")) (log_version 2)) =
    mkLease "b" 2 (wrap_i64 (21000 + as_i64 (as_millis (ttl Timing_default)))) "ep" empty_str (Some "paused") /\
  current (fst (renew (store run4) "web" run_b Timing_default 21000 (Some "paused"))) "web" =
    Some (mkLease "b" 2 36000 "ep" empty_str (Some "paused")).
Proof.
  apply (fenced_verbs_write_only_their_field "web" 4 run4 "b" run_b Timing_default 21000 (Some "paused")
    "i-1" _ (mkHeld (mkLease "b" 2 36000 "ep" empty_str (Some "paused")) (log_version 2)) run_reach4);
    reflexivity.
Defined.

Lemma acquire_outcomes_witness :
  lease run_b = next_lease "b" "ep" Timing_default 20000 (current (store run2) "web") /\
  current (store run4) "web" = Some (lease run_b) /\
  (forall p, current (store run2) "web" = Some p -> owner p = "b" \/ expires_ms p <= 20000).
Proof.
  exact (acquire_outcomes (store run2) "web" "b" "ep" Timing_default 20000 (store run4)
    (Ok (AcqHeld run_b)) eq_refl).
Defined.
