(* ===== verification/Journal.v ===== *)
(** The node's journal: src/crates/barista-node-agent/src/db.rs, its tables, rows and
    the operations on instances, fleet leases, deadlines and execution epochs.

    The SQLite database is a record of tables. A table keyed by a primary key is a
    [gmap] from it to the other columns; an enumeration column holds the
    enumeration (the reader's [try_from(..).unwrap_or_default()] inverts the
    writer's [as i32], [Proto.instance_state_try_from_to_i32]); a message column
    (prost bytes) holds the message. A statement that updates rows is a function
    on the table and the count of rows it changed; a transaction that rolls back
    returns the tables it started from. Each method takes the clock reading it
    makes. SQLite's own I/O errors are not values here; the callers that react to
    them take them as a schedule. *)

From S2P Require Import Prelude Proto StateMachine.
Import InstanceState.

(** * Tables *)

(** A row of [instances]. *)
Record InstanceCols := mkInstance {
  i_spec : InstanceSpec;
  i_state : InstanceState.t;
  i_ready : bool;
  i_runtime : string;
  i_created_at_ms : Z;
  i_updated_at_ms : Z;
  i_ttl_deadline_ms : option Z;
  i_latest_snapshot_id : string;
  i_guest_token : string;
  i_guest_anchor : list Z;
  i_guest_cert : list Z;
  i_guest_key : list Z;
  i_host_cert : list Z;
  i_host_key : list Z;
  i_wake_at_ms : option Z;
  i_stop_requested : option bool;
  i_stop_exit_code : option Z;
  i_stop_detail : option string;
  i_run_epoch_ms : option Z;
  i_lineage_id : string;
  i_source_snapshot_id : string;
  i_source_capsule_id : string;
  i_parent_instance_id : string;
  i_execution_epoch : Z }.

#[global] Instance rebuild_InstanceCols : Rebuild InstanceCols := fun i =>
  mkInstance (i_spec i) (i_state i) (i_ready i) (i_runtime i) (i_created_at_ms i)
    (i_updated_at_ms i) (i_ttl_deadline_ms i) (i_latest_snapshot_id i) (i_guest_token i)
    (i_guest_anchor i) (i_guest_cert i) (i_guest_key i) (i_host_cert i) (i_host_key i)
    (i_wake_at_ms i) (i_stop_requested i) (i_stop_exit_code i) (i_stop_detail i)
    (i_run_epoch_ms i) (i_lineage_id i) (i_source_snapshot_id i) (i_source_capsule_id i)
    (i_parent_instance_id i) (i_execution_epoch i).

(** A row of [operations]. *)
Record OpCols := mkOp {
  o_kind : string;
  o_instance_id : string;
  o_idempotency_key : string;
  o_payload : string;
  o_state : OperationState.t;
  o_current_step : string;
  o_error_reason : ErrorReason.t;
  o_error_message : string;
  o_degraded : string;
  o_created_at_ms : Z;
  o_finished_at_ms : option Z;
  o_froze_workload : bool;
  o_actual_fork_mode : ForkMode.t;
  o_executor_active : bool }.

#[global] Instance rebuild_OpCols : Rebuild OpCols := fun o =>
  mkOp (o_kind o) (o_instance_id o) (o_idempotency_key o) (o_payload o) (o_state o)
    (o_current_step o) (o_error_reason o) (o_error_message o) (o_degraded o)
    (o_created_at_ms o) (o_finished_at_ms o) (o_froze_workload o) (o_actual_fork_mode o)
    (o_executor_active o).

(** A row of [events]; the cursor is its primary key. *)
Record EventCols := mkEvent {
  e_cursor : Z;
  e_type : EventType.t;
  e_instance_id : string;
  e_op_id : string;
  e_state : InstanceState.t;
  e_message : string;
  e_at_ms : Z;
  e_stop_requested : option bool;
  e_stop_exit_code : option Z;
  e_stop_detail : option string }.

(** A row of [snapshots]; the hook columns are [NOT NULL DEFAULT 0]. *)
Record SnapshotCols := mkSnapshot {
  s_instance_id : string;
  s_kind : SnapshotKind.t;
  s_cpu_class : string;
  s_template_hash : string;
  s_runtime_bundle_ref : string;
  s_tier : SnapshotTier.t;
  s_size_bytes : Z;
  s_created_at_ms : Z;
  s_hook_ran : bool;
  s_hook_timed_out : bool;
  s_hook_exit_code : Z;
  s_name : string }.

(** A row of [fleet_leases]. *)
Record FleetLeaseCols := mkFleetLease {
  fl_epoch : Z;
  fl_instance_id : string;
  fl_fencing : bool;
  fl_acquired_at_ms : Z }.

#[global] Instance rebuild_FleetLeaseCols : Rebuild FleetLeaseCols := fun l =>
  mkFleetLease (fl_epoch l) (fl_instance_id l) (fl_fencing l) (fl_acquired_at_ms l).

(** A row of [object_refs]. *)
Record ObjectCols := mkObject {
  or_length : Z;
  or_refcount : Z;
  or_verified : bool;
  or_gc_pending : bool }.

(** A row of [capsules]. *)
Record CapsuleCols := mkCapsule {
  c_manifest : CapsuleManifest;
  c_storage : CapsuleStorage.t;
  c_lineage_id : string;
  c_total_size : Z;
  c_created_at_ms : Z }.

#[global] Instance rebuild_CapsuleCols : Rebuild CapsuleCols := fun c =>
  mkCapsule (c_manifest c) (c_storage c) (c_lineage_id c) (c_total_size c) (c_created_at_ms c).

(** A row of [capsule_operations]. *)
Record CapsuleOpCols := mkCapsuleOp {
  co_kind : string;
  co_capsule_id : string;
  co_idempotency_key : string;
  co_request : string;
  co_state : OperationState.t;
  co_error_reason : ErrorReason.t;
  co_error_message : string;
  co_created_at_ms : Z;
  co_finished_at_ms : option Z }.

#[global] Instance rebuild_CapsuleOpCols : Rebuild CapsuleOpCols := fun c =>
  mkCapsuleOp (co_kind c) (co_capsule_id c) (co_idempotency_key c) (co_request c) (co_state c)
    (co_error_reason c) (co_error_message c) (co_created_at_ms c) (co_finished_at_ms c).

(** The database. [events] is in cursor order; [event_seq] is the AUTOINCREMENT
    counter, the largest cursor ever given out; the last two are the columns of the
    single row of [journal_meta]. *)
Record Db := mkDb {
  instances : gmap string InstanceCols;
  operations : gmap string OpCols;
  events : list EventCols;
  event_seq : Z;
  snapshots : gmap string SnapshotCols;
  fleet_leases : gmap string FleetLeaseCols;
  object_refs : gmap string ObjectCols;
  capsules : gmap string CapsuleCols;
  capsule_operations : gmap string CapsuleOpCols;
  last_pruned_cursor : Z;
  next_execution_epoch : Z }.

#[global] Instance rebuild_Db : Rebuild Db := fun d =>
  mkDb (instances d) (operations d) (events d) (event_seq d) (snapshots d) (fleet_leases d)
    (object_refs d) (capsules d) (capsule_operations d) (last_pruned_cursor d)
    (next_execution_epoch d).

Definition empty_db : Db := mkDb ∅ ∅ [] 0 ∅ ∅ ∅ ∅ ∅ 0 0.

(** [UPDATE t SET .. WHERE key = k AND p]: the table and whether a row changed. *)
Definition update_where {A} (p : A -> bool) (f : A -> A) (k : string) (m : gmap string A)
    : gmap string A * bool :=
  match m !! k with
  | Some a => if p a then (<[k := f a]> m, true) else (m, false)
  | None => (m, false)
  end.

(** [UPDATE t SET .. WHERE key = k]. *)
Definition update {A} (f : A -> A) (k : string) (m : gmap string A) : gmap string A :=
  fst (update_where (fun _ => true) f k m).

(** * Rows as the callers see them *)

Record Identity := {
  anchor : list Z;
  guest_cert : list Z;
  guest_key : list Z;
  host_cert : list Z;
  host_key : list Z }.

Record InstanceRow := mkInstanceRow {
  ir_id : string;
  ir_spec : InstanceSpec;
  ir_state : InstanceState.t;
  ir_ready : bool;
  ir_runtime : string;
  ir_created_at_ms : Z;
  ir_updated_at_ms : Z;
  ir_ttl_deadline_ms : option Z;
  ir_wake_at_ms : option Z;
  ir_stop_reason : option StopReason;
  ir_latest_snapshot_id : string;
  ir_guest_token : string;
  ir_identity : option Identity;
  ir_run_epoch_ms : option Z;
  ir_lineage : option Lineage;
  ir_execution_epoch : Z }.

Definition stop_reason_from (requested : option bool) (exit_code : option Z)
    (detail : option string) : option StopReason :=
  match requested with
  | Some r => Some {| requested := r; exit_code := exit_code; detail := default empty_str detail |}
  | None => None
  end.

Definition instance_row_from (i : InstanceCols) : InstanceRow := {|
  ir_id := Proto.instance_id (i_spec i);
  ir_spec := i_spec i;
  ir_state := i_state i;
  ir_ready := i_ready i;
  ir_runtime := i_runtime i;
  ir_created_at_ms := i_created_at_ms i;
  ir_updated_at_ms := i_updated_at_ms i;
  ir_ttl_deadline_ms := i_ttl_deadline_ms i;
  ir_wake_at_ms := i_wake_at_ms i;
  ir_stop_reason := stop_reason_from (i_stop_requested i) (i_stop_exit_code i) (i_stop_detail i);
  ir_latest_snapshot_id := i_latest_snapshot_id i;
  ir_guest_token := i_guest_token i;
  ir_identity :=
    match i_guest_anchor i with
    | [] => None
    | a => Some {| anchor := a; guest_cert := i_guest_cert i; guest_key := i_guest_key i;
                   host_cert := i_host_cert i; host_key := i_host_key i |}
    end;
  ir_run_epoch_ms := i_run_epoch_ms i;
  ir_lineage :=
    if is_empty (i_lineage_id i) && is_empty (i_source_snapshot_id i) &&
       is_empty (i_source_capsule_id i) && is_empty (i_parent_instance_id i)
    then None
    else Some {| lineage_id := i_lineage_id i; source_snapshot_id := i_source_snapshot_id i;
                 source_capsule_id := i_source_capsule_id i;
                 parent_instance_id := i_parent_instance_id i |};
  ir_execution_epoch := as_u64 (i_execution_epoch i) |}.

Record OperationRow := mkOperationRow {
  op_id : string;
  op_kind : string;
  op_instance_id : string;
  op_payload : string;
  op_state : OperationState.t;
  op_current_step : string;
  op_error_reason : ErrorReason.t;
  op_error_message : string;
  op_degraded : string;
  op_created_at_ms : Z;
  op_finished_at_ms : option Z;
  op_froze_workload : bool;
  op_actual_fork_mode : ForkMode.t }.

Definition operation_row_from (k : string) (o : OpCols) : OperationRow := {|
  op_id := k;
  op_kind := o_kind o;
  op_instance_id := o_instance_id o;
  op_payload := o_payload o;
  op_state := o_state o;
  op_current_step := o_current_step o;
  op_error_reason := o_error_reason o;
  op_error_message := o_error_message o;
  op_degraded := o_degraded o;
  op_created_at_ms := o_created_at_ms o;
  op_finished_at_ms := o_finished_at_ms o;
  op_froze_workload := o_froze_workload o;
  op_actual_fork_mode := o_actual_fork_mode o |}.

Record SnapshotRow := mkSnapshotRow {
  sr_snapshot_id : string;
  sr_instance_id : string;
  sr_kind : SnapshotKind.t;
  sr_cpu_class : string;
  sr_template_hash : string;
  sr_runtime_bundle_ref : string;
  sr_tier : SnapshotTier.t;
  sr_size_bytes : Z;
  sr_created_at_ms : Z;
  sr_pre_snapshot_hook : option HookOutcome;
  sr_name : string }.

(** The columns are never NULL, so the reader always finds an outcome. *)
Definition snapshot_row_from (k : string) (s : SnapshotCols) : SnapshotRow := {|
  sr_snapshot_id := k;
  sr_instance_id := s_instance_id s;
  sr_kind := s_kind s;
  sr_cpu_class := s_cpu_class s;
  sr_template_hash := s_template_hash s;
  sr_runtime_bundle_ref := s_runtime_bundle_ref s;
  sr_tier := s_tier s;
  sr_size_bytes := as_u64 (s_size_bytes s);
  sr_created_at_ms := s_created_at_ms s;
  sr_pre_snapshot_hook := Some {| ran := s_hook_ran s; timed_out := s_hook_timed_out s;
                               hook_exit_code := s_hook_exit_code s |};
  sr_name := s_name s |}.

Record HeldLeaseRow := mkHeldLeaseRow {
  hl_name : string;
  hl_epoch : Z;
  hl_instance_id : string;
  hl_fencing : bool }.

(** [i64] division truncates towards zero. *)
Definition ts (ms : Z) : Timestamp :=
  {| seconds := Z.quot ms 1000; nanos := Z.rem ms 1000 * 1000000 |}.

(** * Instances *)

(** [insert_instance]: a second row for the id is a constraint error. *)
Definition insert_instance (spec : InstanceSpec) (runtime guest_token : string) (now : Z) (db : Db)
    : Db * res string unit :=
  match instances db !! instance_id spec with
  | Some _ => (db, Err "UNIQUE constraint failed: instances.instance_id")
  | None =>
      (db <| instances := <[instance_id spec :=
         mkInstance spec Creating false runtime now now None empty_str guest_token [] [] [] [] []
           None None None None None empty_str empty_str empty_str empty_str 0]> (instances db) |>,
       Ok tt)
  end.

Definition get_instance (id : string) (db : Db) : option InstanceRow :=
  instance_row_from <$> instances db !! id.

(** [list_instances]: [ORDER BY created_at_ms]; SQL leaves the order of equal keys
    open. *)
Definition by_created (a b : InstanceRow) : Prop := ir_created_at_ms a <= ir_created_at_ms b.
#[global] Instance by_created_dec : RelDecision by_created.
Proof. intros a b. unfold by_created. apply _. Defined.

Definition list_instances (db : Db) : list InstanceRow :=
  merge_sort by_created (instance_row_from ∘ snd <$> map_to_list (instances db)).

Definition transitional_instances (db : Db) : list InstanceRow :=
  filter (fun i => is_transitional (ir_state i) = true) (list_instances db).

Definition clear_credentials (i : InstanceCols) : InstanceCols :=
  i <| i_guest_token := empty_str |> <| i_guest_anchor := [] |> <| i_guest_cert := [] |>
    <| i_guest_key := [] |> <| i_host_cert := [] |> <| i_host_key := [] |>.

Definition set_instance_state (id : string) (st : InstanceState.t) (now : Z) (db : Db) : Db :=
  let m1 := update (fun i => i <| i_state := st |> <| i_updated_at_ms := now |>) id (instances db) in
  let m2 := if bool_decide (st = Running)
            then update (fun i => i <| i_run_epoch_ms := Some now |>) id m1 else m1 in
  let m3 := if bool_decide (st = Destroyed) then update clear_credentials id m2 else m2 in
  db <| instances := m3 |>.

(** [issue_execution_epoch]: the column is a signed 64-bit integer. *)
Definition issue_execution_epoch (db : Db) : Db * Z :=
  let e := next_execution_epoch db + 1 in
  (db <| next_execution_epoch := e |>, as_u64 e).

Definition set_instance_epoch (id : string) (epoch now : Z) (db : Db) : Db * res string unit :=
  let '(m, changed) := update_where (fun _ => true)
    (fun i => i <| i_execution_epoch := as_i64 epoch |> <| i_updated_at_ms := now |>)
    id (instances db) in
  if changed then (db <| instances := m |>, Ok tt)
  else (db, Err ("instance " +:+ id +:+ " is absent, so execution epoch " +:+ pretty epoch +:+
                 " was not bound")).

Definition set_instance_ready (id : string) (ready : bool) (now : Z) (db : Db) : Db * bool :=
  let '(m, changed) := update_where (fun i => negb (bool_decide (i_ready i = ready)))
    (fun i => i <| i_ready := ready |> <| i_updated_at_ms := now |>) id (instances db) in
  (db <| instances := m |>, changed).

Definition set_ttl_deadline (id : string) (deadline_ms : option Z) (now : Z) (db : Db) : Db :=
  db <| instances := update (fun i => i <| i_ttl_deadline_ms := deadline_ms |>
                                        <| i_updated_at_ms := now |>) id (instances db) |>.

Definition set_wake_at (id : string) (wake : option Z) (now : Z) (db : Db) : Db :=
  db <| instances := update (fun i => i <| i_wake_at_ms := wake |> <| i_updated_at_ms := now |>)
                       id (instances db) |>.

(** * Deadlines *)

Inductive Claim : Type :=
| TtlExpiry (deadline_ms : Z)
| Wake (at_ms : Z).

(** The column a claim takes, as its reader and its reset. *)
Definition claim_value (c : Claim) : Z :=
  match c with TtlExpiry d => d | Wake a => a end.
Definition claim_column (c : Claim) (i : InstanceCols) : option Z :=
  match c with TtlExpiry _ => i_ttl_deadline_ms i | Wake _ => i_wake_at_ms i end.
Definition claim_clear (c : Claim) (i : InstanceCols) : InstanceCols :=
  match c with
  | TtlExpiry _ => i <| i_ttl_deadline_ms := None |>
  | Wake _ => i <| i_wake_at_ms := None |>
  end.

Definition take_deadline (id : string) (c : Claim) (now : Z) (db : Db) : Db * bool :=
  let '(m, changed) := update_where
    (fun i => bool_decide (claim_column c i = Some (claim_value c)) && (claim_value c <=? now))
    (fun i => (claim_clear c i) <| i_updated_at_ms := now |>) id (instances db) in
  (db <| instances := m |>, changed).

Definition claim_wake (id : string) (expected now : Z) (db : Db) : Db * bool :=
  take_deadline id (Wake expected) now db.

Definition claim_ttl_expiry (id : string) (expected now : Z) (db : Db) : Db * bool :=
  take_deadline id (TtlExpiry expected) now db.

(** * Fleet leases *)

Definition hold_lease (name : string) (epoch : Z) (iid : string) (now : Z) (db : Db) : Db :=
  db <| fleet_leases :=
    match fleet_leases db !! name with
    | Some l => <[name := l <| fl_epoch := as_i64 epoch |> <| fl_instance_id := iid |>]> (fleet_leases db)
    | None => <[name := mkFleetLease (as_i64 epoch) iid false now]> (fleet_leases db)
    end |>.

Definition set_lease_instance (name iid : string) (db : Db) : Db :=
  db <| fleet_leases := update (fun l => l <| fl_instance_id := iid |>) name (fleet_leases db) |>.

Definition mark_lease_fencing (name : string) (db : Db) : Db :=
  db <| fleet_leases := update (fun l => l <| fl_fencing := true |>) name (fleet_leases db) |>.

Definition release_lease (name : string) (db : Db) : Db :=
  db <| fleet_leases := delete name (fleet_leases db) |>.

Definition held_lease_row (p : string * FleetLeaseCols) : HeldLeaseRow :=
  mkHeldLeaseRow p.1 (as_u64 (fl_epoch p.2)) (fl_instance_id p.2) (fl_fencing p.2).

(** [held_leases]: [ORDER BY name]. *)
Definition by_name (a b : HeldLeaseRow) : Prop := String.le (hl_name a) (hl_name b).
#[global] Instance by_name_dec : RelDecision by_name.
Proof. intros a b. unfold by_name. apply _. Defined.

Definition held_leases (db : Db) : list HeldLeaseRow :=
  merge_sort by_name (held_lease_row <$> map_to_list (fleet_leases db)).
