(* ===== verification/Events.v ===== *)
(** The event journal: src/crates/barista-node-agent/src/db.rs ([insert_event] to
    [events_after]), src/crates/barista-node-agent/src/events.rs (the bus) and the loop of
    [sweep_retention] of reconcile.rs. Who watches the events is in [Watch]. *)

From S2P Require Import Prelude Proto Journal.

(** * The message *)

Record Event := mkEv {
  ev_cursor : Z;
  ev_type : EventType.t;
  ev_instance_id : string;
  ev_op_id : string;
  ev_state : InstanceState.t;
  ev_message : string;
  ev_at : option Timestamp;
  ev_stop_reason : option StopReason }.

#[global] Instance rebuild_Event : Rebuild Event := fun e =>
  mkEv (ev_cursor e) (ev_type e) (ev_instance_id e) (ev_op_id e) (ev_state e) (ev_message e)
    (ev_at e) (ev_stop_reason e).

Definition Event_default : Event :=
  mkEv 0 EventType.Unspecified empty_str empty_str InstanceState.Unspecified empty_str None None.

(** * The table *)

(** [insert_event]: AUTOINCREMENT gives the next cursor. *)
Definition insert_event (ev : Event) (now : Z) (db : Db) : Db * Z :=
  let c := event_seq db + 1 in
  let row := mkEvent c (ev_type ev) (ev_instance_id ev) (ev_op_id ev) (ev_state ev) (ev_message ev)
    now (requested <$> ev_stop_reason ev) (ev_stop_reason ev ≫= exit_code)
    (detail <$> ev_stop_reason ev) in
  (db <| events := events db ++ [row] |> <| event_seq := c |>, as_u64 c).

(** [MIN(cursor)] and [MAX(cursor)]; NULL over no rows. *)
Definition min_cursor (l : list EventCols) : option Z :=
  foldr (fun e acc => Some (match acc with Some m => Z.min (e_cursor e) m | None => e_cursor e end))
    None l.
Definition max_cursor (l : list EventCols) : option Z :=
  foldr (fun e acc => Some (match acc with Some m => Z.max (e_cursor e) m | None => e_cursor e end))
    None l.

Definition journal_floor (db : Db) : Z :=
  match min_cursor (events db) with
  | Some m => as_u64 (Z.max (m - 1) 0)
  | None => as_u64 (last_pruned_cursor db)
  end.

(** [LIMIT n]: a negative limit is none. *)
Definition sql_limit {A} (n : Z) (l : list A) : list A :=
  if n <? 0 then l else take (Z.to_nat n) l.

Definition prune_events (older_than_ms chunk : Z) (db : Db) : Db * Z :=
  let aged := filter (fun e => e_at_ms e < older_than_ms) (events db) in
  match max_cursor (sql_limit (as_i64 chunk) aged) with
  | None => (db, 0)
  | Some highest =>
      let goes := fun e => e_at_ms e < older_than_ms /\ e_cursor e <= highest in
      (db <| events := filter (fun e => ~ goes e) (events db) |>
          <| last_pruned_cursor := Z.max (last_pruned_cursor db) highest |>,
       Z.of_nat (length (filter goes (events db))))
  end.

Definition head_cursor (db : Db) : Z := as_u64 (default 0 (max_cursor (events db))).

Definition event_from (e : EventCols) : Event :=
  mkEv (as_u64 (e_cursor e)) (e_type e) (e_instance_id e) (e_op_id e) (e_state e) (e_message e)
    (Some (ts (e_at_ms e)))
    (stop_reason_from (e_stop_requested e) (e_stop_exit_code e) (e_stop_detail e)).

Definition matches (instance_id : string) (e : EventCols) : Prop :=
  instance_id = empty_str \/ e_instance_id e = instance_id.
#[global] Instance matches_dec i e : Decision (matches i e).
Proof. unfold matches. apply _. Defined.

Definition events_after (cursor : Z) (instance_id : string) (limit : Z) (db : Db) : list Event :=
  event_from <$> sql_limit (if limit =? 0 then -1 else as_i64 limit)
    (filter (fun e => as_i64 cursor < e_cursor e /\ matches instance_id e) (events db)).

(** * The bus *)

(** [emit]: the cursor, and the event as subscribers get it. [sent_at] is the second
    clock reading. *)
Definition emit (ev : Event) (now sent_at : Z) (db : Db) : Db * (Z * Event) :=
  let '(db', c) := insert_event ev now db in
  (db', (c, ev <| ev_cursor := c |> <| ev_at := Some (ts sent_at) |>)).

(** [record] reports a refused event and goes on; this is its effect on the journal. *)
Definition record (ev : Event) (now : Z) (db : Db) : Db := fst (insert_event ev now db).

Definition state_changed (iid op : string) (st : InstanceState.t) (r : option StopReason) : Event :=
  Event_default <| ev_type := EventType.StateChanged |> <| ev_instance_id := iid |>
    <| ev_op_id := op |> <| ev_state := st |> <| ev_stop_reason := r |>.

Definition typed (ty : EventType.t) (iid op msg : string) : Event :=
  Event_default <| ev_type := ty |> <| ev_instance_id := iid |> <| ev_op_id := op |>
    <| ev_message := msg |>.

Definition wake_fired := typed EventType.WakeFired.
Definition idle_fired := typed EventType.IdleFired.
Definition ready_changed (iid : string) (ready : bool) : Event :=
  typed EventType.ReadyChanged iid empty_str (if ready then "ready" else "not ready").
Definition degradation := typed EventType.Degradation.
Definition lineage_recorded := typed EventType.LineageRecorded.
Definition capsule_exported := typed EventType.CapsuleExported.
Definition capsule_imported := typed EventType.CapsuleImported.
Definition epoch_rotated := typed EventType.EpochRotated.
Definition fenced (iid msg : string) : Event := typed EventType.Fenced iid empty_str msg.
Definition op_progress := typed EventType.OperationProgress.
Definition restored := typed EventType.Restored.

(** * Retention's loop *)

(** The sweep's loop over [prune_events]: until nothing, or a short chunk, goes. *)
Definition RETENTION_CHUNK : Z := 1000.

Fixpoint retention_loop (fuel : nat) (cutoff chunk removed : Z) (db : Db) : option (Db * Z) :=
  match fuel with
  | O => None
  | S fuel' =>
      match prune_events cutoff chunk db with
      | (db', 0) => Some (db', removed)
      | (db', n) =>
          if n <? chunk then Some (db', removed + n)
          else retention_loop fuel' cutoff chunk (removed + n) db'
      end
  end.

(** * Lemmas *)

Definition cursor_lt (a b : EventCols) : Prop := e_cursor a < e_cursor b.

(** The table's shape: cursor order, cursors handed out by the counter. *)
Record events_ok (db : Db) : Prop := {
  ok_sorted : StronglySorted cursor_lt (events db);
  ok_range : Forall (fun e => 1 <= e_cursor e <= event_seq db) (events db);
  ok_seq : 0 <= last_pruned_cursor db <= event_seq db;
  ok_bound : event_seq db <= i64_max }.

Lemma sorted_filter {A} (R : A -> A -> Prop) P `{!forall x, Decision (P x)} (l : list A) :
  StronglySorted R l -> StronglySorted R (filter P l).
Proof.
  induction 1 as [|x l Hs IH Hf]; [constructor|]. rewrite filter_cons. case_decide; [|done].
  constructor; [done|]. apply Forall_forall. intros y [_ ?]%list_elem_of_filter.
  rewrite Forall_forall in Hf. auto.
Qed.

Lemma max_cursor_sorted l :
  StronglySorted cursor_lt l -> max_cursor l = e_cursor <$> last l.
Proof.
  induction 1 as [|x l Hs IH Hf]; [done|]. cbn [max_cursor foldr]. fold (max_cursor l). rewrite IH.
  destruct l as [|y l]; [done|]. rewrite last_cons_cons.
  destruct (last (y :: l)) as [z|] eqn:E; [|by apply last_None in E].
  simpl. f_equal. rewrite Forall_forall in Hf. unfold cursor_lt in Hf.
  specialize (Hf z (last_Some_elem_of _ _ E)). lia.
Qed.

Lemma min_cursor_sorted l :
  StronglySorted cursor_lt l -> min_cursor l = e_cursor <$> head l.
Proof.
  induction 1 as [|x l Hs IH Hf]; [done|]. cbn [min_cursor foldr]. fold (min_cursor l). rewrite IH.
  destruct l as [|y l]; [done|]. simpl. f_equal. apply Forall_cons_1 in Hf as [Hf _].
  unfold cursor_lt in Hf. lia.
Qed.

(** A sorted list cut at the last cursor of a non-empty prefix. *)
Lemma cut_after_prefix p r z :
  StronglySorted cursor_lt (p ++ r) -> last p = Some z ->
  filter (fun e => e_cursor e <= e_cursor z) (p ++ r) = p /\
  filter (fun e => e_cursor z < e_cursor e) (p ++ r) = r.
Proof.
  intros Hs Hz. apply StronglySorted_app in Hs as (Hc & Hp & Hr).
  apply last_Some in Hz as [p' ->].
  apply StronglySorted_app in Hp as (Hp' & _ & _).
  assert (Forall (fun e => e_cursor e <= e_cursor z) (p' ++ [z])) as Hle.
  { apply Forall_app. split; [|by repeat constructor]. apply Forall_forall. intros e He.
    assert (cursor_lt e z) by (apply Hp'; [done|by left]). unfold cursor_lt in *. lia. }
  assert (Forall (fun e => e_cursor z < e_cursor e) r) as Hgt.
  { apply Forall_forall. intros e He. apply Hc; [|done]. apply elem_of_app. right. by left. }
  rewrite !(filter_app _ (p' ++ [z]) r). split.
  - rewrite (filter_all _ _ Hle), (filter_none _ r), app_nil_r; [done|].
    eapply Forall_impl; [exact Hgt|]. simpl. lia.
  - rewrite (filter_none _ (p' ++ [z])), (filter_all _ _ Hgt); [done|].
    eapply Forall_impl; [exact Hle|]. simpl. lia.
Qed.

(** ** Reading *)

Definition pending_after (c : Z) (iid : string) (l : list EventCols) : list EventCols :=
  filter (fun e => c < e_cursor e /\ matches iid e) l.

Lemma pending_after_split c iid l p r z :
  StronglySorted cursor_lt l -> pending_after c iid l = p ++ r -> last p = Some z ->
  c < e_cursor z /\ pending_after (e_cursor z) iid l = r.
Proof.
  intros Hs Hp Hz. pose proof (last_Some_elem_of _ _ Hz) as Hin.
  assert (z ∈ pending_after c iid l) as [[Hc _] _]%list_elem_of_filter
    by (rewrite Hp; apply elem_of_app; by left).
  split; [done|].
  rewrite <- (proj2 (cut_after_prefix p r z ltac:(rewrite <- Hp; by apply sorted_filter) Hz)), <- Hp.
  unfold pending_after. rewrite list_filter_filter. apply list_filter_iff. intros e. intuition lia.
Qed.

Lemma sql_limit_pos {A} n (l : list A) : 0 < n -> sql_limit n l = take (Z.to_nat n) l.
Proof. intros. unfold sql_limit. destruct (Z.ltb_spec n 0); [lia|done]. Qed.

Lemma events_after_all c iid db :
  0 <= c <= i64_max -> events_after c iid 0 db = event_from <$> pending_after c iid (events db).
Proof. intros. unfold events_after, pending_after. by rewrite (as_i64_small c). Qed.

Lemma events_after_page c iid n db :
  0 <= c <= i64_max -> 0 < n <= i64_max ->
  events_after c iid n db = event_from <$> take (Z.to_nat n) (pending_after c iid (events db)).
Proof.
  intros. unfold events_after, pending_after. destruct (Z.eqb_spec n 0); [lia|].
  by rewrite !as_i64_small, sql_limit_pos by lia.
Qed.

Lemma event_cursor_ok db e : events_ok db -> e ∈ events db -> ev_cursor (event_from e) = e_cursor e.
Proof.
  intros [_ Hr _ Hb] He. rewrite Forall_forall in Hr. specialize (Hr _ He). simpl.
  apply as_u64_small. lia.
Qed.

(** Where reading up to a list of pending events leaves the reader. *)
Definition reached (c : Z) (l : list EventCols) : Z := default c (e_cursor <$> last l).

Lemma last_page_cursor db c iid p :
  events_ok db -> p `sublist_of` pending_after c iid (events db) ->
  default c (ev_cursor <$> last (event_from <$> p)) = reached c p.
Proof.
  intros Hok Hp. rewrite fmap_last. unfold reached. destruct (last p) as [z|] eqn:Hz; [|done]. simpl.
  apply (event_cursor_ok db); [done|]. apply last_Some_elem_of in Hz.
  eapply sublist_subseteq in Hz; [|exact Hp]. by apply list_elem_of_filter in Hz as [_ ?].
Qed.

Lemma pending_length c iid l : (length (pending_after c iid l) <= length l)%nat.
Proof. apply length_filter. Qed.

(** ** Pruning *)

(** One call removes exactly the oldest [chunk] events that are past retention, and
    nothing else. *)
Lemma prune_events_spec cutoff chunk db :
  events_ok db -> 0 < chunk <= i64_max ->
  let aged := filter (fun e => e_at_ms e < cutoff) (events db) in
  let gone := take (Z.to_nat chunk) aged in
  let r := prune_events cutoff chunk db in
  events (fst r) = filter (fun e => ~ (e_at_ms e < cutoff /\ e_cursor e <= reached 0 gone)) (events db) /\
  filter (fun e => e_at_ms e < cutoff) (events (fst r)) = drop (Z.to_nat chunk) aged /\
  filter (fun e => cutoff <= e_at_ms e) (events (fst r)) =
    filter (fun e => cutoff <= e_at_ms e) (events db) /\
  snd r = Z.of_nat (length gone) /\
  last_pruned_cursor (fst r) = Z.max (last_pruned_cursor db) (reached 0 gone) /\
  event_seq (fst r) = event_seq db.
Proof.
  intros Hok Hn aged gone. unfold prune_events. rewrite as_i64_small, sql_limit_pos by lia.
  fold aged. fold gone.
  assert (StronglySorted cursor_lt aged) as Hs by apply sorted_filter, Hok.
  assert (StronglySorted cursor_lt (gone ++ drop (Z.to_nat chunk) aged)) as Hs2
    by (unfold gone; by rewrite take_drop).
  rewrite max_cursor_sorted by (by apply StronglySorted_app in Hs2 as (_ & ? & _)).
  unfold reached. destruct (last gone) as [z|] eqn:Hz; simpl.
  - destruct (cut_after_prefix _ _ _ Hs2 Hz) as [Hcut1 Hcut2].
    unfold gone in Hcut1, Hcut2. rewrite take_drop in Hcut1, Hcut2. fold gone in Hcut1.
    split_and!; try done.
    + rewrite <- Hcut2. unfold aged. rewrite !list_filter_filter. apply list_filter_iff. intros. lia.
    + rewrite list_filter_filter. apply list_filter_iff. intros. lia.
    + rewrite <- Hcut1 at 1. unfold aged. rewrite list_filter_filter.
      f_equal. f_equal. apply list_filter_iff. intros. lia.
  - apply last_None in Hz. destruct Hok as [_ Hr ? _]. split_and!; rewrite ?Hz; try done; [| |lia].
    + symmetry. apply filter_all. eapply Forall_impl; [exact Hr|]. simpl. lia.
    + assert (aged = []) as Ha by (apply take_nil_inv in Hz as [|]; [lia|done]).
      fold aged. by rewrite Ha, drop_nil.
Qed.

Lemma prune_events_ok cutoff chunk db :
  events_ok db -> 0 < chunk <= i64_max -> events_ok (fst (prune_events cutoff chunk db)).
Proof.
  intros Hok Hn. destruct (prune_events_spec cutoff chunk db Hok Hn) as (He & _ & _ & _ & Hl & Hq).
  destruct Hok as [Hs Hr Hp Hb]. rewrite Forall_forall in Hr. split.
  - rewrite He. by apply sorted_filter.
  - rewrite He, Hq. apply Forall_forall. intros e [_ ?]%list_elem_of_filter. auto.
  - rewrite Hl, Hq. unfold reached.
    destruct (last (take _ _)) as [z|] eqn:Hz; simpl; [|lia].
    apply last_Some_elem_of in Hz. eapply sublist_subseteq in Hz; [|apply sublist_take].
    apply list_elem_of_filter in Hz as [_ ?%Hr]. lia.
  - by rewrite Hq.
Qed.

Lemma insert_event_ok ev now db :
  events_ok db -> event_seq db < i64_max -> events_ok (fst (insert_event ev now db)).
Proof.
  intros [Hs Hr Hp Hb] Hlt. rewrite Forall_forall in Hr. split; simpl; [|..|lia|lia].
  - apply StronglySorted_app_2; [|done|repeat constructor].
    intros x1 x2 H1 ->%list_elem_of_singleton. unfold cursor_lt. simpl. specialize (Hr _ H1). lia.
  - apply Forall_app. split; [|repeat constructor; simpl; lia].
    apply Forall_forall. intros e He. specialize (Hr _ He). lia.
Qed.

(** * Properties *)

(** ** Retention *)

Lemma retention_loop_spec fuel cutoff chunk removed db :
  events_ok db -> 0 < chunk <= i64_max ->
  (length (filter (fun e => (e_at_ms e < cutoff)%Z) (events db)) < fuel)%nat ->
  exists db', retention_loop fuel cutoff chunk removed db =
    Some (db', removed + Z.of_nat (length (filter (fun e => e_at_ms e < cutoff) (events db)))) /\
  events db' = filter (fun e => cutoff <= e_at_ms e) (events db) /\ events_ok db'.
Proof.
  revert removed db. induction fuel as [|fuel IH]; intros removed db Hok Hn Hf; [lia|].
  cbn [retention_loop]. destruct (prune_events_spec cutoff chunk db Hok Hn) as (He & Ha & Hy & Hc & _).
  pose proof (prune_events_ok cutoff chunk db Hok Hn) as Hok'.
  destruct (prune_events cutoff chunk db) as [db' n]; simpl in *.
  set (aged := filter (fun e => e_at_ms e < cutoff) (events db)) in *.
  rewrite length_take in Hc.
  assert (drop (Z.to_nat chunk) aged = [] -> events db' = filter (fun e => cutoff <= e_at_ms e) (events db)) as Hdone.
  { intros Hd. rewrite Hd in Ha. rewrite <- Hy. symmetry. apply filter_all, Forall_forall. intros e Hin.
    destruct (decide (cutoff <= e_at_ms e)); [done|].
    assert (e ∈ filter (fun e => e_at_ms e < cutoff) (events db')) as Hx
      by (apply list_elem_of_filter; split; [lia|done]).
    rewrite Ha in Hx. by apply not_elem_of_nil in Hx. }
  assert (n < chunk -> drop (Z.to_nat chunk) aged = []) as Hs by (intros; apply drop_ge; lia).
  destruct n as [|n|n]; [|destruct (Z.ltb_spec (Z.pos n) chunk) as [Hlt|Hge]|lia].
  - exists db'. split_and!; [do 2 f_equal; lia|apply Hdone, Hs; lia|done].
  - exists db'. split_and!; [do 2 f_equal; lia|apply Hdone, Hs; lia|done].
  - destruct (IH (removed + Z.pos n) db' Hok' Hn) as (db2 & Hr & Hev & Hok2);
      [rewrite Ha, length_drop; lia|].
    exists db2. split_and!; [|by rewrite Hev, Hy|done].
    rewrite Hr, Ha, length_drop. do 2 f_equal. lia.
Qed.

(** A retention sweep ends and removes exactly the events past retention, however
    the clock moved while they were journaled, and reports how many. *)
Theorem retention_removes_exactly_aged cutoff chunk db :
  events_ok db -> 0 < chunk <= i64_max ->
  exists db', retention_loop (S (length (events db))) cutoff chunk 0 db =
    Some (db', Z.of_nat (length (filter (fun e => e_at_ms e < cutoff) (events db)))) /\
  events db' = filter (fun e => cutoff <= e_at_ms e) (events db) /\ events_ok db'.
Proof.
  intros Hok Hn. apply (retention_loop_spec _ _ _ 0); [done..|].
  pose proof (length_filter (fun e => e_at_ms e < cutoff) (events db)). lia.
Qed.

(** ** The floor

    [run clock all db]: [db] is reached from the empty journal by journaling the
    events [all], with clock readings that never go back (the last is [clock]), and
    by prunings in between. *)
Inductive run : Z -> list EventCols -> Db -> Prop :=
| run_empty clock : run clock [] empty_db
| run_insert clock all db ev now row :
    run clock all db -> clock <= now ->
    events (fst (insert_event ev now db)) = events db ++ [row] ->
    run now (all ++ [row]) (fst (insert_event ev now db))
| run_prune clock all db cutoff chunk :
    run clock all db -> 0 < chunk <= i64_max -> run clock all (fst (prune_events cutoff chunk db)).

Definition at_le (a b : EventCols) : Prop := e_at_ms a <= e_at_ms b.

(** What holds along a run: the [k] oldest events are gone and the floor is [k]. *)
Record run_inv (clock : Z) (all : list EventCols) (db : Db) (k : nat) : Prop := {
  ri_events : events db = drop k all;
  ri_k : (k <= length all)%nat;
  ri_pruned : last_pruned_cursor db = Z.of_nat k;
  ri_seq : event_seq db = Z.of_nat (length all);
  ri_cursors : forall i e, all !! i = Some e -> e_cursor e = Z.of_nat i + 1;
  ri_at : StronglySorted at_le all;
  ri_clock : Forall (fun e => e_at_ms e <= clock) all }.

Lemma indexed_sorted (all : list EventCols) :
  (forall i e, all !! i = Some e -> e_cursor e = Z.of_nat i + 1) -> StronglySorted cursor_lt all.
Proof.
  induction all as [|x all IH] using rev_ind; intros H; [constructor|].
  apply StronglySorted_app_2; [|apply IH; intros; apply H; by apply lookup_app_l_Some|repeat constructor].
  intros x1 x2 [i Hi]%list_elem_of_lookup_1 ->%list_elem_of_singleton. unfold cursor_lt.
  rewrite (H i x1) by (by apply lookup_app_l_Some). rewrite (H (length all) x) by (by apply list_lookup_middle).
  apply lookup_lt_Some in Hi. lia.
Qed.

Lemma run_inv_ok clock all db k :
  run_inv clock all db k -> Z.of_nat (length all) <= i64_max -> events_ok db.
Proof.
  intros [He Hk Hp Hq Hc _ _] Hb. pose proof (indexed_sorted _ Hc) as Hs. split; [|..|lia|lia].
  - rewrite He. rewrite <- (take_drop k all) in Hs. by apply StronglySorted_app in Hs as (_ & _ & ?).
  - rewrite He, Hq. apply Forall_forall. intros e [i Hi]%list_elem_of_lookup_1.
    rewrite lookup_drop in Hi. pose proof (lookup_lt_Some _ _ _ Hi). rewrite (Hc _ _ Hi). lia.
Qed.

(** In a list ordered by time the aged events are a prefix. *)
Lemma aged_prefix cutoff l :
  StronglySorted at_le l ->
  exists m, filter (fun e => e_at_ms e < cutoff) l = take m l /\ (m <= length l)%nat.
Proof.
  induction 1 as [|x l Hs (m & IH & Hm) Hf]; [by exists 0%nat|].
  rewrite filter_cons. case_decide as Hx.
  - exists (S m). simpl. split; [by rewrite IH|lia].
  - exists 0%nat. simpl. split; [|lia]. apply filter_none. eapply Forall_impl; [exact Hf|].
    unfold at_le. simpl. lia.
Qed.

Lemma prune_keeps_run clock all db k cutoff chunk :
  run_inv clock all db k -> Z.of_nat (length all) <= i64_max -> 0 < chunk <= i64_max ->
  exists k', run_inv clock all (fst (prune_events cutoff chunk db)) k'.
Proof.
  intros Hi Hb Hn. destruct (prune_events_spec cutoff chunk db (run_inv_ok _ _ _ _ Hi Hb) Hn)
    as (He & _ & _ & _ & Hl & Hq).
  destruct Hi as [Hev Hk Hp Hs Hc Ha Hcl]. rewrite Hev in He, Hl.
  set (L := drop k all) in *.
  assert (StronglySorted at_le L) as HL
    by (rewrite <- (take_drop k all) in Ha; by apply StronglySorted_app in Ha as (_ & _ & ?)).
  destruct (aged_prefix cutoff L HL) as (m & Hm & Hml).
  assert (length L = length all - k)%nat as HlenL by (unfold L; by rewrite length_drop).
  rewrite Hm, take_take in He, Hl. set (j := (Z.to_nat chunk `min` m)%nat) in *.
  assert (j <= m)%nat as Hjm by (unfold j; lia). clearbody j.
  assert (reached 0 (take j L) = if decide (j = 0)%nat then 0 else Z.of_nat (k + j)) as Hre.
  { unfold reached. destruct (decide (j = 0)%nat) as [->|Hj]; [done|].
    rewrite last_lookup, length_take, lookup_take_lt by lia.
    destruct (L !! Nat.pred (j `min` length L)) as [z|] eqn:Hz; [|apply lookup_ge_None in Hz; lia].
    simpl. unfold L in Hz. rewrite lookup_drop in Hz. rewrite (Hc _ _ Hz). fold L. lia. }
  exists (k + j)%nat. split; [|lia| |by rewrite Hq|done..].
  - rewrite He, Hre, <- drop_drop. fold L. rewrite <- (take_drop j L) at 1. rewrite filter_app.
    rewrite filter_none, filter_all; [done| |]; apply Forall_forall; intros e [i Hi]%list_elem_of_lookup_1.
    + rewrite lookup_drop in Hi. unfold L in Hi. rewrite lookup_drop in Hi. rewrite (Hc _ _ Hi).
      case_decide; lia.
    + apply lookup_take_Some in Hi as [Hi Hij].
      assert (e ∈ filter (fun e => e_at_ms e < cutoff) L) as [? _]%list_elem_of_filter.
      { rewrite Hm. apply list_elem_of_lookup_2 with i. apply lookup_take_Some. split; [done|lia]. }
      unfold L in Hi. rewrite lookup_drop in Hi. rewrite (Hc _ _ Hi). case_decide; lia.
  - rewrite Hl, Hre, Hp. case_decide; lia.
Qed.

Lemma run_has_inv clock all db :
  run clock all db -> Z.of_nat (length all) <= i64_max -> exists k, run_inv clock all db k.
Proof.
  induction 1 as [clock|clock all db ev now row Hr IH Hnow Hrow|clock all db cutoff chunk Hr IH Hn]; intros Hb.
  - exists 0%nat. split; simpl; try done; try constructor.
  - rewrite length_app in Hb. simpl in Hb. destruct IH as [k [He Hk Hp Hs Hc Ha Hcl]]; [lia|].
    exists k. simpl in *. apply app_inj_2 in Hrow as [_ Hrow]; [|done]. injection Hrow as <-.
    split; simpl; rewrite ?length_app; simpl; try done; try lia.
    + by rewrite He, drop_app_le.
    + intros i e [Hi|[Hge [Hi <-]%list_lookup_singleton_Some]]%lookup_app_Some; [by apply Hc|].
      simpl. lia.
    + apply StronglySorted_app_2; [|done|repeat constructor].
      intros x1 x2 H1 ->%list_elem_of_singleton. rewrite Forall_forall in Hcl. unfold at_le. simpl.
      specialize (Hcl _ H1). lia.
    + apply Forall_app. split; [|repeat constructor; simpl; lia].
      eapply Forall_impl; [exact Hcl|]. simpl. lia.
  - destruct IH as [k Hi]; [done|]. by eapply prune_keeps_run.
Qed.

Lemma run_floor clock all db k :
  run_inv clock all db k -> Z.of_nat (length all) <= i64_max -> journal_floor db = Z.of_nat k.
Proof.
  intros Hi Hb. pose proof (ok_sorted _ (run_inv_ok _ _ _ _ Hi Hb)) as Hs.
  destruct Hi as [He Hk Hp _ Hc _ _]. unfold journal_floor. rewrite min_cursor_sorted by done.
  destruct (events db) as [|e l] eqn:E; simpl.
  - rewrite Hp. apply as_u64_small. lia.
  - assert (all !! k = Some e) as Hx. { rewrite <- (Nat.add_0_r k), <- lookup_drop, <- He. done. }
    rewrite (Hc _ _ Hx). rewrite as_u64_small; lia.
Qed.

Lemma run_pending clock all db k c iid :
  run_inv clock all db k -> Z.of_nat k <= c ->
  pending_after c iid (events db) = pending_after c iid all.
Proof.
  intros [He Hk _ _ Hc _ _] Hkc. rewrite He. rewrite <- (take_drop k all) at 2.
  unfold pending_after. rewrite filter_app, (filter_none _ (take k all)); [done|].
  apply Forall_forall. intros e [i Hi]%list_elem_of_lookup_1.
  apply lookup_take_Some in Hi as [Hi ?]. rewrite (Hc _ _ Hi). lia.
Qed.

(** The floor is honest. While the clock does not step back, a cursor at or
    above [journal_floor] has lost nothing: reading after it returns every event ever
    journaled after it. A cursor below the floor has lost at least one event that
    retention deleted, so it is refused with reason. *)
Theorem floor_is_honest clock all db c iid :
  run clock all db -> Z.of_nat (length all) <= i64_max -> 0 <= c <= i64_max ->
  (journal_floor db <= c ->
     events_after c iid 0 db = event_from <$> filter (fun e => c < e_cursor e /\ matches iid e) all) /\
  (c < journal_floor db -> exists e, e ∈ all /\ c < e_cursor e /\ e ∉ events db).
Proof.
  intros Hr Hb Hc. destruct (run_has_inv _ _ _ Hr Hb) as [k Hi].
  rewrite (run_floor _ _ _ _ Hi Hb), events_after_all by done. split; intros Hk.
  - by rewrite (run_pending _ _ _ _ c iid Hi Hk).
  - destruct Hi as [He Hkl _ _ Hcur _ _].
    destruct (all !! Z.to_nat c) as [e|] eqn:E; [|apply lookup_ge_None in E; lia].
    exists e. split_and!; [by eapply list_elem_of_lookup_2|rewrite (Hcur _ _ E); lia|].
    rewrite He. intros [i Hi]%list_elem_of_lookup_1. rewrite lookup_drop in Hi.
    pose proof (Hcur _ _ Hi). rewrite (Hcur _ _ E) in *. lia.
Qed.

(** The clock stepping back between two events breaks the floor's promise: the younger
    event is pruned first, the older one keeps the floor at 0, and reading from cursor 1 on
    is allowed although event 2 is gone. *)
Definition stepped_back : Db :=
  let ev := state_changed "i" "o" InstanceState.Running None in
  fst (insert_event ev 50 (fst (insert_event ev 100 empty_db))).

Lemma floor_dishonest_after_clock_step :
  let db := fst (prune_events 80 RETENTION_CHUNK stepped_back) in
  journal_floor db = 0 /\ last_pruned_cursor db = 2 /\
  ev_cursor <$> events_after 1 empty_str 0 stepped_back = [2] /\
  events_after 1 empty_str 0 db = [].
Proof. by vm_compute. Qed.

(** ** Witnesses *)

Definition ex_ev : Event := state_changed "i" "o" InstanceState.Running None.
Definition ex_db1 : Db := fst (insert_event ex_ev 10 empty_db).
Definition ex_db2 : Db := fst (insert_event ex_ev 20 ex_db1).
Definition ex_db3 : Db := fst (prune_events 15 RETENTION_CHUNK ex_db2).

Lemma ex_run1 : run 10 (events ex_db1) ex_db1.
Proof. apply (run_insert 0 [] empty_db ex_ev 10 _ (run_empty 0)); [lia|reflexivity]. Qed.

Lemma ex_run2 : run 20 (events ex_db2) ex_db2.
Proof. apply (run_insert 10 (events ex_db1) ex_db1 ex_ev 20 _ ex_run1); [lia|reflexivity]. Qed.

Lemma ex_run3 : run 20 (events ex_db2) ex_db3.
Proof. apply run_prune; [exact ex_run2|by vm_compute]. Qed.

Lemma ex_db2_ok : events_ok ex_db2.
Proof.
  destruct (run_has_inv _ _ _ ex_run2) as [k Hk]; [by vm_compute|].
  eapply run_inv_ok; [exact Hk|by vm_compute].
Qed.

Lemma retention_removes_exactly_aged_witness :
  exists db', retention_loop 3 15 1 0 ex_db2 = Some (db', 1) /\
  events db' = filter (fun e => 15 <= e_at_ms e) (events ex_db2) /\ events_ok db'.
Proof. apply (retention_removes_exactly_aged 15 1 ex_db2 ex_db2_ok); by vm_compute. Defined.

Lemma floor_is_honest_witness :
  (journal_floor ex_db3 <= 1 ->
     events_after 1 empty_str 0 ex_db3 =
     event_from <$> filter (fun e => 1 < e_cursor e /\ matches empty_str e) (events ex_db2)) /\
  (1 < journal_floor ex_db3 -> exists e, e ∈ events ex_db2 /\ 1 < e_cursor e /\ e ∉ events ex_db3).
Proof. apply (floor_is_honest 20 (events ex_db2) ex_db3 1 empty_str ex_run3); by vm_compute. Defined.
