(* ===== verification/Operations.v ===== *)
(** The operations table: src/crates/barista-node-agent/src/db.rs, from
    [find_op_by_idempotency_key] to [finish_operation], and [submit_atomically]. *)

From S2P Require Import Prelude Proto StateMachine Journal.
Module IS := InstanceState.

(** * Selecting by state *)

(** The SQL [state IN (..)] lists, derived from the state machine. *)
Definition op_states_where (keep : Op.t -> bool) : list Op.t :=
  filter (fun s => keep s = true) ALL_OP_STATES.
Definition in_flight_ops : list Op.t := op_states_where op_is_in_flight.
Definition ops_movable_to (to : Op.t) : list Op.t :=
  op_states_where (fun from => op_can_transition from to).

(** * Reading *)

Definition get_operation (k : string) (db : Db) : option OperationRow :=
  operation_row_from k <$> operations db !! k.

(** [SELECT op_id FROM operations WHERE idempotency_key = ..]; the column is UNIQUE. *)
Definition op_id_of_key (key : string) (db : Db) : option string :=
  (fun p => p.2.1) <$>
    list_find (fun p : string * OpCols => o_idempotency_key p.2 = key) (map_to_list (operations db)).

Definition find_op_by_idempotency_key (key : string) (db : Db) : option OperationRow :=
  op_id_of_key key db ≫= fun k => get_operation k db.

(** Operations on the instance whose executor has not left the substrate. *)
Definition active_on (iid : string) (o : OpCols) : Prop :=
  o_instance_id o = iid /\ o_executor_active o = true.
#[global] Instance active_on_dec iid o : Decision (active_on iid o).
Proof. unfold active_on. apply _. Defined.

Definition has_inflight_op (iid : string) (db : Db) : bool :=
  0 <? Z.of_nat (length (filter (fun p => active_on iid p.2) (map_to_list (operations db)))).

(** [str::split_whitespace], over ASCII white space. *)
Definition is_space (c : Ascii.ascii) : bool :=
  let n := Ascii.nat_of_ascii c in (n =? 32)%nat || ((9 <=? n)%nat && (n <=? 13)%nat).

Fixpoint words (s : string) : list string :=
  match s with
  | EmptyString => []
  | String c s' =>
      if is_space c then words s'
      else match s' with
           | String c' _ =>
               if is_space c' then String c EmptyString :: words s'
               else match words s' with
                    | w :: ws => String c w :: ws
                    | [] => [String c EmptyString]
                    end
           | EmptyString => [String c EmptyString]
           end
  end.

Fixpoint strip_prefix (p s : string) : option string :=
  match p, s with
  | EmptyString, _ => Some s
  | String a p', String b s' => if decide (a = b) then strip_prefix p' s' else None
  | _, EmptyString => None
  end.

Fixpoint find_map {A B} (f : A -> option B) (l : list A) : option B :=
  match l with
  | [] => None
  | a :: l' => match f a with Some b => Some b | None => find_map f l' end
  end.

Definition source_snapshot_of (payload : string) : option string :=
  option_filter (fun x => negb (is_empty x))
    (find_map (strip_prefix "source_snapshot_id=") (words payload)).

(** [fork_source_instances_in_flight]; [Fork]'s wire name is [OpKind.as_str]'s. *)
Definition fork_source_instances_in_flight (db : Db) : list string :=
  omap (fun p : string * OpCols =>
          source_snapshot_of (o_payload p.2) ≫= fun sid =>
          option_filter (fun s => negb (is_empty s)) (s_instance_id <$> snapshots db !! sid))
    (filter (fun p => o_kind p.2 = "fork" /\ o_executor_active p.2 = true) (map_to_list (operations db))).

(** * Moving one operation *)

Definition update_op (p : OpCols -> bool) (f : OpCols -> OpCols) (k : string) (db : Db) : Db * bool :=
  let '(m, changed) := update_where p f k (operations db) in
  (db <| operations := m |>, changed).

Definition state_in (l : list Op.t) (o : OpCols) : bool := bool_decide (o_state o ∈ l).

Definition set_op_step (k step : string) (db : Db) : Db :=
  fst (update_op (state_in in_flight_ops)
         (fun o => o <| o_state := Op.Running |> <| o_current_step := step |>) k db).

Definition set_op_froze_workload (k : string) (db : Db) : Db :=
  fst (update_op (fun _ => true) (fun o => o <| o_froze_workload := true |>) k db).

Definition set_op_fork_mode (k : string) (mode : ForkMode.t) (db : Db) : Db :=
  fst (update_op (fun _ => true) (fun o => o <| o_actual_fork_mode := mode |>) k db).

Definition finish_op_done (k degraded : string) (now : Z) (db : Db) : Db :=
  fst (update_op (fun _ => true)
         (fun o => o <| o_state := Op.Done |> <| o_degraded := degraded |>
                     <| o_finished_at_ms := Some now |> <| o_executor_active := false |>) k db).

Definition finish_op_failed (k : string) (reason : ErrorReason.t) (msg : string) (now : Z) (db : Db) : Db :=
  fst (update_op (fun _ => true)
         (fun o => o <| o_state := Op.Failed |> <| o_error_reason := reason |> <| o_error_message := msg |>
                     <| o_finished_at_ms := Some now |> <| o_executor_active := false |>) k db).

(** [move_op]: the guarded update, or why the operation is not there to be moved. *)
Definition move_op (k : string) (to : Op.t) (p : OpCols -> bool) (f : OpCols -> OpCols) (db : Db)
    : Db * res string unit :=
  match update_op p f k db with
  | (db', true) => (db', Ok tt)
  | (_, false) =>
      (db, Err match operations db !! k with
               | Some o => "operation " +:+ k +:+ " is " +:+ Op.as_str_name (o_state o) +:+
                           ", which cannot become " +:+ Op.as_str_name to
               | None => "operation " +:+ k +:+ " is not in the journal, so it cannot become " +:+
                         Op.as_str_name to
               end)
  end.

Definition await_op_input (k prompt : string) (db : Db) : Db * res string unit :=
  move_op k Op.AwaitingInput (state_in (ops_movable_to Op.AwaitingInput))
    (fun o => o <| o_state := Op.AwaitingInput |> <| o_current_step := prompt |>) db.

Definition resume_op_from_input (k step : string) (db : Db) : Db * res string unit :=
  move_op k Op.Running (fun o => bool_decide (o_state o = Op.AwaitingInput))
    (fun o => o <| o_state := Op.Running |> <| o_current_step := step |>) db.

(** An operation parked for input has no executor to wait for. *)
Definition finish_op_canceled (k reason : string) (now : Z) (db : Db) : Db * res string unit :=
  move_op k Op.Canceled (state_in (ops_movable_to Op.Canceled))
    (fun o => o <| o_state := Op.Canceled |> <| o_error_message := reason |> <| o_current_step := empty_str |>
                <| o_finished_at_ms := Some now |>
                <| o_executor_active := if bool_decide (o_state o = Op.AwaitingInput) then false
                                        else o_executor_active o |>) db.

(** [fail_inflight_ops]: one clock reading per operation failed. *)
Definition fail_inflight_ops (msg : string) (now : string -> Z) (db : Db) : Db * list OperationRow :=
  let ids := fst <$> filter (fun p => o_state p.2 ∈ in_flight_ops) (map_to_list (operations db)) in
  let db' := foldl (fun d k => finish_op_failed k ErrorReason.Unspecified msg (now k) d) db ids in
  (db', omap (fun k => get_operation k db') ids).

(** [Db::open]: what the journal's first statement does to the claims of executors that
    a previous process left. *)
Definition open (db : Db) : Db :=
  db <| operations := (fun o => o <| o_executor_active := state_in in_flight_ops o |>) <$> operations db |>.

(** * Finishing an operation *)

Record Finalized := { readiness_changed : bool; outcome_recorded : bool }.

(** The instance's half of the transaction. *)
Definition finish_instance (st : IS.t) (ttl : option Z) (sr : option StopReason) (clear_ready : bool)
    (now : Z) (i : InstanceCols) : InstanceCols :=
  i <| i_state := st |> <| i_updated_at_ms := now |>
    <| i_stop_requested := requested <$> sr |> <| i_stop_exit_code := sr ≫= exit_code |>
    <| i_stop_detail := detail <$> sr |> <| i_ttl_deadline_ms := ttl |>
    <| i_ready := if clear_ready then false else i_ready i |>.

(** The operation's half. *)
Definition finish_row (outcome : res (ErrorReason.t * string) unit) (degr : string) (now : Z) (o : OpCols)
    : OpCols :=
  match outcome with
  | Ok _ => o <| o_state := Op.Done |> <| o_finished_at_ms := Some now |> <| o_current_step := empty_str |>
              <| o_degraded := degr |> <| o_executor_active := false |>
  | Err (reason, msg) =>
      o <| o_state := Op.Failed |> <| o_finished_at_ms := Some now |> <| o_error_reason := reason |>
        <| o_error_message := msg |> <| o_degraded := degr |> <| o_executor_active := false |>
  end.

Definition finish_operation (k iid : string) (st : IS.t) (ttl : option Z) (sr : option StopReason)
    (clear_ready : bool) (degr : string) (outcome : res (ErrorReason.t * string) unit) (now : Z)
    (db : Db) : Db * res string Finalized :=
  let was := i_state <$> instances db !! iid in
  let readiness_changed :=
    clear_ready && match instances db !! iid with Some i => i_ready i | None => false end in
  let tx := db <| instances := update (finish_instance st ttl sr clear_ready now) iid (instances db) |> in
  match update_op (state_in in_flight_ops) (finish_row outcome degr now) k tx with
  | (tx', true) => (tx', Ok {| readiness_changed := readiness_changed; outcome_recorded := true |})
  | (_, false) =>
      if negb (bool_decide (o_state <$> operations tx !! k = Some Op.Canceled)) then
        (db, Err ("operation " +:+ k +:+ " was not in the journal in a state it could be finished from, " +:+
                  "so its instance was not advanced either"))
      else if negb (match was with Some from => bool_decide (from = st) || can_transition from st | None => false end)
      then
        (db, Err ("operation " +:+ k +:+ " was canceled and its instance is " +:+
                  match was with Some s => IS.as_str_name s | None => "absent from the journal" end +:+
                  ", which cannot become " +:+ IS.as_str_name st +:+
                  " — so the state its work reached was not applied"))
      else
        (fst (update_op (fun _ => true) (fun o => o <| o_executor_active := false |>) k tx),
         Ok {| readiness_changed := readiness_changed; outcome_recorded := false |})
  end.

(** * Submitting *)

Inductive Submission : Type :=
| Journaled (s : IS.t)
| Replay (op : OperationRow)
| Conflict
| Rejected (msg : string)
| ClaimSuperseded.

(** [INSERT INTO operations]: the columns the statement names, the rest defaulted. *)
Definition inserted_op (op : OperationRow) (key : string) : OpCols :=
  mkOp (op_kind op) (op_instance_id op) key (op_payload op) (op_state op) (op_current_step op)
    ErrorReason.Unspecified empty_str empty_str (op_created_at_ms op) None false ForkMode.Unspecified true.

Definition insert_op_row (op : OperationRow) (key : string) (db : Db) : res string Db :=
  if is_some (operations db !! op_id op) || is_some (op_id_of_key key db)
  then Err "UNIQUE constraint failed: operations"
  else Ok (db <| operations := <[op_id op := inserted_op op key]> (operations db) |>).

(** [insert_operation]: the row alone, which only the tests ask for; [submit_atomically] makes
    the same statement part of its transaction. *)
Definition insert_operation (op : OperationRow) (key : string) (db : Db) : Db * res string unit :=
  match insert_op_row op key db with Ok db' => (db', Ok tt) | Err e => (db, Err e) end.

(** [INSERT INTO instances] of a create. *)
Definition created_row (spec : InstanceSpec) (runtime token : string) (ident : option Identity)
    (lin : option Lineage) (now : Z) : InstanceCols :=
  let '(a, gc, gk, hc, hk) :=
    match ident with
    | Some i => (anchor i, guest_cert i, guest_key i, host_cert i, host_key i)
    | None => ([], [], [], [], [])
    end in
  let '(l, ss, sc, pi) :=
    match lin with
    | Some l => (lineage_id l, source_snapshot_id l, source_capsule_id l, parent_instance_id l)
    | None => (empty_str, empty_str, empty_str, empty_str)
    end in
  mkInstance spec IS.Creating false runtime now now None empty_str token a gc gk hc hk
    None None None None None l ss sc pi 0.

Section Submit.
Context (mint_identity : string -> res string (option Identity)).
Context (plan : IS.t -> option IS.t).

(** The part of [submit_atomically] after its guards: claim the deadline, insert the
    operation, move or create the instance. An error drops the transaction. *)
Definition submit_commit (op : OperationRow) (key : string) (recorded : IS.t)
    (create_spec : option InstanceSpec) (runtime token : string) (claim : option Claim)
    (lin : option Lineage) (claim_now now : Z) (db : Db) : res string (option Db) :=
  let claimed := match claim with
                 | Some c => take_deadline (op_instance_id op) c claim_now db
                 | None => (db, true)
                 end in
  if negb (snd claimed) then Ok None
  else
    let? tx := insert_op_row op key (fst claimed) in
    match create_spec with
    | Some spec =>
        let? ident := res_map_err (fun e => "minting the channel identity: " +:+ e)
                        (mint_identity (instance_id spec)) in
        if is_some (instances tx !! instance_id spec)
        then Err "UNIQUE constraint failed: instances.instance_id"
        else Ok (Some (tx <| instances := <[instance_id spec :=
                   created_row spec runtime token ident lin now]> (instances tx) |>))
    | None =>
        Ok (Some (tx <| instances := update (fun i => i <| i_state := recorded |> <| i_updated_at_ms := now |>)
                          (op_instance_id op) (instances tx) |>))
    end.

(** Which state the instance would be recorded in, or why not. *)
Definition submit_plan (op : OperationRow) (transitional : IS.t) (create_spec : option InstanceSpec)
    (db : Db) : res string IS.t :=
  match create_spec, instances db !! op_instance_id op with
  | Some _, Some _ => Err ("instance " +:+ op_instance_id op +:+ " already exists (specs are immutable)")
  | Some _, None => Ok transitional
  | None, None => Err ("instance " +:+ op_instance_id op +:+ " does not exist")
  | None, Some i =>
      match plan (i_state i) with
      | Some recorded => Ok recorded
      | None => Err ("illegal transition " +:+ IS.debug (i_state i) +:+ " → " +:+ IS.debug transitional)
      end
  end.

Definition submit_atomically (op : OperationRow) (key : string) (transitional : IS.t)
    (create_spec : option InstanceSpec) (runtime token : string) (claim : option Claim)
    (lin : option Lineage) (claim_now now : Z) (db : Db) : Db * res string Submission :=
  match op_id_of_key key db with
  | Some k => (db, Ok match get_operation k db with Some original => Replay original | None => Conflict end)
  | None =>
      if has_inflight_op (op_instance_id op) db then (db, Ok Conflict)
      else match submit_plan op transitional create_spec db with
           | Err msg => (db, Ok (Rejected msg))
           | Ok recorded =>
               match submit_commit op key recorded create_spec runtime token claim lin claim_now now db with
               | Err e => (db, Err e)
               | Ok None => (db, Ok ClaimSuperseded)
               | Ok (Some tx) => (tx, Ok (Journaled recorded))
               end
           end
  end.
End Submit.

(** * Lemmas *)

Lemma elem_of_all_op_states s : s ∈ ALL_OP_STATES.
Proof. apply (bool_decide_unpack _). by destruct s. Qed.

Lemma op_states_where_spec keep s : s ∈ op_states_where keep <-> keep s = true.
Proof.
  unfold op_states_where. rewrite list_elem_of_filter. pose proof (elem_of_all_op_states s). tauto.
Qed.

Lemma in_flight_ops_spec s : s ∈ in_flight_ops <-> op_is_in_flight s = true.
Proof. apply op_states_where_spec. Qed.

Lemma ops_movable_to_spec s to : s ∈ ops_movable_to to <-> op_can_transition s to = true.
Proof. apply (op_states_where_spec (fun from => op_can_transition from to)). Qed.

Lemma state_in_flight o : state_in in_flight_ops o = op_is_in_flight (o_state o).
Proof. unfold state_in. apply eq_bool_prop_intro. rewrite bool_decide_spec, in_flight_ops_spec. by destruct (op_is_in_flight _). Qed.

Lemma op_id_of_key_Some key db k :
  op_id_of_key key db = Some k ->
  exists o, operations db !! k = Some o /\ o_idempotency_key o = key.
Proof.
  unfold op_id_of_key. destruct (list_find _ _) as [[i [k' o]]|] eqn:E; [|done]. intros [= <-].
  apply list_find_Some in E as (Hi & Hk & _). exists o. split; [|done].
  by apply elem_of_map_to_list, list_elem_of_lookup_2 with i.
Qed.

Lemma op_id_of_key_None key db :
  op_id_of_key key db = None <->
  forall k o, operations db !! k = Some o -> o_idempotency_key o <> key.
Proof.
  unfold op_id_of_key. rewrite fmap_None, list_find_None, Forall_forall. split.
  - intros H k o Hk. apply (H (k, o)). by apply elem_of_map_to_list.
  - intros H [k o] Hk%elem_of_map_to_list. by apply (H k).
Qed.

Lemma has_inflight_op_false iid db :
  has_inflight_op iid db = false <->
  forall k o, operations db !! k = Some o -> ~ active_on iid o.
Proof.
  unfold has_inflight_op. rewrite Z.ltb_ge. split.
  - intros H k o Hk Ha.
    assert ((k, o) ∈ filter (fun p => active_on iid p.2) (map_to_list (operations db))) as Hin
      by (apply list_elem_of_filter; split; [done|by apply elem_of_map_to_list]).
    destruct (filter _ _); [by apply not_elem_of_nil in Hin|simpl in H; lia].
  - intros H. rewrite filter_none; [done|]. apply Forall_forall. intros [k o] Hk%elem_of_map_to_list. eauto.
Qed.

(** ** The invariant of the table *)

Record ops_inv (m : gmap string OpCols) : Prop := {
  inv_active k o : m !! k = Some o -> op_is_in_flight (o_state o) = true -> o_executor_active o = true;
  inv_serial k1 k2 o1 o2 : m !! k1 = Some o1 -> m !! k2 = Some o2 ->
    o_executor_active o1 = true -> o_executor_active o2 = true ->
    o_instance_id o1 = o_instance_id o2 -> k1 = k2;
  inv_keys k1 k2 o1 o2 : m !! k1 = Some o1 -> m !! k2 = Some o2 ->
    o_idempotency_key o1 = o_idempotency_key o2 -> k1 = k2 }.

(** How a row may change: its identity never; its state by the state machine; its
    outcome never once settled; a finished executor never comes back. *)
Record op_evolves (o o' : OpCols) : Prop := {
  ev_identity : o_kind o' = o_kind o /\ o_instance_id o' = o_instance_id o /\
    o_idempotency_key o' = o_idempotency_key o /\ o_payload o' = o_payload o /\
    o_created_at_ms o' = o_created_at_ms o;
  ev_legal : o_state o' = o_state o \/ op_can_transition (o_state o) (o_state o') = true;
  ev_outcome : op_is_settled (o_state o) = true ->
    o_error_reason o' = o_error_reason o /\ o_error_message o' = o_error_message o /\
    o_degraded o' = o_degraded o /\ o_finished_at_ms o' = o_finished_at_ms o /\
    o_current_step o' = o_current_step o;
  ev_executor : o_executor_active o' = true -> o_executor_active o = true;
  ev_claim : op_is_in_flight (o_state o') = true -> o_executor_active o = true -> o_executor_active o' = true }.

Lemma op_evolves_refl o : op_evolves o o.
Proof. split; auto. Qed.

(** Each row of the later table is a row of the earlier one, evolved, or new. *)
Definition ops_step (m m' : gmap string OpCols) : Prop :=
  (forall k o, m !! k = Some o -> exists o', m' !! k = Some o' /\ op_evolves o o') /\
  (forall k o', m' !! k = Some o' -> exists o, m !! k = Some o /\ op_evolves o o').

Lemma ops_step_inv m m' : ops_inv m -> ops_step m m' -> ops_inv m'.
Proof.
  intros [Ha Hs Hk] [_ Hb]. split.
  - intros k o' (o & Ho & He)%Hb Hf. apply (ev_claim _ _ He); [done|]. apply (Ha k); [done|].
    destruct (ev_legal _ _ He) as [E|E]; [by rewrite <- E|]. by destruct (o_state o), (o_state o').
  - intros k1 k2 o1' o2' (o1 & H1 & E1)%Hb (o2 & H2 & E2)%Hb A1 A2 Hi.
    apply (Hs k1 k2 o1 o2); eauto using ev_executor.
    destruct (ev_identity _ _ E1) as (_ & <- & _), (ev_identity _ _ E2) as (_ & <- & _). done.
  - intros k1 k2 o1' o2' (o1 & H1 & E1)%Hb (o2 & H2 & E2)%Hb Hi. apply (Hk k1 k2 o1 o2); try done.
    destruct (ev_identity _ _ E1) as (_ & _ & <- & _), (ev_identity _ _ E2) as (_ & _ & <- & _). done.
Qed.

Lemma ops_step_refl m : ops_step m m.
Proof. split; intros k o Ho; exists o; auto using op_evolves_refl. Qed.

Lemma update_where_lookup {A} (p : A -> bool) f k (m m' : gmap string A) b :
  update_where p f k m = (m', b) ->
  (b = true /\ exists a, m !! k = Some a /\ p a = true /\ m' = <[k := f a]> m) \/
  (b = false /\ m' = m /\ forall a, m !! k = Some a -> p a = false).
Proof.
  unfold update_where. destruct (m !! k) as [a|] eqn:Hk; [destruct (p a) eqn:E|]; intros [= <- <-].
  - left. eauto 10.
  - right. split_and!; [done..|]. intros. by simplify_eq.
  - right. split_and!; done.
Qed.

Lemma insert_ops_step m k o o' : m !! k = Some o -> op_evolves o o' -> ops_step m (<[k := o']> m).
Proof.
  intros Hk He. split.
  - intros k' o1 H1. destruct (decide (k = k')) as [<-|].
    + simplify_eq. exists o'. by rewrite lookup_insert_eq.
    + exists o1. rewrite lookup_insert_ne by done. auto using op_evolves_refl.
  - intros k' o1 [[<- <-]|[? ?]]%lookup_insert_Some; eauto using op_evolves_refl.
Qed.

Lemma update_op_step p f k db db' b :
  update_op p f k db = (db', b) ->
  (forall o, operations db !! k = Some o -> p o = true -> op_evolves o (f o)) ->
  ops_step (operations db) (operations db').
Proof.
  unfold update_op. destruct (update_where _ _ _ _) as [m b'] eqn:E. intros [= <- <-] Hf. simpl.
  destruct (update_where_lookup _ _ _ _ _ _ E) as [(-> & o & Ho & Hp & ->)|(-> & -> & _)].
  - apply (insert_ops_step _ _ o); auto.
  - apply ops_step_refl.
Qed.

Lemma move_op_step k to p f db db' r :
  move_op k to p f db = (db', r) ->
  (forall o, operations db !! k = Some o -> p o = true -> op_evolves o (f o)) ->
  ops_step (operations db) (operations db').
Proof.
  unfold move_op. destruct (update_op p f k db) as [d b] eqn:E. intros H Hf.
  destruct b; simplify_eq; eauto using update_op_step, ops_step_refl.
Qed.

Ltac evolve :=
  let o := fresh "o" in let Ho := fresh "Ho" in let Hp := fresh "Hp" in
  intros o Ho Hp; unfold state_in in Hp; to_prop;
  rewrite ?in_flight_ops_spec, ?ops_movable_to_spec in Hp;
  split; simpl in *; try done; auto; destruct (o_state o); simpl in *; auto; try done.

Lemma set_op_step_evolves k step db : ops_step (operations db) (operations (set_op_step k step db)).
Proof.
  unfold set_op_step. destruct (update_op _ _ _ _) as [d b] eqn:E. eapply update_op_step; [exact E|]. evolve.
Qed.

Lemma set_op_froze_workload_evolves k db : ops_step (operations db) (operations (set_op_froze_workload k db)).
Proof.
  unfold set_op_froze_workload. destruct (update_op _ _ _ _) as [d b] eqn:E.
  eapply update_op_step; [exact E|]. evolve.
Qed.

Lemma set_op_fork_mode_evolves k m db : ops_step (operations db) (operations (set_op_fork_mode k m db)).
Proof.
  unfold set_op_fork_mode. destruct (update_op _ _ _ _) as [d b] eqn:E.
  eapply update_op_step; [exact E|]. evolve.
Qed.

Lemma await_op_input_evolves k p db db' r :
  await_op_input k p db = (db', r) -> ops_step (operations db) (operations db').
Proof. intros H. eapply move_op_step; [exact H|]. evolve. Qed.

Lemma resume_op_from_input_evolves k s db db' r :
  resume_op_from_input k s db = (db', r) -> ops_step (operations db) (operations db').
Proof. intros H. eapply move_op_step; [exact H|]. evolve. Qed.

Lemma finish_op_canceled_evolves k s now db db' r :
  finish_op_canceled k s now db = (db', r) -> ops_step (operations db) (operations db').
Proof. intros H. eapply move_op_step; [exact H|]. evolve. Qed.

Lemma finish_operation_evolves k iid st ttl sr cr degr out now db db' r :
  finish_operation k iid st ttl sr cr degr out now db = (db', r) ->
  ops_step (operations db) (operations db').
Proof.
  unfold finish_operation. destruct (update_op _ _ _ _) as [d b] eqn:E. intros H.
  destruct b; [|destruct (negb (bool_decide _)); [|destruct (negb _)]]; simplify_eq; try apply ops_step_refl.
  - eapply (update_op_step _ _ _ _ _ _ E). destruct out as [?|[??]]; evolve.
  - destruct (update_op (fun _ => true) _ _ _) as [d2 b2] eqn:E2.
    apply (update_op_step _ _ _ _ _ _ E2). intros o Ho _. simpl in Ho.
    split; simpl; auto; [done|]. intros Hf _. exfalso.
    unfold update_op in E. simpl in E. destruct (update_where _ _ _ _) as [m b] eqn:Eu. simplify_eq.
    destruct (update_where_lookup _ _ _ _ _ _ Eu) as [(? & _)|(_ & _ & Hn)]; [done|].
    specialize (Hn _ Ho). rewrite state_in_flight in Hn. congruence.
Qed.

Lemma fail_fold_lookup msg now ids db k :
  operations (foldl (fun d k => finish_op_failed k ErrorReason.Unspecified msg (now k) d) db ids) !! k =
  (if decide (k ∈ ids)
   then (fun o => o <| o_state := Op.Failed |> <| o_error_reason := ErrorReason.Unspecified |>
                    <| o_error_message := msg |> <| o_finished_at_ms := Some (now k) |>
                    <| o_executor_active := false |>) <$> operations db !! k
   else operations db !! k).
Proof.
  revert db. induction ids as [|k0 ids IH]; intros db; cbn [foldl].
  { case_decide as Hk; [|done]. by apply not_elem_of_nil in Hk. }
  rewrite IH. unfold finish_op_failed, update_op, update_where.
  destruct (decide (k = k0)) as [->|Hne].
  - rewrite (decide_True (P := k0 ∈ k0 :: ids)) by by left.
    destruct (operations db !! k0) as [o|] eqn:Ho; simpl; [rewrite lookup_insert_eq|rewrite Ho];
      by case_decide.
  - rewrite (decide_ext (k ∈ k0 :: ids) (k ∈ ids)) by (rewrite elem_of_cons; tauto).
    destruct (operations db !! k0) as [o|] eqn:Ho; simpl; by rewrite ?lookup_insert_ne by done.
Qed.

Lemma fail_inflight_ops_evolves msg now db :
  ops_step (operations db) (operations (fst (fail_inflight_ops msg now db))).
Proof.
  unfold fail_inflight_ops. simpl.
  set (ids := fst <$> filter _ _).
  assert (forall k o, operations db !! k = Some o -> k ∈ ids -> op_is_in_flight (o_state o) = true) as Hids.
  { intros k o Ho ([k' o'] & -> & [Hf Hk]%list_elem_of_filter)%list_elem_of_fmap.
    apply elem_of_map_to_list in Hk. simplify_eq/=. by apply in_flight_ops_spec. }
  assert (forall o t, op_is_in_flight (o_state o) = true ->
    op_evolves o (o <| o_state := Op.Failed |> <| o_error_reason := ErrorReason.Unspecified |>
      <| o_error_message := msg |> <| o_finished_at_ms := t |> <| o_executor_active := false |>)) as Hev.
  { intros o t Hf. split; simpl; auto; try done; destruct (o_state o); simpl in *; auto; done. }
  split; intros k o Ho; rewrite fail_fold_lookup in *; case_decide as Hk; rewrite ?Ho; simpl; eauto using op_evolves_refl.
  apply fmap_Some in Ho as (o0 & Ho & ->). eauto.
Qed.

Lemma open_evolves db : ops_inv (operations db) -> ops_step (operations db) (operations (open db)).
Proof.
  intros [Ha _ _].
  assert (forall k o, operations db !! k = Some o ->
    op_evolves o (o <| o_executor_active := state_in in_flight_ops o |>)) as He.
  { intros k o Ho. specialize (Ha _ _ Ho). split; simpl; auto; rewrite state_in_flight; auto. }
  unfold open. split; simpl; intros k o; rewrite lookup_fmap.
  - intros Ho. rewrite Ho. simpl. eauto.
  - intros (o0 & Ho & ->)%fmap_Some. eauto.
Qed.

(** ** Submission *)

Lemma take_deadline_operations iid c now db : operations (fst (take_deadline iid c now db)) = operations db.
Proof. unfold take_deadline. by destruct (update_where _ _ _ _). Qed.

Lemma insert_op_row_Ok op key db tx :
  insert_op_row op key db = Ok tx ->
  operations db !! op_id op = None /\ op_id_of_key key db = None /\
  tx = db <| operations := <[op_id op := inserted_op op key]> (operations db) |>.
Proof.
  unfold insert_op_row. destruct (operations db !! op_id op), (op_id_of_key key db); simpl; intros; by simplify_eq.
Qed.

Section SubmitLemmas.
Context (mint : string -> res string (option Identity)) (plan : IS.t -> option IS.t).

(** What a committed submission left behind. *)
Record committed (op : OperationRow) (key : string) (recorded : IS.t) (create_spec : option InstanceSpec)
    (claim : option Claim) (claim_now : Z) (db db' : Db) : Prop := {
  cm_fresh : operations db !! op_id op = None;
  cm_key : forall k o, operations db !! k = Some o -> o_idempotency_key o <> key;
  cm_idle : forall k o, operations db !! k = Some o -> ~ active_on (op_instance_id op) o;
  cm_ops : operations db' = <[op_id op := inserted_op op key]> (operations db);
  cm_state : match create_spec with
    | Some spec => instances db !! op_instance_id op = None /\ instances db !! instance_id spec = None /\
        exists i, instances db' = <[instance_id spec := i]> (instances db) /\
                  i_state i = IS.Creating /\ i_spec i = spec
    | None => exists i i', instances db !! op_instance_id op = Some i /\ plan (i_state i) = Some recorded /\
        instances db' = <[op_instance_id op := i']> (instances db) /\ i_state i' = recorded /\ i_spec i' = i_spec i
    end;
  cm_claim : match claim with
    | None => True
    | Some c => create_spec = None /\ exists i i',
        instances db !! op_instance_id op = Some i /\ instances db' !! op_instance_id op = Some i' /\
        claim_column c i = Some (claim_value c) /\ claim_value c <= claim_now /\ claim_column c i' = None
    end }.

Lemma take_deadline_true iid c now db db' :
  take_deadline iid c now db = (db', true) ->
  exists i, instances db !! iid = Some i /\ claim_column c i = Some (claim_value c) /\ claim_value c <= now /\
  instances db' = <[iid := (claim_clear c i) <| i_updated_at_ms := now |>]> (instances db).
Proof.
  unfold take_deadline. destruct (update_where _ _ _ _) as [m b] eqn:E. intros [= <- ->].
  destruct (update_where_lookup _ _ _ _ _ _ E) as [(_ & i & Hi & Hp & ->)|(? & _)]; [|done].
  to_prop. eauto 10.
Qed.

Lemma submit_commit_Some op key recorded cs rt tok claim lin cn now db tx :
  submit_commit mint op key recorded cs rt tok claim lin cn now db = Ok (Some tx) ->
  exists d, match claim with
            | Some c => take_deadline (op_instance_id op) c cn db = (d, true)
            | None => d = db
            end /\
  operations d !! op_id op = None /\ op_id_of_key key d = None /\
  match cs with
  | Some spec => exists ident, instances d !! instance_id spec = None /\
      tx = d <| operations := <[op_id op := inserted_op op key]> (operations d) |>
             <| instances := <[instance_id spec := created_row spec rt tok ident lin now]> (instances d) |>
  | None => tx = d <| operations := <[op_id op := inserted_op op key]> (operations d) |>
      <| instances := update (fun i => i <| i_state := recorded |> <| i_updated_at_ms := now |>)
                        (op_instance_id op) (instances d) |>
  end.
Proof.
  unfold submit_commit. intros H.
  destruct (match claim with Some c => take_deadline (op_instance_id op) c cn db | None => (db, true) end)
    as [d b] eqn:E. destruct b; simpl in H; [|done]. exists d.
  destruct (insert_op_row op key d) as [tx'|] eqn:Ei; simpl in H; [|done].
  apply insert_op_row_Ok in Ei as (Hf & Hk & ->).
  split; [destruct claim; [done|congruence]|]. split_and!; [done..|].
  destruct cs as [spec|]; [|by simplify_eq].
  destruct (mint (instance_id spec)) as [ident|]; simpl in H; [|done].
  destruct (instances d !! instance_id spec) eqn:Es; simpl in H; [done|]. simplify_eq. eauto.
Qed.

Lemma submit_journaled op key tr cs rt tok claim lin cn now db db' recorded :
  submit_atomically mint plan op key tr cs rt tok claim lin cn now db = (db', Ok (Journaled recorded)) ->
  committed op key recorded cs claim cn db db'.
Proof.
  unfold submit_atomically. destruct (op_id_of_key key db) as [k|] eqn:Ek; [by destruct (get_operation k db)|].
  destruct (has_inflight_op _ _) eqn:Eh; [done|].
  destruct (submit_plan plan op tr cs db) as [rec|] eqn:Ep; [|done].
  destruct (submit_commit _ _ _ _ _ _ _ _ _ _ _ _) as [[tx|]|] eqn:Ec; intros; simplify_eq.
  apply submit_commit_Some in Ec as (d & Hd & Hf & Hk & Hcs).
  assert (operations d = operations db) as Hops.
  { destruct claim; [|by subst]. apply (f_equal fst) in Hd. simpl in Hd. by rewrite <- Hd, take_deadline_operations. }
  unfold submit_plan in Ep. rewrite Hops in *.
  assert (forall c, claim = Some c -> exists i, instances db !! op_instance_id op = Some i /\
    claim_column c i = Some (claim_value c) /\ claim_value c <= cn /\
    instances d = <[op_instance_id op := (claim_clear c i) <| i_updated_at_ms := cn |>]> (instances db)) as Hcl.
  { intros c ->. by apply take_deadline_true in Hd. }
  destruct cs as [spec|].
  - destruct (instances db !! op_instance_id op) eqn:Ei; [done|]. simplify_eq.
    destruct claim as [c|]; [destruct (Hcl c eq_refl) as (? & ? & _); congruence|]. subst d.
    destruct Hcs as (ident & Hn & ->). split; simpl; auto.
    + by apply op_id_of_key_None.
    + by apply has_inflight_op_false.
    + split_and!; [done..|]. eexists. split; [done|]. unfold created_row.
      by destruct ident as [[]|], lin as [[]|].
  - destruct (instances db !! op_instance_id op) as [i|] eqn:Ei; [|done].
    destruct (plan (i_state i)) eqn:Epl; [|done]. simplify_eq.
    split; simpl; auto; [by apply op_id_of_key_None|by apply has_inflight_op_false| |].
    + destruct claim as [c|].
      * destruct (Hcl c eq_refl) as (i' & ? & _ & _ & Hins). simplify_eq. rewrite Hins. unfold update, update_where.
        rewrite lookup_insert_eq. simpl. do 2 eexists. split_and!; [done|done|by rewrite insert_insert_eq|done|].
        by destruct c.
      * subst d. unfold update, update_where. rewrite Ei. simpl. eauto 10.
    + destruct claim as [c|]; [|done]. destruct (Hcl c eq_refl) as (i' & ? & ? & ? & Hins). simplify_eq.
      split; [done|]. do 2 eexists. split_and!; [done| |done..|].
      * rewrite Hins. unfold update, update_where. rewrite lookup_insert_eq. simpl. by rewrite lookup_insert_eq.
      * by destruct c.
Qed.

(** A create records the verb's transitional state. *)
Lemma submit_created op key tr spec rt tok claim lin cn now db db' recorded :
  submit_atomically mint plan op key tr (Some spec) rt tok claim lin cn now db = (db', Ok (Journaled recorded)) ->
  recorded = tr.
Proof. unfold submit_atomically, submit_plan. intros H. by repeat (split_match; simplify_eq/=). Qed.

Lemma submit_other op key tr cs rt tok claim lin cn now db db' r :
  submit_atomically mint plan op key tr cs rt tok claim lin cn now db = (db', r) ->
  db' = db \/ exists recorded, r = Ok (Journaled recorded).
Proof.
  unfold submit_atomically. intros H. repeat (split_match; simplify_eq/=); eauto.
Qed.
End SubmitLemmas.

(** * Runs of the journal

    One call of any method that touches the operations table, or of one that leaves
    it alone. *)
Inductive db_step : Db -> Db -> Prop :=
| ds_submit mint plan op key tr cs rt tok claim lin cn now db db' r :
    submit_atomically mint plan op key tr cs rt tok claim lin cn now db = (db', r) -> db_step db db'
| ds_set_step k step db : db_step db (set_op_step k step db)
| ds_froze k db : db_step db (set_op_froze_workload k db)
| ds_fork_mode k m db : db_step db (set_op_fork_mode k m db)
| ds_await k p db db' r : await_op_input k p db = (db', r) -> db_step db db'
| ds_resume k p db db' r : resume_op_from_input k p db = (db', r) -> db_step db db'
| ds_cancel k p now db db' r : finish_op_canceled k p now db = (db', r) -> db_step db db'
| ds_finish k iid st ttl sr cr degr out now db db' r :
    finish_operation k iid st ttl sr cr degr out now db = (db', r) -> db_step db db'
| ds_fail_inflight msg now db : db_step db (fst (fail_inflight_ops msg now db))
| ds_open db : db_step db (open db)
| ds_other db db' : operations db' = operations db -> db_step db db'.

Definition journal_reachable (db : Db) : Prop := rtc db_step empty_db db.

(** Rows that were there evolve; a submission may add one. *)
Lemma db_step_ops db db' :
  db_step db db' -> ops_inv (operations db) ->
  ops_step (operations db) (operations db') \/
  exists op key, operations db !! op_id op = None /\
    (forall k o, operations db !! k = Some o -> o_idempotency_key o <> key) /\
    (forall k o, operations db !! k = Some o -> ~ active_on (op_instance_id op) o) /\
    operations db' = <[op_id op := inserted_op op key]> (operations db).
Proof.
  destruct 1 as [mint plan op key tr cs rt tok claim lin cn now db db' r H| | | | | | | | | |db db' E]; intros Hi;
    eauto using set_op_step_evolves, set_op_froze_workload_evolves, set_op_fork_mode_evolves,
      await_op_input_evolves, resume_op_from_input_evolves, finish_op_canceled_evolves,
      finish_operation_evolves, fail_inflight_ops_evolves, open_evolves.
  - destruct (submit_other _ _ _ _ _ _ _ _ _ _ _ _ _ _ _ H) as [->|[rec ->]]; [left; apply ops_step_refl|].
    right. apply submit_journaled in H as [????]. eauto 10.
  - left. rewrite E. apply ops_step_refl.
Qed.

Lemma insert_ops_inv op key m :
  ops_inv m -> m !! op_id op = None ->
  (forall k o, m !! k = Some o -> o_idempotency_key o <> key) ->
  (forall k o, m !! k = Some o -> ~ active_on (op_instance_id op) o) ->
  ops_inv (<[op_id op := inserted_op op key]> m).
Proof.
  intros [Ha Hs Hk] Hf Hkey Hidle. unfold active_on in Hidle. split.
  - intros k o [[<- <-]|[? ?]]%lookup_insert_Some; [done|eauto].
  - intros k1 k2 o1 o2 [[<- <-]|[? H1]]%lookup_insert_Some [[<- <-]|[? H2]]%lookup_insert_Some; simpl;
      intros A1 A2 E; eauto; exfalso; [eapply (Hidle k2)|eapply (Hidle k1)]; eauto.
  - intros k1 k2 o1 o2 [[<- <-]|[? H1]]%lookup_insert_Some [[<- <-]|[? H2]]%lookup_insert_Some; simpl;
      intros E; eauto; exfalso; [eapply (Hkey k2)|eapply (Hkey k1)]; eauto.
Qed.

Lemma db_step_inv db db' : db_step db db' -> ops_inv (operations db) -> ops_inv (operations db').
Proof.
  intros Hs Hi. destruct (db_step_ops _ _ Hs Hi) as [?|(op & key & ? & ? & ? & ->)];
    eauto using ops_step_inv, insert_ops_inv.
Qed.

Lemma db_steps_inv db db' : rtc db_step db db' -> ops_inv (operations db) -> ops_inv (operations db').
Proof. induction 1; eauto using db_step_inv. Qed.

Lemma reachable_ops_inv db : journal_reachable db -> ops_inv (operations db).
Proof. intros H. eapply db_steps_inv; [exact H|]. by split. Qed.

(** A row present now is present after any step, evolved. *)
Lemma db_step_row db db' k o :
  db_step db db' -> ops_inv (operations db) -> operations db !! k = Some o ->
  exists o', operations db' !! k = Some o' /\ op_evolves o o'.
Proof.
  intros Hs Hi Hk. destruct (db_step_ops _ _ Hs Hi) as [[H _]|(op & key & Hf & _ & _ & ->)]; [by apply H|].
  exists o. rewrite lookup_insert_ne by (intros E; rewrite E in Hf; congruence). auto using op_evolves_refl.
Qed.

(** The same along a run. *)
Lemma db_steps_row db db' k o :
  rtc db_step db db' -> ops_inv (operations db) -> operations db !! k = Some o ->
  exists o', operations db' !! k = Some o' /\
  (o_kind o' = o_kind o /\ o_instance_id o' = o_instance_id o /\
   o_idempotency_key o' = o_idempotency_key o /\ o_payload o' = o_payload o) /\
  rtc op_step (o_state o) (o_state o') /\
  (op_is_settled (o_state o) = true ->
     o_state o' = o_state o /\ o_error_reason o' = o_error_reason o /\ o_error_message o' = o_error_message o /\
     o_degraded o' = o_degraded o /\ o_finished_at_ms o' = o_finished_at_ms o).
Proof.
  intros Hs. revert o. induction Hs as [db|db1 db2 db3 Hs Hss IH]; intros o Hr Hk.
  { exists o. split_and!; auto using rtc_refl. }
  destruct (db_step_row _ _ _ _ Hs Hr Hk) as (o2 & Hk2 & [(? & ? & ? & ? & _) Hlegal Hout _ _]).
  destruct (IH _ (db_step_inv _ _ Hs Hr) Hk2) as (o3 & Hk3 & (? & ? & ? & ?) & Hrtc & Hset).
  exists o3. split_and!; try congruence.
  - destruct Hlegal as [E|E]; [by rewrite <- E|]. by eapply rtc_l.
  - intros Hx. assert (o_state o2 = o_state o) as E.
    { destruct Hlegal as [?|E]; [done|]. by destruct (o_state o), (o_state o2). }
    destruct (Hout Hx) as (? & ? & ? & ? & ?). rewrite E in Hset. destruct (Hset Hx) as (? & ? & ? & ? & ?).
    split_and!; congruence.
Qed.

(** ** Properties *)

(** C3: per-instance serialisation. In every reachable journal an operation that is in
    flight has a live executor, at most one executor is live per instance (a canceled
    operation's included, until its work has left the substrate), and an idempotency
    key names at most one operation. *)
Theorem executors_serialised db k1 k2 o1 o2 :
  journal_reachable db -> operations db !! k1 = Some o1 -> operations db !! k2 = Some o2 ->
  (op_is_in_flight (o_state o1) = true -> o_executor_active o1 = true) /\
  (o_instance_id o1 = o_instance_id o2 -> o_executor_active o1 = true -> o_executor_active o2 = true -> k1 = k2) /\
  (o_idempotency_key o1 = o_idempotency_key o2 -> k1 = k2).
Proof. intros Hr H1 H2. destruct (reachable_ops_inv _ Hr) as [? ? ?]. split_and!; eauto. Qed.

(** The journal obeys the operation state machine. Across any run, an operation is
    never lost and keeps its kind, instance, key and payload; its state only moves along
    legal transitions; once settled, its state and its recorded outcome never change. *)
Theorem operation_history_is_legal db db' k o :
  journal_reachable db -> rtc db_step db db' -> operations db !! k = Some o ->
  exists o', operations db' !! k = Some o' /\
  o_kind o' = o_kind o /\ o_instance_id o' = o_instance_id o /\
  o_idempotency_key o' = o_idempotency_key o /\ o_payload o' = o_payload o /\
  rtc op_step (o_state o) (o_state o') /\
  (op_is_settled (o_state o) = true ->
     o_state o' = o_state o /\ o_error_reason o' = o_error_reason o /\ o_error_message o' = o_error_message o /\
     o_degraded o' = o_degraded o /\ o_finished_at_ms o' = o_finished_at_ms o).
Proof.
  intros Hr%reachable_ops_inv Hs Hk.
  destruct (db_steps_row _ _ _ _ Hs Hr Hk) as (o' & ? & (? & ? & ? & ?) & ? & ?). exists o'. done.
Qed.

Section SubmitProperties.
Context (mint : string -> res string (option Identity)) (plan : IS.t -> option IS.t).

(** A submission is all or nothing. Unless it is journaled it leaves the journal
    exactly as it was. When it is journaled: its key and its id were new and no executor
    was live on the instance; exactly its own row is added, with a live executor; the
    instance moves to the state planned for it from the state it had (or appears, as
    CREATING, for a create), nothing else of it changing owner; and a claimed deadline
    was due, was the one expected, and is cleared. *)
Theorem submission_all_or_nothing op key tr cs rt tok claim lin cn now db db' r :
  submit_atomically mint plan op key tr cs rt tok claim lin cn now db = (db', r) ->
  (db' = db /\ forall s, r <> Ok (Journaled s)) \/
  exists recorded, r = Ok (Journaled recorded) /\ committed plan op key recorded cs claim cn db db'.
Proof.
  intros H. destruct r as [[s|o| |m| ]|e];
    [right; exists s; eauto using submit_journaled|left; split; [|done]..];
    by destruct (submit_other _ _ _ _ _ _ _ _ _ _ _ _ _ _ _ H) as [->|[? ?]].
Qed.

(** Replays are answered from the journal, for ever. Once an operation is journaled
    under a key, every later submission with that key, whatever it asks for and however
    the journal moved on in between, changes nothing and is given the original
    operation, with its kind, instance and payload. *)
Theorem replay_returns_the_original op key tr cs rt tok claim lin cn now db db1 s db2
    op' tr' cs' rt' tok' claim' lin' cn' now' :
  journal_reachable db ->
  submit_atomically mint plan op key tr cs rt tok claim lin cn now db = (db1, Ok (Journaled s)) ->
  rtc db_step db1 db2 ->
  exists row, submit_atomically mint plan op' key tr' cs' rt' tok' claim' lin' cn' now' db2 = (db2, Ok (Replay row)) /\
    op_id row = op_id op /\ op_kind row = op_kind op /\ op_instance_id row = op_instance_id op /\
    op_payload row = op_payload op.
Proof.
  intros Hr Hs Hss. apply submit_journaled in Hs as [Hf Hk Hidle Hops _ _].
  pose proof (insert_ops_inv _ _ _ (reachable_ops_inv _ Hr) Hf Hk Hidle) as Hi. rewrite <- Hops in Hi.
  destruct (db_steps_row _ _ (op_id op) (inserted_op op key) Hss Hi) as (o & Ho & (? & ? & Hkey & ?) & _);
    [by rewrite Hops, lookup_insert_eq|].
  exists (operation_row_from (op_id op) o). split; [|done]. unfold submit_atomically.
  destruct (op_id_of_key key db2) as [k|] eqn:E; [|by eapply op_id_of_key_None in E; [|exact Ho]].
  apply op_id_of_key_Some in E as (o2 & Ho2 & Hkey2).
  assert (k = op_id op) as -> by (apply (inv_keys _ (db_steps_inv _ _ Hss Hi) k _ o2 o Ho2 Ho); simpl in Hkey; congruence).
  unfold get_operation. by rewrite Ho.
Qed.
End SubmitProperties.

(** ** Finishing *)

Lemma update_op_true p f k db db' :
  update_op p f k db = (db', true) ->
  exists o, operations db !! k = Some o /\ p o = true /\ db' = db <| operations := <[k := f o]> (operations db) |>.
Proof.
  unfold update_op. destruct (update_where _ _ _ _) as [m b] eqn:E. intros [= <- ->].
  destruct (update_where_lookup _ _ _ _ _ _ E) as [(_ & o & ? & ? & ->)|(? & _)]; [eauto|done].
Qed.

Lemma update_op_false p f k db db' :
  update_op p f k db = (db', false) -> forall o, operations db !! k = Some o -> p o = false.
Proof.
  unfold update_op. destruct (update_where _ _ _ _) as [m b] eqn:E. intros [= <- ->].
  by destruct (update_where_lookup _ _ _ _ _ _ E) as [(? & _)|(_ & _ & ?)].
Qed.

Lemma update_lookup {A} (f : A -> A) k (m : gmap string A) j :
  update f k m !! j = if decide (j = k) then f <$> m !! j else m !! j.
Proof.
  unfold update, update_where. case_decide as E; [subst|]; destruct (m !! k) eqn:Hk; simpl;
    rewrite ?lookup_insert_eq, ?lookup_insert_ne, ?Hk by done; done.
Qed.

(** What a finished operation leaves: the two halves of the transaction. *)
Lemma finish_operation_Ok k iid st ttl sr cr degr out now db db' f :
  finish_operation k iid st ttl sr cr degr out now db = (db', Ok f) ->
  instances db' = update (finish_instance st ttl sr cr now) iid (instances db) /\
  exists o, operations db !! k = Some o /\
  (outcome_recorded f = true /\ op_is_in_flight (o_state o) = true /\
     operations db' = <[k := finish_row out degr now o]> (operations db) \/
   outcome_recorded f = false /\ o_state o = Op.Canceled /\
     operations db' = <[k := o <| o_executor_active := false |>]> (operations db) /\
     exists i, instances db !! iid = Some i /\ (i_state i = st \/ can_transition (i_state i) st = true)).
Proof.
  unfold finish_operation. destruct (update_op _ _ _ _) as [d b] eqn:E. intros H. destruct b.
  - apply update_op_true in E as (o & Ho & Hp & ->). simplify_eq/=. split; [done|]. exists o. split; [done|].
    left. rewrite state_in_flight in Hp. done.
  - revert H. case_bool_decide as E1; simpl; [|done]. destruct (negb _) eqn:E2; [done|]. intros H. to_prop. simpl in *.
    apply fmap_Some in E1 as (o & Ho & Hc). unfold update_op, update_where in H. simpl in H.
    rewrite Ho in H. simplify_eq/=. split; [done|]. exists o. split; [done|]. right. split_and!; [done..|].
    destruct (instances db !! iid) as [i|]; simpl in *; [|done]. exists i. split; [done|].
    apply orb_true_iff in E2 as [?|?]; [left; by to_prop|by right].
Qed.

(** C9: finishing an operation is all or nothing. If it fails, nothing moved, neither
    the instance nor the operation. If it succeeds the instance is in the target state
    with the given deadline and stop reason and the operation's executor is released;
    the outcome is recorded exactly when the operation was still in flight, and an
    operation canceled meanwhile keeps its cancellation while its instance moves only
    where the state machine lets it. *)
Theorem finish_operation_all_or_nothing k iid st ttl sr cr degr out now db db' r :
  finish_operation k iid st ttl sr cr degr out now db = (db', r) ->
  match r with
  | Err _ => db' = db
  | Ok f => exists o o', operations db !! k = Some o /\ operations db' = <[k := o']> (operations db) /\
      o_executor_active o' = false /\
      (forall i, instances db !! iid = Some i -> exists i', instances db' !! iid = Some i' /\ i_state i' = st /\
         i_ttl_deadline_ms i' = ttl /\ (cr = true -> i_ready i' = false) /\
         stop_reason_from (i_stop_requested i') (i_stop_exit_code i') (i_stop_detail i') = sr) /\
      (forall j, j <> iid -> instances db' !! j = instances db !! j) /\
      if outcome_recorded f
      then op_is_in_flight (o_state o) = true /\ o_finished_at_ms o' = Some now /\ o_degraded o' = degr /\
        match out with
        | Ok _ => o_state o' = Op.Done
        | Err (reason, msg) => o_state o' = Op.Failed /\ o_error_reason o' = reason /\ o_error_message o' = msg
        end
      else o_state o = Op.Canceled /\ o' = o <| o_executor_active := false |> /\
        exists i, instances db !! iid = Some i /\ (i_state i = st \/ can_transition (i_state i) st = true)
  end.
Proof.
  intros H. destruct r as [f|e].
  - apply finish_operation_Ok in H as (Hi & o & Ho & Hc). exists o.
    assert (forall i, instances db !! iid = Some i -> exists i', instances db' !! iid = Some i' /\ i_state i' = st /\
       i_ttl_deadline_ms i' = ttl /\ (cr = true -> i_ready i' = false) /\
       stop_reason_from (i_stop_requested i') (i_stop_exit_code i') (i_stop_detail i') = sr) as H1.
    { intros i Hiid. exists (finish_instance st ttl sr cr now i).
      rewrite Hi, update_lookup, decide_True, Hiid by done. split_and!; [done..| |]; simpl.
      - by intros ->.
      - by destruct sr as [[]|]. }
    assert (forall j, j <> iid -> instances db' !! j = instances db !! j) as H2.
    { intros j Hj. by rewrite Hi, update_lookup, decide_False. }
    destruct Hc as [(-> & Hf & ->)|(-> & Hc & -> & Hx)]; eexists; (split_and!; [done|reflexivity|..]); try done.
    all: by destruct out as [?|[??]].
  - unfold finish_operation in H. destruct (update_op _ _ _ _) as [d b]. repeat (split_match; simplify_eq/=); done.
Qed.

(** ** Until an executor has finished

    The calls that other tasks, and the executor of [k] itself before its end, make to the
    journal of a running process: any but the one that finishes [k]. *)
Inductive before_finish (k : string) : Db -> Db -> Prop :=
| bf_submit mint plan op key tr cs rt tok claim lin cn now db db' r :
    submit_atomically mint plan op key tr cs rt tok claim lin cn now db = (db', r) -> before_finish k db db'
| bf_set_step k' step db : before_finish k db (set_op_step k' step db)
| bf_froze k' db : before_finish k db (set_op_froze_workload k' db)
| bf_fork_mode k' m db : before_finish k db (set_op_fork_mode k' m db)
| bf_await k' p db db' r : await_op_input k' p db = (db', r) -> before_finish k db db'
| bf_resume k' p db db' r : resume_op_from_input k' p db = (db', r) -> before_finish k db db'
| bf_cancel k' p now db db' r : finish_op_canceled k' p now db = (db', r) -> before_finish k db db'
| bf_finish k' iid st ttl sr cr degr out now db db' r :
    k' <> k -> finish_operation k' iid st ttl sr cr degr out now db = (db', r) -> before_finish k db db'
| bf_other db db' : operations db' = operations db -> before_finish k db db'.

Lemma before_finish_db_step k db db' : before_finish k db db' -> db_step db db'.
Proof.
  destruct 1; [eapply ds_submit|apply ds_set_step|apply ds_froze|apply ds_fork_mode|eapply ds_await|eapply ds_resume
    |eapply ds_cancel|eapply ds_finish|apply ds_other]; done.
Qed.

(** The operation is canceled and its executor still at work. *)
Definition winding_up (k iid : string) (m : gmap string OpCols) : Prop :=
  exists o, m !! k = Some o /\ o_state o = Op.Canceled /\ o_executor_active o = true /\ o_instance_id o = iid.

Lemma update_op_winding p f k iid k' db db' b :
  update_op p f k' db = (db', b) -> winding_up k iid (operations db) ->
  (forall o, k' = k -> o_state o = Op.Canceled -> p o = true ->
     o_state (f o) = Op.Canceled /\ o_executor_active (f o) = o_executor_active o /\ o_instance_id (f o) = o_instance_id o) ->
  winding_up k iid (operations db').
Proof.
  unfold update_op. destruct (update_where _ _ _ _) as [m b'] eqn:E. intros [= <- <-] (o & Ho & Hc & Ha & Hi) Hf. simpl.
  destruct (update_where_lookup _ _ _ _ _ _ E) as [(_ & o' & Ho' & Hp & ->)|(_ & -> & _)]; [|by exists o].
  destruct (decide (k' = k)) as [->|Hne]; [|exists o; by rewrite lookup_insert_ne].
  simplify_eq. destruct (Hf o eq_refl Hc Hp) as (? & Ea & Ei). exists (f o). rewrite lookup_insert_eq. split_and!; congruence.
Qed.

Lemma move_op_winding k iid k' to p f db db' r :
  move_op k' to p f db = (db', r) -> winding_up k iid (operations db) ->
  (forall o, o_state o = Op.Canceled -> p o = false) -> winding_up k iid (operations db').
Proof.
  unfold move_op. destruct (update_op p f k' db) as [d b] eqn:E. intros H Hw Hp.
  destruct b; simplify_eq; [|done]. eapply update_op_winding; [exact E|done|]. intros o _ Hc Ho. rewrite Hp in Ho; done.
Qed.

Lemma before_finish_winding k iid db db' :
  before_finish k db db' -> ops_inv (operations db) -> winding_up k iid (operations db) -> winding_up k iid (operations db').
Proof.
  destruct 1 as [? ? ? ? ? ? ? ? ? ? ? ? db db' r H|k' step db|k' db|k' m db|k' p db db' r H|k' p db db' r H|k' p now db db' r H
    |k' ? ? ? ? ? ? ? ? db db' r Hne H|db db' E]; intros Hi Hw.
  - destruct (submit_other _ _ _ _ _ _ _ _ _ _ _ _ _ _ _ H) as [->|[rec ->]]; [done|].
    apply submit_journaled in H as [Hf _ _ -> _ _]. destruct Hw as (o & Ho & ?). exists o.
    rewrite lookup_insert_ne; [done|]. intros E. congruence.
  - unfold set_op_step. destruct (update_op _ _ _ _) as [d b] eqn:E. eapply update_op_winding; [exact E|done|].
    intros o _ Hc Hp. rewrite state_in_flight, Hc in Hp. done.
  - unfold set_op_froze_workload. destruct (update_op _ _ _ _) as [d b] eqn:E. eapply update_op_winding; [exact E|done|done].
  - unfold set_op_fork_mode. destruct (update_op _ _ _ _) as [d b] eqn:E. eapply update_op_winding; [exact E|done|done].
  - eapply move_op_winding; [exact H|done|]. intros o Hc. unfold state_in. by rewrite Hc.
  - eapply move_op_winding; [exact H|done|]. intros o Hc. cbv beta. by rewrite Hc.
  - eapply move_op_winding; [exact H|done|]. intros o Hc. unfold state_in. by rewrite Hc.
  - unfold finish_operation in H. destruct (update_op _ _ _ _) as [d b] eqn:E.
    destruct b; [|destruct (negb (bool_decide _)); [|destruct (negb _)]]; simplify_eq; try done.
    + by eapply update_op_winding; [exact E|done|].
    + destruct (update_op (fun _ => true) _ _ _) as [d2 b2] eqn:E2. by eapply update_op_winding; [exact E2|done|].
  - by rewrite E.
Qed.

Lemma canceled_winds_up k o reason now db db1 :
  ops_inv (operations db) -> operations db !! k = Some o -> o_state o = Op.Running ->
  finish_op_canceled k reason now db = (db1, Ok tt) -> winding_up k (o_instance_id o) (operations db1).
Proof.
  intros Hi Ho Hrun Hc. unfold finish_op_canceled, move_op in Hc. destruct (update_op _ _ _ _) as [d b] eqn:E.
  destruct b; [|done]. simplify_eq. apply update_op_true in E as (o2 & Ho2 & _ & ->). simplify_eq/=. eexists.
  rewrite lookup_insert_eq. split; [done|]. simpl. rewrite Hrun. simpl. split_and!; try done.
  apply (inv_active _ Hi k); [done|by rewrite Hrun].
Qed.

Lemma before_finish_keeps k iid db1 db2 :
  ops_inv (operations db1) -> winding_up k iid (operations db1) -> rtc (before_finish k) db1 db2 ->
  ops_inv (operations db2) /\ winding_up k iid (operations db2).
Proof.
  intros Hi Hw Hr. induction Hr as [|x y z Hs _ IH]; [done|]. apply IH; [|by eapply before_finish_winding].
  eapply db_step_inv; [|exact Hi]. by eapply before_finish_db_step.
Qed.

(** C10: cancelling does not let a second executor in. After a running operation is
    canceled, and whatever journal calls other requests and the executor itself make until
    the executor finishes (the process not restarting), the operation stays canceled and
    holds its claim, and every new submission on its instance is refused as a conflict and
    changes nothing; when the executor finishes, the cancellation stands, and only then is
    the instance free again. *)
Theorem cancellation_keeps_the_claim db k o reason now db1 db2 :
  journal_reachable db -> operations db !! k = Some o -> o_state o = Op.Running ->
  finish_op_canceled k reason now db = (db1, Ok tt) -> rtc (before_finish k) db1 db2 ->
  (exists o2, operations db2 !! k = Some o2 /\ o_state o2 = Op.Canceled /\ active_on (o_instance_id o) o2) /\
  (forall mint plan op key tr cs rt tok claim lin cn now3,
     op_instance_id op = o_instance_id o -> op_id_of_key key db2 = None ->
     submit_atomically mint plan op key tr cs rt tok claim lin cn now3 db2 = (db2, Ok Conflict)) /\
  (forall st ttl sr cr degr out now2 db3 f,
     finish_operation k (o_instance_id o) st ttl sr cr degr out now2 db2 = (db3, Ok f) ->
     outcome_recorded f = false /\ (exists o3, operations db3 !! k = Some o3 /\ o_state o3 = Op.Canceled) /\
     has_inflight_op (o_instance_id o) db3 = false).
Proof.
  intros Hr Ho Hrun Hc Hs. pose proof (reachable_ops_inv _ Hr) as Hi.
  pose proof (ops_step_inv _ _ Hi (finish_op_canceled_evolves _ _ _ _ _ _ Hc)) as Hi1.
  destruct (before_finish_keeps k (o_instance_id o) db1 db2 Hi1 (canceled_winds_up _ _ _ _ _ _ Hi Ho Hrun Hc) Hs)
    as (Hi2 & o2 & Ho2 & Hst & Ha & Hin). split_and!.
  - exists o2. by split_and!.
  - intros mint plan op key tr cs rt tok claim lin cn now3 Hop Hkey.
    unfold submit_atomically. rewrite Hkey. destruct (has_inflight_op _ db2) eqn:E; [done|].
    apply has_inflight_op_false with (k := k) (o := o2) in E; [|done]. exfalso. apply E. split; congruence.
  - intros st ttl sr cr degr out now2 db3 f Hf. apply finish_operation_Ok in Hf as (_ & o3 & Ho3 & Hcase). simplify_eq.
    destruct Hcase as [(_ & Hfl & _)|(Hf & _ & Hops & _)]; [by rewrite Hst in Hfl|]. split_and!; [done| |].
    + rewrite Hops, lookup_insert_eq. by eexists.
    + apply has_inflight_op_false. rewrite Hops. intros k' o' [[<- <-]|[Hne Hk']]%lookup_insert_Some [Hins Hact]; [done|].
      apply Hne. eapply (inv_serial _ Hi2); eauto. congruence.
Qed.

(** ** Deadlines *)

(** A deadline is taken at most once, and only when it is due and still the one
    the caller saw. A successful claim clears it, so a second claim of the same
    deadline fails; a failed claim changes nothing. *)
Theorem deadline_taken_once iid c now db db' b :
  take_deadline iid c now db = (db', b) ->
  (b = false -> db' = db) /\
  (b = true <-> exists i, instances db !! iid = Some i /\ claim_column c i = Some (claim_value c) /\
                          claim_value c <= now) /\
  (b = true -> forall now', take_deadline iid c now' db' = (db', false)).
Proof.
  intros H. split_and!.
  - intros ->. unfold take_deadline in H. destruct (update_where _ _ _ _) as [m b] eqn:E. simplify_eq.
    destruct (update_where_lookup _ _ _ _ _ _ E) as [(? & _)|(_ & -> & _)]; [done|]. by destruct db.
  - split.
    + intros ->. apply take_deadline_true in H as (i & ? & ? & ? & _). eauto.
    + intros (i & Hi & Hc & Hd). unfold take_deadline, update_where in H. rewrite Hi, bool_decide_true in H by done.
      destruct (Z.leb_spec (claim_value c) now); [|lia]. by simplify_eq/=.
  - intros -> now'. apply take_deadline_true in H as (i & _ & _ & _ & Hi).
    unfold take_deadline, update_where. rewrite Hi, lookup_insert_eq.
    assert (claim_column c ((claim_clear c i) <| i_updated_at_ms := now |>) = None) as -> by by destruct c.
    simpl. rewrite <- Hi. by destruct db'.
Qed.

(** ** What [finish_operation] leaves behind

    It is the path every ordinary destroy and start takes, and it neither erases the
    credentials of a destroyed instance nor stamps the run epoch of a running one, as
    [set_instance_state] does for the same states. *)
Lemma finish_keeps_credentials_and_epoch k iid st ttl sr cr degr out now db db' f i :
  finish_operation k iid st ttl sr cr degr out now db = (db', Ok f) -> instances db !! iid = Some i ->
  exists i', instances db' !! iid = Some i' /\ i_state i' = st /\ i_guest_token i' = i_guest_token i /\
    i_guest_anchor i' = i_guest_anchor i /\ i_guest_key i' = i_guest_key i /\ i_host_key i' = i_host_key i /\
    i_run_epoch_ms i' = i_run_epoch_ms i.
Proof.
  intros H Hi. apply finish_operation_Ok in H as (-> & _). rewrite update_lookup, decide_True, Hi by done.
  eexists. done.
Qed.

Lemma set_instance_state_erases_and_stamps iid st now db i :
  instances db !! iid = Some i ->
  exists i', instances (set_instance_state iid st now db) !! iid = Some i' /\ i_state i' = st /\
    (st = IS.Destroyed -> i_guest_token i' = empty_str /\ i_guest_anchor i' = [] /\ i_guest_key i' = [] /\
                          i_host_key i' = []) /\
    (st = IS.Running -> i_run_epoch_ms i' = Some now).
Proof.
  intros Hi. unfold set_instance_state. simpl. repeat case_bool_decide; simplify_eq;
    rewrite ?update_lookup, ?decide_True, Hi by done; eexists; done.
Qed.

(** ** A run *)

Definition ex_op (k kd : string) : OperationRow :=
  mkOperationRow k kd "i" "p" Op.Queued empty_str ErrorReason.Unspecified empty_str empty_str 5 None false
    ForkMode.Unspecified.
Definition ex_spec : InstanceSpec := mkInstanceSpec "i" None None None None 0 0 ∅ None None.
Definition ex_mint (_ : string) : res string (option Identity) := Ok None.
Definition ex_plan (s : IS.t) : option IS.t := if can_transition s IS.Starting then Some IS.Starting else None.

Definition ex_created : Db * res string Submission :=
  submit_atomically ex_mint ex_plan (ex_op "op1" "create") "key1" IS.Creating (Some ex_spec) "stub" "tok" None None
    10 10 empty_db.
Definition ex_running : Db := set_op_step "op1" "boot" (fst ex_created).
Definition ex_canceled : Db := fst (finish_op_canceled "op1" "no" 20 ex_running).
Definition ex_freed : Db :=
  fst (finish_operation "op1" "i" IS.Created (Some 30) None true empty_str (Ok tt) 25 ex_canceled).

Lemma ex_created_reachable : journal_reachable (fst ex_created).
Proof. apply rtc_once. eapply ds_submit. unfold ex_created. apply surjective_pairing. Qed.

Lemma ex_running_reachable : journal_reachable ex_running.
Proof. eapply rtc_r; [exact ex_created_reachable|apply ds_set_step]. Qed.

Definition ex_row (db : Db) : OpCols := default (inserted_op (ex_op empty_str empty_str) empty_str) (operations db !! "op1").

Lemma executors_serialised_witness :
  (op_is_in_flight (o_state (ex_row ex_running)) = true -> o_executor_active (ex_row ex_running) = true) /\
  (o_instance_id (ex_row ex_running) = o_instance_id (ex_row ex_running) ->
   o_executor_active (ex_row ex_running) = true -> o_executor_active (ex_row ex_running) = true -> "op1" = "op1") /\
  (o_idempotency_key (ex_row ex_running) = o_idempotency_key (ex_row ex_running) -> "op1" = "op1").
Proof.
  apply (executors_serialised ex_running "op1" "op1" _ _ ex_running_reachable); reflexivity.
Defined.

Lemma ex_cancel_step : db_step ex_running ex_canceled.
Proof. eapply (ds_cancel "op1" "no" 20). unfold ex_canceled. apply surjective_pairing. Qed.

Lemma operation_history_is_legal_witness :
  exists o', operations ex_canceled !! "op1" = Some o' /\
  o_kind o' = "create" /\ o_instance_id o' = "i" /\ o_idempotency_key o' = "key1" /\ o_payload o' = "p" /\
  rtc op_step Op.Running (o_state o') /\
  (op_is_settled Op.Running = true ->
     o_state o' = Op.Running /\ o_error_reason o' = ErrorReason.Unspecified /\ o_error_message o' = empty_str /\
     o_degraded o' = empty_str /\ o_finished_at_ms o' = None).
Proof.
  apply (operation_history_is_legal ex_running ex_canceled "op1" (ex_row ex_running) ex_running_reachable);
    [apply rtc_once, ex_cancel_step|reflexivity].
Defined.

Lemma submission_all_or_nothing_witness :
  (fst ex_created = empty_db /\ forall s, Ok (Journaled IS.Creating) <> (Ok (Journaled s) : res string Submission)) \/
  exists recorded, (Ok (Journaled IS.Creating) : res string Submission) = Ok (Journaled recorded) /\
    committed ex_plan (ex_op "op1" "create") "key1" recorded (Some ex_spec) None 10 empty_db (fst ex_created).
Proof.
  apply (submission_all_or_nothing ex_mint ex_plan (ex_op "op1" "create") "key1" IS.Creating (Some ex_spec) "stub"
    "tok" None None 10 10 empty_db (fst ex_created) (Ok (Journaled IS.Creating))). reflexivity.
Defined.

Lemma replay_returns_the_original_witness :
  exists row, submit_atomically ex_mint ex_plan (ex_op "op2" "start") "key1" IS.Starting None "stub" "tok" None None
    30 30 ex_canceled = (ex_canceled, Ok (Replay row)) /\
    op_id row = "op1" /\ op_kind row = "create" /\ op_instance_id row = "i" /\ op_payload row = "p".
Proof.
  apply (replay_returns_the_original ex_mint ex_plan (ex_op "op1" "create") "key1" IS.Creating (Some ex_spec) "stub"
    "tok" None None 10 10 empty_db (fst ex_created) IS.Creating ex_canceled); [constructor|reflexivity|].
  eapply rtc_l; [apply ds_set_step|]. apply rtc_once, ex_cancel_step.
Defined.

Lemma finish_operation_all_or_nothing_witness :
  exists o o', operations ex_canceled !! "op1" = Some o /\
    operations ex_freed = <["op1" := o']> (operations ex_canceled) /\ o_executor_active o' = false.
Proof.
  destruct (finish_operation_all_or_nothing "op1" "i" IS.Created (Some 30) None true empty_str (Ok tt) 25
    ex_canceled ex_freed (Ok {| readiness_changed := false; outcome_recorded := false |}) ltac:(vm_compute; reflexivity))
    as (o & o' & ? & ? & ? & _). eauto.
Defined.

(** The executor notes a step after the cancellation; the instance is still taken. *)
Lemma cancellation_keeps_the_claim_witness :
  submit_atomically ex_mint ex_plan (ex_op "op2" "start") "key2" IS.Starting None "stub" "tok" None None 30 30
    (set_op_froze_workload "op1" ex_canceled) = (set_op_froze_workload "op1" ex_canceled, Ok Conflict).
Proof.
  destruct (cancellation_keeps_the_claim ex_running "op1" (ex_row ex_running) "no" 20 ex_canceled
    (set_op_froze_workload "op1" ex_canceled) ex_running_reachable) as (_ & H & _);
    [reflexivity|reflexivity|vm_compute; reflexivity|apply rtc_once, bf_froze|].
  apply H; vm_compute; reflexivity.
Defined.

Lemma deadline_taken_once_witness :
  (true = false -> fst (take_deadline "i" (TtlExpiry 30) 40 ex_freed) = ex_freed) /\
  (true = true <-> exists i, instances ex_freed !! "i" = Some i /\
     claim_column (TtlExpiry 30) i = Some (claim_value (TtlExpiry 30)) /\ claim_value (TtlExpiry 30) <= 40) /\
  (true = true -> forall now',
     take_deadline "i" (TtlExpiry 30) now' (fst (take_deadline "i" (TtlExpiry 30) 40 ex_freed)) =
     (fst (take_deadline "i" (TtlExpiry 30) 40 ex_freed), false)).
Proof.
  apply (deadline_taken_once "i" (TtlExpiry 30) 40 ex_freed (fst (take_deadline "i" (TtlExpiry 30) 40 ex_freed)) true).
  vm_compute. reflexivity.
Defined.
