(* ===== verification/Capsules.v ===== *)
(** Snapshots, capsules and the objects they keep alive:
    src/crates/barista-node-agent/src/db.rs, [insert_snapshot] to
    [finish_capsule_op]. *)

From S2P Require Import Prelude Proto StateMachine Journal.

(** * Snapshots *)

(** [insert_snapshot]: INSERT OR REPLACE of the row, and the instance's pointer to it,
    in one transaction. The hook columns are NOT NULL DEFAULT 0, and SQLite's REPLACE
    resolution substitutes the default for a NULL in such a column. *)
Definition snapshot_cols (row : SnapshotRow) : SnapshotCols :=
  mkSnapshot (sr_instance_id row) (sr_kind row) (sr_cpu_class row) (sr_template_hash row)
    (sr_runtime_bundle_ref row) (sr_tier row) (as_i64 (sr_size_bytes row)) (sr_created_at_ms row)
    (default false (ran <$> sr_pre_snapshot_hook row))
    (default false (timed_out <$> sr_pre_snapshot_hook row))
    (default 0 (hook_exit_code <$> sr_pre_snapshot_hook row))
    (sr_name row).

Definition insert_snapshot (row : SnapshotRow) (now : Z) (db : Db) : Db :=
  db <| snapshots := <[sr_snapshot_id row := snapshot_cols row]> (snapshots db) |>
     <| instances := update (fun i => i <| i_latest_snapshot_id := sr_snapshot_id row |>
                                        <| i_updated_at_ms := now |>) (sr_instance_id row) (instances db) |>.

Definition get_snapshot (sid : string) (db : Db) : option SnapshotRow :=
  snapshot_row_from sid <$> snapshots db !! sid.

Definition snapshot_named (iid name : string) (db : Db) : option SnapshotRow :=
  if is_empty name then None
  else (fun p => snapshot_row_from p.2.1 p.2.2) <$>
    list_find (fun p : string * SnapshotCols => s_instance_id p.2 = iid /\ s_name p.2 = name)
      (map_to_list (snapshots db)).

(** [ORDER BY created_at_ms DESC, snapshot_id DESC]. *)
Definition newest_first (a b : SnapshotRow) : Prop :=
  sr_created_at_ms b < sr_created_at_ms a \/
  (sr_created_at_ms a = sr_created_at_ms b /\ String.le (sr_snapshot_id b) (sr_snapshot_id a)).
#[global] Instance newest_first_dec : RelDecision newest_first.
Proof. intros a b. unfold newest_first. apply _. Defined.

Definition list_snapshots (iid : string) (db : Db) : list SnapshotRow :=
  merge_sort newest_first
    ((fun p => snapshot_row_from p.1 p.2) <$>
      filter (fun p : string * SnapshotCols => iid = empty_str \/ s_instance_id p.2 = iid)
        (map_to_list (snapshots db))).

Definition delete_snapshot (sid : string) (db : Db) : Db :=
  db <| snapshots := delete sid (snapshots db) |>
     <| instances := (fun i => if decide (i_latest_snapshot_id i = sid)
                               then i <| i_latest_snapshot_id := empty_str |> else i) <$> instances db |>.

(** * Capsules and their objects *)

Record CapsuleRow := mkCapsuleRow {
  cr_capsule_id : string;
  cr_manifest : CapsuleManifest;
  cr_storage : CapsuleStorage.t;
  cr_total_size : Z;
  cr_created_at_ms : Z }.

#[global] Instance rebuild_CapsuleRow : Rebuild CapsuleRow := fun c =>
  mkCapsuleRow (cr_capsule_id c) (cr_manifest c) (cr_storage c) (cr_total_size c) (cr_created_at_ms c).

Definition capsule_row_from (k : string) (c : CapsuleCols) : CapsuleRow :=
  mkCapsuleRow k (c_manifest c) (c_storage c) (as_u64 (c_total_size c)) (c_created_at_ms c).

Definition capsule_tier_rank (s : CapsuleStorage.t) : Z :=
  match s with
  | CapsuleStorage.Unspecified => 0
  | CapsuleStorage.LocalDir => 1
  | CapsuleStorage.ObjectStore => 2
  end.

(** One reference more on an object, new or known. *)
Definition retain_object (obj : CapsuleObject) (m : gmap string ObjectCols) : gmap string ObjectCols :=
  <[obj_digest obj :=
      match m !! obj_digest obj with
      | None => mkObject (as_i64 (obj_length obj)) 1 true false
      | Some o => mkObject (or_length o) (or_refcount o + 1) true false
      end]> m.

(** One reference less; at none, collectable. *)
Definition release_object (obj : CapsuleObject) (m : gmap string ObjectCols) : gmap string ObjectCols :=
  update (fun o => mkObject (or_length o) (Z.max (or_refcount o - 1) 0) (or_verified o)
                     (if or_refcount o - 1 <=? 0 then true else or_gc_pending o))
    (obj_digest obj) m.

Definition register_capsule (row : CapsuleRow) (db : Db) : Db * CapsuleRow :=
  match capsules db !! cr_capsule_id row with
  | Some c =>
      let existing := capsule_row_from (cr_capsule_id row) c in
      if capsule_tier_rank (cr_storage existing) <? capsule_tier_rank (cr_storage row)
      then (db <| capsules := <[cr_capsule_id row := c <| c_storage := cr_storage row |>]> (capsules db) |>,
            existing <| cr_storage := cr_storage row |>)
      else (db, existing)
  | None =>
      (db <| capsules := <[cr_capsule_id row :=
                mkCapsule (cr_manifest row) (cr_storage row) (cm_lineage_id (cr_manifest row))
                  (as_i64 (cr_total_size row)) (cr_created_at_ms row)]> (capsules db) |>
          <| object_refs := foldl (fun m o => retain_object o m) (object_refs db) (cm_objects (cr_manifest row)) |>,
       row)
  end.

Definition get_capsule (k : string) (db : Db) : option CapsuleRow :=
  capsule_row_from k <$> capsules db !! k.

Definition capsule_newest_first (a b : CapsuleRow) : Prop :=
  cr_created_at_ms b < cr_created_at_ms a \/
  (cr_created_at_ms a = cr_created_at_ms b /\ String.le (cr_capsule_id b) (cr_capsule_id a)).
#[global] Instance capsule_newest_first_dec : RelDecision capsule_newest_first.
Proof. intros a b. unfold capsule_newest_first. apply _. Defined.

Definition list_capsules (lineage : string) (db : Db) : list CapsuleRow :=
  merge_sort capsule_newest_first
    ((fun p => capsule_row_from p.1 p.2) <$>
      filter (fun p : string * CapsuleCols => lineage = empty_str \/ c_lineage_id p.2 = lineage)
        (map_to_list (capsules db))).

Definition delete_capsule (k : string) (db : Db) : Db :=
  match capsules db !! k with
  | None => db
  | Some c =>
      db <| capsules := delete k (capsules db) |>
         <| snapshots := delete ("capsule:" +:+ k) (snapshots db) |>
         <| object_refs := foldl (fun m o => release_object o m) (object_refs db) (cm_objects (c_manifest c)) |>
  end.

Definition collectable (o : ObjectCols) : Prop := or_gc_pending o = true /\ or_refcount o <= 0.
#[global] Instance collectable_dec o : Decision (collectable o).
Proof. unfold collectable. apply _. Defined.

Definition collectable_objects (db : Db) : list string :=
  fst <$> filter (fun p : string * ObjectCols => collectable p.2) (map_to_list (object_refs db)).

Definition finalize_object_gc (digest : string) (db : Db) : Db :=
  match object_refs db !! digest with
  | Some o => if decide (collectable o) then db <| object_refs := delete digest (object_refs db) |> else db
  | None => db
  end.

Record ObjectRef := mkObjectRef {
  ob_digest : string; ob_length : Z; ob_refcount : Z; ob_verified : bool; ob_gc_pending : bool }.

Definition object_ref (digest : string) (db : Db) : option ObjectRef :=
  (fun o => mkObjectRef digest (as_u64 (or_length o)) (or_refcount o) (or_verified o) (or_gc_pending o)) <$>
    object_refs db !! digest.

(** * Capsule operations *)

Record CapsuleOpRow := mkCapsuleOpRow {
  cor_op_id : string;
  cor_kind : string;
  cor_capsule_id : string;
  cor_request : string;
  cor_state : OperationState.t;
  cor_error_reason : ErrorReason.t;
  cor_error_message : string;
  cor_created_at_ms : Z;
  cor_finished_at_ms : option Z }.

#[global] Instance rebuild_CapsuleOpRow : Rebuild CapsuleOpRow := fun c =>
  mkCapsuleOpRow (cor_op_id c) (cor_kind c) (cor_capsule_id c) (cor_request c) (cor_state c)
    (cor_error_reason c) (cor_error_message c) (cor_created_at_ms c) (cor_finished_at_ms c).

Definition capsule_op_row_from (k : string) (c : CapsuleOpCols) : CapsuleOpRow :=
  mkCapsuleOpRow k (co_kind c) (co_capsule_id c) (co_request c) (co_state c) (co_error_reason c)
    (co_error_message c) (co_created_at_ms c) (co_finished_at_ms c).

Inductive CapsuleOpBegin : Type :=
| CStarted (r : CapsuleOpRow)
| CReplay (r : CapsuleOpRow)
| CMismatch (r : CapsuleOpRow).

Definition get_capsule_op (k : string) (db : Db) : option CapsuleOpRow :=
  capsule_op_row_from k <$> capsule_operations db !! k.

Definition recover_capsule_ops (now : Z) (db : Db) : Db * Z :=
  (db <| capsule_operations :=
     (fun c => if decide (co_state c = OperationState.Running)
               then c <| co_state := OperationState.Failed |>
                      <| co_error_reason := ErrorReason.SubstrateUnavailable |>
                      <| co_error_message := "node restarted before the capsule operation completed" |>
                      <| co_finished_at_ms := Some now |>
               else c) <$> capsule_operations db |>,
   Z.of_nat (length (filter (fun p : string * CapsuleOpCols => co_state p.2 = OperationState.Running)
                       (map_to_list (capsule_operations db))))).

Definition capsule_op_of_key (key : string) (db : Db) : option (string * CapsuleOpCols) :=
  snd <$> list_find (fun p : string * CapsuleOpCols => co_idempotency_key p.2 = key)
            (map_to_list (capsule_operations db)).

(** [begin_capsule_op]; [op_id] is the ULID generated. INSERT OR IGNORE inserts unless
    the key or the id is taken. *)
Definition begin_capsule_op (kind request key op_id : string) (now : Z) (db : Db)
    : Db * res string CapsuleOpBegin :=
  let cols := mkCapsuleOp kind empty_str key request OperationState.Running ErrorReason.Unspecified
                empty_str now None in
  match capsule_op_of_key key db with
  | None =>
      if is_some (capsule_operations db !! op_id) then (db, Err "Query returned no rows")
      else (db <| capsule_operations := <[op_id := cols]> (capsule_operations db) |>,
            Ok (CStarted (capsule_op_row_from op_id cols)))
  | Some (k, c) =>
      let '(db', c') :=
        if bool_decide (co_kind c = kind) && is_empty (co_request c)
        then let c' := c <| co_request := request |> in
             (db <| capsule_operations := <[k := c']> (capsule_operations db) |>, c')
        else (db, c) in
      (db', Ok ((if bool_decide (co_kind c' = kind) && bool_decide (co_request c' = request)
                 then CReplay else CMismatch) (capsule_op_row_from k c')))
  end.

Definition finish_capsule_op (k capsule_id : string) (st : OperationState.t) (reason : ErrorReason.t)
    (msg : string) (now : Z) (db : Db) : Db * res string CapsuleOpRow :=
  let '(m, _) := update_where (fun c => bool_decide (co_state c = OperationState.Running))
    (fun c => c <| co_capsule_id := capsule_id |> <| co_state := st |> <| co_error_reason := reason |>
                <| co_error_message := msg |> <| co_finished_at_ms := Some now |>) k (capsule_operations db) in
  (db <| capsule_operations := m |>,
   match m !! k with Some c => Ok (capsule_op_row_from k c) | None => Err "Query returned no rows" end).

(** * Reference counts *)

(** How often a manifest names a digest, and how often the live capsules do. *)
Definition uses (d : string) (l : list CapsuleObject) : Z :=
  Z.of_nat (length (filter (fun o => obj_digest o = d) l)).
Definition refs (d : string) (m : gmap string CapsuleCols) : Z :=
  map_fold (fun _ c acc => uses d (cm_objects (c_manifest c)) + acc) 0 m.

(** The row of a digest that [n] references keep alive. *)
Definition counted (n : Z) (x : option ObjectCols) : Prop :=
  0 <= n /\
  match x with
  | None => n = 0
  | Some o => or_refcount o = n /\ (or_gc_pending o = true <-> n = 0)
  end.

Definition objects_inv (db : Db) : Prop := forall d, counted (refs d (capsules db)) (object_refs db !! d).

Lemma uses_cons d o l : uses d (o :: l) = (if decide (obj_digest o = d) then 1 else 0) + uses d l.
Proof. unfold uses. rewrite filter_cons. case_decide; simpl length; lia. Qed.

Lemma uses_nonneg d l : 0 <= uses d l.
Proof. unfold uses. lia. Qed.

Lemma refs_insert d k c m :
  m !! k = None -> refs d (<[k := c]> m) = uses d (cm_objects (c_manifest c)) + refs d m.
Proof.
  intros. unfold refs. rewrite map_fold_insert_L; [done| |done]. intros. lia.
Qed.

Lemma refs_delete d k c m :
  m !! k = Some c -> refs d m = uses d (cm_objects (c_manifest c)) + refs d (delete k m).
Proof. intros. rewrite <- (refs_insert d k c) by apply lookup_delete_eq. by rewrite insert_delete_id. Qed.

Lemma refs_nonneg d m : 0 <= refs d m.
Proof.
  induction m as [|k c m Hk IH] using map_ind; [done|]. rewrite refs_insert by done.
  pose proof (uses_nonneg d (cm_objects (c_manifest c))). lia.
Qed.

Lemma refs_live d k c m : m !! k = Some c -> uses d (cm_objects (c_manifest c)) <= refs d m.
Proof. intros H. rewrite (refs_delete d k c m H). pose proof (refs_nonneg d (delete k m)). lia. Qed.

Lemma refs_same_manifest d k c c' m :
  m !! k = Some c -> c_manifest c' = c_manifest c -> refs d (<[k := c']> m) = refs d m.
Proof.
  intros Hk Hm. rewrite (refs_delete d k c m Hk), <- insert_delete_eq, refs_insert by apply lookup_delete_eq.
  by rewrite Hm.
Qed.

Lemma retain_counted n d o m :
  counted n (m !! d) -> counted ((if decide (obj_digest o = d) then 1 else 0) + n) (retain_object o m !! d).
Proof.
  intros [Hn Hx]. unfold retain_object, counted. case_decide as E.
  - rewrite E, lookup_insert_eq. destruct (m !! d) as [ob|]; simpl; split_and!; try lia; split; (done || lia).
  - by rewrite lookup_insert_ne.
Qed.

Lemma retain_all_counted n d l m :
  counted n (m !! d) -> counted (uses d l + n) (foldl (fun m o => retain_object o m) m l !! d).
Proof.
  revert n m. induction l as [|o l IH]; intros n m H; [done|]. cbn [foldl].
  rewrite uses_cons. replace (_ + n) with (uses d l + ((if decide (obj_digest o = d) then 1 else 0) + n)) by lia.
  by apply IH, retain_counted.
Qed.

Lemma release_counted n d o m :
  0 <= n -> counted ((if decide (obj_digest o = d) then 1 else 0) + n) (m !! d) ->
  counted n (release_object o m !! d).
Proof.
  intros Hn [_ Hx]. unfold release_object, update, update_where, counted. split; [done|].
  case_decide as E.
  - rewrite E. destruct (m !! d) as [ob|] eqn:Em; [|lia]. simpl. rewrite lookup_insert_eq. simpl.
    destruct Hx as [Hc Hg]. rewrite Hc. split; [lia|].
    destruct (Z.leb_spec (1 + n - 1) 0); [split; (done || lia)|]. rewrite Hg. lia.
  - destruct (m !! obj_digest o) eqn:Eo; simpl; [by rewrite lookup_insert_ne|done].
Qed.

Lemma release_all_counted n d l m :
  0 <= n -> counted (uses d l + n) (m !! d) -> counted n (foldl (fun m o => release_object o m) m l !! d).
Proof.
  revert m. induction l as [|o l IH]; intros m Hn H; [done|]. cbn [foldl]. apply IH; [done|].
  apply release_counted; [pose proof (uses_nonneg d l); lia|]. rewrite uses_cons in H. by rewrite Z.add_assoc.
Qed.

(** The operations that touch capsules or their objects. *)
Inductive capsule_step : Db -> Db -> Prop :=
| cs_register row db : capsule_step db (fst (register_capsule row db))
| cs_delete k db : capsule_step db (delete_capsule k db)
| cs_collect d db : capsule_step db (finalize_object_gc d db)
| cs_other db db' : capsules db' = capsules db -> object_refs db' = object_refs db -> capsule_step db db'.

Lemma register_capsule_inv row db : objects_inv db -> objects_inv (fst (register_capsule row db)).
Proof.
  intros Hi d. specialize (Hi d). unfold register_capsule.
  destruct (capsules db !! cr_capsule_id row) as [c|] eqn:Ec; simpl.
  - destruct (_ <? _); simpl; [|done]. rewrite (refs_same_manifest d _ c) by done. done.
  - rewrite refs_insert by done. simpl. by apply retain_all_counted.
Qed.

Lemma delete_capsule_inv k db : objects_inv db -> objects_inv (delete_capsule k db).
Proof.
  intros Hi d. specialize (Hi d). unfold delete_capsule.
  destruct (capsules db !! k) as [c|] eqn:Ec; simpl; [|done].
  rewrite (refs_delete d k c) in Hi by done. apply release_all_counted; [apply refs_nonneg|done].
Qed.

Lemma finalize_object_gc_inv x db : objects_inv db -> objects_inv (finalize_object_gc x db).
Proof.
  intros Hi d. specialize (Hi d). unfold finalize_object_gc.
  destruct (object_refs db !! x) as [o|] eqn:Eo; [|done]. case_decide as Hc; [simpl|done].
  destruct (decide (x = d)) as [->|]; [|by rewrite lookup_delete_ne].
  rewrite lookup_delete_eq. rewrite Eo in Hi. destruct Hi as [? [? ?]], Hc. split; lia.
Qed.

Lemma capsule_step_inv db db' : capsule_step db db' -> objects_inv db -> objects_inv db'.
Proof.
  destruct 1 as [| | |db db' E1 E2]; eauto using register_capsule_inv, delete_capsule_inv, finalize_object_gc_inv.
  intros Hi d. rewrite E1, E2. apply Hi.
Qed.

Lemma capsule_reachable_inv db : rtc capsule_step empty_db db -> objects_inv db.
Proof.
  assert (objects_inv empty_db) as H0 by (by intros d).
  intros Hr. revert H0. induction Hr; eauto using capsule_step_inv.
Qed.

(** * Properties *)

(** C36: reference counts are exact. After any run of registrations, deletions and
    collections, an object's count is the number of references the live capsules
    make to it, it is marked collectable exactly when that number is zero, and every
    digest a live capsule names has its row. So an object offered for collection is
    named by no live capsule. *)
Theorem refcounts_are_exact db d :
  rtc capsule_step empty_db db ->
  (forall o, object_refs db !! d = Some o ->
     or_refcount o = refs d (capsules db) /\ (or_gc_pending o = true <-> refs d (capsules db) = 0)) /\
  (object_refs db !! d = None -> refs d (capsules db) = 0) /\
  (d ∈ collectable_objects db -> forall k c ob, capsules db !! k = Some c ->
     ob ∈ cm_objects (c_manifest c) -> obj_digest ob <> d).
Proof.
  intros Hr. pose proof (capsule_reachable_inv _ Hr d) as [Hn Hx]. split_and!.
  - intros o Ho. by rewrite Ho in Hx.
  - intros Ho. by rewrite Ho in Hx.
  - intros ([d' o] & -> & [Hc Ho]%list_elem_of_filter)%list_elem_of_fmap k c ob Hk Hob Hd.
    apply elem_of_map_to_list in Ho. simpl in *. rewrite Ho in Hx. destruct Hx as [Hx _], Hc as [_ Hc].
    pose proof (refs_live d' k c _ Hk). unfold uses in *.
    assert (ob ∈ filter (fun o => obj_digest o = d') (cm_objects (c_manifest c))) as Hin
      by (by apply list_elem_of_filter).
    destruct (filter _ (cm_objects (c_manifest c))); [by apply not_elem_of_nil in Hin|simpl in *; lia].
Qed.

(** ** Snapshots *)

(** The journal returns the snapshot it was given, and points its instance at it;
    deleting it removes the row and every pointer to it. The one field that does not
    survive is an unknown hook outcome, which reads back as a hook that did not run. *)
Theorem snapshot_roundtrip row now db :
  is_u64 (sr_size_bytes row) ->
  get_snapshot (sr_snapshot_id row) (insert_snapshot row now db) =
    Some (mkSnapshotRow (sr_snapshot_id row) (sr_instance_id row) (sr_kind row) (sr_cpu_class row)
      (sr_template_hash row) (sr_runtime_bundle_ref row) (sr_tier row) (sr_size_bytes row)
      (sr_created_at_ms row)
      (Some (default {| ran := false; timed_out := false; hook_exit_code := 0 |} (sr_pre_snapshot_hook row)))
      (sr_name row)) /\
  (forall i, instances db !! sr_instance_id row = Some i ->
     exists i', instances (insert_snapshot row now db) !! sr_instance_id row = Some i' /\
       i_latest_snapshot_id i' = sr_snapshot_id row /\ i_state i' = i_state i) /\
  get_snapshot (sr_snapshot_id row) (delete_snapshot (sr_snapshot_id row) (insert_snapshot row now db)) = None /\
  (forall k i, instances (delete_snapshot (sr_snapshot_id row) (insert_snapshot row now db)) !! k = Some i ->
     i_latest_snapshot_id i = sr_snapshot_id row -> sr_snapshot_id row = empty_str).
Proof.
  intros Hs. unfold get_snapshot, insert_snapshot, delete_snapshot. simpl. split_and!.
  - rewrite lookup_insert_eq. simpl. unfold snapshot_row_from. simpl. rewrite as_u64_as_i64 by done.
    by destruct row as [???????? ? [[]|] ?].
  - intros i Hi. unfold update, update_where. rewrite Hi. simpl. rewrite lookup_insert_eq. eauto.
  - by rewrite lookup_delete_eq.
  - intros k i. rewrite lookup_fmap. intros (i0 & _ & ->)%fmap_Some. case_decide as E; simpl; congruence.
Qed.

(** An unknown hook outcome does not survive the journal. *)
Lemma unknown_hook_reads_as_not_run row now db :
  sr_pre_snapshot_hook row = None ->
  option_map sr_pre_snapshot_hook (get_snapshot (sr_snapshot_id row) (insert_snapshot row now db)) =
  Some (Some {| ran := false; timed_out := false; hook_exit_code := 0 |}).
Proof. intros H. unfold get_snapshot, insert_snapshot. simpl. rewrite lookup_insert_eq. simpl. by rewrite H. Qed.

(** ** Capsule operations *)

Definition cop_keys (m : gmap string CapsuleOpCols) : Prop :=
  forall k1 k2 c1 c2, m !! k1 = Some c1 -> m !! k2 = Some c2 ->
    co_idempotency_key c1 = co_idempotency_key c2 -> k1 = k2.

(** How a row may change. *)
Record cop_evolves (c c' : CapsuleOpCols) : Prop := {
  ce_identity : co_kind c' = co_kind c /\ co_idempotency_key c' = co_idempotency_key c;
  ce_request : co_request c <> empty_str -> co_request c' = co_request c;
  ce_settled : co_state c <> OperationState.Running ->
    co_state c' = co_state c /\ co_capsule_id c' = co_capsule_id c /\ co_error_reason c' = co_error_reason c /\
    co_error_message c' = co_error_message c /\ co_finished_at_ms c' = co_finished_at_ms c }.

Lemma cop_evolves_refl c : cop_evolves c c.
Proof. by split. Qed.

Lemma cop_evolves_trans a b c : cop_evolves a b -> cop_evolves b c -> cop_evolves a c.
Proof.
  intros [[? ?] R1 S1] [[? ?] R2 S2]. split.
  - split; congruence.
  - intros Hm. rewrite <- (R1 Hm). apply R2. by rewrite (R1 Hm).
  - intros Hm. destruct (S1 Hm) as (E & ? & ? & ? & ?). rewrite E in S2.
    destruct (S2 Hm) as (? & ? & ? & ? & ?). split_and!; congruence.
Qed.

Inductive cop_step : Db -> Db -> Prop :=
| cops_begin kind request key op_id now db db' r :
    begin_capsule_op kind request key op_id now db = (db', r) -> cop_step db db'
| cops_finish k cid st reason msg now db db' r :
    finish_capsule_op k cid st reason msg now db = (db', r) -> cop_step db db'
| cops_recover now db : cop_step db (fst (recover_capsule_ops now db))
| cops_other db db' : capsule_operations db' = capsule_operations db -> cop_step db db'.

Lemma capsule_op_of_key_Some key db k c :
  capsule_op_of_key key db = Some (k, c) -> capsule_operations db !! k = Some c /\ co_idempotency_key c = key.
Proof.
  unfold capsule_op_of_key. destruct (list_find _ _) as [[i p]|] eqn:E; [|done]. intros [= ->].
  apply list_find_Some in E as (Hi & Hk & _). split; [|done]. by apply elem_of_map_to_list, list_elem_of_lookup_2 with i.
Qed.

Lemma capsule_op_of_key_None key db :
  capsule_op_of_key key db = None ->
  forall k c, capsule_operations db !! k = Some c -> co_idempotency_key c <> key.
Proof.
  unfold capsule_op_of_key. rewrite fmap_None, list_find_None, Forall_forall. intros H k c Hk.
  apply (H (k, c)). by apply elem_of_map_to_list.
Qed.

(** Rows of the later table come from the earlier one, or are the one row begun. *)
Lemma cop_step_rows db db' :
  cop_step db db' ->
  (forall k c, capsule_operations db !! k = Some c ->
     exists c', capsule_operations db' !! k = Some c' /\ cop_evolves c c') /\
  (forall k c', capsule_operations db' !! k = Some c' ->
     (exists c, capsule_operations db !! k = Some c /\ cop_evolves c c') \/
     capsule_operations db' = <[k := c']> (capsule_operations db) /\
     forall j c, capsule_operations db !! j = Some c -> co_idempotency_key c <> co_idempotency_key c').
Proof.
  assert (forall (m : gmap string CapsuleOpCols) k c c', m !! k = Some c -> cop_evolves c c' ->
    (forall j x, m !! j = Some x -> exists x', <[k := c']> m !! j = Some x' /\ cop_evolves x x') /\
    (forall j x', <[k := c']> m !! j = Some x' -> exists x, m !! j = Some x /\ cop_evolves x x')) as Hins.
  { intros m k c c' Hk He. split.
    - intros j x Hj. destruct (decide (k = j)) as [<-|]; [rewrite lookup_insert_eq|rewrite lookup_insert_ne by done];
        simplify_eq; eauto using cop_evolves_refl.
    - intros j x' [[<- <-]|[? ?]]%lookup_insert_Some; eauto using cop_evolves_refl. }
  destruct 1 as [kind request key op_id now db db' r H|k cid st reason msg now db db' r H|now db|db db' E].
  - unfold begin_capsule_op in H. destruct (capsule_op_of_key key db) as [[k c]|] eqn:Ek.
    + apply capsule_op_of_key_Some in Ek as [Hk Hkey]. destruct (bool_decide _ && _) eqn:Eb; simplify_eq; simpl.
      * to_prop. destruct (Hins _ k c (c <| co_request := request |>) Hk) as [H1 H2];
          [by split; simpl|]. split; eauto.
      * split; eauto using cop_evolves_refl.
    + destruct (capsule_operations db !! op_id) eqn:Eo; simplify_eq/=; split; eauto using cop_evolves_refl.
      * intros k c Hk. exists c. rewrite lookup_insert_ne by congruence. auto using cop_evolves_refl.
      * intros k c' [[<- <-]|[? ?]]%lookup_insert_Some; [|eauto using cop_evolves_refl].
        right. split; [done|]. simpl. by apply capsule_op_of_key_None.
  - unfold finish_capsule_op, update_where in H. destruct (capsule_operations db !! k) as [c|] eqn:Ek;
      [|simplify_eq; simpl; split; eauto using cop_evolves_refl].
    case_bool_decide as Es; simplify_eq; simpl; [|split; eauto using cop_evolves_refl].
    match goal with |- context [<[k := ?x]> _] => destruct (Hins _ k c x Ek) as [H1 H2]; [|split; eauto] end. split; simpl; auto. intros. congruence.
  - unfold recover_capsule_ops. simpl.
    assert (forall c, cop_evolves c (if decide (co_state c = OperationState.Running)
      then c <| co_state := OperationState.Failed |> <| co_error_reason := ErrorReason.SubstrateUnavailable |>
             <| co_error_message := "node restarted before the capsule operation completed" |>
             <| co_finished_at_ms := Some now |> else c)) as He.
    { intros c. case_decide; [|apply cop_evolves_refl]. split; simpl; auto. intros. congruence. }
    split; intros k c; rewrite lookup_fmap.
    + intros ->. simpl. eauto.
    + intros (c0 & ? & ->)%fmap_Some. eauto.
  - rewrite E. split; eauto using cop_evolves_refl.
Qed.

Lemma cop_step_keys db db' : cop_step db db' -> cop_keys (capsule_operations db) -> cop_keys (capsule_operations db').
Proof.
  intros Hs Hk. destruct (cop_step_rows _ _ Hs) as [_ Hb]. intros k1 k2 c1 c2 H1 H2 He.
  destruct (Hb _ _ H1) as [(x1 & Hx1 & [[_ E1] _ _])|[Em Hf]].
  - destruct (Hb _ _ H2) as [(x2 & Hx2 & [[_ E2] _ _])|[Em Hf]]; [eapply Hk; eauto; congruence|].
    exfalso. eapply Hf; [exact Hx1|]. congruence.
  - destruct (Hb _ _ H2) as [(x2 & Hx2 & [[_ E2] _ _])|[Em2 Hf2]].
    + exfalso. eapply Hf; [exact Hx2|]. congruence.
    + rewrite Em in H2. apply lookup_insert_Some in H2 as [[? _]|[_ H2]]; [done|]. by destruct (Hf _ _ H2).
Qed.

Lemma cop_steps db db' :
  rtc cop_step db db' -> cop_keys (capsule_operations db) ->
  cop_keys (capsule_operations db') /\
  forall k c, capsule_operations db !! k = Some c ->
    exists c', capsule_operations db' !! k = Some c' /\ cop_evolves c c'.
Proof.
  induction 1 as [|d1 d2 d3 Hs Hss IH]; intros Hk; [eauto using cop_evolves_refl|].
  destruct (IH (cop_step_keys _ _ Hs Hk)) as [Hk3 He]. split; [done|].
  intros k c Hc. destruct (proj1 (cop_step_rows _ _ Hs) _ _ Hc) as (c2 & Hc2 & E2).
  destruct (He _ _ Hc2) as (c3 & ? & ?). eauto using cop_evolves_trans.
Qed.

(** A capsule verb runs once per key. Once a request is begun under a key, every
    later request with that key, whatever happened in between, starts nothing: the same
    kind and request are given the original operation, anything else is told it
    mismatches it, and an operation that has settled keeps its outcome. *)
Theorem capsule_op_begun_once kind request key op_id now db db1 r db2 kind' request' op_id' now' :
  rtc cop_step empty_db db -> request <> empty_str ->
  begin_capsule_op kind request key op_id now db = (db1, Ok (CStarted r)) -> rtc cop_step db1 db2 ->
  exists row, begin_capsule_op kind' request' key op_id' now' db2 =
    (db2, Ok (if decide (kind' = kind /\ request' = request) then CReplay row else CMismatch row)) /\
  cor_op_id row = op_id /\ cor_kind row = kind /\ cor_request row = request /\
  (forall db3 c, rtc cop_step db2 db3 -> cor_state row <> OperationState.Running ->
     get_capsule_op op_id db3 = Some c -> cor_state c = cor_state row /\ cor_capsule_id c = cor_capsule_id row).
Proof.
  intros Hr Hreq Hb Hss.
  destruct (cop_steps _ _ Hr) as [Hk _]; [by intros ????|].
  assert (cop_step db db1) as Hstep by by eapply cops_begin.
  pose proof (cop_step_keys _ _ Hstep Hk) as Hk1. destruct (cop_steps _ _ Hss Hk1) as [Hk2 He].
  assert (exists c, capsule_operations db1 !! op_id = Some c /\ co_kind c = kind /\ co_request c = request /\
    co_idempotency_key c = key) as (c & Hc & <- & <- & <-).
  { unfold begin_capsule_op in Hb. destruct (capsule_op_of_key key db) as [[k c]|].
    - by destruct (bool_decide _ && _); simplify_eq; destruct (bool_decide _ && _).
    - destruct (capsule_operations db !! op_id); simplify_eq/=. rewrite lookup_insert_eq. eauto. }
  destruct (He _ _ Hc) as (c2 & Hc2 & [[Ek Eid] Er _]). specialize (Er Hreq).
  unfold begin_capsule_op. destruct (capsule_op_of_key (co_idempotency_key c) db2) as [[k c']|] eqn:E;
    [|by eapply capsule_op_of_key_None in E; [|exact Hc2]].
  apply capsule_op_of_key_Some in E as [Hc' Hid]. assert (k = op_id) as -> by (eapply Hk2; eauto; congruence).
  simplify_eq. exists (capsule_op_row_from op_id c2). split_and!; simpl; try done.
  - rewrite (proj2 (is_empty_false (co_request c2))), andb_false_r by congruence. do 2 f_equal. rewrite Er, Ek.
    case_decide as Hd; [destruct Hd as [-> ->]; by rewrite !bool_decide_true|].
    destruct (bool_decide _ && bool_decide _) eqn:Eb; [|done]. to_prop. exfalso. apply Hd. done.
  - intros db3 x H3 Hs Hx. unfold get_capsule_op in Hx. destruct (proj2 (cop_steps _ _ H3 Hk2) _ _ Hc2) as (c3 & Hc3 & E3).
    rewrite Hc3 in Hx. simplify_eq/=. by destruct (ce_settled _ _ E3 Hs) as (? & ? & _).
Qed.

(** ** Witnesses *)

Definition ex_manifest : CapsuleManifest := {|
  schema_version := "v1"; cm_cpu_class := empty_str; cm_template_hash := "t"; cm_runtime_bundle_ref := "b";
  cm_kind := 2; cm_objects := [{| obj_digest := "d1"; obj_length := 4; obj_type := 1; media_type := "m" |}];
  cm_lineage_id := "l"; architecture := "arm64"; cm_created_at := None; required_restore_capabilities := [] |}.
Definition ex_capsule (k : string) : CapsuleRow := mkCapsuleRow k ex_manifest CapsuleStorage.LocalDir 4 7.
Definition ex_registered : Db := fst (register_capsule (ex_capsule "c2") (fst (register_capsule (ex_capsule "c1") empty_db))).
Definition ex_released : Db := delete_capsule "c2" (delete_capsule "c1" ex_registered).

Lemma ex_released_reachable : rtc capsule_step empty_db ex_released.
Proof. do 2 (eapply rtc_l; [apply cs_register|]). eapply rtc_l; [apply cs_delete|]. apply rtc_once, cs_delete. Qed.

Lemma refcounts_are_exact_witness :
  object_refs ex_registered !! "d1" = Some (mkObject 4 2 true false) /\ collectable_objects ex_released = ["d1"] /\
  (forall o, object_refs ex_released !! "d1" = Some o ->
     or_refcount o = refs "d1" (capsules ex_released) /\
     (or_gc_pending o = true <-> refs "d1" (capsules ex_released) = 0)).
Proof.
  split_and!; [by vm_compute..|]. apply (refcounts_are_exact ex_released "d1" ex_released_reachable).
Defined.

Definition ex_snapshot : SnapshotRow :=
  mkSnapshotRow "s" "i" SnapshotKind.DiskOnly "cpu" "th" "rb" SnapshotTier.Local 10 20 None "n".

Lemma snapshot_roundtrip_witness :
  get_snapshot "s" (delete_snapshot "s" (insert_snapshot ex_snapshot 5 empty_db)) = None.
Proof. apply (snapshot_roundtrip ex_snapshot 5 empty_db). split; vm_compute; discriminate. Defined.

Lemma capsule_op_begun_once_witness :
  exists row, begin_capsule_op "export" "r" "k" "op2" 9 (fst (begin_capsule_op "export" "r" "k" "op1" 8 empty_db)) =
    (fst (begin_capsule_op "export" "r" "k" "op1" 8 empty_db),
     Ok (if decide ("export" = "export" /\ "r" = "r") then CReplay row else CMismatch row)) /\
  cor_op_id row = "op1".
Proof.
  destruct (capsule_op_begun_once "export" "r" "k" "op1" 8 empty_db
    (fst (begin_capsule_op "export" "r" "k" "op1" 8 empty_db))
    (mkCapsuleOpRow "op1" "export" empty_str "r" OperationState.Running ErrorReason.Unspecified empty_str 8 None)
    (fst (begin_capsule_op "export" "r" "k" "op1" 8 empty_db)) "export" "r" "op2" 9)
    as (row & ? & ? & _); [constructor|done|reflexivity|constructor|eauto].
Defined.
