(* ===== verification/Codec.v ===== *)
(** Encodings: src/crates/barista-node-agent/src/hex.rs, the base64 of
    src/crates/barista-fleet/src/desired.rs, and the content identities of
    src/crates/barista-node-agent/src/capsule.rs and snapshot_key.rs.

    Bytes are integers between 0 and 255. SHA-256 (the sha2 crate) is a parameter. *)

From S2P Require Import Prelude Proto.

(** [str::as_bytes] *)
Fixpoint bytes_of (s : string) : list Z :=
  match s with
  | EmptyString => []
  | String c s' => Z.of_nat (Ascii.nat_of_ascii c) :: bytes_of s'
  end.

(** A byte string as text. *)
Definition text_of (l : list Z) : string :=
  foldr (fun b s => String (Ascii.ascii_of_nat (Z.to_nat b)) s) EmptyString l.

(** * Hexadecimal *)

Definition HEX : list Z := bytes_of "0123456789abcdef".

Definition to_lower (bytes : list Z) : list Z :=
  mjoin ((fun b => [nth (Z.to_nat (Z.shiftr b 4)) HEX 0; nth (Z.to_nat (Z.land b 15)) HEX 0]) <$> bytes).

(** * Base64 *)

Definition ALPHABET : list Z :=
  bytes_of "ABCDEFGHIJKLMNOPQRSTUVWXYZabcdefghijklmnopqrstuvwxyz0123456789+/".

(** [slice::chunks(3)] *)
Fixpoint chunks3 (l : list Z) : list (list Z) :=
  match l with
  | a :: b :: c :: l' => [a; b; c] :: chunks3 l'
  | [] => []
  | _ => [l]
  end.

Definition equals_sign : Z := 61.

Definition encode_chunk (chunk : list Z) : list Z :=
  let b := fun i => nth i chunk 0 in
  let n := Z.lor (Z.lor (Z.shiftl (b 0%nat) 16) (Z.shiftl (b 1%nat) 8)) (b 2%nat) in
  (fun i => if i <=? Z.of_nat (length chunk)
            then nth (Z.to_nat (Z.land (Z.shiftr n (18 - 6 * i)) 63)) ALPHABET 0
            else equals_sign) <$> [0; 1; 2; 3].

Definition encode (bytes : list Z) : list Z := mjoin (encode_chunk <$> chunks3 bytes).

Definition position (c : Z) : option Z :=
  (fun p => Z.of_nat p.1) <$> list_find (fun a => a = c) ALPHABET.

(** The loop of [decode]: a 32-bit accumulator and the number of unread bits in it. *)
Fixpoint decode_loop (acc bits : Z) (out text : list Z) : res string (list Z) :=
  match text with
  | [] => Ok out
  | c :: text' =>
      match position c with
      | None => Err "not base64"
      | Some v =>
          let acc := Z.lor (wrap_u32 (Z.shiftl acc 6)) v in
          let bits := bits + 6 in
          if 8 <=? bits
          then decode_loop acc (bits - 8) (out ++ [wrap_u8 (Z.shiftr acc (bits - 8))]) text'
          else decode_loop acc bits out text'
      end
  end.

Definition decode (text : list Z) : res string (list Z) :=
  decode_loop 0 0 [] (filter (fun c => c <> equals_sign) text).

(** * Content identities *)

(** [to_le_bytes] of an [8 * n]-bit integer. *)
Fixpoint to_le_bytes (n : nat) (z : Z) : list Z :=
  match n with
  | O => []
  | S n' => z mod 256 :: to_le_bytes n' (z / 256)
  end.

(** [feed]: a part, length-prefixed. *)
Definition feed (part : list Z) : list Z := to_le_bytes 8 (Z.of_nat (length part)) ++ part.

(** Tuple order, as [Ord] on tuples compares. *)
Definition lex {A B} (Ra : relation A) (Rb : relation B) : relation (A * B) :=
  fun x y => (x.1 <> y.1 /\ Ra x.1 y.1) \/ (x.1 = y.1 /\ Rb x.2 y.2).

Definition object_key (o : CapsuleObject) : string * (Z * (string * Z)) :=
  (obj_digest o, (obj_type o, (media_type o, obj_length o))).
Definition object_le (a b : CapsuleObject) : Prop :=
  lex String.le (lex Z.le (lex String.le Z.le)) (object_key a) (object_key b).
#[global] Instance lex_dec {A B} (Ra : relation A) (Rb : relation B)
    `{!EqDecision A, !RelDecision Ra, !RelDecision Rb} : RelDecision (lex Ra Rb).
Proof. intros x y. unfold lex. apply _. Defined.
#[global] Instance object_le_dec : RelDecision object_le.
Proof. intros a b. unfold object_le. apply _. Defined.

Definition SCHEMA_VERSION : string := "barista.capsule/v1alpha2".

Definition media_type_of (k : CapsuleObjectType.t) : string :=
  match k with
  | CapsuleObjectType.Memory => "application/vnd.barista.snapshot.memory"
  | CapsuleObjectType.Disk => "application/vnd.barista.snapshot.disk"
  | CapsuleObjectType.Metadata => "application/vnd.barista.snapshot.metadata"
  | CapsuleObjectType.Unspecified => "application/octet-stream"
  end.

(** What [canonical_bytes] hashes. *)
Definition canonical_preimage (m : CapsuleManifest) : list Z :=
  let capabilities := merge_sort String.le (required_restore_capabilities m) in
  let objects := merge_sort object_le (cm_objects m) in
  feed (bytes_of (schema_version m)) ++ feed (bytes_of (cm_cpu_class m)) ++
  feed (bytes_of (cm_template_hash m)) ++ feed (bytes_of (cm_runtime_bundle_ref m)) ++
  feed (to_le_bytes 4 (cm_kind m)) ++ feed (bytes_of (cm_lineage_id m)) ++
  feed (bytes_of (architecture m)) ++
  feed (to_le_bytes 8 (default 0 (seconds <$> cm_created_at m))) ++
  feed (to_le_bytes 4 (default 0 (nanos <$> cm_created_at m))) ++
  to_le_bytes 8 (Z.of_nat (length capabilities)) ++
  mjoin ((fun c => feed (bytes_of c)) <$> capabilities) ++
  to_le_bytes 8 (Z.of_nat (length objects)) ++
  mjoin ((fun o => feed (bytes_of (obj_digest o)) ++ feed (to_le_bytes 8 (obj_length o)) ++
                   feed (to_le_bytes 4 (obj_type o)) ++ feed (bytes_of (media_type o))) <$> objects).

Section Sha256.
Context (sha256 : list Z -> list Z).

Definition canonical_bytes (m : CapsuleManifest) : list Z := sha256 (canonical_preimage m).

Definition capsule_id (m : CapsuleManifest) : list Z :=
  bytes_of "sha256:" ++ to_lower (canonical_bytes m).

Definition object_digest (bytes : list Z) : list Z := bytes_of "sha256:" ++ to_lower (sha256 bytes).

(** What [template_hash] hashes. *)
Definition spec_template (s : InstanceSpec) : TemplateRef :=
  default {| oci := None; runtime_bundle_ref := empty_str; template_hash_field := empty_str;
             arch := empty_str |} (template s).
Definition spec_resources (s : InstanceSpec) : Resources :=
  default {| vcpu := 0; mem_mib := 0; disk_mib := 0 |} (resources s).
Definition artifact (s : InstanceSpec) : string :=
  match oci (spec_template s) with Some o => "oci:" +:+ digest o | None => "none" end.

Definition template_parts (s : InstanceSpec) : list (list Z) :=
  bytes_of <$> [artifact s; runtime_bundle_ref (spec_template s); arch (spec_template s);
                pretty (vcpu (spec_resources s)); pretty (mem_mib (spec_resources s));
                pretty (disk_mib (spec_resources s))].

Definition template_hash (s : InstanceSpec) : list Z :=
  to_lower (take 6 (sha256 (mjoin (feed <$> template_parts s)))).
End Sha256.

(** * Lemmas *)

Lemma lor_shiftl_add a b k : 0 <= k -> 0 <= b < 2 ^ k -> Z.lor (Z.shiftl a k) b = a * 2 ^ k + b.
Proof.
  intros Hk Hb. rewrite <- Z.shiftl_mul_pow2 by done.
  assert (Z.land (Z.shiftl a k) b = 0) as Hl.
  { destruct (decide (b = 0)) as [->|Hb0]; [apply Z.land_0_r|].
    apply Z.bits_inj'. intros n Hn. rewrite Z.land_spec, Z.bits_0.
    destruct (Z.ltb_spec n k).
    - by rewrite Z.shiftl_spec_low.
    - rewrite (Z.bits_above_log2 b); [by rewrite andb_false_r|lia|].
      apply Z.log2_lt_pow2; [lia|].
      pose proof (Z.pow_le_mono_r 2 k n ltac:(lia) ltac:(lia)). lia. }
  pose proof (Z.add_lor_land (Z.shiftl a k) b). lia.
Qed.

(** Membership questions about the fixed tables are decided by running over the range. *)
Lemma below_forall (n : nat) (P : Z -> Prop) `{Hdec : !forall z, Decision (P z)} :
  forallb (fun i => bool_decide (P (Z.of_nat i))) (seq 0 n) = true ->
  forall z, 0 <= z < Z.of_nat n -> P z.
Proof.
  intros H z Hz. rewrite forallb_forall in H. specialize (H (Z.to_nat z)).
  rewrite bool_decide_eq_true, Z2Nat.id in H by lia. apply H, in_seq. lia.
Qed.

Lemma position_alphabet v : 0 <= v < 64 -> position (nth (Z.to_nat v) ALPHABET 0) = Some v.
Proof. apply (below_forall 64 (fun v => position (nth (Z.to_nat v) ALPHABET 0) = Some v)). by vm_compute. Qed.

Lemma alphabet_no_pad v : 0 <= v < 64 -> nth (Z.to_nat v) ALPHABET 0 <> equals_sign.
Proof. apply (below_forall 64 (fun v => nth (Z.to_nat v) ALPHABET 0 <> equals_sign)). by vm_compute. Qed.

(** ** Base64 *)

(** One alphabet character read into the accumulator. *)
Definition read_six (acc v : Z) : Z := (acc * 64) mod 2 ^ 32 + v.

Lemma acc_step acc v : 0 <= v < 64 -> Z.lor (wrap_u32 (Z.shiftl acc 6)) v = read_six acc v.
Proof.
  intros Hv. unfold wrap_u32, read_six. rewrite Z.shiftl_mul_pow2 by done. change (2 ^ 6) with 64.
  assert ((acc * 64) mod 2 ^ 32 = Z.shiftl (acc mod 2 ^ 26) 6) as ->.
  { change (2 ^ 32) with (2 ^ 26 * 64). by rewrite Z.mul_mod_distr_r, Z.shiftl_mul_pow2. }
  rewrite lor_shiftl_add by lia. by rewrite Z.shiftl_mul_pow2.
Qed.

Lemma decode_six acc bits out v text :
  0 <= v < 64 ->
  decode_loop acc bits out (nth (Z.to_nat v) ALPHABET 0 :: text) =
  if 8 <=? bits + 6
  then decode_loop (read_six acc v) (bits - 2) (out ++ [wrap_u8 (read_six acc v / 2 ^ (bits - 2))]) text
  else decode_loop (read_six acc v) (bits + 6) out text.
Proof.
  intros Hv. cbn [decode_loop]. rewrite position_alphabet, acc_step by done.
  destruct (Z.leb_spec 8 (bits + 6)); [|done].
  replace (bits + 6 - 8) with (bits - 2) by lia. by rewrite Z.shiftr_div_pow2 by lia.
Qed.

Definition sextet (n i : Z) : Z := Z.land (Z.shiftr n (18 - 6 * i)) 63.

Lemma sextet_val n i : 0 <= i <= 3 -> sextet n i = n / 2 ^ (18 - 6 * i) mod 64.
Proof.
  intros Hi. unfold sextet. rewrite Z.shiftr_div_pow2 by lia.
  change 63 with (Z.ones 6). by rewrite Z.land_ones.
Qed.

Lemma sextet_range n i : 0 <= i <= 3 -> 0 <= sextet n i < 64.
Proof. intros Hi. rewrite sextet_val by done. by apply Z.mod_pos_bound. Qed.

Lemma group_val a b c :
  is_byte a -> is_byte b -> is_byte c ->
  Z.lor (Z.lor (Z.shiftl a 16) (Z.shiftl b 8)) c = a * 65536 + b * 256 + c.
Proof.
  unfold is_byte. intros Ha Hb Hc. rewrite (Z.shiftl_mul_pow2 b) by done.
  rewrite (lor_shiftl_add a (b * 2 ^ 8) 16) by lia.
  replace (a * 2 ^ 16 + b * 2 ^ 8) with (Z.shiftl (a * 256 + b) 8) by (rewrite Z.shiftl_mul_pow2 by done; lia).
  rewrite lor_shiftl_add by lia. lia.
Qed.

(** The three bytes a group of four characters gives back. *)
Lemma read_bytes acc a b c v0 v1 v2 v3 :
  is_byte a -> is_byte b -> is_byte c ->
  v0 = (a * 65536 + b * 256 + c) / 2 ^ 18 mod 64 -> v1 = (a * 65536 + b * 256 + c) / 2 ^ 12 mod 64 ->
  v2 = (a * 65536 + b * 256 + c) / 2 ^ 6 mod 64 -> v3 = (a * 65536 + b * 256 + c) / 2 ^ 0 mod 64 ->
  wrap_u8 (read_six (read_six acc v0) v1 / 2 ^ 4) = a /\
  wrap_u8 (read_six (read_six (read_six acc v0) v1) v2 / 2 ^ 2) = b /\
  wrap_u8 (read_six (read_six (read_six (read_six acc v0) v1) v2) v3 / 2 ^ 0) = c.
Proof.
  unfold is_byte, read_six, wrap_u8. intros Ha Hb Hc H0 H1 H2 H3.
  assert (v0 = a / 4) as -> by (subst; Z.to_euclidean_division_equations; lia).
  assert (v1 = a mod 4 * 16 + b / 16) as -> by (subst; Z.to_euclidean_division_equations; lia).
  assert (v2 = b mod 16 * 4 + c / 64) as -> by (subst; Z.to_euclidean_division_equations; lia).
  assert (v3 = c mod 64) as -> by (subst; Z.to_euclidean_division_equations; lia).
  clear H0 H1 H2 H3. change (2 ^ 32) with 4294967296. change (2 ^ 8) with 256. change (2 ^ 4) with 16.
  change (2 ^ 2) with 4. change (2 ^ 0) with 1.
  split_and!; Z.to_euclidean_division_equations; lia.
Qed.

Lemma encode_chunk_filtered chunk n :
  (1 <= length chunk <= 3)%nat ->
  n = Z.lor (Z.lor (Z.shiftl (nth 0 chunk 0) 16) (Z.shiftl (nth 1 chunk 0) 8)) (nth 2 chunk 0) ->
  filter (fun c => c <> equals_sign) (encode_chunk chunk) =
  take (S (length chunk)) ((fun i => nth (Z.to_nat (sextet n i)) ALPHABET 0) <$> [0; 1; 2; 3]).
Proof.
  intros Hl ->. set (n := Z.lor _ _).
  assert (forall i, 0 <= i <= 3 -> nth (Z.to_nat (sextet n i)) ALPHABET 0 <> equals_sign) as Hp
    by (intros; by apply alphabet_no_pad, sextet_range).
  destruct chunk as [|a [|b [|c [|? ?]]]]; simpl in Hl; try lia; unfold encode_chunk; fold n;
    cbn [length fmap list_fmap Z.of_nat Pos.of_succ_nat Pos.succ Z.leb Z.compare Pos.compare Pos.compare_cont take];
    fold (sextet n 0) (sextet n 1) (sextet n 2) (sextet n 3);
    repeat (rewrite filter_cons_True by (apply Hp; lia));
    repeat (rewrite filter_cons_False by (by intros ?)); done.
Qed.

Lemma decode_group acc out a b c text :
  is_byte a -> is_byte b -> is_byte c ->
  let n := a * 65536 + b * 256 + c in
  let ch := fun i => nth (Z.to_nat (sextet n i)) ALPHABET 0 in
  decode_loop acc 0 out [ch 0; ch 1] = Ok (out ++ [a]) /\
  decode_loop acc 0 out [ch 0; ch 1; ch 2] = Ok (out ++ [a; b]) /\
  exists acc', decode_loop acc 0 out (ch 0 :: ch 1 :: ch 2 :: ch 3 :: text) = decode_loop acc' 0 (out ++ [a; b; c]) text.
Proof.
  intros Ha Hb Hc n ch.
  assert (forall i, 0 <= i <= 3 -> 0 <= sextet n i < 64) as Hr by (intros; by apply sextet_range).
  destruct (read_bytes acc a b c (sextet n 0) (sextet n 1) (sextet n 2) (sextet n 3) Ha Hb Hc)
    as (E1 & E2 & E3); [by apply sextet_val..|].
  unfold ch.
  assert (forall acc out v text, 0 <= v < 64 ->
    decode_loop acc 0 out (nth (Z.to_nat v) ALPHABET 0 :: text) = decode_loop (read_six acc v) 6 out text /\
    decode_loop acc 6 out (nth (Z.to_nat v) ALPHABET 0 :: text) =
      decode_loop (read_six acc v) 4 (out ++ [wrap_u8 (read_six acc v / 2 ^ 4)]) text /\
    decode_loop acc 4 out (nth (Z.to_nat v) ALPHABET 0 :: text) =
      decode_loop (read_six acc v) 2 (out ++ [wrap_u8 (read_six acc v / 2 ^ 2)]) text /\
    decode_loop acc 2 out (nth (Z.to_nat v) ALPHABET 0 :: text) =
      decode_loop (read_six acc v) 0 (out ++ [wrap_u8 (read_six acc v / 2 ^ 0)]) text) as Hd.
  { intros. split_and!; by apply decode_six. }
  assert (forall acc out text,
    decode_loop acc 0 out (nth (Z.to_nat (sextet n 0)) ALPHABET 0 :: nth (Z.to_nat (sextet n 1)) ALPHABET 0 :: text) =
    decode_loop (read_six (read_six acc (sextet n 0)) (sextet n 1)) 4
      (out ++ [wrap_u8 (read_six (read_six acc (sextet n 0)) (sextet n 1) / 2 ^ 4)]) text) as H01.
  { intros. destruct (Hd acc0 out0 (sextet n 0) (nth (Z.to_nat (sextet n 1)) ALPHABET 0 :: text0)) as (-> & _); [apply Hr; lia|].
    by destruct (Hd (read_six acc0 (sextet n 0)) out0 (sextet n 1) text0) as (_ & -> & _); [apply Hr; lia|]. }
  rewrite !H01, !E1. split_and!; [done| |].
  - destruct (Hd (read_six (read_six acc (sextet n 0)) (sextet n 1)) (out ++ [a]) (sextet n 2) [])
      as (_ & _ & -> & _); [apply Hr; lia|]. rewrite E2, <- app_assoc. done.
  - destruct (Hd (read_six (read_six acc (sextet n 0)) (sextet n 1)) (out ++ [a]) (sextet n 2)
      (nth (Z.to_nat (sextet n 3)) ALPHABET 0 :: text)) as (_ & _ & -> & _); [apply Hr; lia|].
    destruct (Hd (read_six (read_six (read_six acc (sextet n 0)) (sextet n 1)) (sextet n 2))
      ((out ++ [a]) ++ [b]) (sextet n 3) text) as (_ & _ & _ & H3); [apply Hr; lia|].
    rewrite E2, H3, E3, <- !app_assoc. eexists. reflexivity.
Qed.

Lemma decode_encode acc out bytes :
  Forall is_byte bytes ->
  decode_loop acc 0 out (filter (fun c => c <> equals_sign) (encode bytes)) = Ok (out ++ bytes).
Proof.
  remember (length bytes) as len eqn:Hlen. revert bytes Hlen acc out.
  induction (lt_wf len) as [len _ IH]. intros bytes -> acc out Hb.
  assert (is_byte 0) as H0 by (unfold is_byte; lia).
  destruct bytes as [|a [|b [|c l]]].
  - by rewrite app_nil_r.
  - apply Forall_cons_1 in Hb as [Ha _]. change (encode [a]) with (encode_chunk [a] ++ []).
    rewrite app_nil_r, (encode_chunk_filtered [a] (a * 65536 + 0 * 256 + 0)); [|simpl; lia|by rewrite <- group_val].
    apply (decode_group acc out a 0 0 [] Ha H0 H0).
  - apply Forall_cons_1 in Hb as [Ha Hb]. apply Forall_cons_1 in Hb as [Hb _].
    change (encode [a; b]) with (encode_chunk [a; b] ++ []).
    rewrite app_nil_r, (encode_chunk_filtered [a; b] (a * 65536 + b * 256 + 0)); [|simpl; lia|by rewrite <- group_val].
    apply (decode_group acc out a b 0 [] Ha Hb H0).
  - apply Forall_cons_1 in Hb as [Ha Hb]. apply Forall_cons_1 in Hb as [Hb Hc].
    apply Forall_cons_1 in Hc as [Hc Hl].
    change (encode (a :: b :: c :: l)) with (encode_chunk [a; b; c] ++ encode l).
    rewrite filter_app, (encode_chunk_filtered [a; b; c] (a * 65536 + b * 256 + c));
      [|simpl; lia|by rewrite <- group_val].
    destruct (decode_group acc out a b c (filter (fun c => c <> equals_sign) (encode l)) Ha Hb Hc) as (_ & _ & acc' & E).
    etransitivity; [exact E|]. rewrite (IH (length l)); [by rewrite <- app_assoc|simpl; lia|done|done].
Qed.

Lemma encode_length bytes : Z.of_nat (length (encode bytes)) = 4 * ((Z.of_nat (length bytes) + 2) / 3).
Proof.
  remember (length bytes) as len eqn:Hlen. revert bytes Hlen.
  induction (lt_wf len) as [len _ IH]. intros bytes ->.
  destruct bytes as [|a [|b [|c l]]]; [done..|].
  change (encode (a :: b :: c :: l)) with (encode_chunk [a; b; c] ++ encode l).
  rewrite length_app, Nat2Z.inj_add, (IH (length l)) by (simpl; lia). unfold encode_chunk. rewrite length_fmap.
  simpl length. Z.to_euclidean_division_equations. lia.
Qed.

(** * Properties *)

(** The base64 of a desired record round-trips: decoding what was encoded returns
    the bytes, at every length and padding, and the text has four characters per
    started group of three bytes. *)
Theorem base64_roundtrip bytes :
  Forall is_byte bytes ->
  decode (encode bytes) = Ok bytes /\
  Z.of_nat (length (encode bytes)) = 4 * ((Z.of_nat (length bytes) + 2) / 3).
Proof. intros Hb. split; [by apply (decode_encode 0 [])|apply encode_length]. Qed.

Lemma base64_roundtrip_witness :
  decode (encode (bytes_of "foob")) = Ok (bytes_of "foob") /\
  Z.of_nat (length (encode (bytes_of "foob"))) = 4 * ((Z.of_nat (length (bytes_of "foob")) + 2) / 3).
Proof.
  apply (base64_roundtrip (bytes_of "foob")). repeat constructor; vm_compute; (discriminate || reflexivity).
Defined.

(** ** Length-prefixed encodings *)

Lemma length_to_le_bytes n z : length (to_le_bytes n z) = n.
Proof. revert z. induction n as [|n IH]; intros z; simpl; [done|by rewrite IH]. Qed.

Lemma to_le_bytes_mod n a b : to_le_bytes n a = to_le_bytes n b -> a mod 256 ^ Z.of_nat n = b mod 256 ^ Z.of_nat n.
Proof.
  revert a b. induction n as [|n IH]; intros a b H; [by rewrite !Z.mod_1_r|].
  cbn [to_le_bytes] in H. injection H as H0 H1. apply IH in H1.
  rewrite Nat2Z.inj_succ, Z.pow_succ_r by lia.
  rewrite (Z.rem_mul_r a 256), (Z.rem_mul_r b 256) by (try lia; apply Z.pow_pos_nonneg; lia). lia.
Qed.

Lemma to_le_bytes_u64 a b : is_u64 a -> is_u64 b -> to_le_bytes 8 a = to_le_bytes 8 b -> a = b.
Proof.
  unfold is_u64, u64_max. intros Ha Hb H%to_le_bytes_mod. change (256 ^ Z.of_nat 8) with (2 ^ 64) in H.
  rewrite !Z.mod_small in H by lia. done.
Qed.

Lemma to_le_bytes_i64 a b : is_i64 a -> is_i64 b -> to_le_bytes 8 a = to_le_bytes 8 b -> a = b.
Proof.
  unfold is_i64, i64_max, i64_min. intros Ha Hb H%to_le_bytes_mod. change (256 ^ Z.of_nat 8) with (2 ^ 64) in H.
  Z.to_euclidean_division_equations. lia.
Qed.

Definition is_i32 (z : Z) : Prop := - 2 ^ 31 <= z < 2 ^ 31.

Lemma to_le_bytes_i32 a b : is_i32 a -> is_i32 b -> to_le_bytes 4 a = to_le_bytes 4 b -> a = b.
Proof.
  unfold is_i32. intros Ha Hb H%to_le_bytes_mod. change (256 ^ Z.of_nat 4) with (2 ^ 32) in H.
  Z.to_euclidean_division_equations. lia.
Qed.

Lemma le_bytes_app n a b r s :
  to_le_bytes n a ++ r = to_le_bytes n b ++ s -> to_le_bytes n a = to_le_bytes n b /\ r = s.
Proof. intros H. apply app_inj_1 in H; [done|]. by rewrite !length_to_le_bytes. Qed.

(** A part that fits in memory. *)
Definition small {A} (l : list A) : Prop := Z.of_nat (length l) <= u64_max.

Lemma feed_app_inj p q r s : small p -> small q -> feed p ++ r = feed q ++ s -> p = q /\ r = s.
Proof.
  unfold small, feed. intros Hp Hq H. rewrite <- !app_assoc in H. apply le_bytes_app in H as [Hl H].
  apply to_le_bytes_u64 in Hl; [|unfold is_u64; lia..]. apply app_inj_1 in H; [done|lia].
Qed.

Lemma bytes_of_inj s t : bytes_of s = bytes_of t -> s = t.
Proof.
  revert t. induction s as [|c s IH]; intros [|d t] H; simpl in *; try done. injection H as Hc Hs.
  f_equal; [|by apply IH]. rewrite <- (Ascii.ascii_nat_embedding c), <- (Ascii.ascii_nat_embedding d). f_equal. lia.
Qed.

Lemma feeds_inj {A} (f : A -> list Z) (P : A -> Prop) (l k : list A) (r s : list Z) :
  (forall a b r s, P a -> P b -> f a ++ r = f b ++ s -> a = b /\ r = s) ->
  Forall P l -> Forall P k -> length l = length k ->
  mjoin (f <$> l) ++ r = mjoin (f <$> k) ++ s -> l = k /\ r = s.
Proof.
  intros Hf. revert k. induction l as [|a l IH]; intros [|b k] Hl Hk Hn H; try done.
  apply Forall_cons_1 in Hl as [Ha Hl], Hk as [Hb Hk]. simpl in H. rewrite <- !app_assoc in H.
  apply Hf in H as [-> H]; [|done..]. simpl in Hn. apply IH in H as [-> ->]; [done|done|done|lia].
Qed.

(** ** Canonical order *)

Section Lex.
Context {A B : Type} (Ra : relation A) (Rb : relation B).
Context {EqA : EqDecision A} {PoA : PartialOrder Ra} {TotA : Total Ra} {PoB : PartialOrder Rb} {TotB : Total Rb}.

#[global] Instance lex_transitive : Transitive (lex Ra Rb).
Proof.
  intros x y z. unfold lex. intros [[Hn H1]|[E1 H1]] [[Hm H2]|[E2 H2]].
  - left. split; [|by etransitivity]. intros E. rewrite <- E in H2. apply Hn. by apply (anti_symm Ra).
  - left. by rewrite <- E2.
  - left. by rewrite E1.
  - right. split; [congruence|by etransitivity].
Qed.

#[global] Instance lex_antisymm : AntiSymm eq (lex Ra Rb).
Proof.
  intros [a b] [c d]. unfold lex. simpl. intros [[Hn H1]|[E1 H1]] [[Hm H2]|[E2 H2]]; try congruence.
  - exfalso. apply Hn. by apply (anti_symm Ra).
  - subst. f_equal. by apply (anti_symm Rb).
Qed.

#[global] Instance lex_total : Total (lex Ra Rb).
Proof.
  intros [a b] [c d]. unfold lex. simpl. destruct (decide (a = c)) as [->|Hn].
  - destruct (total Rb b d); auto.
  - destruct (total Ra a c); auto.
Qed.

#[global] Instance lex_po : PartialOrder (lex Ra Rb).
Proof. split; [split; [|apply _]|apply _]. intros [a b]. right. split; [done|]. simpl. apply (reflexivity b). Qed.
End Lex.

#[global] Instance object_le_transitive : Transitive object_le.
Proof.
  intros a b c. apply (_ : Transitive (lex String.le (lex Z.le (lex String.le Z.le)))).
Qed.
#[global] Instance object_le_antisymm : AntiSymm eq object_le.
Proof.
  intros a b H1 H2. assert (object_key a = object_key b) as E
    by (by apply (anti_symm (lex String.le (lex Z.le (lex String.le Z.le))))).
  destruct a, b. unfold object_key in E. simpl in E. congruence.
Qed.
#[global] Instance object_le_total : Total object_le.
Proof. intros a b. apply (total (lex String.le (lex Z.le (lex String.le Z.le)))). Qed.

(** Sorting forgets the order a list was written in, and nothing else. *)
Lemma merge_sort_eq {A} (R : relation A) `{!RelDecision R, !Transitive R, !AntiSymm eq R, !Total R} l k :
  merge_sort R l = merge_sort R k <-> l ≡ₚ k.
Proof.
  split.
  - intros H. rewrite <- (merge_sort_Permutation R l), <- (merge_sort_Permutation R k). by rewrite H.
  - intros H. apply (Sorted_unique R); [apply Sorted_merge_sort, _..|]. by rewrite !merge_sort_Permutation.
Qed.

(** ** Capsule identity *)

(** What the protocol's field types guarantee of a manifest in memory. *)
Record manifest_ok (m : CapsuleManifest) : Prop := {
  mok_strings : small (bytes_of (schema_version m)) /\ small (bytes_of (cm_cpu_class m)) /\
    small (bytes_of (cm_template_hash m)) /\ small (bytes_of (cm_runtime_bundle_ref m)) /\
    small (bytes_of (cm_lineage_id m)) /\ small (bytes_of (architecture m));
  mok_kind : is_i32 (cm_kind m);
  mok_seconds : is_i64 (default 0 (seconds <$> cm_created_at m));
  mok_nanos : is_i32 (default 0 (nanos <$> cm_created_at m));
  mok_caps : small (required_restore_capabilities m) /\
    Forall (fun c => small (bytes_of c)) (required_restore_capabilities m);
  mok_objects : small (cm_objects m) /\
    Forall (fun o => small (bytes_of (obj_digest o)) /\ small (bytes_of (media_type o)) /\
                     is_u64 (obj_length o) /\ is_i32 (obj_type o)) (cm_objects m) }.

(** Two manifests that say the same, whatever order they list things in. *)
Definition same_manifest (m m' : CapsuleManifest) : Prop :=
  schema_version m = schema_version m' /\ cm_cpu_class m = cm_cpu_class m' /\
  cm_template_hash m = cm_template_hash m' /\ cm_runtime_bundle_ref m = cm_runtime_bundle_ref m' /\
  cm_kind m = cm_kind m' /\ cm_lineage_id m = cm_lineage_id m' /\ architecture m = architecture m' /\
  default 0 (seconds <$> cm_created_at m) = default 0 (seconds <$> cm_created_at m') /\
  default 0 (nanos <$> cm_created_at m) = default 0 (nanos <$> cm_created_at m') /\
  required_restore_capabilities m ≡ₚ required_restore_capabilities m' /\ cm_objects m ≡ₚ cm_objects m'.

Lemma same_manifest_preimage m m' : same_manifest m m' -> canonical_preimage m = canonical_preimage m'.
Proof.
  intros (E1 & E2 & E3 & E4 & E5 & E6 & E7 & E8 & E9 & Hc & Ho). unfold canonical_preimage.
  apply (merge_sort_eq String.le) in Hc. apply (merge_sort_eq object_le) in Ho.
  rewrite E1, E2, E3, E4, E5, E6, E7, E8, E9, Hc, Ho. done.
Qed.

Ltac take_feed H E :=
  apply feed_app_inj in H as [E H];
  [|first [done | unfold small; rewrite length_to_le_bytes; vm_compute; discriminate]..].

Lemma small_permutation {A} (l k : list A) : l ≡ₚ k -> small k -> small l.
Proof. intros H. unfold small. by rewrite H. Qed.

Lemma preimage_same_manifest m m' :
  manifest_ok m -> manifest_ok m' -> canonical_preimage m = canonical_preimage m' -> same_manifest m m'.
Proof.
  intros [(S1 & S2 & S3 & S4 & S5 & S6) K T N (C1 & C2) (O1 & O2)]
    [(S1' & S2' & S3' & S4' & S5' & S6') K' T' N' (C1' & C2') (O1' & O2')].
  unfold canonical_preimage. intros H.
  take_feed H E1. take_feed H E2. take_feed H E3. take_feed H E4. take_feed H E5. take_feed H E6.
  take_feed H E7. take_feed H E8. take_feed H E9.
  apply le_bytes_app in H as [EC H].
  apply to_le_bytes_u64 in EC;
    [|unfold is_u64; rewrite merge_sort_Permutation; unfold small in *; lia..].
  apply (feeds_inj _ (fun c => small (bytes_of c))) in H as [Hcaps H];
    [|intros a b r s Ha Hb Hab; apply feed_app_inj in Hab as [?%bytes_of_inj ?]; done
     |by rewrite merge_sort_Permutation..|lia].
  apply le_bytes_app in H as [EO H].
  apply to_le_bytes_u64 in EO;
    [|unfold is_u64; rewrite merge_sort_Permutation; unfold small in *; lia..].
  rewrite <- (app_nil_r (mjoin _)) in H. rewrite <- (app_nil_r (mjoin (_ <$> merge_sort object_le (cm_objects m')))) in H.
  apply (feeds_inj _ (fun o => small (bytes_of (obj_digest o)) /\ small (bytes_of (media_type o)) /\
                     is_u64 (obj_length o) /\ is_i32 (obj_type o))) in H as [Hobjs _];
    [| |by rewrite merge_sort_Permutation..|lia].
  - split_and!; try (by apply bytes_of_inj).
    + by apply to_le_bytes_i32.
    + by apply to_le_bytes_i64.
    + by apply to_le_bytes_i32.
    + by apply (merge_sort_eq String.le).
    + by apply (merge_sort_eq object_le).
  - intros a b r s (A1 & A2 & A3 & A4) (B1 & B2 & B3 & B4) Hab. rewrite <- !app_assoc in Hab.
    take_feed Hab F1. take_feed Hab F2. take_feed Hab F3. take_feed Hab F4. split; [|done].
    apply bytes_of_inj in F1, F4. apply to_le_bytes_u64 in F2; [|done..]. apply to_le_bytes_i32 in F3; [|done..].
    destruct a, b. simpl in *. congruence.
Qed.

(** ** Hexadecimal *)

Lemma to_lower_cons b l : to_lower (b :: l) =
  nth (Z.to_nat (Z.shiftr b 4)) HEX 0 :: nth (Z.to_nat (Z.land b 15)) HEX 0 :: to_lower l.
Proof. done. Qed.

(** The value of a digit of [HEX]. *)
Definition hex_value (c : Z) : option Z := (fun p => Z.of_nat p.1) <$> list_find (fun a => a = c) HEX.

Lemma hex_value_digit x : 0 <= x < 16 -> hex_value (nth (Z.to_nat x) HEX 0) = Some x.
Proof. apply (below_forall 16 (fun x => hex_value (nth (Z.to_nat x) HEX 0) = Some x)). by vm_compute. Qed.

Lemma nibbles b : is_byte b ->
  0 <= Z.shiftr b 4 < 16 /\ 0 <= Z.land b 15 < 16 /\ b = Z.shiftr b 4 * 16 + Z.land b 15.
Proof.
  unfold is_byte. intros Hb. change 15 with (Z.ones 4). rewrite Z.land_ones, Z.shiftr_div_pow2 by done.
  change (2 ^ 4) with 16. Z.to_euclidean_division_equations. lia.
Qed.

Lemma cons_split {A} (x y : A) l k : x :: l = y :: k -> x = y /\ l = k.
Proof. by intros [= -> ->]. Qed.

Lemma to_lower_inj l k : Forall is_byte l -> Forall is_byte k -> to_lower l = to_lower k -> l = k.
Proof.
  revert k. induction l as [|a l IH]; intros [|b k] Hl Hk H; try done.
  apply Forall_cons_1 in Hl as [Ha Hl], Hk as [Hb Hk]. rewrite !to_lower_cons in H.
  apply cons_split in H as [H1 H]. apply cons_split in H as [H2 H3].
  apply nibbles in Ha as (Ha1 & Ha2 & Ea), Hb as (Hb1 & Hb2 & Eb).
  apply (f_equal hex_value) in H1. rewrite !hex_value_digit in H1 by done. injection H1 as H1.
  apply (f_equal hex_value) in H2. rewrite !hex_value_digit in H2 by done. injection H2 as H2.
  f_equal; [congruence|by apply IH].
Qed.

(** C40: a capsule's id is its content. Listing the objects or the required
    capabilities in another order does not change it; and manifests whose canonical
    forms the hash does not confuse have the same id only if every field, every object
    (digest, length, type, media type) and every required capability agree. *)
Theorem capsule_id_is_content sha256 m m' :
  (forall l, Forall is_byte (sha256 l)) -> manifest_ok m -> manifest_ok m' ->
  (same_manifest m m' -> capsule_id sha256 m = capsule_id sha256 m') /\
  ((sha256 (canonical_preimage m) = sha256 (canonical_preimage m') ->
    canonical_preimage m = canonical_preimage m') ->
   capsule_id sha256 m = capsule_id sha256 m' -> same_manifest m m').
Proof.
  intros Hsha Hm Hm'. unfold capsule_id, canonical_bytes. split.
  - intros ->%same_manifest_preimage. done.
  - intros Hc H. apply preimage_same_manifest; [done..|]. apply Hc.
    apply app_inv_head in H. by apply to_lower_inj in H.
Qed.

(** A template hash hashes exactly the template's identity: the artifact, the
    bundle, the architecture and the resources, unambiguously. Specs that agree on them
    hash alike; specs whose preimages agree are the same machine. *)
Theorem template_preimage_unambiguous s s' :
  Forall small (template_parts s) -> Forall small (template_parts s') ->
  mjoin (feed <$> template_parts s) = mjoin (feed <$> template_parts s') ->
  artifact s = artifact s' /\ runtime_bundle_ref (spec_template s) = runtime_bundle_ref (spec_template s') /\
  arch (spec_template s) = arch (spec_template s') /\ spec_resources s = spec_resources s' /\
  forall sha256, template_hash sha256 s = template_hash sha256 s'.
Proof.
  intros Hs Hs' H. rewrite <- (app_nil_r (mjoin (feed <$> template_parts s))) in H.
  rewrite <- (app_nil_r (mjoin (feed <$> template_parts s'))) in H.
  apply (feeds_inj feed small) in H as [E _]; [|intros; by apply feed_app_inj|done..].
  assert (forall sha256, template_hash sha256 s = template_hash sha256 s') as Hh
    by (intros; unfold template_hash; by rewrite E).
  unfold template_parts in E. cbn [fmap list_fmap] in E.
  repeat (apply cons_split in E as [?%bytes_of_inj E]).
  repeat match goal with H : pretty _ = pretty _ |- _ => apply (inj pretty) in H end.
  destruct (spec_resources s), (spec_resources s'). simpl in *. split_and!; congruence.
Qed.

(** ** Witnesses *)

Definition toy_sha (l : list Z) : list Z := (fun z => z mod 256) <$> l.

Lemma toy_sha_bytes l : Forall is_byte (toy_sha l).
Proof. apply Forall_fmap, Forall_forall. intros z _. apply Z.mod_pos_bound. lia. Qed.

Definition ex_object (d : string) : CapsuleObject :=
  {| obj_digest := d; obj_length := 4; obj_type := 1; media_type := "m" |}.
Definition ex_manifest_of (objs : list CapsuleObject) : CapsuleManifest := {|
  schema_version := SCHEMA_VERSION; cm_cpu_class := "c"; cm_template_hash := "t"; cm_runtime_bundle_ref := "b";
  cm_kind := 1; cm_objects := objs; cm_lineage_id := "l"; architecture := "arm64";
  cm_created_at := Some {| seconds := 1; nanos := 2 |};
  required_restore_capabilities := ["memory_restore"; "capsule_import"] |}.

Lemma ex_manifest_of_ok a b :
  a ∈ ["a"; "b"] -> b ∈ ["a"; "b"] -> manifest_ok (ex_manifest_of [ex_object a; ex_object b]).
Proof.
  intros Ha Hb. repeat (apply elem_of_cons in Ha as [->|Ha]; [|try by apply not_elem_of_nil in Ha]);
    repeat (apply elem_of_cons in Hb as [->|Hb]; [|try by apply not_elem_of_nil in Hb]);
    unfold ex_manifest_of, ex_object; split; simpl; try split_and!;
    repeat (apply Forall_cons_2 || apply Forall_nil_2); simpl; try split_and!;
    solve [unfold small; vm_compute; discriminate
          | unfold is_i32, is_i64, is_u64, i64_min, i64_max, u64_max; lia].
Qed.

Lemma capsule_id_is_content_witness :
  capsule_id toy_sha (ex_manifest_of [ex_object "a"; ex_object "b"]) =
  capsule_id toy_sha (ex_manifest_of [ex_object "b"; ex_object "a"]).
Proof.
  apply (capsule_id_is_content toy_sha (ex_manifest_of [ex_object "a"; ex_object "b"])
    (ex_manifest_of [ex_object "b"; ex_object "a"]) toy_sha_bytes).
  - apply ex_manifest_of_ok; [left|right; left].
  - apply ex_manifest_of_ok; [right; left|left].
  - unfold same_manifest. split_and!; try reflexivity. apply perm_swap.
Defined.

Definition ex_tspec (labels : gmap string string) : InstanceSpec :=
  mkInstanceSpec "i" None (Some {| vcpu := 2; mem_mib := 512; disk_mib := 0 |}) None None 0 0 labels None None.

Lemma template_preimage_unambiguous_witness :
  artifact (ex_tspec ∅) = artifact (ex_tspec {["a" := "b"]}) /\
  runtime_bundle_ref (spec_template (ex_tspec ∅)) = runtime_bundle_ref (spec_template (ex_tspec {["a" := "b"]})) /\
  arch (spec_template (ex_tspec ∅)) = arch (spec_template (ex_tspec {["a" := "b"]})) /\
  spec_resources (ex_tspec ∅) = spec_resources (ex_tspec {["a" := "b"]}) /\
  forall sha256, template_hash sha256 (ex_tspec ∅) = template_hash sha256 (ex_tspec {["a" := "b"]}).
Proof.
  apply (template_preimage_unambiguous (ex_tspec ∅) (ex_tspec {["a" := "b"]}));
    [repeat constructor; vm_compute; discriminate..|reflexivity].
Defined.
