(* ===== verification/Restore.v ===== *)
(** Decisions taken before anything is touched: which restore a snapshot or a capsule
    allows (src/crates/barista-node-agent/src/restore.rs), whether a spec is admitted
    (admission.rs) and whether a grant's epoch is current (grants.rs). *)

From S2P Require Import Prelude Proto Journal Codec.

Inductive Restore : Type :=
| FromMemory
| ColdBoot (reason : ErrorReason.t) (why : string)
| Refuse (reason : ErrorReason.t) (why : string).

Inductive CapsuleRestore : Type :=
| Proceed
| CapsuleRefuse (reason : ErrorReason.t) (why : string).

Section Decide.
Context (sha256 : list Z -> list Z).

Definition template_hash_text (s : InstanceSpec) : string := text_of (template_hash sha256 s).

Definition decide_restore (snapshot : option SnapshotRow) (instance : InstanceRow)
    (node_cpu_class runtime_bundle : string) (require_memory : bool) : Restore :=
  let fallback := fun reason why => if require_memory then Refuse reason why else ColdBoot reason why in
  match snapshot with
  | None => fallback ErrorReason.SnapshotInvalidated "the instance has no snapshot to resume from"
  | Some s =>
      let current_template := template_hash_text (ir_spec instance) in
      if negb (bool_decide (sr_kind s = SnapshotKind.MemoryAndDisk)) then
        fallback ErrorReason.SnapshotInvalidated
          ("snapshot " +:+ sr_snapshot_id s +:+ " captured " +:+ SnapshotKind.as_str_name (sr_kind s) +:+
           " — there is no memory in it to restore")
      else if negb (bool_decide (sr_template_hash s = current_template)) then
        fallback ErrorReason.BundleMismatch
          ("snapshot " +:+ sr_snapshot_id s +:+ " was taken from template " +:+ sr_template_hash s +:+
           " but the instance now specifies " +:+ current_template)
      else if negb (bool_decide (sr_runtime_bundle_ref s = runtime_bundle)) then
        fallback ErrorReason.BundleMismatch
          ("snapshot " +:+ sr_snapshot_id s +:+ " was taken by bundle " +:+ quoted (sr_runtime_bundle_ref s) +:+
           " and this node runs " +:+ quoted runtime_bundle)
      else if bool_decide (sr_tier s = SnapshotTier.ObjectStore) &&
              negb (bool_decide (sr_cpu_class s = node_cpu_class)) then
        fallback ErrorReason.CpuClassMismatch
          ("snapshot " +:+ sr_snapshot_id s +:+ " was taken on CPU class " +:+ quoted (sr_cpu_class s) +:+
           " and this node is " +:+ quoted node_cpu_class)
      else FromMemory
  end.

Definition manifest_kind (m : CapsuleManifest) : SnapshotKind.t :=
  default SnapshotKind.Unspecified (SnapshotKind.try_from (cm_kind m)).

Definition decide_capsule (manifest : CapsuleManifest) (target : InstanceSpec)
    (node_cpu_class runtime_bundle : string) : CapsuleRestore :=
  let target_architecture := default empty_str (arch <$> template target) in
  let target_template := template_hash_text target in
  if negb (bool_decide (manifest_kind manifest = SnapshotKind.MemoryAndDisk)) then
    CapsuleRefuse ErrorReason.CapsuleIncompatible
      ("capsule captured " +:+ SnapshotKind.as_str_name (manifest_kind manifest) +:+
       " — an exact restore needs memory, and a cold boot from it would not be one")
  else if negb (bool_decide (architecture manifest = target_architecture)) then
    CapsuleRefuse ErrorReason.CapsuleIncompatible
      ("capsule architecture " +:+ quoted (architecture manifest) +:+ " does not match target architecture " +:+
       quoted target_architecture)
  else if negb (bool_decide (cm_cpu_class manifest = node_cpu_class)) then
    CapsuleRefuse ErrorReason.CpuClassMismatch
      ("capsule was taken on CPU class " +:+ quoted (cm_cpu_class manifest) +:+ " and this node is " +:+
       quoted node_cpu_class)
  else if negb (bool_decide (cm_template_hash manifest = target_template)) then
    CapsuleRefuse ErrorReason.CapsuleIncompatible
      ("capsule was taken from template " +:+ cm_template_hash manifest +:+
       " but the requested target specifies " +:+ target_template +:+
       " — restoring exact memory into a different machine is refused")
  else if negb (bool_decide (cm_runtime_bundle_ref manifest = runtime_bundle)) then
    CapsuleRefuse ErrorReason.BundleMismatch
      ("capsule was taken by bundle " +:+ quoted (cm_runtime_bundle_ref manifest) +:+ " and this node runs " +:+
       quoted runtime_bundle)
  else Proceed.
End Decide.

(** * Grants *)

Definition validate_grant_epoch (current_epoch presented_epoch : Z) : res (ErrorReason.t * string) unit :=
  if (current_epoch =? 0) || (presented_epoch =? 0) then
    Err (ErrorReason.EpochRevoked,
         "no execution epoch is bound (0); a platform-mediated grant is only valid under an issued epoch")
  else if negb (presented_epoch =? current_epoch) then
    Err (ErrorReason.EpochRevoked,
         "grant is bound to execution epoch " +:+ pretty presented_epoch +:+
         ", but this instance's current epoch is " +:+ pretty current_epoch +:+
         "; a grant from a prior run or a sibling fork is not valid here")
  else Ok tt.

(** * Admission *)

Record Refusal := mkRefusal { ref_reason : ErrorReason.t; ref_message : string }.

Definition invalid (m : string) : Refusal := mkRefusal ErrorReason.InvalidSpec m.
Definition missing (m : string) : Refusal := mkRefusal ErrorReason.CapabilityMissing m.

Section Admit.
(** [ulid::Ulid::from_string] and [str::trim]. *)
Context (ulid_from_string : string -> res string unit) (trim : string -> string).

Definition admit_spec (spec : InstanceSpec) (require_hardware_isolation : bool) (caps : RuntimeCapabilities)
    (runtime_name : string) : res Refusal unit :=
  match ulid_from_string (instance_id spec) with
  | Err e =>
      Err (invalid ("spec.instance_id must be a ULID (contract: client-chosen ULID, unique per node); " +:+
                    quoted (instance_id spec) +:+ " is not one: " +:+ e))
  | Ok _ =>
      match template spec ≫= oci with
      | None => Err (invalid "template.oci is required")
      | Some o =>
          if is_empty (trim (digest o)) then
            Err (invalid "template.oci.digest is required: the digest is the template's identity (a tag can be repointed at different bytes), and a snapshot's restore key derives from it. Pin the image by digest.")
          else if require_hardware_isolation && negb (hardware_isolation caps) then
            Err (missing ("runtime '" +:+ runtime_name +:+ "' does not provide hardware isolation"))
          else if match egress spec with Some e => mediated e | None => false end && negb (egress_control caps) then
            Err (missing ("runtime '" +:+ runtime_name +:+
              "' does not provide egress_control, so it cannot mediate this instance's outbound network. Drop spec.egress to accept the runtime's default networking, or create on a runtime that reports egress_control"))
          else Ok tt
      end
  end.
End Admit.

(** * Properties *)

Section RestoreProperties.
Context (sha256 : list Z -> list Z).

(** Memory is restored exactly when it may be. [decide] resumes from memory if and
    only if the snapshot captured memory, was taken from this very template by this
    bundle and, when it came from the object store, on this CPU class; otherwise it
    refuses when memory is required and cold-boots only when it is not. *)
Theorem restore_is_exact_or_declared snapshot inst cpu bundle require :
  (decide_restore sha256 snapshot inst cpu bundle require = FromMemory <->
     exists s, snapshot = Some s /\ sr_kind s = SnapshotKind.MemoryAndDisk /\
       sr_template_hash s = template_hash_text sha256 (ir_spec inst) /\ sr_runtime_bundle_ref s = bundle /\
       (sr_tier s = SnapshotTier.ObjectStore -> sr_cpu_class s = cpu)) /\
  (forall reason why, decide_restore sha256 snapshot inst cpu bundle require = ColdBoot reason why -> require = false) /\
  (forall reason why, decide_restore sha256 snapshot inst cpu bundle require = Refuse reason why -> require = true).
Proof.
  unfold decide_restore. destruct snapshot as [s|].
  - repeat case_bool_decide; simpl; destruct require; split_and!; try done;
      (split; [intros; try done; exists s; split_and!; done|intros (s' & ? & ? & ? & ? & ?); simplify_eq; try done; exfalso; auto]).
  - destruct require; split_and!; try done; (split; [done|intros (? & ? & _); done]).
Qed.

(** A capsule restores exactly or not at all: [decide_capsule] proceeds if and only
    if the capsule holds memory and its architecture, CPU class, template and bundle are
    the target's and the node's. There is no cold-boot outcome to fall back to. *)
Theorem capsule_restore_is_exact m spec cpu bundle :
  decide_capsule sha256 m spec cpu bundle = Proceed <->
  manifest_kind m = SnapshotKind.MemoryAndDisk /\
  architecture m = default empty_str (arch <$> template spec) /\ cm_cpu_class m = cpu /\
  cm_template_hash m = template_hash_text sha256 spec /\ cm_runtime_bundle_ref m = bundle.
Proof.
  unfold decide_capsule. repeat case_bool_decide; simpl;
    (split; [by intros|intros (? & ? & ? & ? & ?); done]).
Qed.
End RestoreProperties.

(** What admission lets through. A spec is admitted if and only if its id is a ULID,
    its image is pinned by a digest, and the runtime has hardware isolation and egress
    control wherever they are asked for; a refusal names an invalid spec for the first
    two and a missing capability for the last two. *)
Theorem admission_is_exact ulid trim spec hw caps rt :
  (admit_spec ulid trim spec hw caps rt = Ok tt <->
     ulid (instance_id spec) = Ok tt /\
     (exists o, template spec ≫= oci = Some o /\ trim (digest o) <> empty_str) /\
     (hw = true -> hardware_isolation caps = true) /\
     ((exists e, egress spec = Some e /\ mediated e = true) -> egress_control caps = true)) /\
  (forall r, admit_spec ulid trim spec hw caps rt = Err r ->
     ref_reason r = ErrorReason.InvalidSpec \/
     ref_reason r = ErrorReason.CapabilityMissing /\
     (hw = true /\ hardware_isolation caps = false \/
      (exists e, egress spec = Some e /\ mediated e = true) /\ egress_control caps = false)).
Proof.
  unfold admit_spec. destruct (ulid (instance_id spec)) as [[]|e];
    [|split; [by split; [|intros (? & _)]|intros; simplify_eq; by left]].
  destruct (template spec ≫= oci) as [o|];
    [|split; [split; [done|intros (_ & (? & ? & _) & _); done]|intros; simplify_eq; by left]].
  destruct (is_empty (trim (digest o))) eqn:Ed; to_prop.
  { split; [split; [done|intros (_ & (? & ? & ?) & _); congruence]|intros; simplify_eq; by left]. }
  destruct hw, (hardware_isolation caps) eqn:Eh; simpl;
    try (split; [split; [done|intros (_ & _ & H & _); by specialize (H eq_refl)]|
                 intros; simplify_eq; right; by auto]).
  all: destruct (egress spec) as [eg|] eqn:Eg; [destruct (mediated eg) eqn:Em|]; simpl; destruct (egress_control caps) eqn:Ec; simpl;
    split; try (intros; simplify_eq; right; split; [done|]; right; split; [eauto|done]);
    try done; try (split; [done|intros (_ & _ & _ & H); exfalso; discriminate (H (ex_intro _ eg (conj eq_refl Em)))]);
    (split; [intros _; split_and!; eauto; intros (? & ? & ?); congruence|done]).
Qed.

(** A grant is valid under exactly one issued epoch. Epochs are issued strictly
    increasing from 1, so no two issues agree, a grant presented under any epoch but the
    current one is refused, and the unissued epoch 0 validates nothing. *)
Theorem grant_epochs_never_shared db e1 db1 e2 db2 (between : Db) :
  0 <= next_execution_epoch db -> next_execution_epoch db1 <= next_execution_epoch between ->
  next_execution_epoch between < i64_max ->
  issue_execution_epoch db = (db1, e1) -> issue_execution_epoch between = (db2, e2) ->
  0 < e1 < e2 /\ validate_grant_epoch e1 e1 = Ok tt /\
  (forall c p, validate_grant_epoch c p = Ok tt <-> c = p /\ c <> 0) /\
  (exists m, validate_grant_epoch e2 e1 = Err (ErrorReason.EpochRevoked, m)).
Proof.
  intros H0 Hb Hm H1 H2. unfold issue_execution_epoch in *. simplify_eq. simpl in *.
  rewrite !as_u64_small by lia.
  assert (forall c p, validate_grant_epoch c p = Ok tt <-> c = p /\ c <> 0) as Hv.
  { intros c p. unfold validate_grant_epoch.
    destruct (Z.eqb_spec c 0), (Z.eqb_spec p 0), (Z.eqb_spec p c); simpl; (split; [intros; (done || lia)|intros [? ?]; (done || lia)]). }
  split_and!; [lia..|apply Hv; lia|done|].
  unfold validate_grant_epoch.
  destruct (Z.eqb_spec (next_execution_epoch between + 1) 0), (Z.eqb_spec (next_execution_epoch db + 1) 0),
    (Z.eqb_spec (next_execution_epoch db + 1) (next_execution_epoch between + 1)); simpl; try lia. eauto.
Qed.

Lemma grant_epochs_never_shared_witness :
  0 < 1 < 2 /\ validate_grant_epoch 1 1 = Ok tt.
Proof.
  destruct (grant_epochs_never_shared empty_db 1 (fst (issue_execution_epoch empty_db)) 2
    (fst (issue_execution_epoch (fst (issue_execution_epoch empty_db)))) (fst (issue_execution_epoch empty_db)))
    as (? & ? & _); [by vm_compute..|auto].
Defined.
