(* ===== verification/Objects.v ===== *)
(** The content-addressed object store and its collector:
    src/crates/barista-node-agent/src/objects.rs.

    The local tier is two directories, [objects] (by digest) and [staging] (by file
    name). The bucket is the object_store crate: its operations are the parameters of
    the section, on a state of its own. Local file-system errors are not modelled. *)

From S2P Require Import Prelude Proto Journal Codec Capsules.

(** Operations of the bucket on its state [R]. *)
Record Bucket (R : Type) := {
  b_put : R -> string -> list Z -> R * res string unit;
  b_get : R -> string -> res string (option (list Z));
  b_head : R -> string -> res string bool;
  b_delete : R -> string -> R * res string unit }.
Arguments b_put {R}. Arguments b_get {R}. Arguments b_head {R}. Arguments b_delete {R}.

Record Staged := mkStaged { st_path : string; st_digest : string; st_length : Z }.

Section Store.
Context (sha256 : list Z -> list Z) {R : Type} (bucket : Bucket R).

Record ObjectStore := mkStore {
  objects : gmap string (list Z);
  staging : gmap string (list Z);
  remote : option (R * string) }.

#[global] Instance rebuild_ObjectStore : Rebuild ObjectStore := fun s =>
  mkStore (objects s) (staging s) (remote s).

Definition digest_of (bytes : list Z) : string := text_of (object_digest sha256 bytes).
Definition length_of (bytes : list Z) : Z := Z.of_nat (length bytes).

Definition has_remote (s : ObjectStore) : bool := is_some (remote s).
Definition remote_label (s : ObjectStore) : option string := snd <$> remote s.
Definition no_remote : string :=
  "no object-store tier is configured on this node (set the capsule bucket URL)".

Definition remote_path (digest : string) : string := "capsules/objects/" +:+ digest.

(** No separator, not empty, not a dot entry. *)
Fixpoint contains_any (cs : list Z) (l : list Z) : bool :=
  match l with [] => false | b :: l' => bool_decide (b ∈ cs) || contains_any cs l' end.
Definition is_path_safe_digest (d : string) : bool :=
  negb (is_empty d) && negb (contains_any [47; 92; 0] (bytes_of d)) &&
  negb (bool_decide (d = ".")) && negb (bool_decide (d = "..")).

Definition contains (d : string) (s : ObjectStore) : bool :=
  is_path_safe_digest d && is_some (objects s !! d).

(** [stage]: write the bytes under a staging name, hashing them. *)
Definition stage (path : string) (bytes : list Z) (s : ObjectStore) : ObjectStore * Staged :=
  (s <| staging := <[path := bytes]> (staging s) |>, mkStaged path (digest_of bytes) (length_of bytes)).

Definition unstage (t : Staged) (s : ObjectStore) : ObjectStore :=
  s <| staging := delete (st_path t) (staging s) |>.

Definition mismatch (t : Staged) (d : string) (n : Z) : option string :=
  if negb (bool_decide (st_digest t = d)) then
    Some ("object digest mismatch: manifest claims " +:+ d +:+ ", bytes hash to " +:+ st_digest t)
  else if negb (st_length t =? n) then
    Some ("object length mismatch for " +:+ d +:+ ": manifest claims " +:+ pretty n +:+ ", staged " +:+
          pretty (st_length t) +:+ " bytes")
  else None.

(** [commit]: publish by rename; an object already there makes it a no-op. *)
Definition commit (t : Staged) (d : string) (n : Z) (s : ObjectStore) : ObjectStore * res string unit :=
  match mismatch t d n with
  | Some e => (unstage t s, Err e)
  | None =>
      match objects s !! d, staging s !! st_path t with
      | Some _, _ => (unstage t s, Ok tt)
      | None, Some bytes => ((unstage t s) <| objects := <[d := bytes]> (objects s) |>, Ok tt)
      | None, None => (s, Err ("publish object " +:+ d))
      end
  end.

Definition remote_contains (d : string) (s : ObjectStore) : res string bool :=
  match remote s with
  | None => Err no_remote
  | Some (r, _) => b_head bucket r (remote_path d)
  end.

(** [commit_remote]: upload unless present, then read back and re-hash. *)
Definition commit_remote (t : Staged) (d : string) (n : Z) (s : ObjectStore)
    : ObjectStore * res string unit :=
  match remote s with
  | None => (s, Err no_remote)
  | Some (r, label) =>
      match mismatch t d n with
      | Some e => (unstage t s, Err e)
      | None =>
          let uploaded :=
            match b_head bucket r (remote_path d) with
            | Err e => (r, Err e)
            | Ok true => (r, Ok tt)
            | Ok false =>
                match staging s !! st_path t with
                | None => (r, Err ("read staged object " +:+ d))
                | Some bytes => b_put bucket r (remote_path d) bytes
                end
            end in
          match uploaded with
          | (r', Err e) => (s <| remote := Some (r', label) |>, Err e)
          | (r', Ok _) =>
              match b_get bucket r' (remote_path d) with
              | Err e => (s <| remote := Some (r', label) |>, Err e)
              | Ok None => (s <| remote := Some (r', label) |>, Err ("read back object " +:+ d))
              | Ok (Some back) =>
                  if negb (bool_decide (digest_of back = d)) || negb (length_of back =? n) then
                    let '(r'', _) := b_delete bucket r' (remote_path d) in
                    ((unstage t s) <| remote := Some (r'', label) |>,
                     Err ("object " +:+ d +:+ " in " +:+ label +:+ " failed durable verification: it reads back as " +:+
                          digest_of back +:+ " with " +:+ pretty (length_of back) +:+ " bytes, expected " +:+ pretty n))
                  else ((unstage t s) <| remote := Some (r', label) |>, Ok tt)
              end
          end
      end
  end.

Definition read_verified (d : string) (s : ObjectStore) : res string (option (list Z)) :=
  if negb (is_path_safe_digest d) then Err ("refusing to open object with unsafe digest " +:+ quoted d)
  else match objects s !! d with
       | None => Ok None
       | Some bytes =>
           if negb (bool_decide (digest_of bytes = d)) then
             Err ("object " +:+ d +:+ " is corrupt on disk: bytes now hash to " +:+ digest_of bytes)
           else Ok (Some bytes)
       end.

(** [fetch_remote_verified]: bucket bytes only, re-hashed, then cached locally. *)
Definition fetch_remote_verified (path d : string) (s : ObjectStore)
    : ObjectStore * res string (option (list Z)) :=
  match remote s with
  | None => (s, Ok None)
  | Some (r, label) =>
      match b_get bucket r (remote_path d) with
      | Err e => (s, Err e)
      | Ok None => (s, Ok None)
      | Ok (Some bytes) =>
          if negb (bool_decide (digest_of bytes = d)) then
            (s, Err ("object " +:+ d +:+ " in " +:+ label +:+ " is corrupt: its bytes hash to " +:+ digest_of bytes))
          else
            let '(s1, t) := stage path bytes s in
            match commit t d (length_of bytes) s1 with
            | (s2, Err e) => (s2, Err e)
            | (s2, Ok _) => (s2, Ok (Some bytes))
            end
      end
  end.

Definition fetch (path d : string) (s : ObjectStore) : ObjectStore * res string (option (list Z)) :=
  match read_verified d s with
  | Err e => (s, Err e)
  | Ok (Some bytes) => (s, Ok (Some bytes))
  | Ok None => fetch_remote_verified path d s
  end.

Definition remove_remote (d : string) (s : ObjectStore) : ObjectStore * res string unit :=
  match remote s with
  | None => (s, Err no_remote)
  | Some (r, label) =>
      let '(r', x) := b_delete bucket r (remote_path d) in (s <| remote := Some (r', label) |>, x)
  end.

Definition remove (d : string) (s : ObjectStore) : ObjectStore * res string unit :=
  if negb (is_path_safe_digest d) then (s, Err ("refusing to remove object with unsafe digest " +:+ quoted d))
  else (s <| objects := delete d (objects s) |>, Ok tt).

(** * Collection *)

Definition sweep_untracked_local (db : Db) (s : ObjectStore) : ObjectStore * Z :=
  let keep := fun p : string * list Z => is_Some (object_refs db !! p.1) in
  (s <| objects := filter keep (objects s) |>,
   Z.of_nat (size (filter (fun p => ~ keep p) (objects s)))).

Definition sweep_staging (s : ObjectStore) : ObjectStore * Z :=
  (s <| staging := ∅ |>, Z.of_nat (size (staging s))).

Fixpoint gc_loop (ds : list string) (db : Db) (s : ObjectStore) : Db * ObjectStore * res string Z :=
  match ds with
  | [] => (db, s, Ok 0)
  | d :: ds' =>
      match remove d s with
      | (s', Err e) => (db, s', Err e)
      | (s', Ok _) =>
          let '(db2, s2, r) := gc_loop ds' (finalize_object_gc d db) s' in
          (db2, s2, let? n := r in Ok (n + 1))
      end
  end.

Definition run_gc (db : Db) (s : ObjectStore) : Db * ObjectStore * res string (Z * Z) :=
  let '(s1, swept) := sweep_staging s in
  let '(db2, s2, r) := gc_loop (collectable_objects db) db s1 in
  (db2, s2, let? n := r in Ok (swept, n)).

Definition run_startup_gc (db : Db) (s : ObjectStore) : Db * ObjectStore * res string (Z * Z * Z) :=
  let '(s1, untracked) := sweep_untracked_local db s in
  let '(db2, s2, r) := run_gc db s1 in
  (db2, s2, let? x := r in Ok (x.1, untracked, x.2)).
End Store.
Arguments ObjectStore : clear implicits.

(** * Properties *)

Section StoreProperties.
Context (sha256 : list Z -> list Z) {R : Type} (bucket : Bucket R).

(** Every object is stored under the digest of its bytes. *)
Definition addressed (s : ObjectStore R) : Prop :=
  forall d b, objects s !! d = Some b -> digest_of sha256 b = d.

Lemma mismatch_None t d n : mismatch t d n = None <-> st_digest t = d /\ st_length t = n.
Proof.
  unfold mismatch. case_bool_decide; simpl; [|by split; [|intros [? _]]].
  destruct (Z.eqb_spec (st_length t) n); simpl; [done|by split; [|intros [_ ?]]].
Qed.

Lemma stage_commit path bytes d n (s s' : ObjectStore R) r :
  addressed s -> commit (snd (stage sha256 path bytes s)) d n (fst (stage sha256 path bytes s)) = (s', r) ->
  addressed s' /\ remote s' = remote s /\ staging s' !! path = None /\
  (r = Ok tt <-> d = digest_of sha256 bytes /\ n = length_of bytes) /\
  (r = Ok tt -> exists b, objects s' !! d = Some b /\ digest_of sha256 b = d).
Proof.
  intros Ha. unfold commit, stage. simpl. rewrite lookup_insert_eq.
  destruct (mismatch _ d n) as [e|] eqn:Em.
  - assert (~ (d = digest_of sha256 bytes /\ n = length_of bytes)) as Hn.
    { intros [-> ->]. assert (Some e = None) as [=]. rewrite <- Em. by apply mismatch_None. }
    intros [= <- <-]. simpl. rewrite lookup_delete_eq. split_and!; try done.
  - apply mismatch_None in Em as [<- <-]. simpl.
    destruct (objects s !! digest_of sha256 bytes) as [b|] eqn:Eb; intros [= <- <-]; simpl;
      rewrite lookup_delete_eq; split_and!; try done.
    + intros _. exists b. split; [done|]. by apply Ha.
    + intros d b; simpl; intros [[<- <-]|[? ?]]%lookup_insert_Some; [done|by apply Ha].
    + intros _. exists bytes. by rewrite lookup_insert_eq.
Qed.

Lemma fetch_remote_addressed path d (s s' : ObjectStore R) r :
  addressed s -> fetch_remote_verified sha256 bucket path d s = (s', r) ->
  addressed s' /\ forall b, r = Ok (Some b) -> digest_of sha256 b = d.
Proof.
  intros Ha. unfold fetch_remote_verified. destruct (remote s) as [[x label]|]; [|by intros [= <- <-]].
  destruct (b_get bucket x (remote_path d)) as [[bytes|]|e]; [|by intros [= <- <-]..].
  case_bool_decide as Hd; simpl; [|by intros [= <- <-]].
  destruct (commit _ _ _ _) as [s2 c] eqn:Ec.
  destruct (stage_commit path bytes d (length_of bytes) s s2 c Ha Ec) as (? & _).
  destruct c; intros [= <- <-]; (split; [done|]); intros b [= <-]; done.
Qed.

(** What the store hands out is what was asked for. Starting from a store whose
    objects sit under their own digests, publishing, fetching (from the node or from the
    bucket, whatever the bucket answers) and removing keep it so; publishing succeeds
    exactly for bytes with the claimed digest and length; and bytes returned for a digest
    hash to it, even when the node's copy or the bucket's is corrupt. *)
Theorem object_store_content_addressed (s : ObjectStore R) path bytes d n :
  addressed s ->
  (let '(s1, t) := stage sha256 path bytes s in
   let '(s', r) := commit t d n s1 in
   addressed s' /\ staging s' !! path = None /\
   (r = Ok tt <-> d = digest_of sha256 bytes /\ n = length_of bytes) /\
   (r = Ok tt -> exists b, objects s' !! d = Some b /\ digest_of sha256 b = d)) /\
  (let '(s', r) := fetch sha256 bucket path d s in
   addressed s' /\ forall b, r = Ok (Some b) -> digest_of sha256 b = d) /\
  addressed (fst (remove d s)).
Proof.
  intros Ha. split_and!.
  - destruct (stage sha256 path bytes s) as [s1 t] eqn:Es. destruct (commit t d n s1) as [s' r] eqn:Ec.
    rewrite (surjective_pairing (stage sha256 path bytes s)) in Es. injection Es as <- <-.
    by destruct (stage_commit path bytes d n s s' r Ha Ec) as (? & _ & ? & ? & ?).
  - unfold fetch. destruct (read_verified sha256 d s) as [[b|]|e] eqn:Er; try done.
    + split; [done|]. intros b' [= <-]. unfold read_verified in Er.
      destruct (negb _); [done|]. destruct (objects s !! d); [|done]. case_bool_decide; simplify_eq/=. done.
    + destruct (fetch_remote_verified sha256 bucket path d s) as [s' r] eqn:Ef.
      by apply (fetch_remote_addressed path d s s').
  - unfold remove. destruct (negb _); [done|]. intros d' b. simpl. intros [_ ?]%lookup_delete_Some. by apply Ha.
Qed.

(** ** Collection *)

Lemma finalize_other d d' db : d <> d' -> object_refs (finalize_object_gc d db) !! d' = object_refs db !! d'.
Proof.
  intros. unfold finalize_object_gc. destruct (object_refs db !! d); [|done].
  case_decide; [|done]. simpl. by rewrite lookup_delete_ne.
Qed.

Lemma finalize_capsules d db : capsules (finalize_object_gc d db) = capsules db.
Proof. unfold finalize_object_gc. destruct (object_refs db !! d); [|done]. by case_decide. Qed.

Lemma gc_loop_spec ds db (s : ObjectStore R) db' s' r :
  NoDup ds -> gc_loop ds db s = (db', s', r) ->
  capsules db' = capsules db /\
  (forall d, d ∉ ds -> objects s' !! d = objects s !! d /\ object_refs db' !! d = object_refs db !! d) /\
  (forall n, r = Ok n -> n = Z.of_nat (length ds) /\ forall d o, d ∈ ds -> object_refs db !! d = Some o -> collectable o ->
     objects s' !! d = None /\ object_refs db' !! d = None).
Proof.
  revert db s db' s' r. induction ds as [|d ds IH]; intros db s db' s' r Hnd; simpl.
  { intros [= <- <- <-]. split_and!; [done..|]. intros n [= <-]. split; [done|]. by intros d o ?%not_elem_of_nil. }
  apply NoDup_cons in Hnd as [Hd Hnd]. unfold remove. destruct (negb (is_path_safe_digest d)).
  { intros [= <- <- <-]. split_and!; [done..|]. by intros n. }
  destruct (gc_loop ds (finalize_object_gc d db) _) as [[db2 s2] r2] eqn:Eg. intros [= <- <- <-].
  destruct (IH _ _ _ _ _ Hnd Eg) as (Hc & Ho & Hn). split_and!.
  - by rewrite Hc, finalize_capsules.
  - intros x [Hne Hx]%not_elem_of_cons. destruct (Ho x Hx) as [-> ->]. simpl.
    by rewrite lookup_delete_ne, finalize_other by done.
  - intros n Hr. destruct r2 as [m|]; [|done]. simpl in Hr. simplify_eq.
    destruct (Hn m eq_refl) as [-> Hn']. split; [simpl; lia|].
    intros x o [->|Hx]%elem_of_cons Hox Hcol.
    + destruct (Ho _ Hd) as [-> ->]. simpl. rewrite lookup_delete_eq. unfold finalize_object_gc.
      rewrite Hox, decide_True by done. simpl. by rewrite lookup_delete_eq.
    + apply (Hn' x o Hx); [|done]. rewrite finalize_other; [done|]. by intros ->.
Qed.

Lemma collectable_NoDup db : NoDup (collectable_objects db).
Proof.
  unfold collectable_objects. assert (NoDup (map_to_list (object_refs db)).*1) as H by apply NoDup_fst_map_to_list.
  induction (map_to_list (object_refs db)) as [|[k o] l IH]; [constructor|].
  rewrite fmap_cons in H. apply NoDup_cons in H as [Hk H]. rewrite filter_cons. case_decide; [|by apply IH].
  rewrite fmap_cons. apply NoDup_cons. split; [|by apply IH].
  intros (p & E & [_ Hp]%list_elem_of_filter)%list_elem_of_fmap. apply Hk. rewrite E. by apply list_elem_of_fmap_2.
Qed.

(** An undisturbed collection takes only what nobody names. Over any journal that capsule
    operations can reach, a collection, complete or cut short by an error, leaves every
    object of every live capsule and its row untouched; a complete one has removed
    every collectable object, bytes and row. *)
Theorem undisturbed_gc_spares_live_capsules db (s : ObjectStore R) db' s' r :
  rtc capsule_step empty_db db -> run_gc db s = (db', s', r) ->
  capsules db' = capsules db /\
  (forall k c ob, capsules db !! k = Some c -> ob ∈ cm_objects (c_manifest c) ->
     objects s' !! obj_digest ob = objects s !! obj_digest ob /\
     object_refs db' !! obj_digest ob = object_refs db !! obj_digest ob) /\
  (forall x, r = Ok x -> forall d, d ∈ collectable_objects db ->
     objects s' !! d = None /\ object_refs db' !! d = None).
Proof.
  intros Hr. unfold run_gc. simpl. destruct (gc_loop _ _ _) as [[db2 s2] r2] eqn:Eg. intros [= <- <- <-].
  destruct (gc_loop_spec _ _ _ _ _ _ (collectable_NoDup db) Eg) as (Hc & Ho & Hn). split_and!; [done|..].
  - intros k c ob Hk Hob. apply Ho.
    intros ([d o] & Ed & [Hcol Hd]%list_elem_of_filter)%list_elem_of_fmap. simpl in *.
    apply elem_of_map_to_list in Hd. pose proof (capsule_reachable_inv _ Hr d) as [_ Hx]. rewrite Hd in Hx.
    pose proof (refs_live d k c _ Hk) as Hl. destruct Hx as [Hx _], Hcol as [_ Hcol]. unfold uses in Hl.
    assert (ob ∈ filter (fun o => obj_digest o = d) (cm_objects (c_manifest c))) as Hin by (by apply list_elem_of_filter).
    destruct (filter _ (cm_objects (c_manifest c))); [by apply not_elem_of_nil in Hin|simpl in *; lia].
  - intros x Hx d Hd. destruct r2 as [n|]; [|done]. destruct (Hn n eq_refl) as [_ Hn'].
    pose proof Hd as ([d' o] & -> & [Hcol Hin]%list_elem_of_filter)%list_elem_of_fmap.
    apply elem_of_map_to_list in Hin. by apply (Hn' _ o).
Qed.
End StoreProperties.

(** ** Witnesses *)

Definition no_bucket : Bucket unit := {|
  b_put r _ _ := (r, Err "down"); b_get _ _ := Err "down"; b_head _ _ := Err "down"; b_delete r _ := (r, Err "down") |}.
Definition ex_store : ObjectStore unit := mkStore {["d1" := [1; 2]]} ∅ None.

(** A store with one object, under its digest. *)
Definition ex_digest : string := digest_of toy_sha [1; 2; 3; 4].
Definition ex_addressed : ObjectStore unit := mkStore {[ex_digest := [1; 2; 3; 4]]} ∅ None.

Lemma object_store_content_addressed_witness :
  addressed toy_sha (fst (fetch toy_sha no_bucket "p" ex_digest ex_addressed)) /\
  snd (fetch toy_sha no_bucket "p" ex_digest ex_addressed) = Ok (Some [1; 2; 3; 4]).
Proof.
  split; [|vm_compute; reflexivity].
  destruct (object_store_content_addressed toy_sha no_bucket ex_addressed "p" [5] ex_digest 4) as (_ & H & _).
  - intros d b H. change (({[ex_digest := [1; 2; 3; 4]]} : gmap string (list Z)) !! d = Some b) in H.
    apply lookup_singleton_Some in H as [<- <-]. reflexivity.
  - destruct (fetch toy_sha no_bucket "p" ex_digest ex_addressed) as [s' r]. apply H.
Defined.
