(* ===== verification/Collection.v ===== *)
(** Collection beside everything else: [run_gc] of
    src/crates/barista-node-agent/src/objects.rs, call by call. DeleteCapsule runs it on
    the task of the request, so registrations, deletions, uploads and other collections
    fall between its calls. *)

From S2P Require Import Prelude Proto Journal Codec Capsules Objects.

Section Collection.
Context {R : Type}.

(** * A collection *)

(** Where a collection is: what it swept, what is left of its list and how much it
    collected. *)
Inductive Collecting : Type :=
| Sweep
| Enumerate (swept : Z)
| Remove (ds : list string) (swept collected : Z)
| Finalize (d : string) (ds : list string) (swept collected : Z)
| Finished (r : res string (Z * Z)).

(** The next call of [run_gc]; [fault] is the failure of the journal, for a call on it. *)
Definition gc_call (fault : option string) (c : Collecting) (db : Db) (s : ObjectStore R)
    : Db * ObjectStore R * Collecting :=
  match c with
  | Sweep => let '(s1, n) := sweep_staging s in (db, s1, Enumerate n)
  | Enumerate n =>
      match fault with
      | Some e => (db, s, Finished (Err e))
      | None => (db, s, Remove (collectable_objects db) n 0)
      end
  | Remove [] n k => (db, s, Finished (Ok (n, k)))
  | Remove (d :: ds) n k =>
      match remove d s with
      | (s', Err e) => (db, s', Finished (Err e))
      | (s', Ok _) => (db, s', Finalize d ds n k)
      end
  | Finalize d ds n k =>
      match fault with
      | Some e => (db, s, Finished (Err e))
      | None => (finalize_object_gc d db, s, Remove ds n (k + 1))
      end
  | Finished r => (db, s, Finished r)
  end.

(** * The node around it *)

Record Node := mkNode { n_db : Db; n_store : ObjectStore R; n_gcs : list Collecting }.
#[global] Instance rebuild_Node : Rebuild Node := fun x => mkNode (n_db x) (n_store x) (n_gcs x).

(** A call of one collection, a change of the journal by any other task, a change of the
    store by one (which publishes objects and removes none), or a new collection. *)
Inductive node_step (x : Node) : Node -> Prop :=
| ns_gc i c fault db s c' :
    n_gcs x !! i = Some c -> gc_call fault c (n_db x) (n_store x) = (db, s, c') ->
    node_step x (mkNode db s (<[i := c']> (n_gcs x)))
| ns_journal db : capsule_step (n_db x) db -> node_step x (x <| n_db := db |>)
| ns_store s : objects (n_store x) ⊆ objects s -> node_step x (x <| n_store := s |>)
| ns_start : node_step x (x <| n_gcs := n_gcs x ++ [Sweep] |>).

(** Some registered capsule names the object. *)
Definition named (d : string) (db : Db) : Prop :=
  exists k c ob, capsules db !! k = Some c /\ ob ∈ cm_objects (c_manifest c) /\ obj_digest ob = d.

(** What a collection still means to remove. *)
Definition pending (c : Collecting) : list string :=
  match c with Remove ds _ _ | Finalize _ ds _ _ => ds | _ => [] end.

(** * What a collection spares *)

Lemma named_refs d db : named d db -> 0 < refs d (capsules db).
Proof.
  intros (k & c & ob & Hk & Hob & Hd). pose proof (refs_live d k c _ Hk) as Hl. unfold uses in Hl.
  assert (ob ∈ filter (fun o => obj_digest o = d) (cm_objects (c_manifest c))) as Hin by (by apply list_elem_of_filter).
  destruct (filter _ (cm_objects (c_manifest c))); [by apply not_elem_of_nil in Hin|simpl in *; lia].
Qed.

Lemma named_not_collectable d db : objects_inv db -> named d db -> d ∉ collectable_objects db.
Proof.
  intros Hi Hn%named_refs ([d' o] & -> & [Hc Ho]%list_elem_of_filter)%list_elem_of_fmap. apply elem_of_map_to_list in Ho.
  destruct (Hi d') as [_ Hx]. simpl in *. rewrite Ho in Hx. destruct Hx as [Hx _], Hc as [_ Hc]. lia.
Qed.

Lemma gc_call_journal fault c db s db' s' c' :
  gc_call fault c db s = (db', s', c') -> db' = db \/ exists d, db' = finalize_object_gc d db.
Proof.
  destruct c as [|n|[|d ds] n k|d ds n k|r]; cbn [gc_call]; [| | |destruct (remove d s) as [? []]| |];
    try destruct fault; intros [= <- <- <-]; eauto.
Qed.

Lemma node_step_inv x y : node_step x y -> objects_inv (n_db x) -> objects_inv (n_db y).
Proof.
  destruct 1 as [i c fault db s c' Hc E|db Hs|s|]; simpl; [|by apply capsule_step_inv|done|done].
  apply gc_call_journal in E as [->|[d ->]]; [done|apply finalize_object_gc_inv].
Qed.

Lemma gc_call_spares d fault c db s db' s' c' :
  objects_inv db -> named d db -> d ∉ pending c -> gc_call fault c db s = (db', s', c') ->
  objects s' !! d = objects s !! d /\ d ∉ pending c'.
Proof.
  intros Hi Hn Hp. destruct c as [|n|[|e ds] n k|e ds n k|r]; cbn [gc_call pending] in *.
  - intros [= <- <- <-]. by split; [|apply not_elem_of_nil].
  - destruct fault; intros [= <- <- <-]; (split; [done|]); [apply not_elem_of_nil|]. by apply named_not_collectable.
  - intros [= <- <- <-]. by split.
  - apply not_elem_of_cons in Hp as [Hne Hp]. unfold remove. destruct (negb _); intros [= <- <- <-]; simpl.
    + by split; [|apply not_elem_of_nil].
    + by rewrite lookup_delete_ne.
  - destruct fault; intros [= <- <- <-]; (split; [done|]); [apply not_elem_of_nil|done].
  - intros [= <- <- <-]. done.
Qed.

(** The steps during which [d] stays named. *)
Definition keeping (d : string) (x y : Node) : Prop := node_step x y /\ named d (n_db y).

Lemma keeping_spares d b x y :
  objects_inv (n_db x) -> named d (n_db x) -> Forall (fun c => d ∉ pending c) (n_gcs x) -> objects (n_store x) !! d = Some b ->
  rtc (keeping d) x y ->
  objects_inv (n_db y) /\ named d (n_db y) /\ Forall (fun c => d ∉ pending c) (n_gcs y) /\ objects (n_store y) !! d = Some b.
Proof.
  intros Hi Hn Hp Hb Hr. induction Hr as [|x y z [Hs Hn'] _ IH]; [done|].
  pose proof (node_step_inv _ _ Hs Hi) as Hi'. destruct Hs as [i c fault db s c' Hc E|db Hs|s Hs|]; simpl in *.
  - rewrite Forall_lookup in Hp. destruct (gc_call_spares d _ _ _ _ _ _ _ Hi Hn (Hp _ _ Hc) E) as [E1 E2].
    apply IH; [done|done| |by rewrite E1]. apply Forall_insert; [by apply Forall_lookup|done].
  - by apply IH.
  - apply IH; [done..|]. by eapply lookup_weaken.
  - apply IH; [done|done| |done]. apply Forall_app. split; [done|]. repeat constructor. apply not_elem_of_nil.
Qed.

(** ** A collection left alone is [run_gc] *)

Lemma gc_loop_calls ds db (s : ObjectStore R) n k db' s' r :
  gc_loop ds db s = (db', s', r) ->
  rtc node_step (mkNode db s [Remove ds n k]) (mkNode db' s' [Finished (let? m := r in Ok (n, k + m))]).
Proof.
  assert (forall db s c db2 s2 c2 y, gc_call None c db s = (db2, s2, c2) -> rtc node_step (mkNode db2 s2 [c2]) y ->
    rtc node_step (mkNode db s [c]) y) as Hcall.
  { intros ? ? c ? ? c2 y E Hy. eapply rtc_l; [|exact Hy]. exact (ns_gc (mkNode _ _ [c]) 0 c None _ _ c2 eq_refl E). }
  revert db s k db' s' r. induction ds as [|d ds IH]; intros db s k db' s' r; cbn [gc_loop].
  - intros [= <- <- <-]. eapply Hcall; [reflexivity|]. simpl. by rewrite Z.add_0_r.
  - destruct (remove d s) as [s1 [[]|e]] eqn:Er.
    + destruct (gc_loop ds _ s1) as [[db2 s2] r2] eqn:Eg. intros [= <- <- <-].
      eapply Hcall; [cbn [gc_call]; rewrite Er; reflexivity|]. eapply Hcall; [reflexivity|].
      eapply (IH _ _ (k + 1)) in Eg. destruct r2 as [m|]; simpl in *; [|done]. by replace (k + (m + 1)) with (k + 1 + m) by lia.
    + intros [= <- <- <-]. eapply Hcall; [cbn [gc_call]; rewrite Er; reflexivity|]. done.
Qed.

Lemma run_gc_calls db (s : ObjectStore R) db' s' r :
  run_gc db s = (db', s', r) -> rtc node_step (mkNode db s [Sweep]) (mkNode db' s' [Finished r]).
Proof.
  unfold run_gc. destruct (sweep_staging s) as [s1 n] eqn:Es. destruct (gc_loop _ _ s1) as [[db2 s2] r2] eqn:Eg. intros [= <- <- <-].
  eapply rtc_l; [apply (ns_gc (mkNode _ _ [Sweep]) 0 Sweep None db s1 (Enumerate n) eq_refl); unfold gc_call; cbn [n_db n_store]; by rewrite Es|].
  eapply rtc_l; [exact (ns_gc (mkNode _ _ [Enumerate n]) 0 (Enumerate n) None db s1 _ eq_refl eq_refl)|].
  eapply (gc_loop_calls _ _ _ n 0) in Eg. simpl in *. by destruct r2.
Qed.

End Collection.
Arguments Node : clear implicits.

(** * Examples *)

(** The [i]-th collection makes its next call. *)
Definition called (x : Node unit) : Node unit :=
  match n_gcs x with
  | [c] => let '(db, s, c') := gc_call None c (n_db x) (n_store x) in mkNode db s [c']
  | _ => x
  end.
Lemma called_step x c : n_gcs x = [c] -> node_step x (called x).
Proof.
  intros Hc. unfold called. rewrite Hc. destruct (gc_call None c (n_db x) (n_store x)) as [[db s] c'] eqn:E.
  replace [c'] with (<[0%nat := c']> (n_gcs x)) by (by rewrite Hc). eapply ns_gc; [by rewrite Hc|exact E].
Qed.
Definition began (x : Node unit) : Node unit := x <| n_gcs := n_gcs x ++ [Sweep] |>.

Definition ex_held : Db := fst (register_capsule (ex_capsule "c1") empty_db).
Lemma names_d1 db k : capsules db !! k = Some (mkCapsule ex_manifest CapsuleStorage.LocalDir "l" 4 7) -> named "d1" db.
Proof. intros Hk. eexists k, _, _. split; [exact Hk|]. split; [by left|done]. Qed.

(** A collection while a capsule holds the object. *)
Definition ex_spared : Node unit := called (called (called (began (mkNode ex_held ex_store [])))).

(** A capsule registered between the listing and the removal of its object: the journal
    says it is there, and its bytes are gone. *)
Definition ex_listed : Node unit := called (called (began (mkNode ex_released ex_store []))).
Definition ex_taken : Node unit :=
  called (called (ex_listed <| n_db := fst (register_capsule (ex_capsule "c3") (n_db ex_listed)) |>)).
Lemma collection_can_take_a_live_object :
  rtc node_step (mkNode ex_released ex_store []) ex_taken /\ named "d1" (n_db ex_taken) /\
  object_refs (n_db ex_taken) !! "d1" = Some (mkObject 4 1 true false) /\
  objects (n_store ex_listed) !! "d1" = Some [1; 2] /\ objects (n_store ex_taken) !! "d1" = None.
Proof.
  split_and!; [|apply (names_d1 _ "c3"); by vm_compute|by vm_compute..].
  eapply rtc_l; [apply ns_start|]. do 2 (eapply rtc_l; [eapply called_step; reflexivity|]).
  eapply rtc_l; [apply ns_journal, cs_register|]. eapply rtc_l; [eapply called_step; reflexivity|].
  apply rtc_once. eapply called_step. reflexivity.
Qed.
