(* ===== verification/Runtime.v ===== *)
(** What the agent asks of a substrate: the [Runtime] trait of
    src/crates/barista-node-agent/src/runtime/mod.rs and the guest channel, as
    operations on a substrate state [W], and the monad the agent's verbs run in. *)

From S2P Require Import Prelude Proto Journal Events Codec Objects.

(** * Errors and values *)

Inductive RuntimeError : Type :=
| TemplateNotFound (m : string)
| SubstrateUnavailable (m : string)
| CapabilityMissing (m : string)
| NameConflict (m : string)
| Other (m : string).

(** The [Display] form. *)
Definition runtime_error_text (e : RuntimeError) : string :=
  match e with
  | TemplateNotFound m => "template not found: " +:+ m
  | SubstrateUnavailable m => "substrate unavailable: " +:+ m
  | CapabilityMissing m => "capability missing: " +:+ m
  | NameConflict m => "name already taken: " +:+ m
  | Other m => "runtime failure: " +:+ m
  end.

Definition OpError : Type := ErrorReason.t * string.

(** [ops::map_runtime_err] *)
Definition map_runtime_err (e : RuntimeError) : OpError :=
  match e with
  | TemplateNotFound m => (ErrorReason.TemplateNotFound, m)
  | SubstrateUnavailable m => (ErrorReason.SubstrateUnavailable, m)
  | NameConflict m => (ErrorReason.SnapshotNameConflict, m)
  | CapabilityMissing m => (ErrorReason.CapabilityMissing, m)
  | Other m => (ErrorReason.Unspecified, m)
  end.

Record GuestBootstrap := { gb_token : string; gb_identity : option Identity }.
Record SnapshotRef := { ref_snapshot_id : string; ref_kind : SnapshotKind.t; ref_size_bytes : Z }.
Record ForkOutcome := { fork_mode : ForkMode.t; froze_source : bool }.
Record SnapshotObject := { so_type : CapsuleObjectType.t; so_bytes : list Z }.
(** A credential the runtime keeps outside its sandboxes, and the instance this node can
    prove it was minted for; a sandbox carrying this node's tag. *)
Record Credential := { cred_id : string; cred_instance : option string }.
Record Sandbox := { substrate_id : string; sb_instance_id : string; running : bool }.
Record StopStatus := { ss_exit_code : option Z; ss_detail : string }.

(** The guest's answers ([barista.guest.v1alpha1]). *)
Inductive HookKind : Type := PreSnapshot | PostRestore.
Record HookResponse := { hr_ran : bool; hr_timed_out : bool; hr_exit_code : Z }.
Record RestoreReport := {
  entropy_bytes_mixed : Z;
  entropy_credited : bool;
  clock_drift_ms : Z;
  clock_stepped : bool;
  rr_degraded : string;
  grant_rebound : bool }.

(** The fields the node reads of a health answer. *)
Record HealthResponse := {
  h_ready : bool;
  last_user_activity : option Timestamp;
  idle_declared : option Timestamp }.

(** * The substrate *)

Record Runtime (W : Type) := {
  rt_name : string;
  rt_version : string;
  rt_caps : RuntimeCapabilities;
  rt_create : W -> InstanceSpec -> GuestBootstrap -> W * res RuntimeError unit;
  rt_start : W -> string -> InstanceSpec -> GuestBootstrap -> W * res RuntimeError unit;
  rt_stop : W -> string -> Z -> W * res RuntimeError unit;
  rt_stop_status : W -> string -> res RuntimeError (option StopStatus);
  rt_pause : W -> string -> W * res RuntimeError SnapshotRef;
  rt_resume : W -> string -> option string -> W * res RuntimeError unit;
  rt_fork : W -> string -> string -> InstanceSpec -> GuestBootstrap -> bool -> W * res RuntimeError ForkOutcome;
  rt_restore_from_objects : W -> list SnapshotObject -> InstanceSpec -> GuestBootstrap -> W * res RuntimeError unit;
  rt_export_snapshot : W -> string -> res RuntimeError (list SnapshotObject);
  rt_create_snapshot : W -> string -> option string -> W * res RuntimeError SnapshotRef;
  rt_delete_snapshot : W -> string -> W * res RuntimeError unit;
  rt_destroy : W -> string -> W * res RuntimeError unit;
  rt_list_labeled : W -> res RuntimeError (list string);
  rt_remove_orphan : W -> string -> W * res RuntimeError unit;
  rt_list_credentials : W -> res RuntimeError (list Credential);
  rt_remove_credential : W -> string -> W * res RuntimeError unit;
  rt_list_sandboxes : W -> res RuntimeError (list Sandbox);
  rt_remove_sandbox : W -> string -> W * res RuntimeError unit;
  rt_enumerates_sandboxes : bool;
  rt_network_reachable : bool;
  rt_workload_address : W -> string -> res RuntimeError (option string);
  (** The entries a log stream yields, up to where it is read. *)
  rt_application_logs : W -> string -> Z -> bool -> res RuntimeError (list (res RuntimeError (list Z)));
  rt_substrate_health : W -> SubstrateHealth.t * string;
  g_connect : W -> InstanceRow -> res string unit;
  g_run_hook : W -> string -> HookKind -> W * res string HookResponse;
  g_restore_duties : W -> string -> list Z -> Z -> W * res string RestoreReport;
  g_health : W -> string -> bool -> W * res string HealthResponse;
  read_urandom : W -> W * res string (list Z) }.
Arguments rt_name {W}. Arguments rt_version {W}. Arguments rt_caps {W}. Arguments rt_create {W}.
Arguments rt_start {W}. Arguments rt_stop {W}. Arguments rt_stop_status {W}. Arguments rt_pause {W}.
Arguments rt_resume {W}. Arguments rt_fork {W}. Arguments rt_restore_from_objects {W}.
Arguments rt_create_snapshot {W}. Arguments rt_export_snapshot {W}. Arguments rt_delete_snapshot {W}. Arguments rt_destroy {W}.
Arguments rt_list_labeled {W}. Arguments rt_remove_orphan {W}. Arguments rt_list_credentials {W}. Arguments rt_remove_credential {W}. Arguments rt_list_sandboxes {W}.
Arguments rt_remove_sandbox {W}. Arguments rt_enumerates_sandboxes {W}. Arguments rt_network_reachable {W}.
Arguments rt_workload_address {W}. Arguments rt_application_logs {W}. Arguments rt_substrate_health {W}.
Arguments g_connect {W}. Arguments g_run_hook {W}. Arguments g_restore_duties {W}. Arguments g_health {W}.
Arguments read_urandom {W}.

(** * The agent's world and its monad *)

(** The journal, the object store, the substrate (with the guests in it and the host's
    entropy), how many clock readings, journal calls and fresh names have been made, and
    the degradations the running operation has recorded. *)
Record World (W R : Type) := mkWorld {
  w_db : Db;
  w_store : ObjectStore R;
  w_sub : W;
  w_ticks : nat;
  w_calls : nat;
  w_names : nat;
  w_degraded : list string }.
Arguments mkWorld {W R}. Arguments w_db {W R}. Arguments w_store {W R}. Arguments w_sub {W R}.
Arguments w_ticks {W R}. Arguments w_calls {W R}. Arguments w_names {W R}. Arguments w_degraded {W R}.

#[global] Instance rebuild_World W R : Rebuild (World W R) := fun w =>
  mkWorld (w_db w) (w_store w) (w_sub w) (w_ticks w) (w_calls w) (w_names w) (w_degraded w).

Definition M (W R A : Type) : Type := World W R -> World W R * A.

Definition ret {W R A} (a : A) : M W R A := fun w => (w, a).
Definition bind {W R A B} (m : M W R A) (k : A -> M W R B) : M W R B :=
  fun w => let '(w', a) := m w in k a w'.

Declare Scope agent_scope.
Delimit Scope agent_scope with agent.
Notation "'let!' x := m 'in' k" := (bind m (fun x => k))
  (at level 10, x pattern, m at level 100, k at level 200) : agent_scope.
#[global] Open Scope agent_scope.

Section Primitives.
Context {W R : Type}.
(** The node's clock at its n-th reading, the error, if any, of the n-th journal call,
    and the n-th generated name (a ULID, a staging file). *)
Context (clock : nat -> Z) (faults : nat -> option string) (names : nat -> string).

Definition now_ms : M W R Z := fun w => (w <| w_ticks := S (w_ticks w) |>, clock (w_ticks w)).

Definition fresh_name : M W R string := fun w => (w <| w_names := S (w_names w) |>, names (w_names w)).

(** One call of a journal method: SQLite fails it and nothing happens, or it runs. *)
Definition journal {A} (f : Db -> Db * A) : M W R (res string A) := fun w =>
  match faults (w_calls w) with
  | Some e => (w <| w_calls := S (w_calls w) |>, Err e)
  | None => let '(db, a) := f (w_db w) in (w <| w_calls := S (w_calls w) |> <| w_db := db |>, Ok a)
  end.

(** A method with an error of its own. *)
Definition journal_try {A} (f : Db -> Db * res string A) : M W R (res string A) :=
  let! r := journal f in
  ret (match r with Ok x => x | Err e => Err e end).

(** A journal method that only reads. *)
Definition reading {A} (f : Db -> A) : M W R (res string A) := journal (fun db => (db, f db)).

(** [EventBus::record]: one clock reading, and a refused event is only reported. *)
Definition emit_event (ev : Event) : M W R unit :=
  let! t := now_ms in
  let! _ := journal (fun db => (record ev t db, tt)) in
  ret tt.

Fixpoint emit_events (l : list Event) : M W R unit :=
  match l with
  | [] => ret tt
  | ev :: l => let! _ := emit_event ev in emit_events l
  end.

(** One call of the substrate. *)
Definition substrate {A} (f : W -> W * A) : M W R A := fun w =>
  let '(s, a) := f (w_sub w) in (w <| w_sub := s |>, a).
Definition on_store {A} (f : ObjectStore R -> ObjectStore R * A) : M W R A := fun w =>
  let '(s, a) := f (w_store w) in (w <| w_store := s |>, a).
Definition ask {A} (f : W -> A) : M W R A := substrate (fun s => (s, f s)).

(** [Degradations::record] and [joined]. *)
Definition degrade (iid op msg : string) : M W R unit :=
  let! _ := emit_event (degradation iid op msg) in
  fun w => (w <| w_degraded := w_degraded w ++ [msg] |>, tt).
Definition joined : M W R string := fun w => (w, join "; " (w_degraded w)).
End Primitives.
