(* ===== verification/Ops.v ===== *)
(** Long-running operations: src/crates/barista-node-agent/src/ops.rs. Submission,
    the executor of every verb, and crash recovery, over the journal of [Operations],
    the substrate of [Runtime] and the decisions of [Restore].

    Log lines are left out. So is [fleet_phase::stamp_lease_state], which [execute] calls
    around its work: it reads the journal and touches only the bucket and the agent's
    in-memory leases, neither of which is part of the world here. *)

From S2P Require Import Prelude Proto StateMachine Journal Events Operations Capsules Codec Restore Objects Runtime.

(** * Kinds and payloads *)

Inductive OpKind : Type :=
| KCreate | KStart | KStop | KPause | KResume | KCreateSnapshot | KDeleteSnapshot | KDestroy | KFork.

#[global] Instance OpKind_eq_dec : EqDecision OpKind.
Proof. solve_decision. Defined.

Definition as_str (k : OpKind) : string :=
  match k with
  | KCreate => "create"
  | KStart => "start"
  | KStop => "stop"
  | KPause => "pause"
  | KResume => "resume"
  | KCreateSnapshot => "create_snapshot"
  | KDeleteSnapshot => "delete_snapshot"
  | KDestroy => "destroy"
  | KFork => "fork"
  end.

(** The [{:?}] form. *)
Definition kind_debug (k : OpKind) : string :=
  match k with
  | KCreate => "Create"
  | KStart => "Start"
  | KStop => "Stop"
  | KPause => "Pause"
  | KResume => "Resume"
  | KCreateSnapshot => "CreateSnapshot"
  | KDeleteSnapshot => "DeleteSnapshot"
  | KDestroy => "Destroy"
  | KFork => "Fork"
  end.

Definition touches_instance_state (k : OpKind) : bool :=
  match k with KCreateSnapshot | KDeleteSnapshot => false | _ => true end.

(** The transitional state a verb records and the state its success reaches. *)
Definition states (k : OpKind) : IS.t * IS.t :=
  match k with
  | KCreate => (IS.Creating, IS.Created)
  | KStart => (IS.Starting, IS.Running)
  | KStop => (IS.Stopping, IS.Stopped)
  | KPause => (IS.Pausing, IS.Paused)
  | KResume => (IS.Resuming, IS.Running)
  | KCreateSnapshot => (IS.Checkpointing, IS.Running)
  | KDeleteSnapshot => (IS.Unspecified, IS.Unspecified)
  | KDestroy => (IS.Destroying, IS.Destroyed)
  | KFork => (IS.Creating, IS.Running)
  end.

Definition plan_transition (k : OpKind) (transitional from : IS.t) : option IS.t :=
  if bool_decide (k = KDeleteSnapshot) then Some from
  else if bool_decide (k = KCreateSnapshot) && bool_decide (from = IS.Paused) then Some IS.Paused
  else if can_transition from transitional then Some transitional else None.

Inductive OpPayload : Type :=
| PCreate (spec : InstanceSpec)
| PStart
| PStop (grace_seconds : Z)
| PPause (require_memory : bool)
| PResume (snapshot_id : option string) (require_memory : bool)
| PCreateSnapshot (name : option string)
| PDeleteSnapshot (snapshot_id : string)
| PDestroy (keep_snapshots : bool)
| PFork (spec : InstanceSpec) (source_instance_id source_snapshot_id : string) (lineage : Lineage)
    (require_cow : bool) (source_guest_token : string) (source_identity : option Identity)
| PRestoreCapsule (spec : InstanceSpec) (capsule_id source_snapshot_id : string) (lineage : Lineage).

(** The canonical request, which a replay has to repeat. *)
Definition payload_descriptor (p : OpPayload) : string :=
  match p with
  | PCreate _ | PStart => empty_str
  | PStop g => "grace_seconds=" +:+ pretty g
  | PPause m => "require_memory=" +:+ fmt_bool m
  | PResume sid m => "snapshot_id=" +:+ default empty_str sid +:+ " require_memory=" +:+ fmt_bool m
  | PCreateSnapshot n => "name=" +:+ default empty_str n
  | PDeleteSnapshot sid => "snapshot_id=" +:+ sid
  | PDestroy keep => "keep_snapshots=" +:+ fmt_bool keep
  | PFork _ _ sid _ cow _ _ => "source_snapshot_id=" +:+ sid +:+ " require_cow=" +:+ fmt_bool cow
  | PRestoreCapsule _ cid sid _ => "source_snapshot_id=" +:+ sid +:+ " capsule_id=" +:+ cid
  end.

Definition describe (kind payload : string) : string :=
  if is_empty payload then kind else kind +:+ " (" +:+ payload +:+ ")".

Record SubmitError := mkSubmitError { se_reason : ErrorReason.t; se_message : string }.
(** Its [Display] form. *)
Definition submit_error_text (e : SubmitError) : string := ErrorReason.debug (se_reason e) +:+ ": " +:+ se_message e.
Inductive Claimed : Type := Submitted (op : OperationRow) | Superseded.

Definition internal (e : string) : SubmitError :=
  mkSubmitError ErrorReason.Unspecified ("internal: " +:+ e).

(** [ttl_deadline_ms]: saturating at the largest [i64]. *)
Definition ttl_deadline_ms (ttl_seconds now : Z) : Z :=
  let secs := if ttl_seconds <=? i64_max then ttl_seconds else i64_max in
  sat_i64 (sat_i64 (secs * 1000) + now).

Section Ops.
Context {W R : Type} (rt : Runtime W) (bucket : Bucket R) (sha256 : list Z -> list Z).
Context (node_cpu_class : string) (clock : nat -> Z) (faults : nat -> option string) (names : nat -> string).
Context (mint : string -> res string Identity).

#[local] Abbreviation M := (M W R).
#[local] Abbreviation journal := (@journal W R faults).
#[local] Abbreviation reading := (@reading W R faults).
#[local] Abbreviation emit_event := (@emit_event W R clock faults).
#[local] Abbreviation emit_events := (@emit_events W R clock faults).
#[local] Abbreviation degrade := (@degrade W R clock faults).
#[local] Abbreviation now_ms := (@now_ms W R clock).
#[local] Abbreviation journal_try := (@journal_try W R faults).
#[local] Abbreviation fresh_name := (@fresh_name W R names).

(** [.ok().flatten()] *)
Definition ok_flatten {A} (r : res string (option A)) : option A :=
  match r with Ok (Some a) => Some a | _ => None end.

Definition bootstrap (row : InstanceRow) : GuestBootstrap :=
  {| gb_token := ir_guest_token row; gb_identity := ir_identity row |}.

Definition resolve_restore (id : string) (sid : option string) (require_memory : bool)
    : M (option InstanceRow * Restore) :=
  let! snapshot :=
    match sid with
    | Some s => let! r := reading (get_snapshot s) in ret (ok_flatten r)
    | None =>
        let! r := reading (get_instance id) in
        match option_filter (fun row => negb (is_empty (ir_latest_snapshot_id row))) (ok_flatten r) with
        | Some row => let! s := reading (get_snapshot (ir_latest_snapshot_id row)) in ret (ok_flatten s)
        | None => ret None
        end
    end in
  let! r := reading (get_instance id) in
  let instance := ok_flatten r in
  ret (instance,
       match instance with
       | Some row => decide_restore sha256 snapshot row node_cpu_class (rt_version rt) require_memory
       | None => Refuse ErrorReason.Unspecified (id +:+ " is not in the journal")
       end).

(** The executor's [step]: the journal's progress marker and an event. *)
Definition step (op iid name : string) : M unit :=
  let! _ := journal (fun db => (set_op_step op name db, tt)) in
  emit_event (op_progress iid op name).

(** [record_snapshot]: three journal calls and a clock reading. *)
Definition record_snapshot (iid : string) (snapshot : SnapshotRef) (hook : option HookOutcome) (name : string)
    : M (res string unit) :=
  let! r := reading (get_instance iid) in
  let! t := now_ms in
  let row := mkSnapshotRow (ref_snapshot_id snapshot) iid (ref_kind snapshot) node_cpu_class
    (default empty_str ((fun i => template_hash_text sha256 (ir_spec i)) <$> ok_flatten r))
    (rt_version rt) SnapshotTier.Local (ref_size_bytes snapshot) t hook name in
  let! u := now_ms in
  journal (fun db => (insert_snapshot row u db, tt)).

Definition HookOutcome_default : HookOutcome := {| ran := false; timed_out := false; hook_exit_code := 0 |}.

Definition run_pre_snapshot_hook (iid op : string) : M (option HookOutcome) :=
  let! r := reading (get_instance iid) in
  match ok_flatten r with
  | None => ret None
  | Some row =>
      if match hooks (ir_spec row) with Some h => bool_decide (pre_snapshot_cmd h = []) | None => true end
      then ret (Some HookOutcome_default)
      else
        let! c := ask (fun s => g_connect rt s row) in
        match c with
        | Err e =>
            let! _ := degrade iid op ("pre-snapshot hook could not run (" +:+ e +:+
              "); the snapshot is being taken without the workload quiescing, so it may capture work in progress") in
            ret None
        | Ok _ =>
            let! h := substrate (fun s => g_run_hook rt s iid PreSnapshot) in
            match h with
            | Ok response =>
                let! _ := if hr_timed_out response
                          then degrade iid op "the pre-snapshot hook timed out; the snapshot proceeded, so it may capture work in progress"
                          else ret tt in
                ret (Some {| ran := hr_ran response; timed_out := hr_timed_out response;
                             hook_exit_code := hr_exit_code response |})
            | Err e =>
                let! _ := degrade iid op ("the pre-snapshot hook failed (" +:+ e +:+
                            "); the snapshot proceeded anyway") in
                ret None
            end
        end
  end.

Definition rebind_severity (rebind_required : bool) (what : string) : string :=
  if rebind_required then
    "a platform-mediated grant was delivered for this run but the post-restore rebind " +:+ what +:+
    "; the workload holds a fresh grant it has not bound, so treat this session as not rebound"
  else "the post-restore hook " +:+ what +:+ "; the instance is running but may not have reconnected".

Definition restore_duties (iid op : string) (epoch : Z) : M unit :=
  let! r := reading (get_instance iid) in
  match ok_flatten r with
  | None => ret tt
  | Some row =>
      let! _ := step op iid "restore.duties" in
      let! c := ask (fun s => g_connect rt s row) in
      match c with
      | Err e =>
          degrade iid op ("restore duties could not run (" +:+ e +:+
            "); the guest keeps the entropy and clock it was snapshotted with, so two restores of this snapshot may draw identical values")
      | Ok _ =>
          let! ent := substrate (read_urandom rt) in
          match ent with
          | Err e => degrade iid op ("could not read host entropy (" +:+ e +:+ "); the guest was not reseeded")
          | Ok entropy =>
              let! d := substrate (fun s => g_restore_duties rt s iid entropy epoch) in
              match d with
              | Err e => degrade iid op ("restore duties failed (" +:+ e +:+ "); the guest was not reseeded")
              | Ok report =>
                  let! _ := if is_empty (rr_degraded report) then ret tt else degrade iid op (rr_degraded report) in
                  let! health := substrate (fun s => g_health rt s iid false) in
                  let! _ := if match health with Ok _ => true | Err _ => false end then ret tt
                            else degrade iid op "the guest stopped answering after its restore duties; its network may not have come back with it" in
                  let! _ := emit_event (restored iid op
                    ("restored: " +:+ pretty (entropy_bytes_mixed report) +:+ " bytes of entropy mixed (credited: " +:+
                     fmt_bool (entropy_credited report) +:+ "), clock drift " +:+ pretty (clock_drift_ms report) +:+
                     " ms" +:+ (if clock_stepped report then " (stepped)" else " (not stepped)"))) in
                  if match hooks (ir_spec row) with
                     | Some h => negb (bool_decide (post_restore_cmd h = []))
                     | None => false
                     end
                  then
                    let! _ := step op iid "hook.post_restore" in
                    let! h := substrate (fun s => g_run_hook rt s iid PostRestore) in
                    match h with
                    | Ok response =>
                        if hr_timed_out response
                        then degrade iid op (rebind_severity (grant_rebound report) "hook timed out")
                        else ret tt
                    | Err e =>
                        degrade iid op (rebind_severity (grant_rebound report) ("hook failed (" +:+ e +:+ ")"))
                    end
                  else ret tt
              end
          end
      end
  end.

(** The loop of [forget_snapshots]. *)
Fixpoint forget_each (iid op : string) (l : list SnapshotRow) : M unit :=
  match l with
  | [] => ret tt
  | s :: l' =>
      let! d := substrate (fun w => rt_delete_snapshot rt w (sr_snapshot_id s)) in
      let! _ :=
        match d with
        | Err e =>
            degrade iid op ("snapshot '" +:+ sr_snapshot_id s +:+
              "' outlived the instance it belonged to: the substrate would not delete it (" +:+ runtime_error_text e +:+
              "), so its journal row was kept and DeleteSnapshot on it is the retry")
        | Ok _ =>
            let! j := journal (fun db => (delete_snapshot (sr_snapshot_id s) db, tt)) in
            match j with
            | Ok _ => ret tt
            | Err e =>
                degrade iid op ("snapshot '" +:+ sr_snapshot_id s +:+
                  "' was deleted from the substrate but its journal row could not be removed (" +:+ e +:+
                  "); this node still lists a snapshot whose bytes are gone")
            end
        end in
      forget_each iid op l'
  end.

Definition forget_snapshots (iid op : string) : M unit :=
  let! r := reading (list_snapshots iid) in
  match r with
  | Err e =>
      degrade iid op ("this instance's snapshots could not be listed (" +:+ e +:+
        "), so none of them were removed with it; they are still in the journal and can be deleted by id")
  | Ok l => forget_each iid op l
  end.
(** * The verbs *)

#[local] Abbreviation outcome := (res OpError unit).

Definition failed (r : res RuntimeError unit) : outcome := res_map_err map_runtime_err r.

(** The instance's row for a verb that needs it, or why there is none. *)
Definition with_row (iid gone unreadable : string) (k : InstanceRow -> M outcome) : M outcome :=
  let! r := reading (get_instance iid) in
  match r with
  | Ok (Some row) => k row
  | Ok None => ret (Err (ErrorReason.Unspecified, gone))
  | Err e => ret (Err (ErrorReason.Unspecified, unreadable +:+ ": " +:+ e))
  end.

Definition run_create (op iid : string) (spec : InstanceSpec) : M outcome :=
  let! _ := step op iid "runtime.create" in
  with_row iid ("instance " +:+ iid +:+ " vanished from the journal before create")
    ("could not read the guest token for " +:+ iid) (fun row =>
    let! r := substrate (fun s => rt_create rt s spec (bootstrap row)) in ret (failed r)).

Definition run_start (op iid : string) : M outcome :=
  let! _ := step op iid "runtime.start" in
  with_row iid ("instance " +:+ iid +:+ " vanished from the journal before start")
    ("could not read the spec for " +:+ iid) (fun row =>
    let! r := substrate (fun s => rt_start rt s iid (ir_spec row) (bootstrap row)) in ret (failed r)).

Definition run_stop (op iid : string) (grace_seconds : Z) : M outcome :=
  let! _ := step op iid "runtime.stop" in
  let! r := substrate (fun s => rt_stop rt s iid grace_seconds) in
  ret (failed r).

Definition run_pause (op iid : string) (require_memory : bool) : M outcome :=
  let! _ := step op iid "hook.pre_snapshot" in
  let! hook := run_pre_snapshot_hook iid op in
  let! _ := step op iid "runtime.pause" in
  let! r := substrate (fun s => rt_pause rt s iid) in
  match r with
  | Err e => ret (Err (map_runtime_err e))
  | Ok snapshot =>
      let kept_memory := bool_decide (ref_kind snapshot = SnapshotKind.MemoryAndDisk) in
      if require_memory && negb kept_memory then
        ret (Err (ErrorReason.CapabilityMissing,
          "require_memory was set but the runtime captured " +:+ quoted (SnapshotKind.as_str_name (ref_kind snapshot)) +:+
          "; the instance's memory was not preserved"))
      else
        let! _ := step op iid "journal.snapshot" in
        let! j := record_snapshot iid snapshot hook empty_str in
        let! _ := match j with
                  | Err e => degrade iid op ("a snapshot was captured but could not be journaled (" +:+ e +:+
                      "); it exists on the substrate and this node will not offer it for resume, so resuming this session will be a cold boot")
                  | Ok _ => ret tt
                  end in
        let! _ := if kept_memory then ret tt
                  else degrade iid op "paused without preserving memory: the runtime captured disk only, so resuming will be a cold boot" in
        ret (Ok tt)
  end.

Definition run_resume (op iid : string) (sid : option string) (require_memory : bool) (execution_epoch : option Z)
    : M outcome :=
  let! _ := step op iid "restore.preconditions" in
  let! (instance, decision) := resolve_restore iid sid require_memory in
  match decision with
  | FromMemory =>
      let! _ := step op iid "runtime.resume" in
      let latest := default empty_str (ir_latest_snapshot_id <$> instance) in
      let target := option_filter (fun s => negb (bool_decide (s = latest))) sid in
      let! r := substrate (fun s => rt_resume rt s iid target) in
      match r with
      | Ok _ => let! _ := restore_duties iid op (default 0 execution_epoch) in ret (Ok tt)
      | Err e => ret (Err (map_runtime_err e))
      end
  | ColdBoot _ why =>
      let! _ := step op iid "restore.cold_boot_fallback" in
      let! _ := degrade iid op ("resuming as a cold boot rather than from memory (" +:+ why +:+
                  "); the instance will start fresh and its in-memory state is gone") in
      match instance with
      | Some row =>
          let! r := substrate (fun s => rt_start rt s iid (ir_spec row) (bootstrap row)) in ret (failed r)
      | None => ret (Err (ErrorReason.Unspecified,
                  "instance " +:+ iid +:+ " vanished from the journal before its cold boot"))
      end
  | Refuse reason why =>
      ret (Err (reason, why +:+ "; require_memory was set, so this was not silently cold-booted"))
  end.

Definition run_create_snapshot (op iid : string) (name : option string) (recorded : IS.t) : M outcome :=
  let froze := bool_decide (recorded = IS.Checkpointing) && negb (live_checkpoint (rt_caps rt)) in
  let! _ := step op iid "hook.pre_snapshot" in
  let! hook := run_pre_snapshot_hook iid op in
  let! _ := if froze then
              let! _ := journal (fun db => (set_op_froze_workload op db, tt)) in
              step op iid "runtime.create_snapshot.frozen"
            else step op iid "runtime.create_snapshot" in
  let! r := substrate (fun s => rt_create_snapshot rt s iid name) in
  match r with
  | Err e => ret (Err (map_runtime_err e))
  | Ok snapshot =>
      let! _ := step op iid "journal.snapshot" in
      let! j := record_snapshot iid snapshot hook (default empty_str name) in
      match j with
      | Ok _ => ret (Ok tt)
      | Err e =>
          let! _ := step op iid "compensate.delete_snapshot" in
          let! u := substrate (fun s => rt_delete_snapshot rt s (ref_snapshot_id snapshot)) in
          let! _ := match u with
                    | Err undo => degrade iid op ("snapshot '" +:+ ref_snapshot_id snapshot +:+
                        "' was captured, could not be journaled (" +:+ e +:+ "), and could not be deleted again (" +:+
                        runtime_error_text undo +:+
                        "); it exists on the substrate, is absent from this node's journal, and has to be removed there")
                    | Ok _ => ret tt
                    end in
          ret (Err (ErrorReason.Unspecified, "the snapshot was captured but could not be journaled (" +:+ e +:+
            "); it was deleted from the substrate again rather than left as an artifact this node cannot describe"))
      end
  end.

Definition run_delete_snapshot (op iid sid : string) : M outcome :=
  let! _ := step op iid "runtime.delete_snapshot" in
  let! r := substrate (fun s => rt_delete_snapshot rt s sid) in
  match r with
  | Err e =>
      let '(reason, message) := map_runtime_err e in
      ret (Err (reason, "deleting snapshot " +:+ sid +:+ ": " +:+ message))
  | Ok _ =>
      let! _ := step op iid "journal.delete_snapshot" in
      let! j := journal (fun db => (delete_snapshot sid db, tt)) in
      match j with
      | Ok _ => ret (Ok tt)
      | Err e =>
          let! _ := degrade iid op ("snapshot '" +:+ sid +:+
            "' was deleted from the substrate but its journal row could not be removed (" +:+ e +:+
            "); this node still lists a snapshot whose bytes are gone — repeat DeleteSnapshot to finish it") in
          ret (Err (ErrorReason.Unspecified, "could not remove the journal row for " +:+ sid +:+ ": " +:+ e))
      end
  end.

Definition run_destroy (op iid : string) (keep_snapshots : bool) : M outcome :=
  let! _ := step op iid "runtime.destroy" in
  let! r := substrate (fun s => rt_destroy rt s iid) in
  match r with
  | Err e => ret (Err (map_runtime_err e))
  | Ok _ =>
      let! _ := if keep_snapshots then ret tt
                else let! _ := step op iid "snapshots.forget" in forget_snapshots iid op in
      ret (Ok tt)
  end.

Definition run_fork (op iid source sid : string) (require_cow : bool) : M outcome :=
  let! _ := step op iid "runtime.fork" in
  with_row iid ("forked target " +:+ iid +:+ " vanished from the journal before its fork")
    ("could not read the target row for " +:+ iid) (fun row =>
    let! r := substrate (fun s => rt_fork rt s source sid (ir_spec row) (bootstrap row) require_cow) in
    match r with
    | Err e => ret (Err (map_runtime_err e))
    | Ok out =>
        let mode := quoted (ForkMode.as_str_name (fork_mode out)) in
        let! _ := journal (fun db => (set_op_fork_mode op (fork_mode out) db, tt)) in
        let! _ := if froze_source out
                  then degrade iid op ("fork used " +:+ mode +:+ ": the source " +:+ source +:+
                    " was frozen while its state was copied. Require CoW to fail closed instead of accepting a freeze")
                  else ret tt in
        let! _ := emit_event (lineage_recorded iid op ("forked from snapshot " +:+ sid +:+ " of " +:+ source +:+
                    " (" +:+ mode +:+ ")")) in
        ret (Ok tt)
    end).

(** The loop of [load_capsule_objects]. *)
Fixpoint load_objects (cid : string) (l : list CapsuleObject) : M (res OpError (list SnapshotObject)) :=
  match l with
  | [] => ret (Ok [])
  | obj :: l' =>
      let! path := fresh_name in
      let! got := on_store (fetch sha256 bucket path (obj_digest obj)) in
      match got with
      | Ok None => ret (Err (ErrorReason.CapsuleVerificationFailed,
          "object " +:+ obj_digest obj +:+ " of capsule " +:+ cid +:+ " is no longer in this node's store"))
      | Err e => ret (Err (ErrorReason.CapsuleVerificationFailed,
          "object " +:+ obj_digest obj +:+ " failed verification: " +:+ e))
      | Ok (Some bytes) =>
          if negb (length_of bytes =? obj_length obj) then
            ret (Err (ErrorReason.CapsuleVerificationFailed,
              "object " +:+ obj_digest obj +:+ " is " +:+ pretty (length_of bytes) +:+ " bytes but capsule " +:+ cid +:+
              " claims " +:+ pretty (obj_length obj)))
          else
            let! rest := load_objects cid l' in
            ret (let? os := rest in
                 Ok ({| so_type := default CapsuleObjectType.Unspecified (CapsuleObjectType.try_from (obj_type obj));
                        so_bytes := bytes |} :: os))
      end
  end.

Definition load_capsule_objects (cid : string) : M (res OpError (list SnapshotObject)) :=
  let! r := reading (get_capsule cid) in
  match r with
  | Ok (Some row) => load_objects cid (cm_objects (cr_manifest row))
  | Ok None => ret (Err (ErrorReason.CapsuleIncompatible, "capsule " +:+ cid +:+
      " is no longer registered on this node; it was deregistered between the request and its execution"))
  | Err e => ret (Err (ErrorReason.Unspecified, "reading capsule " +:+ cid +:+ ": " +:+ e))
  end.

Definition run_restore_capsule (op iid cid sid : string) : M outcome :=
  let! _ := step op iid "capsule.read_objects" in
  let! loaded := load_capsule_objects cid in
  match loaded with
  | Err e => ret (Err e)
  | Ok objs =>
      let! _ := step op iid "runtime.restore_from_objects" in
      with_row iid ("restore target " +:+ iid +:+ " vanished from the journal before its restore")
        ("could not read the target row for " +:+ iid) (fun row =>
        let! r := substrate (fun s => rt_restore_from_objects rt s objs (ir_spec row) (bootstrap row)) in
        match r with
        | Err e => ret (Err (map_runtime_err e))
        | Ok _ =>
            let! _ := emit_event (lineage_recorded iid op ("restored from imported capsule " +:+ cid +:+
                        " (snapshot " +:+ sid +:+ ")")) in
            ret (Ok tt)
        end)
  end.

Definition run_payload (op iid : string) (p : OpPayload) (recorded : IS.t) (execution_epoch : option Z) : M outcome :=
  match p with
  | PCreate spec => run_create op iid spec
  | PStart => run_start op iid
  | PStop grace => run_stop op iid grace
  | PPause m => run_pause op iid m
  | PResume sid m => run_resume op iid sid m execution_epoch
  | PCreateSnapshot name => run_create_snapshot op iid name recorded
  | PDeleteSnapshot sid => run_delete_snapshot op iid sid
  | PDestroy keep => run_destroy op iid keep
  | PFork _ source sid _ cow _ _ => run_fork op iid source sid cow
  | PRestoreCapsule _ cid sid _ => run_restore_capsule op iid cid sid
  end.
(** * The executor *)

Definition takes_epoch (k : OpKind) : bool := bool_decide (k ∈ [KStart; KResume; KFork]).

(** The epoch of the run an operation starts, issued and bound before the runtime is
    called. *)
Definition issue_epoch (kind : OpKind) (iid : string) : M (option Z * option string) :=
  if takes_epoch kind then
    let! r := journal issue_execution_epoch in
    match r with
    | Err e => ret (None, Some ("an execution epoch could not be issued before " +:+ as_str kind +:+ ": " +:+ e))
    | Ok epoch =>
        let! t := now_ms in
        let! b := journal_try (set_instance_epoch iid epoch t) in
        ret match b with
            | Ok _ => (Some epoch, None)
            | Err e => (None, Some ("execution epoch " +:+ pretty epoch +:+ " could not be bound before " +:+
                                    as_str kind +:+ ": " +:+ e))
            end
    end
  else ret (None, None).

Definition stop_reason (kind : OpKind) (iid : string) : M StopReason :=
  let requested := bool_decide (kind = KStop) in
  let! r := ask (fun s => rt_stop_status rt s iid) in
  ret match r with
      | Ok (Some status) => {| requested := requested; exit_code := ss_exit_code status; detail := ss_detail status |}
      | Ok None => {| requested := requested; exit_code := None; detail := empty_str |}
      | Err e => {| requested := requested; exit_code := None;
                    detail := "the substrate could not be asked why it stopped (" +:+ runtime_error_text e +:+ ")" |}
      end.

Definition success_state (kind : OpKind) (recorded : IS.t) : IS.t :=
  if bool_decide (recorded = fst (states kind)) then snd (states kind) else recorded.

(** The state the instance is left in. *)
Definition settled_state (kind : OpKind) (recorded : IS.t) (result : outcome) : IS.t :=
  match result with
  | Ok _ => success_state kind recorded
  | Err _ => if touches_instance_state kind then IS.Failed else success_state kind recorded
  end.

(** A running instance has a fresh deadline, if it has one; any other has none and is
    not ready. *)
Definition final_deadline (iid : string) (settled : IS.t) : M (option Z * bool) :=
  if bool_decide (settled = IS.Running) then
    let! r := reading (get_instance iid) in
    match option_filter (fun row => 0 <? ttl_seconds (ir_spec row)) (ok_flatten r) with
    | Some row => let! t := now_ms in ret (Some (ttl_deadline_ms (ttl_seconds (ir_spec row)) t), false)
    | None => ret (None, false)
    end
  else ret (None, true).

Definition final_stop_reason (kind : OpKind) (iid : string) (st : IS.t) : M (option StopReason) :=
  if bool_decide (st = IS.Stopped) then
    if touches_instance_state kind then let! r := stop_reason kind iid in ret (Some r)
    else let! r := reading (get_instance iid) in ret (ok_flatten r ≫= ir_stop_reason)
  else ret None.

(** What a failure does before it is recorded. *)
Definition compensate (kind : OpKind) (op iid : string) (result : outcome) : M unit :=
  match result with
  | Ok _ => ret tt
  | Err (reason, message) =>
      let! _ := if bool_decide (kind = KCreate) || bool_decide (kind = KFork)
                then let! _ := substrate (fun s => rt_remove_orphan rt s iid) in ret tt
                else ret tt in
      if bool_decide (reason = ErrorReason.SubstrateUnavailable)
      then degrade iid op ("the '" +:+ rt_name rt +:+ "' substrate is not answering (" +:+ message +:+
             "); mutations fail until it returns, and instances already running are unaffected and still reported RUNNING")
      else ret tt
  end.

(** [finish_operation] with its own clock reading. *)
Definition record_outcome (op iid : string) (st : IS.t) (ttl : option Z) (sr : option StopReason) (clear_ready : bool)
    (degraded : string) (result : outcome) : M (res string Finalized) :=
  let! t := now_ms in
  journal_try (finish_operation op iid st ttl sr clear_ready degraded result t).

(** The events of a recorded outcome. *)
Definition announce_outcome (op iid : string) (st : IS.t) (sr : option StopReason) (f : Finalized) : M unit :=
  let! _ := if readiness_changed f then emit_event (ready_changed iid false) else ret tt in
  emit_event (state_changed iid op st sr).

Definition finalize (kind : OpKind) (op iid : string) (recorded : IS.t) (execution_epoch : option Z) (result : outcome)
    : M unit :=
  let! _ := step op iid "finalize" in
  let st := settled_state kind recorded result in
  let! (ttl, clear_ready) := final_deadline iid st in
  let! sr := final_stop_reason kind iid st in
  let! _ := compensate kind op iid result in
  let! degraded := joined in
  let! r := record_outcome op iid st ttl sr clear_ready degraded result in
  match r with
  | Ok f =>
      let! _ := announce_outcome op iid st sr f in
      match result, execution_epoch with
      | Ok _, Some epoch => emit_event (epoch_rotated iid op ("execution epoch " +:+ pretty epoch +:+
          " issued for this run; grants bound to an earlier epoch are revoked"))
      | _, _ => ret tt
      end
  | Err e =>
      emit_event (degradation iid op ("the journal could not record this operation's outcome (" +:+ e +:+
        "); the runtime acted but the node cannot describe it, so the operation is left in flight for crash recovery"))
  end.

(** The path of an operation whose epoch could not be bound: the runtime is not called. *)
Definition fail_closed (op iid message : string) : M unit :=
  let! _ := step op iid "finalize" in
  let! r := record_outcome op iid IS.Failed None None true empty_str (Err (ErrorReason.Unspecified, message)) in
  match r with
  | Ok f => announce_outcome op iid IS.Failed None f
  | Err _ => ret tt
  end.

Definition execute (kind : OpKind) (op iid : string) (payload : OpPayload) (recorded : IS.t) : M unit :=
  let! (execution_epoch, epoch_error) := issue_epoch kind iid in
  let! _ := (fun w => (w <| w_degraded := [] |>, tt)) in
  match epoch_error with
  | Some message => fail_closed op iid message
  | None =>
      let! result := run_payload op iid payload recorded execution_epoch in
      finalize kind op iid recorded execution_epoch result
  end.

(** * Moving a running operation *)

Definition await_input (op : OperationRow) (prompt : string) : M (res string unit) :=
  let! r := journal_try (await_op_input (op_id op) prompt) in
  match r with
  | Err e => ret (Err e)
  | Ok _ => let! _ := emit_event (op_progress (op_instance_id op) (op_id op) ("awaiting input: " +:+ prompt)) in ret (Ok tt)
  end.

Definition resume_with_input (op : OperationRow) (name : string) : M (res string unit) :=
  let! r := journal_try (resume_op_from_input (op_id op) name) in
  match r with
  | Err e => ret (Err e)
  | Ok _ => let! _ := emit_event (op_progress (op_instance_id op) (op_id op) ("input received: " +:+ name)) in ret (Ok tt)
  end.

Definition cancel (op : OperationRow) (reason : string) : M (res string unit) :=
  let! t := now_ms in
  let! r := journal_try (finish_op_canceled (op_id op) reason t) in
  match r with
  | Err e => ret (Err e)
  | Ok _ => let! _ := emit_event (op_progress (op_instance_id op) (op_id op) ("canceled: " +:+ reason)) in ret (Ok tt)
  end.

(** * Submission *)

(** [new_guest_token]: 32 bytes of host entropy in hexadecimal. *)
Definition new_guest_token : M (res SubmitError string) :=
  let! r := substrate (read_urandom rt) in
  ret match r with
      | Ok bytes => Ok (text_of (to_lower bytes))
      | Err e => Err (internal ("reading /dev/urandom: " +:+ e))
      end.

Definition payload_spec (p : OpPayload) : option InstanceSpec :=
  match p with
  | PCreate spec | PFork spec _ _ _ _ _ _ | PRestoreCapsule spec _ _ _ => Some spec
  | _ => None
  end.

Definition payload_lineage (p : OpPayload) : option Lineage :=
  match p with PFork _ _ _ l _ _ _ | PRestoreCapsule _ _ _ l => Some l | _ => None end.

Definition payload_token (p : OpPayload) : M (res SubmitError string) :=
  match p with
  | PFork _ _ _ _ _ token _ => ret (Ok token)
  | PCreate _ | PRestoreCapsule _ _ _ _ => new_guest_token
  | _ => ret (Ok empty_str)
  end.

Definition mint_identity (p : OpPayload) (iid : string) : res string (option Identity) :=
  match p with
  | PFork _ _ _ _ _ _ (Some identity) => Ok (Some identity)
  | _ => if rt_network_reachable rt then let? i := mint iid in Ok (Some i) else Ok None
  end.

(** The refusals that come before anything is journaled. *)
Definition refused_early (iid : string) (p : OpPayload) : M (option SubmitError) :=
  match p with
  | PResume sid true =>
      let! (instance, decision) := resolve_restore iid sid true in
      ret match instance, decision with
          | Some _, Refuse reason why => Some (mkSubmitError reason (why +:+
              "; require_memory was set, so this resume was refused rather than silently cold-booted. The instance keeps its current state — retry without require_memory to accept a cold boot"))
          | _, _ => None
          end
  | PCreateSnapshot (Some name) =>
      let! r := reading (snapshot_named iid name) in
      ret match ok_flatten r with
          | Some existing => Some (mkSubmitError ErrorReason.SnapshotNameConflict (iid +:+
              " already has a snapshot named '" +:+ name +:+ "' (" +:+ sr_snapshot_id existing +:+
              "); names are unique per instance, so choose another name or delete that snapshot first"))
          | None => None
          end
  | _ => ret None
  end.

(** A replay has to repeat the original request. *)
Definition check_replay (op original : OperationRow) (p : OpPayload) : M (res SubmitError Claimed) :=
  if negb (bool_decide (op_kind original = op_kind op)) ||
     negb (bool_decide (op_instance_id original = op_instance_id op)) ||
     negb (bool_decide (op_payload original = op_payload op)) then
    ret (Err (mkSubmitError ErrorReason.InvalidSpec ("idempotency_key was already used for " +:+
      describe (op_kind original) (op_payload original) +:+ " on " +:+ op_instance_id original +:+
      "; it cannot be reused for " +:+ describe (op_kind op) (op_payload op) +:+ " on " +:+ op_instance_id op)))
  else
    match p with
    | PCreate spec =>
        let! r := reading (get_instance (op_instance_id op)) in
        ret match r with
            | Ok (Some row) =>
                if negb (bool_decide (ir_spec row = spec)) then
                  Err (mkSubmitError ErrorReason.InvalidSpec ("idempotency_key was already used to create " +:+
                    op_instance_id op +:+ " with a different spec; a replay must repeat the original request"))
                else Ok (Submitted original)
            | Ok None => Ok (Submitted original)
            | Err e => Err (internal e)
            end
    | _ => ret (Ok (Submitted original))
    end.

(** The journaling step: one transaction over the idempotency key, the deadline claim,
    the operation and the instance. *)
Definition submit_journal (kind : OpKind) (op : OperationRow) (key : string) (p : OpPayload) (token : string)
    (claim : option Claim) : M (res string Submission) :=
  let transitional := fst (states kind) in
  let! claim_now := now_ms in
  let! t := now_ms in
  journal_try (submit_atomically (mint_identity p) (plan_transition kind transitional)
    op key transitional (payload_spec p) (rt_name rt) token claim (payload_lineage p) claim_now t).

Definition submitted_row (kind : OpKind) (iid id : string) (p : OpPayload) (created : Z) : OperationRow :=
  mkOperationRow id (as_str kind) iid (payload_descriptor p) Op.Queued empty_str
    ErrorReason.Unspecified empty_str empty_str created None false ForkMode.Unspecified.

(** [submit_claiming]; the second component is the executor it spawns, as the state
    recorded for the instance. [announce] is the caller's closure: every caller's only
    records events about the operation just journaled. *)
Definition submit_claiming (kind : OpKind) (iid key : string) (p : OpPayload) (claim : option Claim)
    (announce : string -> list Event) : M (res SubmitError Claimed * option (OperationRow * IS.t)) :=
  if is_empty key then ret (Err (mkSubmitError ErrorReason.InvalidSpec "idempotency_key is required"), None)
  else
    let transitional := fst (states kind) in
    let! tok := payload_token p in
    match tok with
    | Err e => ret (Err e, None)
    | Ok token =>
        let! id := fresh_name in
        let! created := now_ms in
        let op := submitted_row kind iid id p created in
        let! early := refused_early iid p in
        match early with
        | Some e => ret (Err e, None)
        | None =>
            let! r := submit_journal kind op key p token claim in
            match r with
            | Err e => ret (Err (internal e), None)
            | Ok (Replay original) => let! c := check_replay op original p in ret (c, None)
            | Ok Conflict => ret (Err (mkSubmitError ErrorReason.ConcurrentOperation
                ("an operation is already in flight for " +:+ iid)), None)
            | Ok (Rejected message) => ret (Err (mkSubmitError ErrorReason.InvalidSpec message), None)
            | Ok ClaimSuperseded => ret (Ok Superseded, None)
            | Ok (Journaled recorded) =>
                let! _ := emit_events (announce id) in
                let! _ := if bool_decide (recorded = transitional)
                          then emit_event (state_changed iid id transitional None) else ret tt in
                ret (Ok (Submitted op), Some (op, recorded))
            end
        end
    end.

Definition submit (kind : OpKind) (iid key : string) (p : OpPayload)
    : M (res SubmitError OperationRow * option (OperationRow * IS.t)) :=
  let! (r, spawned) := submit_claiming kind iid key p None (fun _ => []) in
  ret (match r with
       | Ok (Submitted op) => Ok op
       | Ok Superseded => Err (mkSubmitError ErrorReason.ConcurrentOperation "a claimless submission cannot be superseded")
       | Err e => Err e
       end, spawned).
(** * Crash recovery *)

(** [set_instance_state(..)?] and the event that follows it. *)
Definition settle (iid : string) (st : IS.t) : M (res string unit) :=
  let! t := now_ms in
  let! r := journal (fun db => (set_instance_state iid st t db, tt)) in
  match r with
  | Err e => ret (Err e)
  | Ok _ => let! _ := emit_event (state_changed iid empty_str st None) in ret (Ok tt)
  end.

(** One turn of the second loop. *)
Definition recover_instance (row : InstanceRow) : M (res string unit) :=
  let iid := ir_id row in
  match ir_state row with
  | IS.Stopping =>
      let! r := substrate (fun s => rt_stop rt s iid 0) in
      match r with
      | Ok _ => settle iid IS.Stopped
      | Err e =>
          let! _ := emit_event (degradation iid empty_str ("crash recovery could not stop the sandbox (" +:+
            runtime_error_text e +:+ "); recorded FAILED rather than STOPPED so the sandbox stays reapable")) in
          settle iid IS.Failed
      end
  | IS.Checkpointing =>
      let! r := settle iid IS.Running in
      match r with
      | Err e => ret (Err e)
      | Ok _ =>
          let! _ := emit_event (degradation iid empty_str
            "the node restarted while a snapshot of this instance was being captured; the instance itself is untouched and is RUNNING again, but whether the snapshot was written is unknown — it is not in the journal, so this node will not offer it for resume, and any leftover on the substrate has to be removed there") in
          ret (Ok tt)
      end
  | IS.Destroying =>
      let! _ := substrate (fun s => rt_remove_orphan rt s iid) in
      settle iid IS.Destroyed
  | _ =>
      let! _ := substrate (fun s => rt_remove_orphan rt s iid) in
      settle iid IS.Failed
  end.

Fixpoint recover_instances (l : list InstanceRow) : M (res string unit) :=
  match l with
  | [] => ret (Ok tt)
  | row :: l' =>
      let! r := recover_instance row in
      match r with Err e => ret (Err e) | Ok _ => recover_instances l' end
  end.

Fixpoint recover_events (l : list OperationRow) : M unit :=
  match l with
  | [] => ret tt
  | op :: l' =>
      let! _ := emit_event (op_progress (op_instance_id op) (op_id op) "failed by crash recovery") in
      recover_events l'
  end.

(** The instances whose sandbox is theirs to keep. *)
Definition known_ids (l : list InstanceRow) : list string :=
  ir_id <$> filter (fun r => is_terminal (ir_state r) = false) l.

Fixpoint remove_orphans (known : list string) (l : list string) : M unit :=
  match l with
  | [] => ret tt
  | iid :: l' =>
      let! _ := if bool_decide (iid ∈ known) then ret tt
                else let! _ := substrate (fun s => rt_remove_orphan rt s iid) in ret tt in
      remove_orphans known l'
  end.

(** The zero-orphan sweep that ends [recover]. *)
Definition sweep_orphans : M (res string unit) :=
  let! all := reading list_instances in
  match all with
  | Err e => ret (Err e)
  | Ok l =>
      let! labeled := ask (rt_list_labeled rt) in
      let! _ := match labeled with
                | Ok ids => remove_orphans (known_ids l) ids
                | Err e => emit_event (degradation empty_str empty_str
                    ("the zero-orphan sweep could not enumerate the '" +:+ rt_name rt +:+ "' substrate (" +:+
                     runtime_error_text e +:+ "); no sandbox was removed, and the sweep retries on the next start"))
                end in
      ret (Ok tt)
  end.

(** [recover]; [failed_at] are the clock readings [fail_inflight_ops] makes. *)
Definition recover (failed_at : string -> Z) : M (res string unit) :=
  let! f := journal (fail_inflight_ops "node agent restarted mid-operation" failed_at) in
  match f with
  | Err e => ret (Err e)
  | Ok ops =>
      let! _ := recover_events ops in
      let! tr := reading transitional_instances in
      match tr with
      | Err e => ret (Err e)
      | Ok rows =>
          let! done := recover_instances rows in
          match done with
          | Err e => ret (Err e)
          | Ok _ => sweep_orphans
          end
      end
  end.
End Ops.
