(* ===== verification/Executor.v ===== *)
(** What the executor, submission and crash recovery of [Ops] guarantee, whatever the
    substrate answers and, where it is said, whichever journal calls fail. *)

From S2P Require Import Prelude Proto StateMachine Journal Events Operations Capsules Codec Restore Objects Runtime Ops.

(** * Computations that stay within a relation *)

Section Keeps.
Context {W R : Type} (Rel : relation (World W R)) `{!PreOrder Rel}.

Definition keeps {A} (m : M W R A) : Prop := forall w, Rel w (fst (m w)).

Lemma keeps_ret {A} (a : A) : keeps (ret a).
Proof. intros w. reflexivity. Qed.

Lemma keeps_bind {A B} (m : M W R A) (k : A -> M W R B) :
  keeps m -> (forall a, keeps (k a)) -> keeps (bind m k).
Proof.
  intros Hm Hk w. unfold bind. specialize (Hm w). destruct (m w) as [w' a]. etransitivity; [exact Hm|apply Hk].
Qed.
End Keeps.
#[global] Typeclasses Opaque keeps.

Lemma bind_eq {W R A B} (m : M W R A) (k : A -> M W R B) w w' a :
  m w = (w', a) -> bind m k w = k a w'.
Proof. unfold bind. by intros ->. Qed.

(** Run the first computation of the sequence the goal is about. *)
Tactic Notation "run_bind" simple_intropattern(p) "eqn" ident(E) :=
  match goal with |- context [@bind ?W ?R ?A ?B ?m ?k ?w] =>
    destruct (m w) as p eqn:E; rewrite (@bind_eq W R A B m k _ _ _ E) end.

(** Take a computation apart into its primitives and close those the hints know. *)
Ltac keeps_tac :=
  repeat first
    [ progress eauto with keeps typeclass_instances
    | apply keeps_ret; [apply _]
    | apply keeps_bind; [apply _|..|intros ?]
    | lazymatch goal with
      | |- keeps _ (match ?x with _ => _ end) => destruct x
      | |- keeps _ (let '(_, _) := ?x in _) => destruct x
      end ].

Create HintDb keeps.
Create HintDb frame.

(** A preorder on journals that recording an event stays within. *)
Class DbRel (D : relation Db) := {
  dbrel_preorder :: PreOrder D;
  dbrel_record ev t d : D d (record ev t d) }.

Definition on_db {W R} (D : relation Db) : relation (World W R) := fun w w' => D (w_db w) (w_db w').
#[global] Instance on_db_preorder {W R} D `{!DbRel D} : PreOrder (@on_db W R D).
Proof. split; [intros w|intros a b c]; unfold on_db; [reflexivity|apply transitivity]. Qed.

Section OnDb.
Context {W R : Type} (clock : nat -> Z) (faults : nat -> option string) (names : nat -> string).
Context (D : relation Db) `{!DbRel D}.
#[local] Abbreviation keeps m := (@keeps W R (on_db D) _ m).

Lemma keeps_journal {A} (f : Db -> Db * A) : (forall d, D d (fst (f d))) -> keeps (journal faults f).
Proof.
  intros Hf w. unfold journal, on_db. destruct (faults _); simpl; [reflexivity|]. specialize (Hf (w_db w)).
  destruct (f (w_db w)). exact Hf.
Qed.

Lemma keeps_journal_try {A} (f : Db -> Db * res string A) :
  (forall d, D d (fst (f d))) -> keeps (journal_try faults f).
Proof. intros Hf. apply keeps_bind; [apply _|by apply keeps_journal|]. intros r. apply keeps_ret. apply _. Qed.

Lemma keeps_reading {A} (f : Db -> A) : keeps (reading faults f).
Proof. apply keeps_journal. intros d. reflexivity. Qed.

Lemma keeps_substrate {A} (f : W -> W * A) : keeps (substrate f).
Proof. intros w. unfold substrate, on_db. destruct (f _). simpl. reflexivity. Qed.

Lemma keeps_on_store {A} (f : ObjectStore R -> ObjectStore R * A) : keeps (on_store f).
Proof. intros w. unfold on_store, on_db. destruct (f _). simpl. reflexivity. Qed.

Lemma keeps_now : keeps (now_ms clock).
Proof. intros w. unfold on_db. simpl. reflexivity. Qed.
Lemma keeps_fresh : keeps (fresh_name names).
Proof. intros w. unfold on_db. simpl. reflexivity. Qed.
Lemma keeps_joined : keeps joined.
Proof. intros w. unfold on_db. simpl. reflexivity. Qed.
Lemma keeps_degraded f : keeps (fun w : World W R => (w <| w_degraded := f w |>, tt)).
Proof. intros w. unfold on_db. simpl. reflexivity. Qed.

Lemma keeps_emit ev : keeps (emit_event clock faults ev).
Proof.
  unfold emit_event. apply keeps_bind; [apply _|apply keeps_now|]. intros t. apply keeps_bind; [apply _| |].
  - apply keeps_journal. intros d. apply dbrel_record.
  - intros []; apply keeps_ret; apply _.
Qed.

Lemma keeps_degrade iid op msg : keeps (degrade clock faults iid op msg).
Proof. unfold degrade. apply keeps_bind; [apply _|apply keeps_emit|]. intros []. apply keeps_degraded. Qed.

Lemma keeps_emits l : keeps (emit_events clock faults l).
Proof.
  induction l as [|ev l IH]; simpl; [by apply keeps_ret; apply _|].
  apply keeps_bind; [apply _|apply keeps_emit|]. by intros [].
Qed.
End OnDb.
#[global] Hint Resolve keeps_emits keeps_reading keeps_substrate keeps_on_store keeps_now keeps_fresh keeps_joined keeps_degraded
  keeps_emit keeps_degrade : keeps.
#[global] Hint Extern 2 (keeps _ (journal _ _)) => apply keeps_journal; [apply _|intros ?; simpl; by eauto with frame] : keeps.
#[global] Hint Extern 2 (keeps _ (journal_try _ _)) => apply keeps_journal_try; [apply _|intros ?; simpl; by eauto with frame] : keeps.

(** * The frame of an executor

    Between the submission of an operation and the recording of its outcome, an
    executor moves nothing but its own operation, and that one not out of flight. *)

Record framed (k : string) (d d' : Db) : Prop := {
  fr_others j : j <> k -> operations d' !! j = operations d !! j;
  fr_own o : operations d !! k = Some o -> exists o', operations d' !! k = Some o' /\
    o_kind o' = o_kind o /\ o_instance_id o' = o_instance_id o /\ o_payload o' = o_payload o /\
    o_idempotency_key o' = o_idempotency_key o /\
    o_executor_active o' = o_executor_active o /\
    op_is_in_flight (o_state o') = op_is_in_flight (o_state o) /\
    (op_is_in_flight (o_state o) = false -> o_state o' = o_state o);
  fr_states j : i_state <$> instances d' !! j = i_state <$> instances d !! j }.

#[global] Instance framed_preorder k : PreOrder (framed k).
Proof.
  split.
  - intros d. split; [done| |done]. intros o Ho. exists o. split_and!; auto.
  - intros a b c [Ho1 Hk1 Hi1] [Ho2 Hk2 Hi2]. split.
    + intros j Hj. by rewrite Ho2, Ho1.
    + intros o (o1 & H1 & ? & ? & ? & ? & ? & Hf1 & Hs1)%Hk1.
      destruct (Hk2 _ H1) as (o2 & ? & ? & ? & ? & ? & ? & Hf2 & Hs2).
      exists o2. split_and!; try congruence. intros Hf. rewrite Hs2, Hs1; congruence.
    + intros j. by rewrite Hi2, Hi1.
Qed.

Lemma framed_same k d d' : operations d' = operations d -> instances d' = instances d -> framed k d d'.
Proof. intros E1 E2. split; rewrite ?E1, ?E2; try done. intros o Ho. exists o. split_and!; auto. Qed.

Lemma framed_update_op k p f d :
  (forall o, o_kind (f o) = o_kind o /\ o_instance_id (f o) = o_instance_id o /\ o_payload (f o) = o_payload o /\
     o_idempotency_key (f o) = o_idempotency_key o /\ o_executor_active (f o) = o_executor_active o) ->
  (forall o, p o = true -> op_is_in_flight (o_state (f o)) = op_is_in_flight (o_state o) /\
     (op_is_in_flight (o_state o) = false -> o_state (f o) = o_state o)) ->
  framed k d (fst (update_op p f k d)).
Proof.
  intros Hf Hp. destruct (update_op p f k d) as [d' []] eqn:E; simpl.
  - apply update_op_true in E as (o & Ho & Hpo & ->). split; simpl; [| |done].
    + intros j Hj. by rewrite lookup_insert_ne by done.
    + intros o1 Ho1. assert (o1 = o) as -> by congruence. exists (f o). rewrite lookup_insert_eq.
      destruct (Hf o) as (?&?&?&?&?), (Hp _ Hpo).
      split_and!; auto.
  - replace d' with d; [reflexivity|]. unfold update_op in E. destruct (update_where _ _ _ _) as [m b] eqn:E'.
    destruct (update_where_lookup _ _ _ _ _ _ E') as [(-> & _)|(-> & -> & _)]; simplify_eq. by destruct d.
Qed.

Lemma framed_update_instance k f iid d :
  (forall i, i_state (f i) = i_state i) ->
  framed k d (d <| instances := update f iid (instances d) |>).
Proof.
  intros Hf. split; simpl; [done|intros o Ho; exists o; split_and!; auto|].
  intros j. rewrite update_lookup. case_decide; [|done]. destruct (instances d !! j); simpl; [|done]. by rewrite Hf.
Qed.

Lemma framed_set_op_step k name d : framed k d (set_op_step k name d).
Proof.
  apply framed_update_op; [done|]. intros o Ho. rewrite state_in_flight in Ho. simpl. by rewrite Ho.
Qed.

Lemma framed_froze k d : framed k d (set_op_froze_workload k d).
Proof. by apply framed_update_op. Qed.

Lemma framed_fork_mode k m d : framed k d (set_op_fork_mode k m d).
Proof. by apply framed_update_op. Qed.

Lemma framed_delete_snapshot k sid d : framed k d (delete_snapshot sid d).
Proof.
  split; simpl; [done|intros o Ho; exists o; split_and!; auto|]. intros j. rewrite lookup_fmap.
  destruct (instances d !! j); simpl; [|done]. by case_decide.
Qed.

Lemma framed_insert_snapshot k row t d : framed k d (insert_snapshot row t d).
Proof.
  split; simpl; [done|intros o Ho; exists o; split_and!; auto|]. intros j. rewrite update_lookup.
  case_decide; [|done]. by destruct (instances d !! j).
Qed.

Lemma framed_set_instance_epoch k iid e t d : framed k d (fst (set_instance_epoch iid e t d)).
Proof.
  unfold set_instance_epoch. destruct (update_where _ _ _ _) as [m b] eqn:E. destruct b; simpl; [|reflexivity].
  replace m with (update (fun i => i <| i_execution_epoch := as_i64 e |> <| i_updated_at_ms := t |>) iid (instances d))
    by (unfold update; by rewrite E).
  by apply framed_update_instance.
Qed.

#[global] Instance framed_DbRel k : DbRel (framed k).
Proof. split; [apply _|]. intros ev t d. by apply framed_same. Qed.

#[global] Hint Resolve framed_set_op_step framed_froze framed_fork_mode framed_delete_snapshot framed_insert_snapshot framed_set_instance_epoch
  framed_same : frame.

Section Frame.
Context {W R : Type} (rt : Runtime W) (bucket : Bucket R) (sha256 : list Z -> list Z).
Context (node_cpu_class : string) (clock : nat -> Z) (faults : nat -> option string) (names : nat -> string).
Context (k : string).
#[local] Abbreviation keeps m := (@keeps W R (on_db (framed k)) _ m).

Lemma frame_step iid name : keeps (step clock faults k iid name).
Proof. unfold step. keeps_tac. Qed.
#[local] Hint Resolve frame_step : keeps.

Lemma frame_record_snapshot iid s h n : keeps (record_snapshot rt sha256 node_cpu_class clock faults iid s h n).
Proof. unfold record_snapshot. keeps_tac. Qed.
#[local] Hint Resolve frame_record_snapshot : keeps.

Lemma frame_resolve iid sid m : keeps (resolve_restore rt sha256 node_cpu_class faults iid sid m).
Proof. unfold resolve_restore. keeps_tac. Qed.
#[local] Hint Resolve frame_resolve : keeps.

Lemma frame_hook iid : keeps (run_pre_snapshot_hook rt clock faults iid k).
Proof. unfold run_pre_snapshot_hook. keeps_tac. Qed.
#[local] Hint Resolve frame_hook : keeps.

Lemma frame_duties iid e : keeps (restore_duties rt clock faults iid k e).
Proof. unfold restore_duties. keeps_tac. Qed.
#[local] Hint Resolve frame_duties : keeps.

Lemma frame_forget_each iid l : keeps (forget_each rt clock faults iid k l).
Proof. induction l; simpl; keeps_tac. Qed.
#[local] Hint Resolve frame_forget_each : keeps.

Lemma frame_load_objects cid l : keeps (load_objects bucket sha256 names cid l).
Proof. induction l; simpl; keeps_tac. Qed.
#[local] Hint Resolve frame_load_objects : keeps.

Lemma frame_with_row iid a b f : (forall row, keeps (f row)) -> keeps (with_row faults iid a b f).
Proof. intros Hf. unfold with_row. keeps_tac. Qed.
#[local] Hint Resolve frame_with_row : keeps.

(** Every verb runs within the frame. *)
Lemma frame_run_payload iid p recorded e :
  keeps (run_payload rt bucket sha256 node_cpu_class clock faults names k iid p recorded e).
Proof.
  destruct p; simpl; unfold run_create, run_start, run_stop, run_pause, run_resume, run_create_snapshot,
    run_delete_snapshot, run_destroy, run_fork, run_restore_capsule, forget_snapshots, load_capsule_objects; keeps_tac.
Qed.

Lemma frame_issue_epoch kind iid : keeps (issue_epoch clock faults kind iid).
Proof. unfold issue_epoch. keeps_tac. Qed.

Lemma frame_final_deadline iid st : keeps (final_deadline clock faults iid st).
Proof. unfold final_deadline. keeps_tac. Qed.

Lemma frame_final_stop_reason kind iid st : keeps (final_stop_reason rt faults kind iid st).
Proof. unfold final_stop_reason, stop_reason. keeps_tac. Qed.

Lemma frame_compensate kind iid r : keeps (compensate rt clock faults kind k iid r).
Proof. unfold compensate. keeps_tac. Qed.

Lemma frame_announce op iid st sr f : keeps (announce_outcome clock faults op iid st sr f).
Proof. unfold announce_outcome. keeps_tac. Qed.
End Frame.

(** * Running an operation *)

Section Execute.
Context {W R : Type} (rt : Runtime W) (bucket : Bucket R) (sha256 : list Z -> list Z).
Context (node_cpu_class : string) (clock : nat -> Z) (faults : nat -> option string) (names : nat -> string).
#[local] Abbreviation execute := (execute rt bucket sha256 node_cpu_class clock faults names).
#[local] Abbreviation record_outcome := (@record_outcome W R clock faults).

(** An executor is a prefix in the frame, one recording of one outcome, and a suffix in
    the frame. *)
Lemma execute_decompose kind op iid p recorded (w : World W R) :
  exists w1 w2 out ttl sr cr degr r,
    on_db (framed op) w w1 /\
    record_outcome op iid (settled_state kind recorded out) ttl sr cr degr out w1 = (w2, r) /\
    on_db (framed op) w2 (fst (execute kind op iid p recorded w)).
Proof.
  unfold Ops.execute. pose proof (frame_issue_epoch clock faults op kind iid w) as H0.
  destruct (issue_epoch clock faults kind iid w) as [w0 [epoch err]] eqn:E0.
  rewrite (bind_eq _ _ _ _ _ E0). set (w0' := w0 <| w_degraded := [] |>).
  rewrite (bind_eq _ _ w0 w0' tt) by done. destruct err as [msg|].
  - assert (touches_instance_state kind = true) as Ht.
    { revert E0. unfold issue_epoch, takes_epoch. by destruct kind. }
    unfold fail_closed. pose proof (frame_step clock faults op iid "finalize" w0') as H1.
    destruct (step _ _ op iid "finalize" w0') as [w1 []] eqn:E1. rewrite (bind_eq _ _ _ _ _ E1).
    destruct (record_outcome op iid IS.Failed None None true empty_str (Err (ErrorReason.Unspecified, msg)) w1)
      as [w2 r] eqn:E2.
    rewrite (bind_eq _ _ _ _ _ E2). exists w1, w2, (Err (ErrorReason.Unspecified, msg)). do 5 eexists. split_and!.
    + by transitivity w0.
    + simpl. rewrite Ht. exact E2.
    + destruct r; [apply frame_announce|reflexivity].
  - pose proof (frame_run_payload rt bucket sha256 node_cpu_class clock faults names op iid p recorded epoch w0') as H1.
    destruct (run_payload _ _ _ _ _ _ _ op iid p recorded epoch w0') as [w1 out] eqn:E1. rewrite (bind_eq _ _ _ _ _ E1).
    unfold finalize. pose proof (frame_step clock faults op iid "finalize" w1) as H2.
    destruct (step _ _ op iid "finalize" w1) as [w2 []] eqn:E2. rewrite (bind_eq _ _ _ _ _ E2).
    set (st := settled_state kind recorded out). cbv zeta.
    pose proof (frame_final_deadline clock faults op iid st w2) as H3.
    destruct (final_deadline _ _ iid st w2) as [w3 [ttl cr]] eqn:E3. rewrite (bind_eq _ _ _ _ _ E3).
    pose proof (frame_final_stop_reason rt faults op kind iid st w3) as H4.
    destruct (final_stop_reason _ _ kind iid st w3) as [w4 sr] eqn:E4. rewrite (bind_eq _ _ _ _ _ E4).
    pose proof (frame_compensate rt clock faults op kind iid out w4) as H5.
    destruct (compensate _ _ _ kind op iid out w4) as [w5 []] eqn:E5. rewrite (bind_eq _ _ _ _ _ E5).
    rewrite (bind_eq joined _ w5 w5 (join "; " (w_degraded w5))) by done.
    destruct (record_outcome op iid st ttl sr cr (join "; " (w_degraded w5)) out w5) as [w6 r] eqn:E6.
    rewrite (bind_eq _ _ _ _ _ E6). exists w5, w6, out. do 5 eexists. split_and!; [|exact E6|].
    + simpl in *. repeat (etransitivity; [eassumption|]). done.
    + destruct r.
      * apply (keeps_bind (on_db (framed op))); [apply frame_announce|]. intros []. destruct out, epoch; keeps_tac.
      * apply (keeps_emit clock faults (framed op)).
Qed.

Lemma finish_operation_in_flight k iid st ttl sr cr degr out now db o :
  operations db !! k = Some o -> op_is_in_flight (o_state o) = true ->
  exists db' f, finish_operation k iid st ttl sr cr degr out now db = (db', Ok f) /\ outcome_recorded f = true.
Proof.
  intros Ho Hf. unfold finish_operation, update_op, update_where. simpl. rewrite Ho, state_in_flight, Hf. eauto.
Qed.

(** Recording an outcome is [finish_operation], or nothing. *)
Lemma record_outcome_spec op iid st ttl sr cr degr out (w w' : World W R) r :
  record_outcome op iid st ttl sr cr degr out w = (w', r) ->
  match r with
  | Ok f => exists t, finish_operation op iid st ttl sr cr degr out t (w_db w) = (w_db w', Ok f)
  | Err _ => w_db w' = w_db w /\
      ((forall n, faults n = None) -> forall o, operations (w_db w) !! op = Some o -> op_is_in_flight (o_state o) = false)
  end.
Proof.
  unfold Ops.record_outcome, journal_try, journal, now_ms, bind, ret. simpl.
  destruct (faults (w_calls w)) as [e|] eqn:Ef; [intros [= <- <-]; split; [done|congruence]|].
  destruct (finish_operation _ _ _ _ _ _ _ _ _ _) as [d' [f|e]] eqn:E; intros [= <- <-]; simpl; [eauto|]. split.
  - revert E. unfold finish_operation. destruct (update_op _ _ _ _) as [? []]; [done|].
    destruct (negb (bool_decide _)); [congruence|]. destruct (negb _); [congruence|done].
  - intros _ o Ho. destruct (op_is_in_flight (o_state o)) eqn:Hf; [|done].
    destruct (finish_operation_in_flight op iid st ttl sr cr degr out (clock (w_ticks w)) _ _ Ho Hf) as (? & ? & E' & _).
    congruence.
Qed.

(** The outcome and the instance's state, recorded together. *)
Definition settled_together (kind : OpKind) (recorded : IS.t) (iid : string) (o o' : OpCols) (d d' : Db) : Prop :=
  o_executor_active o' = false /\
  exists out : res OpError unit,
    (if op_is_in_flight (o_state o)
     then o_state o' = match out with Ok _ => Op.Done | Err _ => Op.Failed end
     else o_state o = Op.Canceled /\ o_state o' = Op.Canceled) /\
    i_state <$> instances d' !! iid = (fun _ => settled_state kind recorded out) <$> instances d !! iid /\
    forall j, j <> iid -> i_state <$> instances d' !! j = i_state <$> instances d !! j.

(** Neither recorded. *)
Definition left_for_recovery (o o' : OpCols) (d d' : Db) : Prop :=
  o_executor_active o' = o_executor_active o /\
  op_is_in_flight (o_state o') = op_is_in_flight (o_state o) /\
  forall j, i_state <$> instances d' !! j = i_state <$> instances d !! j.

(** What [finish_operation] does to the states. *)
Lemma finish_settles kind recorded out k iid ttl sr cr degr now d d' f o :
  operations d !! k = Some o ->
  finish_operation k iid (settled_state kind recorded out) ttl sr cr degr out now d = (d', Ok f) ->
  exists o', operations d' = <[k := o']> (operations d) /\ settled_together kind recorded iid o o' d d' /\
    o_kind o' = o_kind o /\ o_instance_id o' = o_instance_id o /\ o_payload o' = o_payload o.
Proof.
  intros Ho (Hi & o1 & Ho1 & Hc)%finish_operation_Ok. assert (o1 = o) as -> by congruence.
  assert (forall j, i_state <$> instances d' !! j =
    if decide (j = iid) then (fun _ => settled_state kind recorded out) <$> instances d !! j
    else i_state <$> instances d !! j) as Hs.
  { intros j. rewrite Hi, update_lookup. case_decide; [|done]. by destruct (instances d !! j). }
  assert (i_state <$> instances d' !! iid = (fun _ => settled_state kind recorded out) <$> instances d !! iid /\
    forall j, j <> iid -> i_state <$> instances d' !! j = i_state <$> instances d !! j) as Hst.
  { split; [by rewrite Hs, decide_True|]. intros j Hj. by rewrite Hs, decide_False. }
  destruct Hc as [(_ & Hf & ->)|(_ & Hc & -> & _)]; eexists; (split; [reflexivity|]); unfold settled_together.
  - split; [|by destruct out as [|[]]]. split; [by destruct out as [|[]]|]. exists out. rewrite Hf.
    split; [|done]. by destruct out as [|[]].
  - split; [|done]. split; [done|]. exists out. by rewrite Hc.
Qed.

End Execute.

(** * Submitting an operation *)

(** The tables an operation lives in, untouched. *)
Definition same_tables (d d' : Db) : Prop := operations d' = operations d /\ instances d' = instances d.

#[global] Instance same_tables_DbRel : DbRel same_tables.
Proof.
  unfold same_tables. split; [split|done]; [done|].
  intros a b c [E1 E2] [E3 E4]. by rewrite E3, E4.
Qed.

Lemma committed_same plan op key recorded cs claim cn d1 d1' d2 d2' :
  same_tables d1 d1' -> same_tables d2 d2' ->
  committed plan op key recorded cs claim cn d1' d2 -> committed plan op key recorded cs claim cn d1 d2'.
Proof. intros [E1 E2] [E3 E4] [? ? ? ? ? ?]. by split; rewrite <- ?E1, <- ?E2, ?E3, ?E4. Qed.

Section Submit.
Context {W R : Type} (rt : Runtime W) (sha256 : list Z -> list Z).
Context (node_cpu_class : string) (clock : nat -> Z) (faults : nat -> option string) (names : nat -> string).
Context (mint : string -> res string Identity).
#[local] Abbreviation submit_claiming := (@submit_claiming W R rt sha256 node_cpu_class clock faults names mint).

Lemma quiet_payload_token p : keeps (@on_db W R same_tables) (payload_token rt p).
Proof. unfold payload_token, new_guest_token. keeps_tac. Qed.

Lemma quiet_refused_early iid p :
  keeps (@on_db W R same_tables) (refused_early rt sha256 node_cpu_class faults iid p).
Proof. unfold refused_early, resolve_restore. destruct p; keeps_tac. Qed.

(** What a replay was checked against. *)
Definition repeats (kind : OpKind) (iid key : string) (p : OpPayload) (op : OperationRow) (d : Db) : Prop :=
  exists o, operations d !! op_id op = Some o /\ op = operation_row_from (op_id op) o /\
    o_idempotency_key o = key /\ o_kind o = as_str kind /\ o_instance_id o = iid /\
    o_payload o = payload_descriptor p /\
    forall spec i, p = PCreate spec -> instances d !! iid = Some i -> i_spec i = spec.

Lemma check_replay_spec op original p (w w' : World W R) r :
  check_replay faults op original p w = (w', r) ->
  w_db w' = w_db w /\
  match r with
  | Ok (Submitted x) => x = original /\ op_kind original = op_kind op /\ op_instance_id original = op_instance_id op /\
      op_payload original = op_payload op /\
      forall spec i, p = PCreate spec -> instances (w_db w) !! op_instance_id op = Some i -> i_spec i = spec
  | Ok Superseded => False
  | Err _ => True
  end.
Proof.
  unfold check_replay. destruct (negb _ || negb _ || negb _) eqn:E; [by intros [= <- <-]|]. to_prop.
  destruct p; try (intros [= <- <-]; by split_and!).
  unfold bind, reading, journal, ret, get_instance. destruct (faults _); [by intros [= <- <-]|]. simpl.
  destruct (instances (w_db w) !! op_instance_id op) as [i|] eqn:Ei; simpl.
  - case_bool_decide as Es; simpl; intros [= <- <-]; (split; [done|]); [|done]. split_and!; try done.
    intros spec' i' [= <-] Hi'. simpl in Es. congruence.
  - intros [= <- <-]. split; [done|]. split_and!; try done.
Qed.

Lemma submit_journal_spec kind op key p token claim (w w' : World W R) r :
  submit_journal rt clock faults mint kind op key p token claim w = (w', r) ->
  match r with
  | Ok (Journaled recorded) => (payload_spec p <> None -> recorded = fst (states kind)) /\ exists cn,
      committed (plan_transition kind (fst (states kind))) op key recorded (payload_spec p) claim cn (w_db w) (w_db w')
  | Ok (Replay original) => w_db w' = w_db w /\ exists o, operations (w_db w) !! op_id original = Some o /\
      original = operation_row_from (op_id original) o /\ o_idempotency_key o = key
  | _ => w_db w' = w_db w
  end.
Proof.
  unfold submit_journal, journal_try, bind, journal, ret. simpl. destruct (faults (w_calls w)); [by intros [= <- <-]|].
  destruct (submit_atomically _ _ _ _ _ _ _ _ _ _ _ _ _) as [d sub] eqn:E. intros [= <- <-]. simpl.
  destruct (submit_other _ _ _ _ _ _ _ _ _ _ _ _ _ _ _ E) as [->|[recorded ->]].
  - destruct sub as [[recorded|original| |msg|]|e]; try done.
    + split; [|eexists; by eapply submit_journaled]. destruct (payload_spec p); [|done]. by apply submit_created in E.
    + split; [done|]. revert E. unfold submit_atomically. destruct (op_id_of_key key (w_db w)) as [k|] eqn:Ek.
      * unfold get_operation. apply op_id_of_key_Some in Ek as (o & Ho & Hk). rewrite Ho. simpl. intros [= <-]. by exists o.
      * by repeat split_match.
  - split; [|eexists; by eapply submit_journaled]. destruct (payload_spec p); [|done]. by apply submit_created in E.
Qed.

Lemma submit_claiming_spec kind iid key p claim announce (w w' : World W R) r spawned :
  submit_claiming kind iid key p claim announce w = (w', (r, spawned)) ->
  match spawned with
  | Some (op, recorded) =>
      r = Ok (Submitted op) /\ key <> empty_str /\
      (exists id created, op = submitted_row kind iid id p created) /\
      (payload_spec p <> None -> recorded = fst (states kind)) /\
      exists cn, committed (plan_transition kind (fst (states kind))) op key recorded (payload_spec p) claim cn
                   (w_db w) (w_db w')
  | None =>
      same_tables (w_db w) (w_db w') /\
      match r with Ok (Submitted op) => repeats kind iid key p op (w_db w) | _ => True end
  end.
Proof.
  unfold Ops.submit_claiming. destruct (is_empty key) eqn:Ek; [by intros [= <- <- <-]|]. cbv zeta.
  pose proof (quiet_payload_token p w) as H1. run_bind [w1 tok] eqn E1.
  destruct tok as [tok|e]; [|by intros [= <- <- <-]].
  set (w2 := w1 <| w_names := S (w_names w1) |>). rewrite (bind_eq (fresh_name names) _ w1 w2 (names (w_names w1))) by done.
  set (w3 := w2 <| w_ticks := S (w_ticks w2) |>). rewrite (bind_eq (now_ms clock) _ w2 w3 (clock (w_ticks w2))) by done.
  set (op := submitted_row _ _ _ _ _).
  pose proof (quiet_refused_early iid p w3) as H2. run_bind [w4 early] eqn E2.
  assert (same_tables (w_db w) (w_db w4)) as Hq by (transitivity (w_db w1); [exact H1|exact H2]).
  destruct early as [e|]; [by intros [= <- <- <-]|]. run_bind [w5 out] eqn E3. apply submit_journal_spec in E3.
  destruct out as [[recorded|original| |msg|]|e].
  - destruct E3 as [Hcr [cn Hc]]. rename w5 into w0, Hc into Hc0.
    pose proof (keeps_emits clock faults same_tables (announce (names (w_names w1))) w0) as H5. run_bind [w5 []] eqn E5.
    assert (committed (plan_transition kind (states kind).1) op key recorded (payload_spec p) claim cn (w_db w4) (w_db w5)) as Hc
      by (by eapply committed_same). assert (keeps (@on_db W R same_tables) (if bool_decide (recorded = (states kind).1)
      then emit_event clock faults (state_changed iid (names (w_names w1)) (states kind).1 None) else ret ())) as H6 by keeps_tac.
    specialize (H6 w5). run_bind [w6 []] eqn E6. intros [= <- <- <-].
    split_and!; [done|by to_prop|by eexists _, _|done|]. exists cn. by eapply committed_same.
  - destruct E3 as (Ed & o & Ho & Hor & Hkey). run_bind [w6 c] eqn E6. intros [= <- <- <-].
    apply check_replay_spec in E6 as [Ed' Hc]. destruct Hq as [Hq1 Hq2]. rewrite Ed in *.
    split; [by rewrite Ed'|]. destruct c as [[x|]|]; try done. destruct Hc as (-> & Hk & Hi & Hp & Hspec).
    exists o. rewrite <- Hq1. split_and!; try done; rewrite Hor in *; try done. intros spec i. rewrite <- Hq2. apply Hspec.
  - rewrite <- E3 in Hq. by intros [= <- <- <-].
  - rewrite <- E3 in Hq. by intros [= <- <- <-].
  - rewrite <- E3 in Hq. by intros [= <- <- <-].
  - rewrite <- E3 in Hq. by intros [= <- <- <-].
Qed.

(** ** Replays *)

(** The snapshot a resume would start from. *)
Definition chosen_snapshot (iid : string) (sid : option string) (d : Db) : option SnapshotRow :=
  match sid with
  | Some s => get_snapshot s d
  | None => get_instance iid d ≫= fun row =>
      if is_empty (ir_latest_snapshot_id row) then None else get_snapshot (ir_latest_snapshot_id row) d
  end.

(** What is refused, and why, before the key of a request is looked up: a resume whose
    memory cannot be had, a snapshot's name that is taken, and a token that cannot be made. *)
Definition refused_before_the_key (iid : string) (p : OpPayload) (w : World W R) (e : SubmitError) : Prop :=
  match p with
  | PResume sid true => exists row why, get_instance iid (w_db w) = Some row /\
      decide_restore sha256 (chosen_snapshot iid sid (w_db w)) row node_cpu_class (rt_version rt) true = Refuse (se_reason e) why
  | PCreateSnapshot (Some name) => exists existing, snapshot_named iid name (w_db w) = Some existing /\
      se_reason e = ErrorReason.SnapshotNameConflict
  | PCreate _ | PRestoreCapsule _ _ _ _ => exists msg, snd (read_urandom rt (w_sub w)) = Err msg
  | _ => False
  end.

#[local] Arguments decide_restore : simpl never.
Lemma refused_early_spec iid p (w w' : World W R) early :
  (forall n, faults n = None) -> refused_early rt sha256 node_cpu_class faults iid p w = (w', early) ->
  w_db w' = w_db w /\
  match early with
  | Some e => refused_before_the_key iid p w e /\ payload_spec p = None
  | None => True
  end.
Proof.
  intros Hf. unfold refused_early. destruct p as [| | | |sid [|]|[name|]| | | |]; try (by intros [= <- <-]).
  - unfold resolve_restore, bind, reading, journal, ret.
    destruct sid as [s|]; simpl; rewrite !Hf; simpl.
    + unfold refused_before_the_key, chosen_snapshot. destruct (get_instance iid (w_db w)) as [row|];
        intros [= <- <-]; (split; [done|]); [|done].
      destruct (decide_restore _ _ _ _ _ _) as [| |reason why] eqn:E; [done|done|]. split; [|done].
      exists row, why. split; [done|]. by destruct (get_snapshot s (w_db w)).
    + unfold refused_before_the_key, chosen_snapshot. destruct (get_instance iid (w_db w)) as [row|] eqn:Ei; simpl.
      * destruct (is_empty (ir_latest_snapshot_id row)) eqn:Ee; simpl; rewrite !Hf; simpl; rewrite ?Ei;
          intros [<- <-]%pair_eq; (split; [done|]);
          destruct (decide_restore _ _ _ _ _ _) as [| |reason why] eqn:E; try done; (split; [|done]);
          exists row, why; (split; [done|]); [done|].
        by destruct (get_snapshot (ir_latest_snapshot_id row) (w_db w)).
      * rewrite !Hf. simpl. rewrite Ei. by intros [= <- <-].
  - unfold bind, reading, journal, ret. rewrite Hf. simpl.
    destruct (snapshot_named iid name (w_db w)) as [x|] eqn:E; intros [= <- <-]; (split; [done|]); [|done].
    split; [|done]. by exists x.
Qed.

Lemma same_key_found k o key d : ops_inv (operations d) -> operations d !! k = Some o -> o_idempotency_key o = key ->
  op_id_of_key key d = Some k.
Proof.
  intros Hi Hk <-. destruct (op_id_of_key (o_idempotency_key o) d) as [k'|] eqn:E.
  - apply op_id_of_key_Some in E as (o' & Ho' & Hk'). f_equal. by eapply (inv_keys _ Hi).
  - by apply op_id_of_key_None with (k := k) (o := o) in E.
Qed.

(** The repeated request is the one journaled under its key. *)
Definition same_request (kind : OpKind) (iid key : string) (p : OpPayload) (o : OpCols) (d : Db) : Prop :=
  o_idempotency_key o = key /\ o_kind o = as_str kind /\ o_instance_id o = iid /\ o_payload o = payload_descriptor p /\
  forall spec i, p = PCreate spec -> instances d !! iid = Some i -> i_spec i = spec.

Lemma check_replay_answers kind iid id p created k o key (w : World W R) :
  (forall n, faults n = None) -> same_request kind iid key p o (w_db w) ->
  snd (check_replay faults (submitted_row kind iid id p created) (operation_row_from k o) p w) = Ok (Submitted (operation_row_from k o)).
Proof.
  intros Hf (_ & Hk & Hi & Hp & Hs). unfold check_replay. simpl. rewrite Hk, Hi, Hp, !bool_decide_true by done. simpl.
  destruct p; try done. unfold bind, reading, journal, ret, get_instance. rewrite Hf. simpl.
  destruct (instances (w_db w) !! iid) as [i|] eqn:Ei; simpl; [|done]. by rewrite (Hs spec i eq_refl eq_refl), bool_decide_true.
Qed.

Lemma replay_answers kind iid key p claim announce (w w' : World W R) r spawned k o :
  (forall n, faults n = None) -> key <> empty_str -> ops_inv (operations (w_db w)) ->
  operations (w_db w) !! k = Some o -> same_request kind iid key p o (w_db w) ->
  submit_claiming kind iid key p claim announce w = (w', (r, spawned)) ->
  r = Ok (Submitted (operation_row_from k o)) \/ exists e, r = Err e /\ refused_before_the_key iid p w e.
Proof.
  intros Hf Hkey Hinv Hk Hsame. unfold Ops.submit_claiming. destruct (is_empty key) eqn:Ek; [by to_prop|]. cbv zeta.
  run_bind [w1 tok] eqn E1.
  assert (w_db w1 = w_db w /\ forall e, tok = Err e -> refused_before_the_key iid p w e) as [Ed1 Ht].
  { revert E1. unfold payload_token, new_guest_token. destruct p; try (by intros [= <- <-]); unfold bind, substrate, ret;
      destruct (read_urandom rt (w_sub w)) as [s [bytes|msg]] eqn:Eu; intros [= <- <-]; (split; [done|]); try done;
      intros e [= <-]; simpl; rewrite Eu; by exists msg. }
  destruct tok as [tok|e]; [|intros [= <- <- <-]; right; eauto]. clear Ht.
  set (w2 := w1 <| w_names := S (w_names w1) |>). rewrite (bind_eq (fresh_name names) _ w1 w2 (names (w_names w1))) by done.
  set (w3 := w2 <| w_ticks := S (w_ticks w2) |>). rewrite (bind_eq (now_ms clock) _ w2 w3 (clock (w_ticks w2))) by done.
  set (op := submitted_row _ _ _ _ _). run_bind [w4 early] eqn E2.
  destruct (refused_early_spec iid p w3 w4 early Hf E2) as [Ed4 He]. change (w_db w3) with (w_db w1) in Ed4.
  destruct early as [e|].
  { intros [= <- <- <-]. right. exists e. split; [done|]. destruct He as [He Hp].
    unfold refused_before_the_key in *. change (w_db w3) with (w_db w1) in He. rewrite Ed1 in He. by destruct p. }
  run_bind [w5 out] eqn E3.
  assert (out = Ok (Replay (operation_row_from k o)) /\ w_db w5 = w_db w) as [-> Ed5].
  { revert E3. unfold submit_journal, journal_try, bind, journal, ret. simpl. rewrite Hf.
    unfold submit_atomically. rewrite Ed4, Ed1, (same_key_found k o key _ Hinv Hk (proj1 Hsame)).
    unfold get_operation. rewrite Hk. simpl. by intros [= <- <-]. }
  run_bind [w6 c] eqn E6. intros [= <- <- <-]. left. rewrite <- Ed5 in Hsame.
  pose proof (check_replay_answers kind iid (names (w_names w1)) p (clock (w_ticks w2)) k o key w5 Hf Hsame) as Hc.
  fold op in Hc. by rewrite E6 in Hc.
Qed.

(** C7: submission spawns an executor exactly for the operation it journaled. Either a
    row for a new, non-empty key was added, for an instance no executor was working on,
    and the executor of that row is spawned; or nothing is spawned, no operation and no
    instance changed, and the operation answered, if one is, is the journaled one under
    this key, of the same verb on the same instance with the same request (for a create,
    with the same spec). While the journal answers, a request that repeats the one
    journaled under its key is answered with that operation, unless it is refused before
    its key is looked up: a resume that requires memory which cannot be restored now, a
    named snapshot whose name is taken now, or a token that cannot be made. *)
Theorem submit_spawns_what_it_journals kind iid key p claim announce (w w' : World W R) r spawned :
  submit_claiming kind iid key p claim announce w = (w', (r, spawned)) ->
  match spawned with
  | Some (op, recorded) =>
      r = Ok (Submitted op) /\ key <> empty_str /\
      op_kind op = as_str kind /\ op_instance_id op = iid /\ op_payload op = payload_descriptor p /\
      operations (w_db w) !! op_id op = None /\
      (forall k o, operations (w_db w) !! k = Some o -> o_idempotency_key o <> key) /\
      (forall k o, operations (w_db w) !! k = Some o -> ~ active_on iid o) /\
      operations (w_db w') = <[op_id op := inserted_op op key]> (operations (w_db w))
  | None =>
      same_tables (w_db w) (w_db w') /\
      match r with Ok (Submitted op) => repeats kind iid key p op (w_db w) | _ => True end
  end /\
  ((forall n, faults n = None) -> key <> empty_str -> ops_inv (operations (w_db w)) ->
   forall k o, operations (w_db w) !! k = Some o -> same_request kind iid key p o (w_db w) ->
   r = Ok (Submitted (operation_row_from k o)) \/ exists e, r = Err e /\ refused_before_the_key iid p w e).
Proof.
  intros E. split; [|intros; by eapply replay_answers].
  apply submit_claiming_spec in E as H. destruct spawned as [[op recorded]|]; [|done].
  destruct H as (-> & Hk & (id & created & ->) & _ & cn & [? ? ? ? _ _]). by split_and!.
Qed.
End Submit.

(** * The states an operation takes its instance through *)

(** The verb each request belongs to, as the service's handlers pair them. *)
Definition payload_kind (p : OpPayload) : OpKind :=
  match p with
  | PCreate _ => KCreate
  | PStart => KStart
  | PStop _ => KStop
  | PPause _ => KPause
  | PResume _ _ => KResume
  | PCreateSnapshot _ => KCreateSnapshot
  | PDeleteSnapshot _ => KDeleteSnapshot
  | PDestroy _ => KDestroy
  | PFork _ _ _ _ _ _ _ | PRestoreCapsule _ _ _ _ => KFork
  end.

Definition stays_or_steps (from to : IS.t) : Prop := to = from \/ StateMachine.step from to.

Lemma plan_transition_legal kind from recorded :
  plan_transition kind (fst (states kind)) from = Some recorded ->
  stays_or_steps from recorded /\
  forall out, kind <> KFork \/ (exists e, out = Err e) -> stays_or_steps recorded (settled_state kind recorded out).
Proof.
  unfold plan_transition, stays_or_steps, StateMachine.step, settled_state, success_state. intros H.
  destruct kind; simpl in *; repeat (split_match; simplify_eq/=); to_prop; subst; (split; [auto|]);
    intros [[]|[]] [Hn|[? [= <-]]]; simplify_eq/=; repeat case_bool_decide; subst; auto; by destruct recorded; auto.
Qed.

(** A created instance is CREATING whatever the verb, so the table only covers the
    failure of a fork. *)
Lemma create_legal kind out :
  fst (states kind) = IS.Creating -> kind <> KFork \/ (exists e, out = Err e) ->
  stays_or_steps IS.Creating (settled_state kind IS.Creating out).
Proof.
  unfold stays_or_steps, StateMachine.step. intros Hk [Hn|[e ->]]; destruct kind; try done; try destruct out; simpl; auto.
Qed.

Section Moves.
Context {W R : Type} (rt : Runtime W) (bucket : Bucket R) (sha256 : list Z -> list Z).
Context (node_cpu_class : string) (clock : nat -> Z) (faults : nat -> option string) (names : nat -> string).
Context (mint : string -> res string Identity).
#[local] Abbreviation submit_claiming := (@submit_claiming W R rt sha256 node_cpu_class clock faults names mint).
#[local] Abbreviation execute := (execute rt bucket sha256 node_cpu_class clock faults names).

(** An executor leaves its instance where it was recorded, or in a settled state. *)
Lemma execute_states kind op iid p recorded (w w' : World W R) :
  execute kind op iid p recorded w = (w', tt) ->
  i_state <$> instances (w_db w) !! iid = Some recorded ->
  (exists st, i_state <$> instances (w_db w') !! iid = Some st /\
     (st = recorded \/ exists out, st = settled_state kind recorded out)) /\
  forall j, j <> iid -> i_state <$> instances (w_db w') !! j = i_state <$> instances (w_db w) !! j.
Proof.
  intros He Hrec. destruct (execute_decompose rt bucket sha256 node_cpu_class clock faults names kind op iid p recorded w)
    as (w1 & w2 & out & ttl & sr & cr & degr & r & F1 & E & F2). rewrite He in F2. simpl in F2.
  apply record_outcome_spec in E. pose proof (fr_states _ _ _ F1) as S1. pose proof (fr_states _ _ _ F2) as S2.
  destruct r as [f|e].
  - destruct E as (t & (Hi & _)%finish_operation_Ok). rewrite Hi in S2. split.
    + exists (settled_state kind recorded out). rewrite S2, update_lookup, decide_True by done. specialize (S1 iid).
      rewrite Hrec in S1. destruct (instances (w_db w1) !! iid); simpl in *; [|done]. split; [done|]. right. by exists out.
    + intros j Hj. by rewrite S2, update_lookup, decide_False, S1.
  - destruct E as [Ed _]. rewrite Ed in S2. split; [exists recorded; rewrite S2, S1; auto|].
    intros j Hj. by rewrite S2, S1.
Qed.

End Moves.

(** A fork canceled while its executor works, whose work then succeeds, cannot be
    recorded: the instance stays CREATING and the claim on it stands until the node
    restarts. *)
Lemma canceled_fork_is_stranded k iid ttl sr cr degr now db o i :
  operations db !! k = Some o -> o_state o = Op.Canceled -> o_instance_id o = iid -> o_executor_active o = true ->
  instances db !! iid = Some i -> i_state i = IS.Creating ->
  exists e, finish_operation k iid (settled_state KFork IS.Creating (Ok tt)) ttl sr cr degr (Ok tt) now db = (db, Err e) /\
    has_inflight_op iid db = true.
Proof.
  intros Ho Hs Hid Ha Hi Hc. unfold finish_operation, update_op, update_where. simpl.
  rewrite Ho, state_in_flight, Hi. simpl. rewrite Hs, Hc. simpl. eexists. split; [reflexivity|].
  destruct (has_inflight_op iid db) eqn:E; [done|]. rewrite has_inflight_op_false in E. by destruct (E _ _ Ho).
Qed.

(** * Crash recovery *)

(** Where recovery takes an instance. *)
Definition recovered (s s' : IS.t) : Prop :=
  match s with
  | IS.Stopping => s' = IS.Stopped \/ s' = IS.Failed
  | IS.Checkpointing => s' = IS.Running
  | IS.Destroying => s' = IS.Destroyed
  | IS.Creating | IS.Starting | IS.Pausing | IS.Resuming => s' = IS.Failed
  | _ => s' = s
  end.

Lemma recovered_settled s s' : recovered s s' -> is_transitional s' = false.
Proof. destruct s; simpl; intros; destruct_or?; by subst. Qed.

(** Rows are stored under their own id, as every insertion stores them. *)
Definition keyed (d : Db) : Prop := map_Forall (fun k i => instance_id (i_spec i) = k) (instances d).
#[global] Instance keyed_dec d : Decision (keyed d).
Proof. unfold keyed. apply _. Defined.

Lemma set_instance_state_lookup iid st t d j :
  exists f, instances (set_instance_state iid st t d) !! j = (if decide (j = iid) then f else id) <$> instances d !! j /\
  forall i, i_state (f i) = st /\ i_spec (f i) = i_spec i.
Proof.
  exists (fun i => (if bool_decide (st = IS.Destroyed) then clear_credentials else id)
    ((if bool_decide (st = IS.Running) then fun i => i <| i_run_epoch_ms := Some t |> else id)
       (i <| i_state := st |> <| i_updated_at_ms := t |>))).
  split; [|intros i; by repeat case_bool_decide]. unfold set_instance_state. simpl.
  repeat case_bool_decide; rewrite ?update_lookup; destruct (instances d !! j); repeat case_decide; done.
Qed.

(** Every operation that was in flight is failed and its claim dropped; no other row
    changes. *)
Lemma fail_inflight_lookup msg now d k :
  operations (fst (fail_inflight_ops msg now d)) !! k =
  (fun o => if op_is_in_flight (o_state o)
            then o <| o_state := Op.Failed |> <| o_error_reason := ErrorReason.Unspecified |>
                   <| o_error_message := msg |> <| o_finished_at_ms := Some (now k) |> <| o_executor_active := false |>
            else o) <$> operations d !! k.
Proof.
  unfold fail_inflight_ops. simpl. rewrite fail_fold_lookup. destruct (operations d !! k) as [o|] eqn:Ho; simpl.
  - assert (k ∈ (fst <$> filter (fun p => o_state p.2 ∈ in_flight_ops) (map_to_list (operations d))) <->
      op_is_in_flight (o_state o) = true) as Hiff.
    { rewrite list_elem_of_fmap, <- in_flight_ops_spec. split.
      - intros ([k' o'] & -> & [Hf Hk]%list_elem_of_filter). apply elem_of_map_to_list in Hk. by simplify_eq/=.
      - intros Hf. exists (k, o). split; [done|]. apply list_elem_of_filter. split; [done|]. by apply elem_of_map_to_list. }
    case_decide as Hd; rewrite Hiff in Hd; [by rewrite Hd|]. by destruct (op_is_in_flight _).
  - by case_decide.
Qed.

(** What a new process makes of the operations its predecessor left. *)
Lemma fail_inflight_settles msg now d k o :
  operations (fst (fail_inflight_ops msg now (open d))) !! k = Some o -> op_is_in_flight (o_state o) = false /\ o_executor_active o = false.
Proof.
  rewrite fail_inflight_lookup. simpl. rewrite lookup_fmap. intros (o1 & (o0 & _ & ->)%fmap_Some & ->)%fmap_Some. simpl.
  destruct (op_is_in_flight (o_state o0)) eqn:E; simpl; [done|]. by rewrite state_in_flight, E.
Qed.

Lemma fail_inflight_instances msg now d : instances (fst (fail_inflight_ops msg now d)) = instances d.
Proof.
  unfold fail_inflight_ops. simpl. generalize (fst <$> filter (fun p => o_state p.2 ∈ in_flight_ops) (map_to_list (operations d))).
  intros ids. revert d. induction ids as [|x ids IH]; intros d; cbn [foldl]; [done|]. rewrite IH.
  unfold finish_op_failed, update_op. by destruct (update_where _ _ _ _).
Qed.

Lemma transitional_rows d row :
  keyed d -> row ∈ transitional_instances d <->
  exists i, instances d !! ir_id row = Some i /\ row = instance_row_from i /\ is_transitional (i_state i) = true.
Proof.
  intros Hk. unfold transitional_instances, list_instances. rewrite list_elem_of_filter, merge_sort_Permutation, list_elem_of_fmap.
  split.
  - intros (Ht & [k i] & -> & Hi%elem_of_map_to_list). exists i. split; [|done]. simpl. by rewrite (Hk _ _ Hi).
  - intros (i & Hi & -> & Ht). split; [done|]. exists (ir_id (instance_row_from i), i). split; [done|]. by apply elem_of_map_to_list.
Qed.

Lemma list_instances_NoDup d : keyed d -> NoDup (ir_id <$> list_instances d).
Proof.
  intros Hk. unfold list_instances. rewrite merge_sort_Permutation, <- list_fmap_compose.
  rewrite (list_fmap_ext _ fst); [apply NoDup_fst_map_to_list|]. intros n [k i] Hi. simpl.
  apply Hk. apply elem_of_map_to_list. by apply list_elem_of_lookup_2 with n.
Qed.

Lemma NoDup_ids_filter (P : InstanceRow -> Prop) `{!forall r, Decision (P r)} l :
  NoDup (ir_id <$> l) -> NoDup (ir_id <$> filter P l).
Proof.
  induction l as [|a l IH]; intros Hn; [done|]. inversion Hn as [|? ? Ha Hl]; subst. rewrite filter_cons.
  case_decide; [|by apply IH]. cbn. apply NoDup_cons. split; [|by apply IH].
  intros (b & Eb & [_ Hb]%list_elem_of_filter)%list_elem_of_fmap. apply Ha. apply list_elem_of_fmap. by exists b.
Qed.

Lemma transitional_NoDup d : keyed d -> NoDup (ir_id <$> transitional_instances d).
Proof. intros Hk. by apply NoDup_ids_filter, list_instances_NoDup. Qed.

Section Recover.
Context {W R : Type} (rt : Runtime W) (clock : nat -> Z) (faults : nat -> option string).

(** One instance moved, by [set_instance_state]; no operation touched. *)
Definition moved (iid : string) (P : IS.t -> Prop) (d d' : Db) : Prop :=
  operations d' = operations d /\
  (forall j, j <> iid -> instances d' !! j = instances d !! j) /\
  match instances d !! iid with
  | Some i => exists i', instances d' !! iid = Some i' /\ P (i_state i') /\ i_spec i' = i_spec i
  | None => instances d' !! iid = None
  end.

Lemma moved_mono iid (P Q : IS.t -> Prop) d d' : (forall s, P s -> Q s) -> moved iid P d d' -> moved iid Q d d'.
Proof. intros HPQ (Ho & Hj & Hi). split_and!; [done..|]. destruct (instances d !! iid); [|done].
  destruct Hi as (i' & ? & ? & ?). eauto.
Qed.

Lemma moved_same iid P d1 d1' d2 d2' :
  same_tables d1 d1' -> same_tables d2 d2' -> moved iid P d1' d2 -> moved iid P d1 d2'.
Proof. intros [E1 E2] [E3 E4]. unfold moved. by rewrite E1, E2, E3, E4. Qed.

Lemma settle_spec iid st (w w' : World W R) r :
  settle clock faults iid st w = (w', r) ->
  ((forall n, faults n = None) -> r = Ok tt) /\ (r = Ok tt -> moved iid (eq st) (w_db w) (w_db w')).
Proof.
  unfold settle. set (w1 := w <| w_ticks := S (w_ticks w) |>).
  rewrite (bind_eq (now_ms clock) _ w w1 (clock (w_ticks w))) by done. run_bind [w2 j] eqn E. unfold journal in E.
  destruct (faults (w_calls w1)) as [e|] eqn:Ef; injection E as Ew Ej; subst j.
  { intros [= <- <-]. split; [intros Hn; by rewrite Hn in Ef|done]. }
  pose proof (keeps_emit (R := R) clock faults same_tables (state_changed iid empty_str st None) w2) as He.
  run_bind [w3 []] eqn E3. intros [= <- <-]. split; [done|intros _].
  apply (moved_same iid _ _ _ _ _ (reflexivity _) He). rewrite <- Ew. simpl. split_and!; [done| |].
  - intros j Hj. destruct (set_instance_state_lookup iid st (clock (w_ticks w)) (w_db w) j) as (f & -> & _).
    rewrite decide_False by done. by destruct (instances (w_db w) !! j).
  - destruct (set_instance_state_lookup iid st (clock (w_ticks w)) (w_db w) iid) as (f & -> & Hf).
    rewrite decide_True by done. destruct (instances (w_db w) !! iid) as [i|]; [|done]. exists (f i). by destruct (Hf i).
Qed.

(** The same after a computation that leaves the tables alone. *)
Lemma settle_after {A} (m : M W R A) iid st (w w' : World W R) r :
  keeps (on_db same_tables) m ->
  bind m (fun _ => settle clock faults iid st) w = (w', r) ->
  ((forall n, faults n = None) -> r = Ok tt) /\ (r = Ok tt -> moved iid (eq st) (w_db w) (w_db w')).
Proof.
  intros Hm. specialize (Hm w). run_bind [w1 a] eqn E. intros [Hn Hs]%settle_spec. split; [done|]. intros Hr.
  by apply (moved_same iid _ _ _ _ _ Hm (reflexivity _)), Hs.
Qed.

Lemma recover_instance_spec row (w w' : World W R) r :
  is_transitional (ir_state row) = true ->
  recover_instance rt clock faults row w = (w', r) ->
  ((forall n, faults n = None) -> r = Ok tt) /\
  (r = Ok tt -> moved (ir_id row) (recovered (ir_state row)) (w_db w) (w_db w')).
Proof.
  intros Ht. unfold recover_instance. destruct (ir_state row); try done; simpl.
  all: try (intros [? Hs]%settle_after; [|apply keeps_substrate; apply _]; split; [done|]; intros Hr;
    eapply moved_mono, (Hs Hr); by intros ? <-).
  - run_bind [w1 o] eqn E1. intros H.
    assert (((forall n, faults n = None) -> o = Ok tt) /\ (o = Ok tt -> moved (ir_id row) (eq IS.Running) (w_db w) (w_db w1)))
      as [Hn Hs] by (by apply settle_spec in E1).
    destruct o as [[]|e]; [|injection H as <- <-; split; [intros Hf; by specialize (Hn Hf)|done]].
    revert H. match goal with |- context [emit_event _ _ ?ev] =>
      pose proof (keeps_emit (R := R) clock faults same_tables ev w1) as He end.
    run_bind [w2 []] eqn E2. intros [= <- <-]. split; [done|intros _].
    apply (moved_same _ _ _ _ _ _ (reflexivity _) He). eapply moved_mono, (Hs eq_refl). by intros ? <-.
  - run_bind [w1 o] eqn E1. pose proof (keeps_substrate (R := R) same_tables (fun s => rt_stop rt s (ir_id row) 0) w) as Hq.
    rewrite E1 in Hq. intros H. destruct o as [[]|e].
    + apply settle_spec in H as [Hn Hs]. split; [done|]. intros Hr. apply (moved_same _ _ _ _ _ _ Hq (reflexivity _)).
      eapply moved_mono, (Hs Hr). intros ? <-. by left.
    + apply settle_after in H as [Hn Hs]; [|apply keeps_emit; apply _]. split; [done|]. intros Hr.
      apply (moved_same _ _ _ _ _ _ Hq (reflexivity _)). eapply moved_mono, (Hs Hr). intros ? <-. by right.
Qed.

(** The loop: each listed instance is taken where recovery takes it, no other moves. *)
Lemma recover_instances_spec l (w w' : World W R) r :
  NoDup (ir_id <$> l) -> Forall (fun row => is_transitional (ir_state row) = true) l ->
  recover_instances rt clock faults l w = (w', r) ->
  ((forall n, faults n = None) -> r = Ok tt) /\
  (r = Ok tt -> operations (w_db w') = operations (w_db w) /\
     (forall j, j ∉ ir_id <$> l -> instances (w_db w') !! j = instances (w_db w) !! j) /\
     forall row, row ∈ l ->
       match instances (w_db w) !! ir_id row with
       | Some i => exists i', instances (w_db w') !! ir_id row = Some i' /\ recovered (ir_state row) (i_state i') /\
                   i_spec i' = i_spec i
       | None => instances (w_db w') !! ir_id row = None
       end).
Proof.
  revert w w' r. induction l as [|row l IH]; intros w w' r Hnd Hall; simpl.
  { intros [= <- <-]. split; [done|]. intros _. split_and!; [done..|]. by intros row Hr%not_elem_of_nil. }
  cbn in Hnd. apply NoDup_cons in Hnd as [Hx Hnd]. apply Forall_cons in Hall as [Ht Hall].
  run_bind [w1 o] eqn E1. apply recover_instance_spec in E1 as [Hn1 Hs1]; [|done]. destruct o as [[]|e].
  - intros H. destruct (IH _ _ _ Hnd Hall H) as [Hn Hs]. split; [done|]. intros Hr.
    destruct (Hs1 eq_refl) as (Ho1 & Hj1 & Hi1), (Hs Hr) as (Ho & Hj & Hi). split_and!; [congruence| |].
    + intros j [Hj2 Hj3]%not_elem_of_cons. by rewrite Hj, Hj1.
    + intros row' [->|Hrow]%elem_of_cons.
      * rewrite Hj by done. destruct (instances (w_db w) !! ir_id row); [|done]. destruct Hi1 as (i' & ? & ? & ?). eauto.
      * specialize (Hi _ Hrow). rewrite Hj1 in Hi; [done|]. intros E. apply Hx. rewrite <- E. by apply list_elem_of_fmap_2.
  - intros [= <- <-]. split; [|done]. intros Hf. by specialize (Hn1 Hf).
Qed.

Lemma quiet_recover_events l : keeps (@on_db W R same_tables) (recover_events clock faults l).
Proof. induction l; simpl; keeps_tac. Qed.

Lemma quiet_remove_orphans known l : keeps (@on_db W R same_tables) (remove_orphans rt known l).
Proof. induction l; simpl; keeps_tac. Qed.
#[local] Hint Resolve quiet_remove_orphans : keeps.

Lemma sweep_orphans_spec (w w' : World W R) r :
  sweep_orphans rt clock faults w = (w', r) ->
  same_tables (w_db w) (w_db w') /\ ((forall n, faults n = None) -> r = Ok tt).
Proof.
  intros E. split.
  - assert (keeps (@on_db W R same_tables) (sweep_orphans rt clock faults)) as H by (unfold sweep_orphans; keeps_tac).
    specialize (H w). rewrite E in H. exact H.
  - intros Hn. revert E. unfold sweep_orphans, reading, journal, bind at 1. rewrite Hn. simpl.
    run_bind [w1 l] eqn E1. run_bind [w2 u] eqn E2. by intros [= <- <-].
Qed.

Lemma recover_spec failed_at (w w' : World W R) r :
  keyed (w_db w) ->
  recover rt clock faults failed_at w = (w', r) ->
  ((forall n, faults n = None) -> r = Ok tt) /\
  (r = Ok tt ->
     operations (w_db w') = operations (fst (fail_inflight_ops "node agent restarted mid-operation" failed_at (w_db w))) /\
     forall j, match instances (w_db w) !! j, instances (w_db w') !! j with
       | Some i, Some i' => recovered (i_state i) (i_state i')
       | None, None => True
       | _, _ => False
       end).
Proof.
  intros Hk. unfold recover. run_bind [w1 f] eqn E1. unfold journal in E1.
  destruct (faults (w_calls w)) as [e|] eqn:Ef.
  { injection E1 as <- <-. intros [= <- <-]. split; [intros Hn; by rewrite Hn in Ef|done]. }
  pose proof (fail_inflight_instances "node agent restarted mid-operation" failed_at (w_db w)) as Hins.
  destruct (fail_inflight_ops _ _ _) as [d ops]. simpl in Hins. injection E1 as Ew1 <-.
  pose proof (quiet_recover_events ops w1) as [Ho2 Hi2]. run_bind [w2 []] eqn E2.
  rewrite <- Ew1 in Ho2, Hi2. simpl in Ho2, Hi2. rewrite Hins in Hi2.
  run_bind [w3 tr] eqn E3. unfold reading, journal in E3. destruct (faults (w_calls w2)) as [e|] eqn:Ef2.
  { injection E3 as <- <-. intros [= <- <-]. split; [intros Hn; by rewrite Hn in Ef2|done]. }
  injection E3 as Ew3 <-. assert (w_db w3 = w_db w2) as Ed3 by (by rewrite <- Ew3). clear Ew3.
  assert (keyed (w_db w2)) as Hk2 by (unfold keyed; by rewrite Hi2).
  run_bind [w4 o] eqn E4. apply recover_instances_spec in E4 as [Hn4 Hs4]; [|by apply transitional_NoDup|].
  2:{ apply Forall_forall. intros row [? _]%list_elem_of_filter. done. }
  destruct o as [[]|e]; [|intros [= <- <-]; split; [intros Hn; by specialize (Hn4 Hn)|done]].
  intros [[Ho5 Hi5] Hn5]%sweep_orphans_spec. split; [done|]. intros _. destruct (Hs4 eq_refl) as (Ho4 & Hj4 & Hr4).
  rewrite Ed3, Hi2 in *. split; [simpl; congruence|]. intros j. rewrite Hi5.
  destruct (instances (w_db w) !! j) as [i|] eqn:Hj.
  - assert (ir_id (instance_row_from i) = j) as Hid by (by apply Hk). destruct (is_transitional (i_state i)) eqn:Ht.
    + assert (instance_row_from i ∈ transitional_instances (w_db w2)) as Hin.
      { apply transitional_rows; [done|]. exists i. by rewrite Hi2, Hid. }
      specialize (Hr4 _ Hin). rewrite Hid, Hj in Hr4. by destruct Hr4 as (i' & -> & ? & _).
    + rewrite Hj4, Hj; [by destruct (i_state i)|].
      intros (row & -> & (i' & Hi' & Hrow & Ht')%transitional_rows)%list_elem_of_fmap; [|done].
      rewrite Hi2, Hj in Hi'. congruence.
  - rewrite Hj4, Hj; [done|].
    intros (row & -> & (i' & Hi' & _)%transitional_rows)%list_elem_of_fmap; [|done]. by rewrite Hi2, Hj in Hi'.
Qed.

(** C4: crash recovery, if no journal call fails, returns; and when it returns, every
    operation that was in flight is FAILED with its claim dropped and no other operation
    changed, and every instance is settled: one that was STOPPING is STOPPED, or FAILED
    if the substrate would not stop it, CHECKPOINTING is RUNNING, DESTROYING is
    DESTROYED, CREATING, STARTING, PAUSING and RESUMING are FAILED, and no other moved.
    After the journal was opened by the new process, no instance is left blocked. *)
Theorem recovery_resolves_everything failed_at (w w' : World W R) r :
  keyed (w_db w) ->
  recover rt clock faults failed_at w = (w', r) ->
  ((forall n, faults n = None) -> r = Ok tt) /\
  (r = Ok tt ->
     (forall k, match operations (w_db w) !! k, operations (w_db w') !! k with
        | Some o, Some o' => if op_is_in_flight (o_state o) then o_state o' = Op.Failed /\ o_executor_active o' = false
                             else o' = o
        | None, None => True
        | _, _ => False
        end) /\
     (forall j, match instances (w_db w) !! j, instances (w_db w') !! j with
        | Some i, Some i' => recovered (i_state i) (i_state i') /\ is_transitional (i_state i') = false
        | None, None => True
        | _, _ => False
        end) /\
     (forall d iid, w_db w = open d -> has_inflight_op iid (w_db w') = false)).
Proof.
  intros Hk H. destruct (recover_spec _ _ _ _ Hk H) as [Hn Hs]. split; [done|]. intros Hr.
  destruct (Hs Hr) as [Ho Hi]. split_and!; [| |].
  - intros k. rewrite Ho, fail_inflight_lookup. destruct (operations (w_db w) !! k) as [o|]; [|done]. simpl.
    by destruct (op_is_in_flight (o_state o)).
  - intros j. specialize (Hi j). destruct (instances (w_db w) !! j), (instances (w_db w') !! j); try done.
    eauto using recovered_settled.
  - intros d iid Hd. apply has_inflight_op_false. intros k o' Hk' [_ Ha].
    rewrite Ho, Hd in Hk'. by rewrite (proj2 (fail_inflight_settles _ _ _ _ _ Hk')) in Ha.
Qed.
End Recover.

(** ** What recovery removes *)

(** A property of the substrate that calls on other instances leave alone. *)
Class SubstrateFrame {W} (rt : Runtime W) (iid : string) (P : W -> Prop) := {
  sf_stop s j g : j <> iid -> P s -> P (fst (rt_stop rt s j g));
  sf_remove s j : j <> iid -> P s -> P (fst (rt_remove_orphan rt s j)) }.

Definition on_sub {W R} (P : W -> Prop) : relation (World W R) := fun w w' => P (w_sub w) -> P (w_sub w').
#[global] Instance on_sub_preorder {W R} P : PreOrder (@on_sub W R P).
Proof. split; [intros w|intros a b c]; unfold on_sub; auto. Qed.

Section Spare.
Context {W R : Type} (rt : Runtime W) (clock : nat -> Z) (faults : nat -> option string).
Context (iid : string) (P : W -> Prop) `{!SubstrateFrame rt iid P}.
#[local] Abbreviation keeps m := (@keeps W R (on_sub P) _ m).

Lemma spare_journal {A} (f : Db -> Db * A) : keeps (journal faults f).
Proof. intros w. unfold journal, on_sub. destruct (faults _); simpl; [done|]. by destruct (f (w_db w)). Qed.
Lemma spare_reading {A} (f : Db -> A) : keeps (reading faults f).
Proof. apply spare_journal. Qed.
Lemma spare_now : keeps (now_ms clock).
Proof. intros w. by unfold on_sub. Qed.
Lemma spare_ask {A} (f : W -> A) : keeps (ask f).
Proof. intros w. by unfold on_sub. Qed.
Lemma spare_substrate {A} (f : W -> W * A) : (forall s, P s -> P (fst (f s))) -> keeps (substrate f).
Proof. intros Hf w. unfold substrate, on_sub. specialize (Hf (w_sub w)). by destruct (f _). Qed.
#[local] Hint Resolve spare_journal spare_reading spare_now spare_ask : keeps.

Lemma spare_emit ev : keeps (emit_event clock faults ev).
Proof. unfold emit_event. keeps_tac. Qed.
#[local] Hint Resolve spare_emit : keeps.

Lemma spare_stop j g : j <> iid -> keeps (substrate (fun s => rt_stop rt s j g)).
Proof. intros Hj. apply spare_substrate. intros s. by apply sf_stop. Qed.
Lemma spare_remove j : j <> iid -> keeps (substrate (fun s => rt_remove_orphan rt s j)).
Proof. intros Hj. apply spare_substrate. intros s. by apply sf_remove. Qed.
#[local] Hint Resolve spare_stop spare_remove : keeps.

Lemma spare_recover_events l : keeps (recover_events clock faults l).
Proof. induction l; simpl; keeps_tac. Qed.

(** The one state recovery leaves the sandbox of alone. *)
Lemma spare_recover_instance row :
  ir_id row <> iid \/ ir_state row = IS.Checkpointing -> keeps (recover_instance rt clock faults row).
Proof.
  intros Hrow. unfold recover_instance, settle. destruct (ir_state row); destruct Hrow as [?|?]; try done; keeps_tac.
Qed.

Lemma spare_recover_instances l :
  Forall (fun row => ir_id row <> iid \/ ir_state row = IS.Checkpointing) l ->
  keeps (recover_instances rt clock faults l).
Proof. induction 1; simpl; keeps_tac. by apply spare_recover_instance. Qed.

Lemma spare_remove_orphans known l : iid ∈ known -> keeps (remove_orphans rt known l).
Proof.
  intros Hk. induction l as [|j l IH]; simpl; [keeps_tac|]. apply keeps_bind; [apply _| |done].
  case_bool_decide as Hj; [keeps_tac|]. apply keeps_bind; [apply _| |keeps_tac]. apply spare_remove. by intros ->.
Qed.

Lemma recover_instances_live (w w' : World W R) i :
  keyed (w_db w) -> recover_instances rt clock faults (transitional_instances (w_db w)) w = (w', Ok tt) ->
  instances (w_db w) !! iid = Some i -> is_terminal (i_state i) = false ->
  is_transitional (i_state i) = false \/ i_state i = IS.Checkpointing ->
  exists i', instances (w_db w') !! iid = Some i' /\ i_spec i' = i_spec i /\ is_terminal (i_state i') = false.
Proof.
  intros Hk E Hi Hlive Hst. assert (ir_id (instance_row_from i) = iid) as Hid by (by apply Hk).
  apply recover_instances_spec in E as [_ Hs]; [|by apply transitional_NoDup|].
  2:{ apply Forall_forall. intros row [? _]%list_elem_of_filter. done. }
  destruct (Hs eq_refl) as (_ & Hj & Hr). destruct Hst as [Ht|Hc].
  - exists i. rewrite Hj; [done|]. intros (row & E & (i' & Hi' & -> & Ht')%transitional_rows)%list_elem_of_fmap; [|done].
    rewrite <- E, Hi in Hi'. congruence.
  - assert (instance_row_from i ∈ transitional_instances (w_db w)) as Hin.
    { apply transitional_rows; [done|]. exists i. by rewrite Hid, Hc. }
    specialize (Hr _ Hin). rewrite Hid, Hi in Hr. destruct Hr as (i' & Hi' & Hrec & Hspec). exists i'.
    simpl in Hrec. rewrite Hc in Hrec. simpl in Hrec. by rewrite Hrec.
Qed.

Lemma spare_sweep (w w' : World W R) r i :
  instances (w_db w) !! iid = Some i -> instance_id (i_spec i) = iid -> is_terminal (i_state i) = false ->
  sweep_orphans rt clock faults w = (w', r) -> P (w_sub w) -> P (w_sub w').
Proof.
  intros Hi Hid Hlive H HP. revert H. unfold sweep_orphans.
  pose proof (spare_reading list_instances w HP) as P1. run_bind [w1 all] eqn E1.
  destruct all as [l|]; [|by intros [= <- <-]].
  assert (iid ∈ known_ids l) as Hin.
  { unfold reading, journal in E1. destruct (faults _); [done|]. injection E1 as _ <-. unfold known_ids, list_instances.
    apply list_elem_of_fmap. exists (instance_row_from i). split; [done|]. apply list_elem_of_filter. split; [done|].
    rewrite merge_sort_Permutation. apply list_elem_of_fmap. exists (iid, i). split; [done|]. by apply elem_of_map_to_list. }
  pose proof (spare_ask (rt_list_labeled rt) w1 P1) as P2. run_bind [w2 labeled] eqn E2.
  destruct labeled as [ids|e].
  - pose proof (spare_remove_orphans (known_ids l) ids Hin w2 P2) as P3. run_bind [w3 []] eqn E3. by intros [= <- <-].
  - match goal with |- context [emit_event _ _ ?ev] => pose proof (spare_emit ev w2 P2) as P3 end.
    run_bind [w3 []] eqn E3. by intros [= <- <-].
Qed.

(** C19: recovery does not touch the sandbox of an instance that is settled and not
    terminal, nor of one that was being checkpointed: whatever holds of it and is left
    alone by stopping and removing other sandboxes holds afterwards, whichever journal
    calls fail. *)
Theorem recovery_spares_live_sandboxes failed_at (w w' : World W R) r i :
  keyed (w_db w) -> instances (w_db w) !! iid = Some i -> is_terminal (i_state i) = false ->
  is_transitional (i_state i) = false \/ i_state i = IS.Checkpointing ->
  recover rt clock faults failed_at w = (w', r) -> P (w_sub w) -> P (w_sub w').
Proof.
  intros Hk Hi Hlive Hst H HP. revert H. unfold recover.
  pose proof (spare_journal (fail_inflight_ops "node agent restarted mid-operation" failed_at) w HP) as P1.
  run_bind [w1 f] eqn E1. destruct f as [ops|e]; [|by intros [= <- <-]].
  assert (instances (w_db w1) = instances (w_db w)) as Hi1.
  { unfold journal in E1. destruct (faults (w_calls w)); [done|].
    pose proof (fail_inflight_instances "node agent restarted mid-operation" failed_at (w_db w)) as Hins.
    destruct (fail_inflight_ops _ _ _). injection E1 as <- _. exact Hins. }
  pose proof (spare_recover_events ops w1 P1) as P2. pose proof (quiet_recover_events clock faults ops w1) as [_ Hi2].
  run_bind [w2 []] eqn E2. simpl in Hi2. rewrite Hi1 in Hi2.
  assert (keyed (w_db w2)) as Hk2 by (unfold keyed; by rewrite Hi2).
  pose proof (spare_reading transitional_instances w2 P2) as P3. run_bind [w3 tr] eqn E3.
  destruct tr as [rows|e]; [|by intros [= <- <-]].
  assert (w_db w3 = w_db w2 /\ rows = transitional_instances (w_db w2)) as [Ed3 ->].
  { unfold reading, journal in E3. destruct (faults _); [done|]. by injection E3 as <- <-. }
  assert (Forall (fun row => ir_id row <> iid \/ ir_state row = IS.Checkpointing) (transitional_instances (w_db w2))) as Hrows.
  { apply Forall_forall. intros row (i' & Hi' & -> & Ht)%transitional_rows; [|done].
    destruct (decide (ir_id (instance_row_from i') = iid)) as [E|]; [|by left]. right. rewrite Hi2, E in Hi'. simpl.
    destruct Hst; congruence. }
  pose proof (spare_recover_instances _ Hrows w3 P3) as P4. run_bind [w4 o] eqn E4.
  destruct o as [[]|e]; [|by intros [= <- <-]]. intros H.
  rewrite <- Ed3 in E4. destruct (recover_instances_live _ _ i ltac:(by rewrite Ed3) E4) as (i4 & Hi4 & Hspec & Ht4);
    [by rewrite Ed3, Hi2|done..|].
  apply (spare_sweep _ _ _ _ Hi4) in H; [done| |done..]. rewrite Hspec. by apply Hk.
Qed.
End Spare.

(** * What a capsule restore hands to the runtime *)

Section Capsule.
Context {W R : Type} (bucket : Bucket R) (sha256 : list Z -> list Z) (names : nat -> string).

Lemma fetch_verified path d (s s' : ObjectStore R) bytes :
  fetch sha256 bucket path d s = (s', Ok (Some bytes)) -> digest_of sha256 bytes = d.
Proof.
  unfold fetch, read_verified, fetch_remote_verified. intros H. repeat (split_match; simplify_eq/=); to_prop; done.
Qed.

(** The object the manifest describes. *)
Definition is_object (obj : CapsuleObject) (o : SnapshotObject) : Prop :=
  digest_of sha256 (so_bytes o) = obj_digest obj /\ length_of (so_bytes o) = obj_length obj /\
  so_type o = default CapsuleObjectType.Unspecified (CapsuleObjectType.try_from (obj_type obj)).

Lemma load_objects_spec cid l (w w' : World W R) os :
  load_objects bucket sha256 names cid l w = (w', Ok os) -> Forall2 is_object l os.
Proof.
  revert w w' os. induction l as [|obj l IH]; intros w w' os; simpl; [by intros [= <- <-]|].
  run_bind [w1 path] eqn E1. run_bind [w2 got] eqn E2. destruct got as [[bytes|]|e]; [|done..].
  assert (digest_of sha256 bytes = obj_digest obj) as Hd.
  { unfold on_store in E2. destruct (fetch _ _ _ _ _) as [s' x] eqn:Ef. injection E2 as _ ->. by eapply fetch_verified. }
  destruct (negb _) eqn:El; [done|]. run_bind [w3 rest] eqn E3. destruct rest as [os'|]; [|done]. simpl. intros [= <- <-].
  constructor; [|by eapply IH]. to_prop. done.
Qed.

(** A capsule restore is given exactly the objects of the registered manifest, in
    its order, each hashing to the manifest's digest and of its length, and of the type
    the manifest names, whatever the local store, the staging area and the bucket hold. *)
Theorem restored_objects_are_the_manifests faults cid (w w' : World W R) os :
  load_capsule_objects bucket sha256 faults names cid w = (w', Ok os) ->
  exists row, get_capsule cid (w_db w) = Some row /\ Forall2 is_object (cm_objects (cr_manifest row)) os.
Proof.
  unfold load_capsule_objects. run_bind [w1 r] eqn E1. destruct r as [[row|]|e]; [|done..]. intros H%load_objects_spec.
  exists row. split; [|done]. unfold reading, journal in E1. destruct (faults _); [done|]. by injection E1 as _ ->.
Qed.
End Capsule.

(** * A concrete node *)

(** A substrate that keeps the list of its sandboxes and never fails. *)
Definition toy_runtime : Runtime (list string) := {|
  rt_name := "toy"; rt_version := "1";
  rt_caps := Build_RuntimeCapabilities true true false true false false false false true false true true false;
  rt_create := fun s spec _ => (instance_id spec :: s, Ok tt);
  rt_start := fun s _ _ _ => (s, Ok tt);
  rt_stop := fun s _ _ => (s, Ok tt);
  rt_stop_status := fun _ _ => Ok None;
  rt_pause := fun s iid => (s, Ok {| ref_snapshot_id := "s-" +:+ iid; ref_kind := SnapshotKind.MemoryAndDisk; ref_size_bytes := 1 |});
  rt_resume := fun s _ _ => (s, Ok tt);
  rt_fork := fun s _ _ spec _ _ => (instance_id spec :: s, Ok {| fork_mode := ForkMode.FullCopy; froze_source := true |});
  rt_restore_from_objects := fun s _ spec _ => (instance_id spec :: s, Ok tt);
  rt_export_snapshot := fun _ _ => Ok [{| so_type := CapsuleObjectType.Memory; so_bytes := [1; 2; 3; 4] |}];
  rt_create_snapshot := fun s iid _ => (s, Ok {| ref_snapshot_id := "s-" +:+ iid; ref_kind := SnapshotKind.MemoryAndDisk; ref_size_bytes := 1 |});
  rt_delete_snapshot := fun s _ => (s, Ok tt);
  rt_destroy := fun s iid => (filter (fun j => j <> iid) s, Ok tt);
  rt_list_labeled := fun s => Ok s;
  rt_remove_orphan := fun s iid => (filter (fun j => j <> iid) s, Ok tt);
  rt_list_credentials := fun _ => Ok [{| cred_id := "c-i"; cred_instance := Some "i" |};
    {| cred_id := "c-j"; cred_instance := Some "j" |}; {| cred_id := "c"; cred_instance := None |}];
  rt_remove_credential := fun s _ => (s, Ok tt);
  rt_list_sandboxes := fun s => Ok ((fun i => {| substrate_id := "sb-" +:+ i; sb_instance_id := i; running := true |}) <$> s);
  rt_remove_sandbox := fun s sid => (filter (fun j => "sb-" +:+ j <> sid) s, Ok tt);
  rt_enumerates_sandboxes := true;
  rt_network_reachable := false;
  rt_workload_address := fun _ _ => Ok None;
  rt_application_logs := fun _ _ _ _ => Err (CapabilityMissing "application logs are unavailable on this runtime");
  rt_substrate_health := fun _ => (SubstrateHealth.Healthy, empty_str);
  g_connect := fun _ _ => Ok tt;
  g_run_hook := fun s _ _ => (s, Ok {| hr_ran := true; hr_timed_out := false; hr_exit_code := 0 |});
  g_restore_duties := fun s _ _ _ => (s, Ok (Build_RestoreReport 32 true 0 false empty_str false));
  g_health := fun s _ _ => (s, Ok {| h_ready := true; last_user_activity := None; idle_declared := None |});
  read_urandom := fun s => (s, Ok [0; 255]) |}.

Definition toy_clock (n : nat) : Z := Z.of_nat n.
Definition no_faults (_ : nat) : option string := None.
Definition toy_names (n : nat) : string := "n" +:+ pretty n.
Definition toy_mint (_ : string) : res string Identity := Err "no network channel".

Definition toy_world : World (list string) unit := mkWorld empty_db ex_store [] 0 0 0 [].

(** Creating an instance: the submission and its executor. *)
Definition toy_submitted : World (list string) unit :=
  fst (submit_claiming toy_runtime toy_sha "cpu" toy_clock no_faults toy_names toy_mint
    KCreate "i" "key" (PCreate ex_spec) None (fun _ => []) toy_world).
Definition toy_op : OperationRow := submitted_row KCreate "i" "n0" (PCreate ex_spec) 0.
Definition toy_created : World (list string) unit :=
  fst (execute toy_runtime no_bucket toy_sha "cpu" toy_clock no_faults toy_names
    KCreate "n0" "i" (PCreate ex_spec) IS.Creating toy_submitted).

Lemma toy_submitted_eq :
  submit_claiming toy_runtime toy_sha "cpu" toy_clock no_faults toy_names toy_mint
    KCreate "i" "key" (PCreate ex_spec) None (fun _ => []) toy_world =
  (toy_submitted, (Ok (Submitted toy_op), Some (toy_op, IS.Creating))).
Proof. vm_compute. reflexivity. Qed.
Lemma toy_created_eq :
  execute toy_runtime no_bucket toy_sha "cpu" toy_clock no_faults toy_names
    KCreate "n0" "i" (PCreate ex_spec) IS.Creating toy_submitted = (toy_created, tt).
Proof. unfold toy_created. by destruct (execute _ _ _ _ _ _ _ _ _ _ _ _ _) as [? []]. Qed.
Lemma toy_submitted_row : operations (w_db toy_submitted) !! "n0" = Some (inserted_op toy_op "key").
Proof. vm_compute. reflexivity. Qed.

Example toy_created_states :
  i_state <$> instances (w_db toy_created) !! "i" = Some IS.Created /\
  o_state <$> operations (w_db toy_created) !! "n0" = Some Op.Done /\ w_sub toy_created = ["i"].
Proof. vm_compute. done. Qed.



Lemma submit_spawns_what_it_journals_witness :
  operations (w_db toy_submitted) = <["n0" := inserted_op toy_op "key"]> (operations (w_db toy_world)).
Proof.
  apply (submit_spawns_what_it_journals toy_runtime toy_sha "cpu" toy_clock no_faults toy_names toy_mint
    KCreate "i" "key" (PCreate ex_spec) None (fun _ => []) toy_world _ _ _ toy_submitted_eq).
Defined.

(** A snapshot was taken under a name, and the request is repeated with its key: it is
    answered with a conflict, not with the operation that took the snapshot. *)
Definition toy_named : World (list string) unit :=
  toy_created <| w_db := (insert_snapshot (mkSnapshotRow "s" "i" SnapshotKind.MemoryAndDisk "cpu" "t" "b" SnapshotTier.Local 1 5 None "a") 5 (w_db toy_created))
    <| operations := {["op1" := (inserted_op (submitted_row KCreateSnapshot "i" "op1" (PCreateSnapshot (Some "a")) 4) "key")
         <| o_state := Op.Done |> <| o_executor_active := false |>]} |> |>.
Lemma named_snapshot_is_not_replayed :
  same_request KCreateSnapshot "i" "key" (PCreateSnapshot (Some "a"))
    ((inserted_op (submitted_row KCreateSnapshot "i" "op1" (PCreateSnapshot (Some "a")) 4) "key")
       <| o_state := Op.Done |> <| o_executor_active := false |>) (w_db toy_named) /\
  exists e, fst (snd (submit_claiming toy_runtime toy_sha "cpu" toy_clock no_faults toy_names toy_mint
    KCreateSnapshot "i" "key" (PCreateSnapshot (Some "a")) None (fun _ => []) toy_named)) = Err e /\
    se_reason e = ErrorReason.SnapshotNameConflict.
Proof. split; [by split_and!|]. eexists. by vm_compute. Qed.

(** A crash between the submission and the end of the create: the next process opens the
    journal and recovers; "j" is a sandbox nobody knows. *)
Definition crashed : World (list string) unit :=
  toy_submitted <| w_db := open (w_db toy_submitted) |> <| w_sub := ["j"; "i"] |>.
Definition toy_recovered := recover toy_runtime toy_clock no_faults (fun _ => 9) crashed.

Lemma crashed_keyed : keyed (w_db crashed).
Proof. apply (bool_decide_unpack (keyed _)). vm_compute. exact I. Qed.

Lemma recovery_resolves_everything_witness :
  has_inflight_op "i" (w_db (fst toy_recovered)) = false /\ w_sub (fst toy_recovered) = [].
Proof.
  split; [|vm_compute; reflexivity].
  destruct (recovery_resolves_everything toy_runtime toy_clock no_faults (fun _ => 9) crashed (fst toy_recovered) (Ok tt)
    crashed_keyed ltac:(vm_compute; reflexivity)) as [_ H].
  destruct (H eq_refl) as (_ & _ & Hi). apply (Hi (w_db toy_submitted)). reflexivity.
Defined.

(** The same crash on a node where a created instance was there already. *)
Definition settled_world : World (list string) unit := toy_created <| w_sub := ["j"; "i"] |>.

#[global] Instance toy_frame : SubstrateFrame toy_runtime "i" (fun s => "i" ∈ s).
Proof. split; simpl; intros s j; [done|]. intros Hj Hs. apply list_elem_of_filter. done. Qed.

Lemma settled_keyed : keyed (w_db settled_world).
Proof. apply (bool_decide_unpack (keyed _)). vm_compute. exact I. Qed.

Lemma recovery_spares_live_sandboxes_witness :
  "i" ∈ w_sub (fst (recover toy_runtime toy_clock no_faults (fun _ => 9) settled_world)) /\
  w_sub (fst (recover toy_runtime toy_clock no_faults (fun _ => 9) settled_world)) = ["i"].
Proof.
  split; [|vm_compute; reflexivity].
  destruct (instances (w_db settled_world) !! "i") as [i|] eqn:Ei; [|vm_compute in Ei; discriminate].
  assert (i_state <$> instances (w_db settled_world) !! "i" = Some IS.Created) as Hc by (vm_compute; reflexivity).
  rewrite Ei in Hc. injection Hc as Hc.
  apply (recovery_spares_live_sandboxes toy_runtime toy_clock no_faults "i" (fun s => "i" ∈ s) (fun _ => 9) settled_world
    (fst (recover toy_runtime toy_clock no_faults (fun _ => 9) settled_world)) (Ok tt) i settled_keyed Ei).
  - by rewrite Hc.
  - left. by rewrite Hc.
  - vm_compute. reflexivity.
  - right. left.
Defined.

(** A registered capsule of one object and a store that holds it. *)
Definition toy_capsule : CapsuleRow := mkCapsuleRow "c" (ex_manifest_of [ex_object ex_digest]) CapsuleStorage.LocalDir 4 7.
Definition capsule_world : World (list string) unit :=
  mkWorld (fst (register_capsule toy_capsule empty_db)) ex_addressed [] 0 0 0 [].

Lemma restored_objects_are_the_manifests_witness :
  exists row, get_capsule "c" (w_db capsule_world) = Some row /\
    Forall2 (is_object toy_sha) (cm_objects (cr_manifest row))
      [{| so_type := CapsuleObjectType.Memory; so_bytes := [1; 2; 3; 4] |}].
Proof.
  apply (restored_objects_are_the_manifests no_bucket toy_sha toy_names no_faults "c" capsule_world
    (fst (load_capsule_objects no_bucket toy_sha no_faults toy_names "c" capsule_world))).
  vm_compute. reflexivity.
Defined.
