(* ===== verification/CapsuleTransfer.v ===== *)
(** Moving a snapshot between nodes: src/crates/barista-node-agent/src/capsule_ops.rs.

    Export stages and publishes the runtime's objects, then registers the manifest that
    names them; import verifies every object a manifest names and registers it with a
    restorable snapshot. Both answer the registered row, whose [to_proto] only repacks
    its fields. *)

From S2P Require Import Prelude Proto StateMachine Journal Events Operations Capsules Codec Restore Objects Runtime Ops Executor.

Definition CapsuleError : Type := ErrorReason.t * string.

(** [capsule_ops::map_runtime_err] *)
Definition map_capsule_err (e : RuntimeError) : CapsuleError :=
  match e with
  | SubstrateUnavailable m => (ErrorReason.SubstrateUnavailable, m)
  | CapabilityMissing m => (ErrorReason.CapabilityMissing, m)
  | other => (ErrorReason.Unspecified, runtime_error_text other)
  end.

Definition IMPORTED_PREFIX : string := "capsule:".
Definition imported_snapshot_id (cid : string) : string := IMPORTED_PREFIX +:+ cid.
Definition capsule_id_from_snapshot_id (sid : string) : option string :=
  option_filter (fun rest => negb (is_empty rest)) (strip_prefix IMPORTED_PREFIX sid).

Section Transfer.
Context {W R : Type} (rt : Runtime W) (bucket : Bucket R) (sha256 : list Z -> list Z).
Context (node_arch node_cpu_class : string).
Context (clock : nat -> Z) (faults : nat -> option string) (names : nat -> string).

#[local] Abbreviation M := (M W R).
#[local] Abbreviation journal := (@journal W R faults).
#[local] Abbreviation reading := (@reading W R faults).
#[local] Abbreviation now_ms := (@now_ms W R clock).
#[local] Abbreviation fresh_name := (@fresh_name W R names).

(** One turn of export's loop: stage, publish, describe. *)
Definition export_object (remote_tier : bool) (obj : SnapshotObject) : M (res CapsuleError CapsuleObject) :=
  let! path := fresh_name in
  let! staged := on_store (stage sha256 path (so_bytes obj)) in
  let d := st_digest staged in
  let n := st_length staged in
  let! c := on_store (if remote_tier then commit_remote sha256 bucket staged d n else commit staged d n) in
  ret match c with
      | Err e => Err (ErrorReason.CapsuleVerificationFailed, e)
      | Ok _ => Ok {| obj_digest := d; obj_length := n; obj_type := CapsuleObjectType.to_i32 (so_type obj);
                      media_type := media_type_of (so_type obj) |}
      end.

(** The loop, with the running total. *)
Fixpoint export_objects (remote_tier : bool) (total : Z) (l : list SnapshotObject)
    : M (res CapsuleError (list CapsuleObject * Z)) :=
  match l with
  | [] => ret (Ok ([], total))
  | obj :: l' =>
      let! r := export_object remote_tier obj in
      match r with
      | Err e => ret (Err e)
      | Ok o =>
          let! rest := export_objects remote_tier (wrap_u64 (total + obj_length o)) l' in
          ret (let? (os, t) := rest in Ok (o :: os, t))
      end
  end.

Definition exported_lineage (snap : SnapshotRow) (row : option InstanceRow) : string :=
  default (sr_instance_id snap)
    (option_filter (fun l => negb (is_empty l)) (lineage_id <$> (row ≫= ir_lineage))).

Definition exported_manifest (snap : SnapshotRow) (objs : list CapsuleObject) (lineage : string) : CapsuleManifest := {|
  schema_version := SCHEMA_VERSION;
  cm_cpu_class := sr_cpu_class snap;
  cm_template_hash := sr_template_hash snap;
  cm_runtime_bundle_ref := sr_runtime_bundle_ref snap;
  cm_kind := SnapshotKind.to_i32 (sr_kind snap);
  cm_objects := objs;
  cm_lineage_id := lineage;
  architecture := node_arch;
  cm_created_at := Some {| seconds := sr_created_at_ms snap / 1000;
                           nanos := sr_created_at_ms snap mod 1000 * 1000000 |};
  required_restore_capabilities :=
    "capsule_import" :: (if bool_decide (sr_kind snap = SnapshotKind.MemoryAndDisk) then ["memory_restore"] else []) |}.

Definition storage_of (remote_tier : bool) : CapsuleStorage.t :=
  if remote_tier then CapsuleStorage.ObjectStore else CapsuleStorage.LocalDir.

(** Registering the row of a manifest. *)
Definition register (m : CapsuleManifest) (remote_tier : bool) (total : Z) : M (res CapsuleError CapsuleRow) :=
  let! t := now_ms in
  let! r := journal (register_capsule (mkCapsuleRow (text_of (capsule_id sha256 m)) m (storage_of remote_tier) total t)) in
  ret (res_map_err (fun e => (ErrorReason.Unspecified, "registering capsule: " +:+ e)) r).

Definition export_capsule (sid : string) (tier : CapsuleStorage.t) : M (res CapsuleError CapsuleRow) :=
  let remote_tier := bool_decide (tier = CapsuleStorage.ObjectStore) in
  let! has := on_store (fun s => (s, has_remote s)) in
  if remote_tier && negb has then
    ret (Err (ErrorReason.ObjectStoreUnavailable,
      "the object-store capsule tier is not configured on this node; export to the local tier or configure a capsule bucket (barista-046 §4.4)"))
  else
    let! r := reading (get_snapshot sid) in
    match r with
    | Err e => ret (Err (ErrorReason.Unspecified, "reading snapshot: " +:+ e))
    | Ok None => ret (Err (ErrorReason.InvalidSpec, "no snapshot " +:+ sid +:+ " is registered on this node to export"))
    | Ok (Some snap) =>
        if negb (capsule_export (rt_caps rt)) then
          ret (Err (ErrorReason.CapabilityMissing, "this runtime cannot export a snapshot as a capsule"))
        else
          let! ex := ask (fun s => rt_export_snapshot rt s sid) in
          match ex with
          | Err e => ret (Err (map_capsule_err e))
          | Ok objs =>
              let! ms := export_objects remote_tier 0 objs in
              match ms with
              | Err e => ret (Err e)
              | Ok (os, total) =>
                  let! i := reading (get_instance (sr_instance_id snap)) in
                  register (exported_manifest snap os (exported_lineage snap (ok_flatten i))) remote_tier total
              end
          end
    end.

(** ** Import *)

Definition has_capability (m : CapsuleManifest) (c : string) : bool :=
  bool_decide (c ∈ required_restore_capabilities m).

Definition capability_available (c : string) : bool :=
  if bool_decide (c = "capsule_import") then capsule_import (rt_caps rt)
  else if bool_decide (c = "memory_restore") then memory_snapshot (rt_caps rt)
  else false.

(** The checks before any object is read, in order. *)
Definition check_manifest (m : CapsuleManifest) : option CapsuleError :=
  if negb (capsule_import (rt_caps rt)) then
    Some (ErrorReason.CapabilityMissing, "this runtime cannot import a capsule")
  else if negb (bool_decide (schema_version m = SCHEMA_VERSION)) then
    Some (ErrorReason.CapsuleIncompatible, "capsule schema " +:+ quoted (schema_version m) +:+
      " is not understood by this node (expected " +:+ quoted SCHEMA_VERSION +:+ ")")
  else if is_empty (architecture m) || negb (bool_decide (architecture m = node_arch)) then
    Some (ErrorReason.CapsuleIncompatible, "capsule architecture " +:+ quoted (architecture m) +:+
      " does not match this node's " +:+ quoted node_arch)
  else match cm_created_at m with
  | None => Some (ErrorReason.InvalidSpec, "capsule manifest has no creation time")
  | Some t =>
      if negb ((0 <=? nanos t) && (nanos t <? 1000000000)) then
        Some (ErrorReason.InvalidSpec, "capsule creation time has invalid nanoseconds")
      else if negb (has_capability m "capsule_import") ||
              (bool_decide (manifest_kind m = SnapshotKind.MemoryAndDisk) && negb (has_capability m "memory_restore")) then
        Some (ErrorReason.InvalidSpec, "capsule manifest omits a capability required by its snapshot kind")
      else match list_find (fun c => capability_available c = false) (required_restore_capabilities m) with
      | Some (_, c) =>
          Some (ErrorReason.CapabilityMissing, "capsule requires unsupported restore capability " +:+ quoted c)
      | None =>
          if negb (is_empty (cm_cpu_class m)) && negb (bool_decide (cm_cpu_class m = node_cpu_class)) then
            Some (ErrorReason.CapsuleIncompatible, "capsule cpu_class " +:+ quoted (cm_cpu_class m) +:+
              " does not match this node's " +:+ quoted node_cpu_class +:+
              "; exact restore would fail rather than silently cold-boot")
          else None
      end
  end.

(** One turn of import's loop: the object's description, then its bytes. *)
Definition import_object (remote_tier : bool) (obj : CapsuleObject) : M (res CapsuleError unit) :=
  let ty := default CapsuleObjectType.Unspecified (CapsuleObjectType.try_from (obj_type obj)) in
  if bool_decide (ty = CapsuleObjectType.Unspecified) || negb (bool_decide (media_type obj = media_type_of ty)) then
    ret (Err (ErrorReason.InvalidSpec, "object " +:+ obj_digest obj +:+ " has media type " +:+ quoted (media_type obj) +:+
      "; expected " +:+ quoted (media_type_of ty) +:+ " for " +:+ CapsuleObjectType.as_str_name ty))
  else
    let! path := fresh_name in
    let! got := on_store (if remote_tier then fetch_remote_verified sha256 bucket path (obj_digest obj)
                          else fetch sha256 bucket path (obj_digest obj)) in
    let! label := on_store (fun s => (s, remote_label s)) in
    ret match got with
        | Ok (Some bytes) =>
            if length_of bytes =? obj_length obj then Ok tt
            else Err (ErrorReason.CapsuleVerificationFailed, "object " +:+ obj_digest obj +:+ " is " +:+
              pretty (length_of bytes) +:+ " bytes but the manifest claims " +:+ pretty (obj_length obj))
        | Ok None =>
            if remote_tier then
              Err (ErrorReason.CapsuleVerificationFailed, "object " +:+ obj_digest obj +:+
                " named by the manifest is not in " +:+ default "the configured object store" label +:+
                "; an OBJECT_STORE import must verify every object from the bucket, and a local copy is not durability evidence")
            else
              Err (ErrorReason.CapsuleVerificationFailed, "object " +:+ obj_digest obj +:+
                " named by the manifest is not present in this node's store" +:+
                match label with Some b => " or in " +:+ b | None => empty_str end)
        | Err e => Err (ErrorReason.CapsuleVerificationFailed, "object " +:+ obj_digest obj +:+ " failed verification: " +:+ e)
        end.

Fixpoint import_objects (remote_tier : bool) (total : Z) (l : list CapsuleObject) : M (res CapsuleError Z) :=
  match l with
  | [] => ret (Ok total)
  | obj :: l' =>
      let! r := import_object remote_tier obj in
      match r with
      | Err e => ret (Err e)
      | Ok _ => import_objects remote_tier (wrap_u64 (total + obj_length obj)) l'
      end
  end.

Definition imported_snapshot (m : CapsuleManifest) (cid : string) (remote_tier : bool) (total t : Z) : SnapshotRow :=
  mkSnapshotRow (imported_snapshot_id cid) empty_str (manifest_kind m) (cm_cpu_class m) (cm_template_hash m)
    (cm_runtime_bundle_ref m) (if remote_tier then SnapshotTier.ObjectStore else SnapshotTier.Local) total t None empty_str.

Definition import_capsule (m : CapsuleManifest) (storage : CapsuleStorage.t) : M (res CapsuleError CapsuleRow) :=
  let remote_tier := bool_decide (storage = CapsuleStorage.ObjectStore) in
  let! has := on_store (fun s => (s, has_remote s)) in
  if remote_tier && negb has then
    ret (Err (ErrorReason.ObjectStoreUnavailable,
      "this capsule's objects live in an object store and none is configured on this node (barista-046 §4.4)"))
  else match check_manifest m with
  | Some e => ret (Err e)
  | None =>
      let! v := import_objects remote_tier 0 (cm_objects m) in
      match v with
      | Err e => ret (Err e)
      | Ok total =>
          let! r := register m remote_tier total in
          match r with
          | Err e => ret (Err e)
          | Ok registered =>
              let! t := now_ms in
              let! u := now_ms in
              let! j := journal (fun db => (insert_snapshot
                (imported_snapshot m (text_of (capsule_id sha256 m)) remote_tier total t) u db, tt)) in
              ret match j with
                  | Ok _ => Ok registered
                  | Err e => Err (ErrorReason.Unspecified, "registering snapshot: " +:+ e)
                  end
          end
      end
  end.
End Transfer.

(** * Digests as file names *)

Lemma bytes_of_text_of l : Forall is_byte l -> bytes_of (text_of l) = l.
Proof.
  unfold is_byte. induction 1 as [|b l Hb _ IH]; [done|]. simpl. rewrite IH, Ascii.nat_ascii_embedding by lia.
  f_equal. lia.
Qed.

Lemma to_lower_hex l : Forall is_byte l -> Forall (fun c => c ∈ HEX) (to_lower l).
Proof.
  assert (forall n, 0 <= n < 16 -> nth (Z.to_nat n) HEX 0 ∈ HEX) as Hn.
  { intros n Hn. apply list_elem_of_In, nth_In. change (length HEX) with 16%nat. lia. }
  induction 1 as [|b l Hb _ IH]; [done|]. rewrite to_lower_cons. apply nibbles in Hb as (? & ? & _).
  apply Forall_cons_2; [auto|]. apply Forall_cons_2; auto.
Qed.

Lemma contains_any_false cs l : Forall (fun c => c ∉ cs) l -> contains_any cs l = false.
Proof. induction 1; simpl; [done|]. by rewrite bool_decide_false. Qed.

(** A digest is a single path component. *)
Lemma digest_path_safe sha256 bytes :
  (forall l, Forall is_byte (sha256 l)) -> is_path_safe_digest (digest_of sha256 bytes) = true.
Proof.
  intros Hsha. unfold digest_of, object_digest. pose proof (to_lower_hex _ (Hsha bytes)) as Hx.
  assert (Forall (fun c => is_byte c /\ c ∉ [47; 92; 0]) (bytes_of "sha256:" ++ to_lower (sha256 bytes))) as Hall.
  { apply Forall_app. split; [apply (bool_decide_unpack _); by vm_compute|].
    eapply Forall_impl; [exact Hx|]. apply Forall_forall. apply (bool_decide_unpack _). by vm_compute. }
  unfold is_path_safe_digest. rewrite bytes_of_text_of by (eapply Forall_impl; [exact Hall|]; by intros ? [? _]).
  rewrite contains_any_false by (eapply Forall_impl; [exact Hall|]; by intros ? [_ ?]).
  done.
Qed.

(** * From the exporting runtime to the importing one *)

Section RoundTrip.
Context {W R : Type} (bucket : Bucket R) (sha256 : list Z -> list Z).
Context (sha_bytes : forall l, Forall is_byte (sha256 l)).

(** The manifest's entry for an object. *)
Definition described (o : SnapshotObject) : CapsuleObject := {|
  obj_digest := digest_of sha256 (so_bytes o); obj_length := length_of (so_bytes o);
  obj_type := CapsuleObjectType.to_i32 (so_type o); media_type := media_type_of (so_type o) |}.

(** No other bytes among these hash as this object's do. *)
Definition collision_free (known : list Z -> Prop) (o : SnapshotObject) : Prop :=
  forall b, known b -> digest_of sha256 b = digest_of sha256 (so_bytes o) -> b = so_bytes o.

(** The store holds known bytes only. *)
Definition stores (known : list Z -> Prop) (s : ObjectStore R) : Prop := map_Forall (fun _ b => known b) (objects s).

Definition holds (m : gmap string (list Z)) (o : SnapshotObject) : Prop :=
  m !! digest_of sha256 (so_bytes o) = Some (so_bytes o).

Lemma holds_mono m m' o : m ⊆ m' -> holds m o -> holds m' o.
Proof. unfold holds. intros Hs Hm. by apply (lookup_weaken m). Qed.

Lemma export_object_spec known names o (w w' : World W R) x :
  addressed sha256 (w_store w) -> stores known (w_store w) -> known (so_bytes o) -> collision_free known o ->
  export_object bucket sha256 names false o w = (w', Ok x) ->
  x = described o /\ w_db w' = w_db w /\ addressed sha256 (w_store w') /\ stores known (w_store w') /\
  objects (w_store w) ⊆ objects (w_store w') /\ holds (objects (w_store w')) o.
Proof.
  intros Ha Hst Hkn Hc. unfold export_object, fresh_name, on_store, bind, ret. simpl.
  unfold commit. simpl. rewrite lookup_insert_eq.
  destruct (mismatch _ _ _) eqn:Em; [done|].
  destruct (objects (w_store w) !! digest_of sha256 (so_bytes o)) as [b|] eqn:Eb; simpl; intros [= <- <-]; simpl.
  - split_and!; [done..|]. unfold holds. simpl. rewrite Eb. f_equal. apply Hc; [by eapply Hst|by apply Ha].
  - split_and!; [done..| | | |].
    + intros d b. simpl. intros [[<- <-]|[_ ?]]%lookup_insert_Some; [done|by apply Ha].
    + by apply map_Forall_insert_2.
    + by apply insert_subseteq.
    + unfold holds. apply lookup_insert_eq.
Qed.

Lemma export_objects_spec known names total l (w w' : World W R) os t :
  addressed sha256 (w_store w) -> stores known (w_store w) -> Forall (fun o => known (so_bytes o)) l ->
  Forall (collision_free known) l ->
  export_objects bucket sha256 names false total l w = (w', Ok (os, t)) ->
  os = described <$> l /\ w_db w' = w_db w /\ addressed sha256 (w_store w') /\
  objects (w_store w) ⊆ objects (w_store w') /\ Forall (holds (objects (w_store w'))) l.
Proof.
  revert total w w' os t. induction l as [|o l IH]; intros total w w' os t Ha Hst Hkn Hc; simpl.
  { intros [= <- <- <-]. by split_and!. }
  apply Forall_cons in Hc as [Ho Hc], Hkn as [Hko Hkn]. run_bind [w1 r] eqn E1. destruct r as [x|]; [|done].
  apply (export_object_spec known) in E1 as (-> & Ed & Ha1 & Hst1 & Hs1 & Hh); [|done..]. run_bind [w2 r] eqn E2.
  destruct r as [[os' t']|]; [|done]. simpl. intros [= <- <- <-].
  apply IH in E2 as (-> & Ed2 & Ha2 & Hs2 & Hf); [|done..]. split_and!; [done|congruence|done|by etransitivity|].
  constructor; [by eapply holds_mono|done].
Qed.

(** Bytes a node holds are what a fetch answers. *)
Lemma fetch_held path o (s : ObjectStore R) :
  holds (objects s) o -> fetch sha256 bucket path (digest_of sha256 (so_bytes o)) s = (s, Ok (Some (so_bytes o))).
Proof.
  unfold holds, fetch, read_verified. intros Hh. rewrite digest_path_safe by done. simpl. rewrite Hh.
  by rewrite bool_decide_true.
Qed.

Lemma try_from_to_i32 k : CapsuleObjectType.try_from (CapsuleObjectType.to_i32 k) = Some k.
Proof. by destruct k. Qed.

Lemma import_objects_spec names total l (w : World W R) :
  Forall (holds (objects (w_store w))) l -> Forall (fun o => so_type o <> CapsuleObjectType.Unspecified) l ->
  exists w' t, import_objects bucket sha256 names false total (described <$> l) w = (w', Ok t) /\
    w_db w' = w_db w /\ w_store w' = w_store w.
Proof.
  revert total w. induction l as [|o l IH]; intros total w Hh Ht; simpl; [by eexists _, _|].
  apply Forall_cons in Hh as [Ho Hh], Ht as [Hto Ht].
  set (w1 := w <| w_names := S (w_names w) |> <| w_store := w_store w |> <| w_store := w_store w |>).
  rewrite (bind_eq _ _ w w1 (Ok tt)).
  - destruct (IH (wrap_u64 (total + length_of (so_bytes o))) w1) as (w' & t & E & Hd & Hs); [done..|]. eauto.
  - unfold import_object. simpl. rewrite try_from_to_i32. simpl. rewrite bool_decide_false, bool_decide_true by done.
    unfold fresh_name, on_store, bind, ret. simpl. rewrite fetch_held by done. simpl. by rewrite Z.eqb_refl.
Qed.

Lemma load_objects_held names cid l (w : World W R) :
  Forall (holds (objects (w_store w))) l ->
  exists w', load_objects bucket sha256 names cid (described <$> l) w = (w', Ok l).
Proof.
  revert w. induction l as [|o l IH]; intros w Hh; simpl; [by eexists|]. apply Forall_cons in Hh as [Ho Hh].
  run_bind [w1 path] eqn E1. injection E1 as E1 _. run_bind [w2 got] eqn E2. unfold on_store in E2.
  assert (w_store w1 = w_store w) as Es by (by rewrite <- E1). rewrite fetch_held in E2 by (by rewrite Es).
  injection E2 as <- <-. rewrite Z.eqb_refl. simpl.
  destruct (IH (w1 <| w_store := w_store w1 |>)) as (w' & E); [simpl; by rewrite Es|].
  rewrite (bind_eq _ _ _ _ _ E). exists w'. unfold ret. simpl. rewrite try_from_to_i32. simpl. by destruct o.
Qed.

(** ** Export *)

(** A registration that answers has registered. *)
Lemma register_spec clock faults m remote_tier total (w w' : World W R) row :
  register sha256 clock faults m remote_tier total w = (w', Ok row) ->
  w_store w' = w_store w /\
  exists t, register_capsule (mkCapsuleRow (text_of (capsule_id sha256 m)) m (storage_of remote_tier) total t) (w_db w)
              = (w_db w', row).
Proof.
  unfold register, now_ms, journal, bind, ret. simpl. destruct (faults _); [done|].
  destruct (register_capsule _ _) as [d r] eqn:E. simpl. intros [= <- <-]. simpl. eauto.
Qed.

Lemma register_ok clock faults m remote_tier total (w : World W R) :
  (forall n, faults n = None) ->
  exists w' row, register sha256 clock faults m remote_tier total w = (w', Ok row).
Proof.
  intros Hn. unfold register, now_ms, journal, bind, ret. simpl. rewrite Hn. destruct (register_capsule _ _). simpl. eauto.
Qed.

Lemma register_capsule_new row d d' r :
  capsules d !! cr_capsule_id row = None -> register_capsule row d = (d', r) ->
  r = row /\ snapshots d' = snapshots d /\
  exists c, capsules d' !! cr_capsule_id row = Some c /\ c_manifest c = cr_manifest row.
Proof.
  unfold register_capsule. intros ->. intros [= <- <-]. simpl. split_and!; [done..|].
  rewrite lookup_insert_eq. eauto.
Qed.

Lemma export_capsule_spec known rt arch clock faults names sid snap objs (w w' : World W R) row :
  get_snapshot sid (w_db w) = Some snap -> rt_export_snapshot rt (w_sub w) sid = Ok objs ->
  addressed sha256 (w_store w) -> stores known (w_store w) -> Forall (fun o => known (so_bytes o)) objs ->
  Forall (collision_free known) objs ->
  export_capsule rt bucket sha256 arch clock faults names sid CapsuleStorage.LocalDir w = (w', Ok row) ->
  Forall (holds (objects (w_store w'))) objs /\
  exists lineage total t,
    register_capsule (mkCapsuleRow (text_of (capsule_id sha256 (exported_manifest arch snap (described <$> objs) lineage)))
      (exported_manifest arch snap (described <$> objs) lineage) CapsuleStorage.LocalDir total t) (w_db w) = (w_db w', row).
Proof.
  intros Hsnap Hex Ha Hst Hkn Hc. unfold export_capsule. run_bind [w0 has] eqn E0. injection E0 as E0 _.
  rewrite bool_decide_false by done. cbn [andb]. run_bind [w1 r] eqn E1. unfold reading, journal in E1.
  assert (w_db w0 = w_db w /\ w_store w0 = w_store w /\ w_sub w0 = w_sub w) as (Ed0 & Es0 & Ew0) by (by rewrite <- E0).
  destruct (faults (w_calls w0)); injection E1 as E1 <-; [done|]. rewrite Ed0, Hsnap. destruct (negb _); [done|].
  assert (w_db w1 = w_db w /\ w_store w1 = w_store w /\ w_sub w1 = w_sub w) as (Ed1 & Es1 & Ew1) by (by rewrite <- E1).
  run_bind [w2 ex] eqn E2. unfold ask, substrate in E2. rewrite Ew1, Hex in E2. injection E2 as E2 <-.
  run_bind [w3 ms] eqn E3. destruct ms as [[os total]|]; [|done].
  apply (export_objects_spec known) in E3 as (-> & Ed3 & _ & _ & Hh); [|by rewrite <- E2; simpl; rewrite Es1..|done|done].
  run_bind [w4 i] eqn E4. unfold reading, journal in E4.
  assert (w_db w4 = w_db w3 /\ w_store w4 = w_store w3) as [Ed4 Es4] by (destruct (faults _); by injection E4 as <- _).
  intros (Es & t & Hreg)%register_spec. rewrite Es, Es4. split; [done|].
  do 3 eexists. rewrite Ed4, Ed3 in Hreg. rewrite <- E2 in Hreg. simpl in Hreg.
  rewrite Ed1 in Hreg. exact Hreg.
Qed.

(** ** Import *)

Lemma manifest_kind_exported arch snap os l : manifest_kind (exported_manifest arch snap os l) = sr_kind snap.
Proof. unfold manifest_kind. simpl. by destruct (sr_kind snap). Qed.

(** An exported manifest passes the checks of a node like the exporter's. *)
Lemma check_exported rt arch cpu snap os l :
  arch <> empty_str -> sr_cpu_class snap = empty_str \/ sr_cpu_class snap = cpu ->
  capsule_import (rt_caps rt) = true -> memory_snapshot (rt_caps rt) = true ->
  check_manifest (W := W) rt arch cpu (exported_manifest arch snap os l) = None.
Proof.
  intros Harch Hcpu Hi Hm. unfold check_manifest. rewrite Hi, manifest_kind_exported. simpl.
  assert (is_empty arch = false) as -> by (by apply is_empty_false). rewrite !bool_decide_true by done. simpl.
  assert (0 <= sr_created_at_ms snap mod 1000 < 1000) by (apply Z.mod_pos_bound; lia).
  assert ((0 <=? sr_created_at_ms snap mod 1000 * 1000000) && (sr_created_at_ms snap mod 1000 * 1000000 <? 1000000000) = true) as ->
    by (apply andb_true_iff; rewrite Z.leb_le, Z.ltb_lt; lia). simpl.
  unfold has_capability. cbn [required_restore_capabilities exported_manifest].
  assert (bool_decide (sr_kind snap = SnapshotKind.MemoryAndDisk) && negb (bool_decide ("memory_restore" ∈ "capsule_import" ::
    (if bool_decide (sr_kind snap = SnapshotKind.MemoryAndDisk) then ["memory_restore"] else []))) = false) as ->.
  { case_bool_decide; [|done]. by rewrite (bool_decide_true ("memory_restore" ∈ _)) by (right; left). }
  rewrite decide_False by (unfold capability_available; simpl; congruence).
  assert (list_find (fun c => capability_available (W := W) rt c = false)
    (if bool_decide (sr_kind snap = SnapshotKind.MemoryAndDisk) then ["memory_restore"] else []) = None) as ->.
  { apply list_find_None. case_bool_decide; repeat constructor. unfold capability_available. simpl. congruence. }
  simpl. destruct Hcpu as [E|E]; rewrite E; [done|]. by rewrite bool_decide_true, andb_false_r by done.
Qed.

Lemma import_capsule_held rt arch cpu clock faults names snap objs l (w : World W R) :
  arch <> empty_str -> sr_cpu_class snap = empty_str \/ sr_cpu_class snap = cpu ->
  capsule_import (rt_caps rt) = true -> memory_snapshot (rt_caps rt) = true ->
  (forall n, faults n = None) -> Forall (holds (objects (w_store w))) objs ->
  Forall (fun o => so_type o <> CapsuleObjectType.Unspecified) objs ->
  let m := exported_manifest arch snap (described <$> objs) l in
  let cid := text_of (capsule_id sha256 m) in
  capsules (w_db w) !! cid = None ->
  exists w' row, import_capsule rt bucket sha256 arch cpu clock faults names m CapsuleStorage.LocalDir w = (w', Ok row) /\
    cr_capsule_id row = cid /\ cr_manifest row = m /\ w_store w' = w_store w /\
    (exists c, capsules (w_db w') !! cid = Some c /\ c_manifest c = m) /\
    exists total t, snapshots (w_db w') !! imported_snapshot_id cid = Some (snapshot_cols (imported_snapshot m cid false total t)).
Proof.
  intros Harch Hcpu Hi Hm Hn Hh Ht m cid Hnew. unfold import_capsule. run_bind [w0 has] eqn E0. injection E0 as E0 _.
  assert (w_db w0 = w_db w /\ w_store w0 = w_store w) as [Ed0 Es0] by (by rewrite <- E0).
  rewrite bool_decide_false by done. cbn [andb]. unfold m at 1. rewrite check_exported by done. fold m.
  change (cm_objects m) with (described <$> objs).
  destruct (import_objects_spec names 0 objs w0) as (w1 & total & E1 & Ed1 & Es1); [by rewrite Es0|done|].
  rewrite (bind_eq _ _ _ _ _ E1).
  destruct (register_ok clock faults m false total w1 Hn) as (w2 & row & E2). rewrite (bind_eq _ _ _ _ _ E2).
  apply register_spec in E2 as (Es2 & t & Hreg).
  apply register_capsule_new in Hreg as (-> & Hsn & c & Hc & Hcm); [|simpl; by rewrite Ed1, Ed0].
  set (w3 := w2 <| w_ticks := S (w_ticks w2) |>). rewrite (bind_eq (now_ms clock) _ w2 w3 (clock (w_ticks w2))) by done.
  set (w4 := w3 <| w_ticks := S (w_ticks w3) |>). rewrite (bind_eq (now_ms clock) _ w3 w4 (clock (w_ticks w3))) by done.
  run_bind [w5 j] eqn E5. unfold journal in E5. rewrite Hn in E5. injection E5 as E5 <-.
  eexists w5, _. split; [reflexivity|]. rewrite <- E5. simpl in *. split_and!; [done|done|congruence|eauto|].
  exists total, (clock (w_ticks w2)). by rewrite lookup_insert_eq.
Qed.

Lemma imported_id_roundtrip cid : cid <> empty_str -> capsule_id_from_snapshot_id (imported_snapshot_id cid) = Some cid.
Proof.
  intros Hc. unfold capsule_id_from_snapshot_id, imported_snapshot_id.
  assert (strip_prefix IMPORTED_PREFIX (IMPORTED_PREFIX +:+ cid) = Some cid) as -> by done.
  unfold option_filter. by rewrite (proj2 (is_empty_false cid) Hc).
Qed.

(** C38: a snapshot exported to the local tier on one node restores on another. If the
    importing node has the same architecture, the snapshot's CPU class and the restore
    capabilities, and holds the exported objects, the import succeeds under the same
    capsule id with the same manifest; it offers a snapshot of the same kind, CPU class,
    template and bundle under an id that leads back to the capsule; and a restore there
    is handed exactly the objects the exporting runtime produced. SHA-256 is only asked
    not to confuse the exported objects with one another or with what the exporting
    node's store holds. *)
Theorem export_import_roundtrip known rtA rtB arch cpuB clockA clockB faultsA faultsB namesA namesB sid snap objs
    (wA wA' wB : World W R) row :
  get_snapshot sid (w_db wA) = Some snap -> rt_export_snapshot rtA (w_sub wA) sid = Ok objs ->
  addressed sha256 (w_store wA) -> stores known (w_store wA) -> Forall (fun o => known (so_bytes o)) objs ->
  Forall (collision_free known) objs ->
  Forall (fun o => so_type o <> CapsuleObjectType.Unspecified) objs ->
  export_capsule rtA bucket sha256 arch clockA faultsA namesA sid CapsuleStorage.LocalDir wA = (wA', Ok row) ->
  capsules (w_db wA) !! cr_capsule_id row = None ->
  arch <> empty_str -> sr_cpu_class snap = empty_str \/ sr_cpu_class snap = cpuB ->
  capsule_import (rt_caps rtB) = true -> memory_snapshot (rt_caps rtB) = true ->
  (forall n, faultsB n = None) -> objects (w_store wA') ⊆ objects (w_store wB) ->
  capsules (w_db wB) !! cr_capsule_id row = None ->
  exists wB' rowB,
    import_capsule rtB bucket sha256 arch cpuB clockB faultsB namesB (cr_manifest row) CapsuleStorage.LocalDir wB = (wB', Ok rowB) /\
    cr_capsule_id rowB = cr_capsule_id row /\ cr_manifest rowB = cr_manifest row /\
    capsule_id_from_snapshot_id (imported_snapshot_id (cr_capsule_id row)) = Some (cr_capsule_id row) /\
    (exists s, get_snapshot (imported_snapshot_id (cr_capsule_id row)) (w_db wB') = Some s /\ sr_kind s = sr_kind snap /\
       sr_cpu_class s = sr_cpu_class snap /\ sr_template_hash s = sr_template_hash snap /\
       sr_runtime_bundle_ref s = sr_runtime_bundle_ref snap) /\
    exists w, load_capsule_objects bucket sha256 faultsB namesB (cr_capsule_id row) wB' = (w, Ok objs).
Proof.
  intros Hsnap Hex Ha Hst0 Hkn Hc Ht He HnewA Harch Hcpu Hi Hm Hn Hsub HnewB.
  destruct (export_capsule_spec _ _ _ _ _ _ _ _ _ _ _ _ Hsnap Hex Ha Hst0 Hkn Hc He) as (Hh & l & total & t & Hreg).
  set (m := exported_manifest arch snap (described <$> objs) l) in *.
  assert (cr_capsule_id row = text_of (capsule_id sha256 m)) as Hid.
  { unfold register_capsule in Hreg. simpl in Hreg. by repeat (split_match; simplify_eq/=). }
  rewrite Hid in *. apply register_capsule_new in Hreg as (-> & _); [|done]. cbn [cr_manifest].
  destruct (import_capsule_held rtB arch cpuB clockB faultsB namesB snap objs l wB Harch Hcpu Hi Hm Hn)
    as (wB' & rowB & Eimp & Hrid & Hrm & Hst & (c & Hcap & Hcm) & total' & t' & Hs);
    [by eapply Forall_impl; [exact Hh|]; intros o; apply holds_mono|done|done|]. fold m in Eimp, Hrid, Hrm, Hcap, Hcm, Hs.
  assert (text_of (capsule_id sha256 m) <> empty_str) as Hne by done.
  remember (text_of (capsule_id sha256 m)) as cid eqn:Ecid.
  exists wB', rowB. split_and!; [done..| | |].
  - by apply imported_id_roundtrip.
  - unfold get_snapshot. rewrite Hs. eexists. split; [reflexivity|]. simpl. unfold m. by rewrite manifest_kind_exported.
  - unfold load_capsule_objects. run_bind [w1 r] eqn E1. unfold reading, journal in E1. rewrite Hn in E1.
    injection E1 as E1 <-. unfold get_capsule. rewrite Hcap. simpl. rewrite Hcm. simpl.
    apply load_objects_held. rewrite <- E1. simpl. rewrite Hst. eapply Forall_impl; [exact Hh|]. intros o. by apply holds_mono.
Qed.
End RoundTrip.

(** * Import verifies before it registers *)

Section Verified.
Context {W R : Type} (rt : Runtime W) (bucket : Bucket R) (sha256 : list Z -> list Z).
Context (node_arch node_cpu_class : string).
Context (clock : nat -> Z) (faults : nat -> option string) (names : nat -> string).
#[local] Abbreviation import_capsule := (import_capsule rt bucket sha256 node_arch node_cpu_class clock faults names).

(** What a fetch does to the store and what it answers. *)
Definition fetched (d : string) (s s' : ObjectStore R) (r : res string (option (list Z))) : Prop :=
  addressed sha256 s' /\ objects s ⊆ objects s' /\
  forall bytes, r = Ok (Some bytes) -> digest_of sha256 bytes = d /\ is_Some (objects s' !! d).

Lemma commit_grows t d n (s s' : ObjectStore R) r :
  commit t d n s = (s', r) ->
  objects s ⊆ objects s' /\ (r = Ok tt -> is_Some (objects s' !! d)).
Proof.
  unfold commit. destruct (mismatch t d n); [by intros [= <- <-]|].
  destruct (objects s !! d) eqn:Eo; [intros [= <- <-]; simpl; by rewrite Eo|].
  destruct (staging s !! st_path t); intros [= <- <-]; simpl; [|done].
  split; [by apply insert_subseteq|]. by rewrite lookup_insert_eq.
Qed.

Lemma fetch_remote_fetched path d (s s' : ObjectStore R) r :
  addressed sha256 s -> fetch_remote_verified sha256 bucket path d s = (s', r) -> fetched d s s' r.
Proof.
  intros Ha E. pose proof (fetch_remote_addressed sha256 bucket path d s s' r Ha E) as [Ha' Hd]. split; [done|].
  revert E. unfold fetch_remote_verified. destruct (remote s) as [[x label]|]; [|by intros [= <- <-]].
  destruct (b_get bucket x (remote_path d)) as [[bytes|]|e]; [|by intros [= <- <-]..].
  destruct (negb _); [by intros [= <- <-]|]. simpl. destruct (commit _ _ _ _) as [s2 c] eqn:Ec. apply commit_grows in Ec as [Hs Hc].
  destruct c as [[]|e]; intros [= <- <-]; (split; [exact Hs|]); intros b [= <-]; auto.
Qed.

Lemma fetch_fetched path d (s s' : ObjectStore R) r :
  addressed sha256 s -> fetch sha256 bucket path d s = (s', r) -> fetched d s s' r.
Proof.
  intros Ha. unfold fetch. destruct (read_verified sha256 d s) as [[b|]|e] eqn:Er; [| |by intros [= <- <-]].
  - intros [= <- <-]. split_and!; [done..|]. intros b' [= <-]. unfold read_verified in Er.
    destruct (negb _); [done|]. destruct (objects s !! d) eqn:Eo; [|done]. case_bool_decide; simplify_eq/=. eauto.
  - by apply fetch_remote_fetched.
Qed.

(** An object a manifest names, checked against bytes and held by the node. *)
Definition verified (s : ObjectStore R) (obj : CapsuleObject) : Prop :=
  (exists bytes, digest_of sha256 bytes = obj_digest obj /\ length_of bytes = obj_length obj) /\
  exists b, objects s !! obj_digest obj = Some b /\ digest_of sha256 b = obj_digest obj.

Lemma verified_mono s s' obj : objects s ⊆ objects s' -> verified s obj -> verified s' obj.
Proof. intros Hs [H (b & Hb & Hd)]. split; [done|]. exists b. split; [by apply (lookup_weaken (objects s))|done]. Qed.

Lemma import_object_spec rem obj (w w' : World W R) r :
  addressed sha256 (w_store w) -> import_object bucket sha256 names rem obj w = (w', r) ->
  w_db w' = w_db w /\ addressed sha256 (w_store w') /\ objects (w_store w) ⊆ objects (w_store w') /\
  (r = Ok tt -> verified (w_store w') obj).
Proof.
  intros Ha. unfold import_object. destruct (_ || _); [by intros [= <- <-]|].
  unfold fresh_name, on_store, bind, ret. simpl.
  destruct ((if rem then _ else _) (w_store w)) as [s' got] eqn:Ef. simpl. intros [= <- <-]. simpl.
  assert (fetched (obj_digest obj) (w_store w) s' got) as (Ha' & Hs & Hb)
    by (destruct rem; [by eapply fetch_remote_fetched|by eapply fetch_fetched]).
  split_and!; [done..|]. destruct got as [[bytes|]|e]; [|by destruct rem|done].
  destruct (Z.eqb_spec (length_of bytes) (obj_length obj)) as [El|]; [|done]. intros _.
  destruct (Hb bytes eq_refl) as [Hd [b Hbs]]. split; [by exists bytes|]. exists b. split; [done|]. by apply Ha'.
Qed.

Lemma import_objects_verify rem total l (w w' : World W R) r :
  addressed sha256 (w_store w) -> import_objects bucket sha256 names rem total l w = (w', r) ->
  w_db w' = w_db w /\ addressed sha256 (w_store w') /\ objects (w_store w) ⊆ objects (w_store w') /\
  (forall t, r = Ok t -> Forall (verified (w_store w')) l).
Proof.
  revert total w w' r. induction l as [|obj l IH]; intros total w w' r Ha; simpl; [by intros [= <- <-]|].
  run_bind [w1 o] eqn E1. apply import_object_spec in E1 as (Ed & Ha1 & Hs & Hv); [|done].
  destruct o as [[]|e]; [|by intros [= <- <-]]. intros E. apply IH in E as (Ed2 & Ha2 & Hs2 & Hv2); [|done].
  split_and!; [congruence|done|by etransitivity|]. intros t Ht. constructor; [|by eapply Hv2].
  eapply verified_mono; [exact Hs2|]. by apply Hv.
Qed.

Lemma register_err m rem total (w w' : World W R) r :
  register sha256 clock faults m rem total w = (w', r) ->
  w_store w' = w_store w /\ ((forall n, faults n = None) -> exists row, r = Ok row).
Proof.
  unfold register, now_ms, journal, bind, ret. simpl. destruct (faults _) eqn:Ef.
  - intros [= <- <-]. split; [done|]. intros Hn. by rewrite Hn in Ef.
  - destruct (register_capsule _ _). intros [= <- <-]. simpl. eauto.
Qed.

(** What an import that answers has left in the journal. *)
Lemma register_capsule_id row d d' r : register_capsule row d = (d', r) ->
  cr_capsule_id r = cr_capsule_id row /\ is_Some (capsules d' !! cr_capsule_id row).
Proof.
  unfold register_capsule. intros H. repeat (split_match; simplify_eq/=); (split; [done|]);
    rewrite ?lookup_insert_eq; eauto.
Qed.

(** C39: import registers nothing it has not verified. If it answers a capsule, the
    manifest passed every check, the capsule is registered under the manifest's id, and
    for each object named there were bytes of that digest and length and the node's own
    store holds an object that hashes to that digest. If it is refused and no journal
    call failed, the journal is as it was: nothing is registered. Either way the store's
    objects still sit under their digests. *)
Theorem import_verifies_before_registering m storage (w w' : World W R) r :
  addressed sha256 (w_store w) ->
  import_capsule m storage w = (w', r) ->
  addressed sha256 (w_store w') /\
  match r with
  | Ok row => check_manifest rt node_arch node_cpu_class m = None /\
      cr_capsule_id row = text_of (capsule_id sha256 m) /\
      is_Some (capsules (w_db w') !! cr_capsule_id row) /\
      Forall (verified (w_store w')) (cm_objects m)
  | Err _ => (forall n, faults n = None) -> w_db w' = w_db w
  end.
Proof.
  intros Ha. unfold CapsuleTransfer.import_capsule. run_bind [w0 has] eqn E0. injection E0 as E0 _.
  assert (w_db w0 = w_db w /\ w_store w0 = w_store w) as [Ed0 Es0] by (by rewrite <- E0).
  destruct (_ && _); [intros [= <- <-]; by rewrite Es0|].
  destruct (check_manifest _ _ _ m) eqn:Em; [intros [= <- <-]; by rewrite Es0|].
  run_bind [w1 v] eqn E1. apply import_objects_verify in E1 as (Ed1 & Ha1 & _ & Hv); [|by rewrite Es0].
  destruct v as [total|e]; [|intros [= <- <-]; split; [done|]; congruence].
  run_bind [w2 reg] eqn E2. pose proof (register_err _ _ _ _ _ _ E2) as [Es2 Hok].
  destruct reg as [row|e]; [|intros [= <- <-]; rewrite Es2; split; [done|]; intros Hn; by destruct (Hok Hn)].
  apply register_spec in E2 as (_ & t & [Hid Hreg]%register_capsule_id).
  set (w3 := w2 <| w_ticks := S (w_ticks w2) |>). rewrite (bind_eq (now_ms clock) _ w2 w3 (clock (w_ticks w2))) by done.
  set (w4 := w3 <| w_ticks := S (w_ticks w3) |>). rewrite (bind_eq (now_ms clock) _ w3 w4 (clock (w_ticks w3))) by done.
  run_bind [w5 j] eqn E5. unfold journal in E5. destruct (faults (w_calls w4)) as [e|] eqn:Ef;
    injection E5 as E5 <-; intros [= <- <-]; rewrite <- E5.
  - unfold w4, w3. simpl. rewrite Es2. split; [done|]. intros Hn. by rewrite Hn in Ef.
  - cbn [w_store]. unfold set_field. simpl. rewrite Es2. split; [done|]. split_and!; [done|done|by rewrite Hid|by eapply Hv].
Qed.
End Verified.

(** * A concrete transfer *)

Definition sum_sha (l : list Z) : list Z := [foldr Z.add 0 l mod 256].
Lemma sum_sha_bytes l : Forall is_byte (sum_sha l).
Proof. repeat constructor; apply Z.mod_pos_bound; lia. Qed.

Definition ex_captured : SnapshotRow :=
  mkSnapshotRow "s" "i" SnapshotKind.MemoryAndDisk "cpu" "t" "1" SnapshotTier.Local 4 7000 (Some HookOutcome_default) empty_str.
Definition source_world : World (list string) unit :=
  mkWorld (insert_snapshot ex_captured 8 empty_db) (mkStore ∅ ∅ None) [] 0 0 0 [].
Definition ex_objs : list SnapshotObject := [{| so_type := CapsuleObjectType.Memory; so_bytes := [1; 2; 3; 4] |}].
Definition ex_exported := export_capsule toy_runtime no_bucket sum_sha "arm64" toy_clock no_faults toy_names "s"
  CapsuleStorage.LocalDir source_world.
Definition ex_exported_row : CapsuleRow :=
  match snd ex_exported with Ok row => row | Err _ => ex_capsule empty_str end.
Definition target_world : World (list string) unit := mkWorld empty_db (w_store (fst ex_exported)) [] 0 0 0 [].

Lemma ex_exported_eq : export_capsule toy_runtime no_bucket sum_sha "arm64" toy_clock no_faults toy_names "s"
  CapsuleStorage.LocalDir source_world = (fst ex_exported, Ok ex_exported_row).
Proof. vm_compute. reflexivity. Qed.

Lemma ex_exported_new : capsules (w_db source_world) !! cr_capsule_id ex_exported_row = None.
Proof. vm_compute. reflexivity. Qed.
Lemma ex_target_new : capsules (w_db target_world) !! cr_capsule_id ex_exported_row = None.
Proof. vm_compute. reflexivity. Qed.

Lemma export_import_roundtrip_witness :
  exists w row, import_capsule toy_runtime no_bucket sum_sha "arm64" "cpu" toy_clock no_faults toy_names
      (cr_manifest ex_exported_row) CapsuleStorage.LocalDir target_world = (w, Ok row) /\
    exists w', load_capsule_objects no_bucket sum_sha no_faults toy_names (cr_capsule_id ex_exported_row) w = (w', Ok ex_objs).
Proof.
  destruct (export_import_roundtrip no_bucket sum_sha sum_sha_bytes (fun b => b = [1; 2; 3; 4]) toy_runtime toy_runtime
    "arm64" "cpu" toy_clock toy_clock no_faults no_faults toy_names toy_names "s" ex_captured ex_objs
    source_world (fst ex_exported) target_world ex_exported_row)
    as (w & row & E & _ & _ & _ & _ & w' & El).
  - reflexivity.
  - reflexivity.
  - intros d b H. discriminate H.
  - intros d b H. discriminate H.
  - repeat constructor.
  - repeat constructor. intros b -> _. reflexivity.
  - repeat constructor. discriminate.
  - exact ex_exported_eq.
  - exact ex_exported_new.
  - discriminate.
  - right. reflexivity.
  - reflexivity.
  - reflexivity.
  - intros n. reflexivity.
  - reflexivity.
  - exact ex_target_new.
  - exists w, row. split; [exact E|]. exists w'. exact El.
Defined.

Definition ex_imported := import_capsule toy_runtime no_bucket sum_sha "arm64" "cpu" toy_clock no_faults toy_names
  (cr_manifest ex_exported_row) CapsuleStorage.LocalDir target_world.
Definition ex_imported_row : CapsuleRow :=
  match snd ex_imported with Ok row => row | Err _ => ex_capsule empty_str end.
Definition ex_imported_world : World (list string) unit := fst ex_imported.

Lemma ex_imported_eq : import_capsule toy_runtime no_bucket sum_sha "arm64" "cpu" toy_clock no_faults toy_names
  (cr_manifest ex_exported_row) CapsuleStorage.LocalDir target_world = (ex_imported_world, Ok ex_imported_row).
Proof. vm_compute. reflexivity. Qed.

Lemma ex_target_addressed : addressed sum_sha (w_store target_world).
Proof.
  apply (bool_decide_unpack (map_Forall (fun d b => digest_of sum_sha b = d) (objects (w_store target_world)))).
  vm_compute. exact I.
Qed.

Lemma import_verifies_before_registering_witness :
  Forall (verified sum_sha (w_store ex_imported_world)) (cm_objects (cr_manifest ex_exported_row)).
Proof.
  destruct (import_verifies_before_registering toy_runtime no_bucket sum_sha "arm64" "cpu" toy_clock no_faults toy_names
    (cr_manifest ex_exported_row) CapsuleStorage.LocalDir target_world ex_imported_world (Ok ex_imported_row)
    ex_target_addressed ex_imported_eq) as (_ & _ & _ & _ & H).
  exact H.
Defined.
