(* ===== verification/Reconcile.v ===== *)
(** The reconciler, src/crates/barista-node-agent/src/reconcile.rs: what the node does by
    itself once a second. Wake alarms and leases on an instance's life fire, the event
    journal is swept, sandboxes and credentials that outlived their instance are removed,
    instances whose sandbox has vanished fail, and guests are probed for readiness and
    idleness. *)

From S2P Require Import Prelude Proto StateMachine Journal Events Operations Codec Objects Runtime Ops.

(** * Actions a deadline resolves to *)

Inductive Resolved : Type :=
| RStop (degraded : option string)
| RDestroy
| RPause.

Definition TTL_STOP_GRACE_SECONDS : Z := 5.
Definition READY_REPROBE_TICKS : Z := 10.
Definition VANISHED_SANDBOX_THRESHOLD : Z := 3.

Definition resolve_ttl_action (action : TtlAction.t) (runtime_name : string) (memory_snapshot : bool) : Resolved :=
  match action with
  | TtlAction.Destroy => RDestroy
  | TtlAction.Stop => RStop None
  | TtlAction.Pause | TtlAction.Unspecified =>
      if memory_snapshot then RPause
      else RStop (Some ("ttl_action PAUSE→STOP: runtime '" +:+ runtime_name +:+
        "' has no memory_snapshot capability, so the session's memory cannot be preserved"))
  end.

(** The [{:?}] form. *)
Definition resolved_debug (r : Resolved) : string :=
  match r with
  | RStop None => "Stop { degraded: None }"
  | RStop (Some m) => "Stop { degraded: Some(" +:+ quoted m +:+ ") }"
  | RDestroy => "Destroy"
  | RPause => "Pause"
  end.

(** The verb, the request and the downgrade to report. *)
Definition resolved_op (r : Resolved) : OpKind * OpPayload * option string :=
  match r with
  | RStop degraded => (KStop, PStop TTL_STOP_GRACE_SECONDS, degraded)
  | RDestroy => (KDestroy, PDestroy true, None)
  | RPause => (KPause, PPause false, None)
  end.

(** [ts_ms]: saturating; a division of [i64]s truncates. *)
Definition ts_ms (t : Timestamp) : Z := sat_i64 (sat_i64 (seconds t * 1000) + Z.quot (nanos t) 1000000).

Definition should_probe (row : InstanceRow) (tick_count : Z) : bool :=
  negb (ir_ready row) || bool_decide (is_Some (idle_action (ir_spec row))) ||
  (tick_count mod READY_REPROBE_TICKS =? 0).

Definition wake_key (iid : string) (wake_at_ms : Z) : string := "wake-" +:+ iid +:+ "-" +:+ pretty wake_at_ms.

(** What a wake does, by the state it finds: [None] is to wait. *)
Definition wake_action (st : IS.t) : option (option (OpKind * string)) :=
  match st with
  | IS.Paused => Some (Some (KResume, "resumed"))
  | IS.Stopped => Some (Some (KStart, "started"))
  | IS.Running => Some None
  | s => if is_terminal s then Some None else None
  end.

(** [elapsed() >= interval], or never run. *)
Definition sweep_due (interval : Z) (last_run : option Z) (now : Z) : bool :=
  match last_run with None => true | Some at_ => interval <=? now - at_ end.

(** An executor to run: the verb, its request, its row and the recorded state. *)
Record Spawn := mkSpawn { sp_kind : OpKind; sp_payload : OpPayload; sp_op : OperationRow; sp_recorded : IS.t }.

Section Reconcile.
Context {W R : Type} (rt : Runtime W) (sha256 : list Z -> list Z).
Context (node_cpu_class : string) (clock : nat -> Z) (faults : nat -> option string) (names : nat -> string).
Context (mint : string -> res string Identity).
(** The configuration: durations in milliseconds. *)
Context (retention_sweep_interval event_retention credential_sweep_interval : Z).

#[local] Abbreviation M := (M W R).
#[local] Abbreviation journal := (@journal W R faults).
#[local] Abbreviation reading := (@reading W R faults).
#[local] Abbreviation emit_event := (@emit_event W R clock faults).
#[local] Abbreviation now_ms := (@now_ms W R clock).
#[local] Abbreviation submit_claiming := (@submit_claiming W R rt sha256 node_cpu_class clock faults names mint).

Definition spawn (kind : OpKind) (p : OpPayload) (s : option (OperationRow * IS.t)) : option Spawn :=
  (fun x => mkSpawn kind p (fst x) (snd x)) <$> s.

(** * Deadlines *)

Definition fire_due_wake (row : InstanceRow) : M (option Spawn) :=
  match ir_wake_at_ms row with
  | None => ret None
  | Some wake_at =>
      let! now := now_ms in
      if now <? wake_at then ret None
      else
        let id := ir_id row in
        match wake_action (ir_state row) with
        | None => ret None
        | Some None =>
            let! t := now_ms in
            let! r := journal (claim_wake id wake_at t) in
            match r with
            | Ok true =>
                let! _ := emit_event (wake_fired id empty_str
                  (if bool_decide (ir_state row = IS.Running)
                   then "wake fired and the session was already RUNNING; no operation was submitted"
                   else "wake fired on a " +:+ IS.debug (ir_state row) +:+
                        " instance, which can never be woken; the alarm was cleared and nothing was submitted")) in
                ret None
            | Ok false | Err _ => ret None
            end
        | Some (Some (kind, verb)) =>
            let payload := if bool_decide (kind = KResume) then PResume None false else PStart in
            let announce op := [wake_fired id op ("wake fired: the session was " +:+ IS.debug (ir_state row) +:+
              " and is being " +:+ verb)] in
            let! (r, s) := submit_claiming kind id (wake_key id wake_at) payload (Some (Wake wake_at)) announce in
            match r with
            | Ok _ => ret (spawn kind payload s)
            | Err e =>
                if bool_decide (se_reason e = ErrorReason.ConcurrentOperation) then ret None
                else
                  let! _ := emit_event (degradation id empty_str ("a wake alarm came due and its " +:+ kind_debug kind +:+
                    " could not be submitted (" +:+ submit_error_text e +:+
                    "); the session is still asleep and the alarm will be retried on the next tick")) in
                  ret None
            end
        end
  end.

Definition enforce_ttl (row : InstanceRow) : M (option Spawn) :=
  match ir_ttl_deadline_ms row with
  | None => ret None
  | Some deadline =>
      let! now := now_ms in
      if now <? deadline then ret None
      else
        let id := ir_id row in
        let action := default TtlAction.Unspecified (TtlAction.try_from (ttl_action (ir_spec row))) in
        let '(kind, payload, downgrade) :=
          resolved_op (resolve_ttl_action action (rt_name rt) (memory_snapshot (rt_caps rt))) in
        let announce (_ : string) :=
          match downgrade with Some message => [degradation id empty_str message] | None => [] end in
        let! (r, s) := submit_claiming kind id ("ttl:" +:+ id +:+ ":" +:+ pretty deadline) payload
                         (Some (TtlExpiry deadline)) announce in
        match r with
        | Ok _ => ret (spawn kind payload s)
        | Err e =>
            if bool_decide (se_reason e = ErrorReason.ConcurrentOperation) then ret None
            else
              let! _ := emit_event (degradation id empty_str ("TTL expired and its " +:+ TtlAction.debug action +:+
                " action could not be submitted (" +:+ submit_error_text e +:+ "); it will be retried on the next tick")) in
              ret None
        end
  end.

Definition enforce_idle (row : InstanceRow) (health : HealthResponse) : M (option Spawn) :=
  match idle_action (ir_spec row), idle_declared health with
  | Some action, Some declared =>
      let declared_ms := ts_ms declared in
      let id := ir_id row in
      if declared_ms <=? default 0 (ir_run_epoch_ms row) then ret None
      else if declared_ms <=? default 0 (ts_ms <$> last_user_activity health) then ret None
      else
        let action := default TtlAction.Unspecified (TtlAction.try_from action) in
        let resolution := resolve_ttl_action action (rt_name rt) (memory_snapshot (rt_caps rt)) in
        let '(kind, payload, downgrade) := resolved_op resolution in
        let announce op :=
          match downgrade with Some message => [degradation id empty_str message] | None => [] end ++
          [idle_fired id op ("workload declared idle; acting with " +:+ resolved_debug resolution)] in
        let! (r, s) := submit_claiming kind id ("idle:" +:+ id +:+ ":" +:+ pretty declared_ms) payload None announce in
        match r with
        | Ok _ => ret (spawn kind payload s)
        | Err _ => ret None
        end
  | _, _ => ret None
  end.

(** [probe_readiness]; a probe cut off by its timeout is one whose guest did not answer. *)
Definition probe_readiness (row : InstanceRow) : M (option Spawn) :=
  let id := ir_id row in
  let! c := ask (fun s => g_connect rt s row) in
  match c with
  | Err _ => ret None
  | Ok _ =>
      let! h := substrate (fun s => g_health rt s id true) in
      match h with
      | Err _ => ret None
      | Ok response =>
          let! t := now_ms in
          let! r := journal (set_instance_ready id (h_ready response) t) in
          let! _ := match r with
                    | Ok true => emit_event (ready_changed id (h_ready response))
                    | Ok false | Err _ => ret tt
                    end in
          enforce_idle row response
      end
  end.

(** A user's activity moves the deadline on. *)
Definition note_activity (iid : string) : M unit :=
  let! r := reading (get_instance iid) in
  match r with
  | Ok (Some row) =>
      if ttl_seconds (ir_spec row) =? 0 then ret tt
      else
        let! now := now_ms in
        let! t := now_ms in
        let! _ := journal (fun db => (set_ttl_deadline iid (Some (ttl_deadline_ms (ttl_seconds (ir_spec row)) now)) t db, tt)) in
        ret tt
  | _ => ret tt
  end.

(** * Retention *)

(** The loop over [prune_events], each a journal call; fuel is the number of events plus
    one. *)
Fixpoint prune_loop (fuel : nat) (cutoff removed : Z) : M (option (res string Z)) :=
  match fuel with
  | O => ret None
  | S fuel' =>
      let! r := journal (prune_events cutoff RETENTION_CHUNK) in
      match r with
      | Err e => ret (Some (Err e))
      | Ok 0 => ret (Some (Ok removed))
      | Ok n => if n <? RETENTION_CHUNK then ret (Some (Ok (removed + n))) else prune_loop fuel' cutoff (removed + n)
      end
  end.

Definition prune_fuel : M nat := fun w => (w, S (length (events (w_db w)))).

(** [sweep_retention]; [elapsed_at] and [started_at] are its readings of the monotonic
    clock, and the result is the new time of the last sweep. *)
Definition sweep_retention (last_sweep : option Z) (elapsed_at started_at : Z) : M (option Z) :=
  if negb (sweep_due retention_sweep_interval last_sweep elapsed_at) then ret last_sweep
  else
    let! _ := journal (fun db => (db, tt)) in
    let! now := now_ms in
    let! fuel := prune_fuel in
    let! r := prune_loop fuel (wrap_i64 (now - as_i64 event_retention)) 0 in
    match r with
    | Some (Ok removed) =>
        if removed =? 0 then ret (Some started_at)
        else
          let! f := reading journal_floor in
          let! _ := emit_event (degradation empty_str empty_str ("retention deleted " +:+ pretty removed +:+
            " event(s) older than " +:+ pretty (event_retention / 1000 / 86400) +:+
            " days; the journal's oldest serviceable cursor is now " +:+ pretty (default 0 (res_ok f)) +:+
            ", and a subscriber resuming from at or below it will be refused rather than served an incomplete stream")) in
          ret (Some started_at)
    | Some (Err _) | None => ret (Some started_at)
    end.

(** * The instance sweep *)

Definition reap_sandbox (iid : string) (sb : Sandbox) (why : string) : M unit :=
  let! r := substrate (fun s => rt_remove_sandbox rt s (substrate_id sb)) in
  match r with
  | Ok _ => emit_event (degradation iid empty_str ("a sandbox (" +:+ substrate_id sb +:+ ") " +:+ why +:+
      " and was reaped by the instance sweep; a leaked or duplicate sandbox otherwise accumulates until the node runs out of capacity"))
  | Err _ => ret tt
  end.

Fixpoint reap_all (iid why : string) (l : list Sandbox) : M unit :=
  match l with
  | [] => ret tt
  | sb :: l => let! _ := reap_sandbox iid sb why in reap_all iid why l
  end.

Definition degraded_duplicate (iid : string) (ids : list string) : M unit :=
  emit_event (degradation iid empty_str ("more than one running sandbox is tagged for this instance (" +:+
    join ", " ids +:+ ") and the sweep deleted none of them: with no substrate id in the journal it cannot tell which carries the workload, and deleting by listing order would be a coin flip over a live session. Resolve it by hand, or destroy the instance if neither is wanted")).

(** The turn of one instance's group. A stable sort by [running] is the sandboxes at rest
    and then the running ones. *)
Definition sweep_group (live forking : list string) (exemption_known : bool) (iid : string) (group : list Sandbox)
    : M unit :=
  if negb (bool_decide (iid ∈ live)) then reap_all iid "outlived its instance" group
  else if (length group <=? 1)%nat then ret tt
  else if negb exemption_known || bool_decide (iid ∈ forking) then ret tt
  else if (2 <=? length (List.filter running group))%nat then degraded_duplicate iid (substrate_id <$> group)
  else
    let sorted := List.filter (fun s => negb (running s)) group ++ List.filter running group in
    reap_all iid ("was a duplicate sandbox; kept " +:+ default empty_str (substrate_id <$> last sorted))
      (removelast sorted).

(** [by_instance]: the groups in the order of their keys, each in the order listed. *)
Definition tagged (sandboxes : list Sandbox) : list string :=
  merge_sort String.le (remove_dups (sb_instance_id <$> sandboxes)).
Definition group_of (sandboxes : list Sandbox) (iid : string) : list Sandbox :=
  filter (fun sb => sb_instance_id sb = iid) sandboxes.

Fixpoint sweep_groups (live forking : list string) (exemption_known : bool) (sandboxes : list Sandbox)
    (l : list string) : M unit :=
  match l with
  | [] => ret tt
  | iid :: l =>
      let! _ := sweep_group live forking exemption_known iid (group_of sandboxes iid) in
      sweep_groups live forking exemption_known sandboxes l
  end.

(** The instances of the registry that are not terminal. *)
Definition live_ids (rows : list InstanceRow) : list string :=
  ir_id <$> filter (fun r => is_terminal (ir_state r) = false) rows.

Definition sweep_instances : M unit :=
  let! l := ask (rt_list_sandboxes rt) in
  match l with
  | Err _ | Ok [] => ret tt
  | Ok sandboxes =>
      let! rows := reading list_instances in
      match rows with
      | Err _ => ret tt
      | Ok rows =>
          let! f := reading fork_source_instances_in_flight in
          let '(forking, known) := match f with Ok l => (l, true) | Err _ => ([], false) end in
          sweep_groups (live_ids rows) forking known sandboxes (tagged sandboxes)
      end
  end.

(** * Vanished sandboxes *)

(** The loop over the RUNNING instances: the counts, and the instances failed. *)
Fixpoint vanish_loop (present : list string) (counts : gmap string Z) (l : list string)
    : M (gmap string Z * list string) :=
  match l with
  | [] => ret (counts, [])
  | id :: l =>
      if bool_decide (id ∈ present) then vanish_loop present (delete id counts) l
      else
        let n := default 0 (counts !! id) + 1 in
        if n <? VANISHED_SANDBOX_THRESHOLD then vanish_loop present (<[id := n]> counts) l
        else
          let! t := now_ms in
          let! r := journal (fun db => (set_instance_state id IS.Failed t db, tt)) in
          match r with
          | Err _ => vanish_loop present (delete id counts) l
          | Ok _ =>
              let! _ := emit_event (state_changed id empty_str IS.Failed None) in
              let! _ := emit_event (degradation id empty_str "the substrate sandbox for this RUNNING instance has vanished (absent across the reconcile debounce window); it was reconciled to FAILED so the node does not report a session as running when its sandbox is gone") in
              let! (counts', failed) := vanish_loop present (delete id counts) l in
              ret (counts', id :: failed)
          end
  end.

(** [stamp] is [fleet_phase::stamp_lease_state]. *)
Context (stamp : string -> M unit).
Fixpoint stamp_all (l : list string) : M unit :=
  match l with [] => ret tt | id :: l => let! _ := stamp id in stamp_all l end.

Definition running_ids (rows : list InstanceRow) : list string :=
  ir_id <$> filter (fun r => ir_state r = IS.Running) rows.

Definition reconcile_vanished_sandboxes (counts : gmap string Z) : M (gmap string Z) :=
  if negb (rt_enumerates_sandboxes rt) then ret counts
  else
    let! l := ask (rt_list_sandboxes rt) in
    match l with
    | Err _ => ret counts
    | Ok sandboxes =>
        let! rows := reading list_instances in
        match rows with
        | Err _ => ret counts
        | Ok rows =>
            let running := running_ids rows in
            let! (counts', failed) := vanish_loop (sb_instance_id <$> sandboxes)
                                        (filter (fun p => p.1 ∈ running) counts) running in
            let! _ := stamp_all failed in
            ret counts'
        end
    end.

(** * Credentials *)

(** The loop: the unclaimed credentials are set aside, those of an instance that is not
    live are removed. *)
Fixpoint reap_each (live : list string) (unclaimed : gset string) (l : list Credential) : M (gset string) :=
  match l with
  | [] => ret unclaimed
  | c :: l =>
      match cred_instance c with
      | None => reap_each live ({[cred_id c]} ∪ unclaimed) l
      | Some iid =>
          if bool_decide (iid ∈ live) then reap_each live unclaimed l
          else
            let! r := substrate (fun s => rt_remove_credential rt s (cred_id c)) in
            let! _ := match r with
                      | Ok _ => emit_event (degradation iid empty_str ("credential '" +:+ cred_id c +:+
                          "' outlived its instance and was removed by the sweep; until then it was a live token for an instance the registry does not hold"))
                      | Err _ => ret tt
                      end in
            reap_each live unclaimed l
      end
  end.

Definition reap_credentials (reported_unclaimed : gset string) : M (gset string) :=
  let! l := ask (rt_list_credentials rt) in
  match l with
  | Err e =>
      let! _ := emit_event (degradation empty_str empty_str ("the credential sweep could not enumerate the '" +:+
        rt_name rt +:+ "' substrate (" +:+ runtime_error_text e +:+
        "); no credential was removed, and the sweep retries on the next interval")) in
      ret reported_unclaimed
  | Ok [] => ret reported_unclaimed
  | Ok credentials =>
      let! rows := reading list_instances in
      match rows with
      | Err _ => ret reported_unclaimed
      | Ok rows =>
          let! unclaimed := reap_each (live_ids rows) ∅ credentials in
          if bool_decide (unclaimed = reported_unclaimed) then ret reported_unclaimed
          else
            let! _ := if bool_decide (unclaimed = ∅) then ret tt
                      else emit_event (degradation empty_str empty_str (pretty (Z.of_nat (size unclaimed)) +:+
                        " credential(s) carry no node claim and were left in place: " +:+
                        join ", " (merge_sort String.le (elements unclaimed)) +:+
                        ". This node cannot prove it owns them, so it will not delete them — adopt them by recreating their instance, or remove them deliberately")) in
            ret unclaimed
      end
  end.

Record CredentialSweep := mkCredentialSweep { last_run : option Z; reported_unclaimed : gset string }.

Definition sweep_credentials (c : CredentialSweep) (elapsed_at started_at : Z) : M CredentialSweep :=
  if negb (sweep_due credential_sweep_interval (last_run c) elapsed_at) then ret c
  else
    let! unclaimed := reap_credentials (reported_unclaimed c) in
    ret (mkCredentialSweep (Some started_at) unclaimed).

(** * One tick *)

Fixpoint each_row (f : InstanceRow -> M (option Spawn)) (l : list InstanceRow) : M (list Spawn) :=
  match l with
  | [] => ret []
  | row :: l => let! s := f row in let! ss := each_row f l in ret (option_list s ++ ss)
  end.

(** What the reconciler remembers from tick to tick. *)
Record Memory := mkMemory {
  last_sweep : option Z; vanished_counts : gmap string Z; credential_sweep : CredentialSweep }.

(** [fleet_pass] is [fleet_phase::pass], where the node takes part in a fleet. The probes,
    which the source runs concurrently, run here in the order of their rows; [instants]
    are the readings of the monotonic clock. *)
Context (fleet_pass : option (M (list Spawn))).

Definition tick (tick_count : Z) (instants : Z * Z * Z * Z) (mem : Memory) : M (Memory * list Spawn) :=
  let '(e1, s1, e2, s2) := instants in
  let! r := reading list_instances in
  match r with
  | Err _ => ret (mem, [])
  | Ok rows =>
      let! woken := each_row fire_due_wake rows in
      let running := filter (fun r => ir_state r = IS.Running) rows in
      let! expired := each_row enforce_ttl running in
      let! ls := sweep_retention (last_sweep mem) e1 s1 in
      let! _ := sweep_instances in
      let! counts := reconcile_vanished_sandboxes (vanished_counts mem) in
      let! creds := sweep_credentials (credential_sweep mem) e2 s2 in
      let! fleet := match fleet_pass with Some pass => pass | None => ret [] end in
      let! idle := each_row probe_readiness (filter (fun r => should_probe r tick_count = true) running) in
      ret (mkMemory ls counts creds, woken ++ expired ++ fleet ++ idle)
  end.
End Reconcile.
