(* ===== verification/Reconciler.v ===== *)
(** What the reconciler of [Reconcile] guarantees: its arithmetic, its triggers, its
    sweeps, and a whole tick. *)

From S2P Require Import Prelude Proto StateMachine Journal Events Operations Codec Objects Runtime Ops Executor Reconcile.

(** * Bounds *)

Lemma sat_i64_range z : is_i64 (sat_i64 z).
Proof. unfold is_i64, sat_i64, i64_min, i64_max. lia. Qed.
Lemma sat_i64_small z : is_i64 z -> sat_i64 z = z.
Proof. unfold is_i64, sat_i64, i64_min, i64_max. lia. Qed.
Lemma sat_i64_mono a b : a <= b -> sat_i64 a <= sat_i64 b.
Proof. unfold sat_i64. lia. Qed.

(** A timestamp as the protocol defines it, and its order. *)
Definition well_formed (t : Timestamp) : Prop := 0 <= nanos t < 1000000000.
Definition earlier (t u : Timestamp) : Prop := seconds t < seconds u \/ seconds t = seconds u /\ nanos t <= nanos u.

(** Below the smallest [i64] the two saturations are not monotone, above the largest they
    are. *)
Lemma ts_ms_mono t u :
  well_formed t -> well_formed u -> i64_min <= seconds t * 1000 -> earlier t u -> ts_ms t <= ts_ms u.
Proof.
  unfold well_formed, earlier, ts_ms. intros Ht Hu Hmin H.
  rewrite !Z.quot_div_nonneg by lia. pose proof (Z.div_lt_upper_bound (nanos t) 1000000 1000 ltac:(lia) ltac:(lia)).
  pose proof (Z.div_pos (nanos u) 1000000 ltac:(lia) ltac:(lia)). destruct H as [H|[-> H]].
  - unfold sat_i64, i64_max, i64_min in *. lia.
  - pose proof (Z.div_le_mono (nanos t) (nanos u) 1000000 ltac:(lia) H). apply sat_i64_mono. lia.
Qed.

Lemma ts_ms_ts ms : is_i64 ms -> ts_ms (ts ms) = ms.
Proof.
  unfold ts_ms, ts. simpl. rewrite Z.quot_mul by done. pose proof (Z.quot_rem' ms 1000) as Hq.
  pose proof (Z.rem_bound_abs ms 1000 ltac:(done)). unfold is_i64. intros Hm.
  assert (0 <= ms -> 0 <= Z.rem ms 1000) by (intros; apply Z.rem_nonneg; lia).
  assert (ms <= 0 -> Z.rem ms 1000 <= 0) by (intros; apply Z.rem_nonpos; lia).
  unfold sat_i64, i64_max, i64_min in *. lia.
Qed.

Lemma ttl_deadline_bounds ttl now :
  0 <= ttl -> is_i64 now -> 0 <= now ->
  now <= ttl_deadline_ms ttl now <= i64_max /\
  (now + ttl * 1000 <= i64_max -> ttl_deadline_ms ttl now = now + ttl * 1000).
Proof.
  unfold ttl_deadline_ms, is_i64, sat_i64, i64_max, i64_min. intros. destruct (Z.leb_spec ttl (2 ^ 63 - 1)); lia.
Qed.

(** The reconciler's arithmetic on deadlines does not wrap. A timestamp the guest
    sends becomes an [i64] of milliseconds whatever it holds, exactly when it fits;
    well-formed timestamps above the range's lower end keep their order, and a time the
    journal produced reads back as it was. A
    lease on life is renewed to a deadline that is not in the past and is exact unless it
    exceeds the largest [i64]. *)
Theorem deadline_arithmetic_is_bounded :
  (forall t, is_i64 (ts_ms t)) /\
  (forall t, is_i64 (seconds t * 1000) -> is_i64 (seconds t * 1000 + Z.quot (nanos t) 1000000) ->
     ts_ms t = seconds t * 1000 + Z.quot (nanos t) 1000000) /\
  (forall t u, well_formed t -> well_formed u -> i64_min <= seconds t * 1000 -> earlier t u -> ts_ms t <= ts_ms u) /\
  (forall ms, is_i64 ms -> ts_ms (ts ms) = ms) /\
  (forall ttl now, 0 <= ttl -> is_i64 now -> 0 <= now ->
     now <= ttl_deadline_ms ttl now <= i64_max /\
  (now + ttl * 1000 <= i64_max -> ttl_deadline_ms ttl now = now + ttl * 1000)).
Proof.
  split_and!; auto using ts_ms_mono, ts_ms_ts, ttl_deadline_bounds.
  - intros t. apply sat_i64_range.
  - intros t H1 H2. unfold ts_ms. by rewrite (sat_i64_small (seconds t * 1000)), sat_i64_small.
Qed.

(** * Deadlines fire when due, and once *)

(** The three ways the reconciler acts on an instance by itself. *)
Inductive trigger : Type := TWake | TTtl | TIdle (health : HealthResponse).

Section Deadlines.
Context {W R : Type} (rt : Runtime W) (sha256 : list Z -> list Z).
Context (node_cpu_class : string) (clock : nat -> Z) (faults : nat -> option string) (names : nat -> string).
Context (mint : string -> res string Identity).
#[local] Abbreviation submit_claiming := (@submit_claiming W R rt sha256 node_cpu_class clock faults names mint).

Definition act (t : trigger) (row : InstanceRow) : M W R (option Spawn) :=
  match t with
  | TWake => fire_due_wake rt sha256 node_cpu_class clock faults names mint row
  | TTtl => enforce_ttl rt sha256 node_cpu_class clock faults names mint row
  | TIdle health => enforce_idle rt sha256 node_cpu_class clock faults names mint row health
  end.

(** What an expired lease or an idle workload comes to under an [action] of the spec. *)
Definition resolution (action : Z) : OpKind * OpPayload * option string :=
  resolved_op (resolve_ttl_action (default TtlAction.Unspecified (TtlAction.try_from action)) (rt_name rt)
    (memory_snapshot (rt_caps rt))).

(** The trigger's condition at the time [now] on the row it read, with the verb, the
    request, the key and the column it claims. *)
Definition due (t : trigger) (now : Z) (row : InstanceRow) (kind : OpKind) (p : OpPayload) (key : string) (claim : option Claim)
    : Prop :=
  match t with
  | TWake => exists at_, ir_wake_at_ms row = Some at_ /\ at_ <= now /\ key = wake_key (ir_id row) at_ /\ claim = Some (Wake at_) /\
      (ir_state row = IS.Paused /\ kind = KResume /\ p = PResume None false \/
       ir_state row = IS.Stopped /\ kind = KStart /\ p = PStart)
  | TTtl => exists deadline, ir_ttl_deadline_ms row = Some deadline /\ deadline <= now /\ key = "ttl:" +:+ ir_id row +:+ ":" +:+ pretty deadline /\
      claim = Some (TtlExpiry deadline) /\ (kind, p) = fst (resolution (ttl_action (ir_spec row)))
  | TIdle health => exists action declared, idle_action (ir_spec row) = Some action /\ idle_declared health = Some declared /\
      default 0 (ir_run_epoch_ms row) < ts_ms declared /\ default 0 (ts_ms <$> last_user_activity health) < ts_ms declared /\
      key = "idle:" +:+ ir_id row +:+ ":" +:+ pretty (ts_ms declared) /\ claim = None /\
      (kind, p) = fst (resolution action)
  end.

Lemma spawn_Some kind p s sp :
  spawn kind p s = Some sp -> s = Some (sp_op sp, sp_recorded sp) /\ sp_kind sp = kind /\ sp_payload sp = p.
Proof. destruct s as [[op rec]|]; [|done]. by intros [= <-]. Qed.

(** An action that spawns an executor did so through one submission. *)
Lemma act_spawns t row (w w' : World W R) sp :
  act t row w = (w', Some sp) ->
  exists key claim announce w1 r, due t (clock (w_ticks w)) row (sp_kind sp) (sp_payload sp) key claim /\ w_db w1 = w_db w /\
    submit_claiming (sp_kind sp) (ir_id row) key (sp_payload sp) claim announce w1 =
      (w', (r, Some (sp_op sp, sp_recorded sp))).
Proof.
  destruct t as [| |health]; simpl.
  - unfold fire_due_wake. destruct (ir_wake_at_ms row) as [at_|] eqn:Ea; [|done]. run_bind [w1 now] eqn E1.
    injection E1 as <- <-. destruct (Z.ltb_spec (clock (w_ticks w)) at_); [done|]. cbv zeta.
    destruct (wake_action (ir_state row)) as [[[kind verb]|]|] eqn:Ew; [| |done].
    + run_bind [w2 [r s]] eqn E2. destruct r as [c|e].
      * intros [= <- (-> & Hk & Hp)%spawn_Some]. eexists _, _, _, _, _. rewrite Hk, Hp. refine (conj _ (conj _ E2)); [|done].
        exists at_. split_and!; try done. clear Hk Hp E2. destruct (ir_state row); simplify_eq/=; auto.
      * destruct (bool_decide (se_reason e = _)); [by intros [=]|]. run_bind [w3 []] eqn E3. by intros [=].
    + run_bind [w2 t] eqn E2. run_bind [w3 r] eqn E3. destruct r as [[]|]; try done. run_bind [w4 []] eqn E4. done.
  - unfold enforce_ttl. destruct (ir_ttl_deadline_ms row) as [deadline|] eqn:Ed; [|done]. run_bind [w1 now] eqn E1.
    injection E1 as <- <-. destruct (Z.ltb_spec (clock (w_ticks w)) deadline); [done|]. cbv zeta.
    destruct (resolved_op _) as [[kind p] downgrade] eqn:Er. run_bind [w2 [r s]] eqn E2. destruct r as [c|e].
    + intros [= <- (-> & Hk & Hp)%spawn_Some]. eexists _, _, _, _, _. rewrite Hk, Hp. refine (conj _ (conj _ E2)); [|done].
      exists deadline. split_and!; try done. unfold resolution. by rewrite Er.
    + destruct (bool_decide (se_reason e = _)); [by intros [=]|]. run_bind [w3 []] eqn E3. by intros [=].
  - unfold enforce_idle. destruct (idle_action _) as [a|] eqn:Ea; [|done]. destruct (idle_declared health) as [dec|] eqn:Ed; [|done].
    cbv zeta. destruct (Z.leb_spec (ts_ms dec) (default 0 (ir_run_epoch_ms row))); [done|].
    destruct (Z.leb_spec (ts_ms dec) (default 0 (ts_ms <$> last_user_activity health))); [done|].
    destruct (resolved_op _) as [[kind p] downgrade] eqn:Er. run_bind [w2 [r s]] eqn E2. destruct r as [c|e]; [|done].
    intros [= <- (-> & Hk & Hp)%spawn_Some]. eexists _, _, _, _, _. rewrite Hk, Hp. refine (conj _ (conj _ E2)); [|done].
    exists a, dec. split_and!; try done. unfold resolution. by rewrite Er.
Qed.

Lemma resolution_verb a kind p :
  (kind, p) = fst (resolution a) -> payload_spec p = None /\ (kind = KPause -> memory_snapshot (rt_caps rt) = true).
Proof. unfold resolution, resolve_ttl_action. by destruct (default _ _), (memory_snapshot _); simpl; intros [= -> ->]. Qed.

Lemma due_verb t now row kind p key claim :
  due t now row kind p key claim -> payload_spec p = None /\ (kind = KPause -> memory_snapshot (rt_caps rt) = true).
Proof.
  destruct t as [| |h]; simpl.
  - by intros (at_ & _ & _ & _ & _ & [(_ & -> & ->)|(_ & -> & ->)]).
  - intros (d & _ & _ & _ & _ & H). by eapply resolution_verb.
  - intros (a & d & _ & _ & _ & _ & _ & _ & H). by eapply resolution_verb.
Qed.

Lemma due_key t now now' row kind p key claim kind' p' key' claim' :
  due t now row kind p key claim -> due t now' row kind' p' key' claim' -> key' = key.
Proof.
  destruct t as [| |h]; simpl.
  - intros (a & E & _ & -> & _) (a' & E' & _ & -> & _). congruence.
  - intros (a & E & _ & -> & _) (a' & E' & _ & -> & _). congruence.
  - intros (a & d & _ & E & _ & _ & -> & _) (a' & d' & _ & E' & _ & _ & -> & _). congruence.
Qed.

(** The claim a due trigger makes is of a time that has come. *)
Lemma due_claim t now row kind p key c : due t now row kind p key (Some c) -> claim_value c <= now.
Proof.
  destruct t as [| |h]; simpl.
  - by intros (a & _ & ? & _ & [= ->] & _).
  - by intros (a & _ & ? & _ & [= ->] & _).
  - by intros (? & ? & _ & _ & _ & _ & _ & [=] & _).
Qed.


(** Each alarm, deadline and idle declaration fires once. Once a row's trigger has
    spawned an executor, the same trigger on the same row spawns none in any later
    journal, after restarts too. *)
Theorem triggers_fire_once t row (w w' w2 w3 : World W R) sp s :
  ops_inv (operations (w_db w)) -> act t row w = (w', Some sp) ->
  rtc db_step (w_db w') (w_db w2) -> act t row w2 = (w3, s) -> s = None.
Proof.
  intros Hinv (key & claim & ann & w1 & r & Hd & E & Hs)%act_spawns Hrun Hact. destruct s as [sp'|]; [exfalso|done].
  apply act_spawns in Hact as (key' & claim' & ann' & w1' & r' & Hd' & E' & Hs').
  rewrite (due_key _ _ _ _ _ _ _ _ _ _ _ _ Hd Hd') in *.
  apply submit_claiming_spec in Hs as (_ & _ & _ & _ & cn & [Hf Hkey Hidle Hops _ _]).
  apply submit_claiming_spec in Hs' as (_ & _ & _ & _ & cn' & [_ Hkey' _ _ _ _]). rewrite E, E' in *.
  destruct (db_steps_row _ _ (op_id (sp_op sp)) (inserted_op (sp_op sp) key) Hrun) as (o' & Ho' & (_ & _ & Hk' & _) & _).
  - rewrite Hops. by apply insert_ops_inv.
  - by rewrite Hops, lookup_insert_eq.
  - by eapply Hkey'.
Qed.
End Deadlines.

(** * The sweeps *)

(** The registry holds an instance that is not terminal. *)
Definition live (db : Db) (iid : string) : Prop :=
  exists i, instances db !! iid = Some i /\ is_terminal (i_state i) = false.

Lemma elem_list_instances row db :
  row ∈ list_instances db <-> exists k i, instances db !! k = Some i /\ row = instance_row_from i.
Proof.
  unfold list_instances. rewrite (merge_sort_Permutation by_created), list_elem_of_fmap. split.
  - intros ([k i] & -> & Hk%elem_of_map_to_list). by exists k, i.
  - intros (k & i & Hk & ->). exists (k, i). by rewrite elem_of_map_to_list.
Qed.

Lemma elem_live_ids iid db : keyed db -> iid ∈ live_ids (list_instances db) <-> live db iid.
Proof.
  intros Hk. unfold live_ids, live. rewrite list_elem_of_fmap. split.
  - intros (row & -> & [Ht Hr]%list_elem_of_filter). apply elem_list_instances in Hr as (k & i & Hi & ->).
    simpl. rewrite (Hk _ _ Hi). by exists i.
  - intros (i & Hi & Ht). exists (instance_row_from i). split; [by rewrite <- (Hk _ _ Hi)|].
    apply list_elem_of_filter. split; [done|]. apply elem_list_instances. by exists iid, i.
Qed.

(** A computation that removes the things [l] from the substrate through [f], one after
    the other, does nothing else to it, and leaves the registry alone. *)
Section Removes.
Context {W R E : Type} (clock : nat -> Z) (faults : nat -> option string).
Context (f : W -> string -> W * res E unit).

Definition removals (l : list string) (s : W) : W := foldl (fun s x => fst (f s x)) s l.

Definition removes {A} (l : list string) (m : M W R A) : Prop :=
  forall w, w_sub (fst (m w)) = removals l (w_sub w) /\ same_tables (w_db w) (w_db (fst (m w))).

Lemma removes_ret {A} (a : A) : removes [] (ret a).
Proof. by intros w. Qed.

Lemma removes_bind {A B} l1 l2 (m : M W R A) (k : A -> M W R B) :
  removes l1 m -> (forall a, removes l2 (k a)) -> removes (l1 ++ l2) (bind m k).
Proof.
  intros H1 H2 w. unfold bind. destruct (H1 w) as [E1 T1]. destruct (m w) as [w1 a]. simpl in *.
  destruct (H2 a w1) as [E2 T2]. split; [|by transitivity (w_db w1)].
  rewrite E2, E1. unfold removals. by rewrite foldl_app.
Qed.

Lemma removes_emit ev : removes [] (emit_event clock faults ev).
Proof.
  intros w. split; [|by apply (keeps_emit clock faults same_tables ev w)].
  unfold emit_event, bind, now_ms, journal, ret. simpl. by destruct (faults _).
Qed.

Lemma removes_reading {A} (g : Db -> A) : removes [] (reading faults g).
Proof. intros w. unfold reading, journal. by destruct (faults _). Qed.

Lemma removes_one x : removes [x] (substrate (fun s => f s x)).
Proof. intros w. unfold substrate, removals. simpl. by destruct (f (w_sub w) x). Qed.
End Removes.
#[global] Typeclasses Opaque removes.
Create HintDb removes.
#[local] Hint Resolve removes_ret removes_emit removes_reading removes_one : removes.

Section Sweeps.
Context {W R : Type} (rt : Runtime W) (clock : nat -> Z) (faults : nat -> option string).
#[local] Abbreviation reaps := (@removes W R _ (rt_remove_sandbox rt)).

Lemma reap_sandbox_removes iid sb why : reaps [substrate_id sb] (reap_sandbox rt clock faults iid sb why).
Proof.
  unfold reap_sandbox. apply (removes_bind _ [_] []); [auto with removes|]. intros [[]|]; auto with removes.
Qed.

Lemma reap_all_removes iid why l : reaps (substrate_id <$> l) (reap_all rt clock faults iid why l).
Proof.
  induction l as [|sb l IH]; simpl; [auto with removes|]. apply (removes_bind _ [_]); [apply reap_sandbox_removes|done].
Qed.

(** What the sweep removes of one group. *)
Definition reaped_of (lives forking : list string) (known : bool) (iid : string) (group : list Sandbox) : list Sandbox :=
  if negb (bool_decide (iid ∈ lives)) then group
  else if negb known || bool_decide (iid ∈ forking) || (2 <=? length (List.filter running group))%nat then []
  else removelast (List.filter (fun s => negb (running s)) group ++ List.filter running group).

Lemma sweep_group_removes lives forking known iid group :
  reaps (substrate_id <$> reaped_of lives forking known iid group)
    (sweep_group rt clock faults lives forking known iid group).
Proof.
  unfold sweep_group, reaped_of. destruct (negb (bool_decide (iid ∈ lives))); [apply reap_all_removes|].
  destruct (Nat.leb_spec (length group) 1).
  - replace (_ <$> _) with (@nil string); [auto with removes|]. split_match; [done|].
    destruct group as [|sb [|]]; simpl in *; [done| |lia]. by destruct (running sb).
  - destruct (negb known || bool_decide (iid ∈ forking)); [apply removes_ret|]. rewrite orb_false_l.
    destruct (2 <=? length (List.filter running group))%nat; [apply removes_emit|apply reap_all_removes].
Qed.

Lemma sweep_groups_removes lives forking known sbs l :
  reaps (substrate_id <$> (l ≫= fun iid => reaped_of lives forking known iid (group_of sbs iid)))
    (sweep_groups rt clock faults lives forking known sbs l).
Proof.
  induction l as [|iid l IH]; simpl; [auto with removes|]. rewrite fmap_app.
  apply removes_bind; [apply sweep_group_removes|done].
Qed.

Lemma elem_filter_bool {A} (p : A -> bool) x l : x ∈ List.filter p l <-> x ∈ l /\ p x = true.
Proof. rewrite !list_elem_of_In. apply filter_In. Qed.

Lemma filter_bool_sublist {A} (p : A -> bool) l : List.filter p l `sublist_of` l.
Proof. induction l as [|x l IH]; simpl; [done|]. destruct (p x); by constructor. Qed.

(** Of a live instance's group only sandboxes at rest go, and one stays. *)
Lemma reaped_of_spec lives forking known iid group sb :
  NoDup group -> sb ∈ reaped_of lives forking known iid group ->
  sb ∈ group /\
  ((iid ∉ lives) \/
   known = true /\ (iid ∉ forking) /\ running sb = false /\
   exists kept, kept ∈ group /\ kept ∉ reaped_of lives forking known iid group).
Proof.
  intros Hnd. unfold reaped_of. case_bool_decide as Hl; cbn [negb]; [|by auto].
  destruct known; cbn [negb orb]; [|by intros ?%elem_of_nil]. case_bool_decide as Hf; cbn [orb]; [by intros ?%elem_of_nil|].
  destruct (Nat.leb_spec 2 (length (List.filter running group))) as [|Hr]; [by intros ?%elem_of_nil|].
  assert (NoDup (List.filter (fun s => negb (running s)) group)) as Hn
    by (rewrite NoDup_ListNoDup in *; by apply List.NoDup_filter).
  assert (forall x, x ∈ List.filter (fun s => negb (running s)) group -> x ∈ group /\ running x = false) as Hin
    by (intros x [? ?%negb_true_iff]%elem_filter_bool; done).
  destruct (List.filter running group) as [|r [|]] eqn:Er; simpl in Hr; [| |lia].
  - rewrite app_nil_r. set (rest := List.filter (fun s => negb (running s)) group) in *.
    destruct rest as [|lst init _] using rev_ind; [by intros ?%elem_of_nil|]. rewrite removelast_last. intros Hs.
    split; [apply Hin; set_solver|]. right. split_and!; [done..|apply Hin; set_solver|]. exists lst.
    split; [apply Hin; set_solver|]. apply NoDup_app in Hn as (_ & Hd & _). intros Hx. apply (Hd _ Hx). set_solver.
  - rewrite removelast_last. intros Hs. split; [by apply Hin|]. right. split_and!; [done..|by apply Hin|]. exists r.
    assert (r ∈ group /\ running r = true) as [? ?] by (apply elem_filter_bool; rewrite Er; set_solver).
    split; [done|]. intros [_ ?]%Hin. congruence.
Qed.

(** A sweep that is shown sandboxes does nothing, because the registry could not be read,
    or goes through the groups. *)
Lemma sweep_instances_shape sandboxes (w : World W R) :
  rt_list_sandboxes rt (w_sub w) = Ok sandboxes ->
  exists forking known w1, w_sub w1 = w_sub w /\ w_db w1 = w_db w /\
    (known = true -> forking = fork_source_instances_in_flight (w_db w)) /\
    (sweep_instances rt clock faults w = (w1, tt) /\ (sandboxes = [] \/ exists n, faults n <> None) \/
     sweep_instances rt clock faults w =
       sweep_groups rt clock faults (live_ids (list_instances (w_db w))) forking known sandboxes (tagged sandboxes) w1).
Proof.
  intros Hl. destruct (sweep_instances rt clock faults w) as [w' []] eqn:Hx. revert Hx.
  unfold sweep_instances, ask. run_bind [w0 l] eqn E0. unfold substrate in E0. rewrite Hl in E0. injection E0 as <- <-.
  destruct sandboxes as [|sb0 rest].
  { intros [= <-]. exists [], false, (w <| w_sub := w_sub w |>). by split_and!; auto. }
  run_bind [w1 rows] eqn E1. unfold reading, journal in E1. simpl in E1. destruct (faults (w_calls w)) eqn:F1; injection E1 as <- <-.
  { intros [= <-]. exists [], false, (w <| w_sub := w_sub w |> <| w_calls := S (w_calls w) |>). split_and!; try done.
    left. split; [done|]. right. exists (w_calls w). by rewrite F1. }
  run_bind [w2 fr] eqn E2. unfold reading, journal in E2. simpl in E2.
  destruct (faults (S (w_calls w))) eqn:F2; injection E2 as <- <-; intros Hx.
  - eexists [], false, _. refine (conj _ (conj _ (conj _ (or_intror (eq_sym Hx))))); done.
  - eexists _, true, _. refine (conj _ (conj _ (conj _ (or_intror (eq_sym Hx))))); done.
Qed.

(** The instance sweep never removes a live session. It only removes sandboxes it
    was shown, one at a time, and leaves the registry alone; of an instance that is live
    it removes none that runs, none while a fork of it is under way, and always keeps
    one; and unless the registry could not be read, every sandbox that outlived its
    instance goes. *)
Theorem instance_sweep_spares_live sandboxes (w w' : World W R) :
  keyed (w_db w) -> rt_list_sandboxes rt (w_sub w) = Ok sandboxes -> NoDup sandboxes ->
  sweep_instances rt clock faults w = (w', tt) ->
  same_tables (w_db w) (w_db w') /\
  exists removed, w_sub w' = removals (rt_remove_sandbox rt) (substrate_id <$> removed) (w_sub w) /\
    (forall sb, sb ∈ removed -> sb ∈ sandboxes /\
       (live (w_db w) (sb_instance_id sb) ->
        running sb = false /\ (sb_instance_id sb ∉ fork_source_instances_in_flight (w_db w)) /\
        exists kept, kept ∈ sandboxes /\ sb_instance_id kept = sb_instance_id sb /\ kept ∉ removed)) /\
    ((forall n, faults n = None) ->
     forall sb, sb ∈ sandboxes -> ~ live (w_db w) (sb_instance_id sb) -> sb ∈ removed).
Proof.
  intros Hk Hl Hnd Hs. destruct (sweep_instances_shape _ w Hl) as (forking & known & w1 & Es & Ed & Hfork & Hcase).
  rewrite Hs in Hcase. destruct Hcase as [[[= <-] Hn]|Hg].
  - rewrite Ed. split; [done|]. exists []. split_and!; [by rewrite Es|set_solver|].
    intros Hnone. destruct Hn as [->|[n Hn]]; [set_solver|]. by rewrite Hnone in Hn.
  - set (lives := live_ids _) in Hg.
    destruct (sweep_groups_removes lives forking known sandboxes (tagged sandboxes) w1) as [Er Ht].
    rewrite <- Hg in Er, Ht. simpl in Er, Ht. rewrite Es in Er. rewrite Ed in Ht. split; [done|].
    set (reaped iid := reaped_of lives forking known iid (group_of sandboxes iid)) in *.
    assert (forall sb, sb ∈ tagged sandboxes ≫= reaped <-> sb ∈ sandboxes /\ sb ∈ reaped (sb_instance_id sb)) as Hr.
    { intros sb. rewrite list_elem_of_bind. split.
      - intros (iid & Hsb & _). pose proof Hsb as [[<- ?]%list_elem_of_filter _]%reaped_of_spec; [done|].
        by apply NoDup_filter.
      - intros [Hin Hsb]. exists (sb_instance_id sb). split; [done|]. unfold tagged.
        rewrite (merge_sort_Permutation String.le), elem_of_remove_dups. by apply list_elem_of_fmap_2. }
    exists (tagged sandboxes ≫= reaped). split; [done|]. setoid_rewrite Hr. split.
    + intros sb [Hin Hsb]. split; [done|]. intros Hlive%elem_live_ids; [|done].
      apply reaped_of_spec in Hsb as [_ [?|(-> & Hf & Hrun & kept & [Hik Hkin]%list_elem_of_filter & Hkept)]]; [done| |by apply NoDup_filter].
      rewrite (Hfork eq_refl) in Hf. split_and!; [done..|]. exists kept. split_and!; [done..|]. intros [_ Hx]. by rewrite Hik in Hx.
    + intros _ sb Hin Hdead. split; [done|]. unfold reaped, reaped_of. rewrite bool_decide_false; [|by unfold lives; rewrite elem_live_ids].
      by apply list_elem_of_filter.
Qed.

(** ** Credentials *)

Definition orphaned (lives : list string) (c : Credential) : bool :=
  match cred_instance c with Some iid => negb (bool_decide (iid ∈ lives)) | None => false end.
Definition unclaimed_ids (l : list Credential) : gset string :=
  list_to_set (cred_id <$> List.filter (fun c => match cred_instance c with None => true | Some _ => false end) l).

Lemma reap_each_spec lives u l :
  removes (rt_remove_credential rt) (cred_id <$> List.filter (orphaned lives) l)
    (@reap_each W R rt clock faults lives u l) /\
  forall w, snd (@reap_each W R rt clock faults lives u l w) = u ∪ unclaimed_ids l.
Proof.
  revert u. induction l as [|c l IH]; intros u; unfold unclaimed_ids in *; simpl.
  - split; [apply removes_ret|]. intros w. simpl. set_solver.
  - unfold orphaned at 1. destruct (cred_instance c) as [iid|] eqn:Ec; simpl.
    + case_bool_decide as Hl; simpl; [apply IH|]. split.
      * apply (removes_bind _ [_]); [apply removes_one|]. intros r. apply (removes_bind _ []); [|intros _; apply IH].
        destruct r; [apply removes_emit|apply removes_ret].
      * intros w. run_bind [w1 r] eqn E1. run_bind [w2 x] eqn E2. apply IH.
    + split; [apply IH|]. intros w. rewrite (proj2 (IH _)). set_solver.
Qed.

(** The credential sweep removes exactly the credentials that outlived their
    instance. When the substrate lists its credentials and the registry can be read, the
    credentials of instances that are not live go, in the order listed, those of live
    instances and those no node claim can be read of stay, and the latter are what is
    remembered as reported; when either cannot be read nothing is removed. *)
Theorem credential_sweep_exact reported (w w' : World W R) reported' :
  keyed (w_db w) -> reap_credentials rt clock faults reported w = (w', reported') ->
  same_tables (w_db w) (w_db w') /\
  match rt_list_credentials rt (w_sub w) with
  | Err _ => w_sub w' = w_sub w /\ reported' = reported
  | Ok creds => exists removed, w_sub w' = removals (rt_remove_credential rt) (cred_id <$> removed) (w_sub w) /\
      removed `sublist_of` creds /\
      (forall c, c ∈ removed -> exists iid, cred_instance c = Some iid /\ ~ live (w_db w) iid) /\
      ((forall n, faults n = None) -> creds <> [] ->
       (forall c iid, c ∈ creds -> cred_instance c = Some iid -> ~ live (w_db w) iid -> c ∈ removed) /\
       reported' = unclaimed_ids creds)
  end.
Proof.
  intros Hk. unfold reap_credentials, ask. run_bind [w1 l] eqn E1. unfold substrate in E1. injection E1 as <- <-.
  destruct (rt_list_credentials rt (w_sub w)) as [creds|e] eqn:El.
  - destruct creds as [|c0 rest].
    { intros [= <- <-]. split; [done|]. exists []. split_and!; [done|done|set_solver|done]. }
    remember (c0 :: rest) as creds eqn:Ecr. run_bind [w2 rows] eqn E2. unfold reading, journal in E2. simpl in E2.
    destruct (faults (w_calls w)) eqn:F1; injection E2 as <- <-; rewrite Ecr; cbn [bind]; rewrite <- Ecr.
    + intros [= <- <-]. split; [done|]. exists []. split_and!; [done|apply sublist_nil_l|set_solver|].
      intros Hn. by rewrite Hn in F1.
    + set (lives := live_ids (list_instances (w_db w))).
      assert (forall c, orphaned lives c = true <-> exists iid, cred_instance c = Some iid /\ ~ live (w_db w) iid) as Hor.
      { intros c. unfold orphaned. destruct (cred_instance c) as [iid|]; [|naive_solver].
        rewrite negb_true_iff, bool_decide_eq_false. unfold lives. rewrite elem_live_ids by done. naive_solver. }
      run_bind [w3 u] eqn E3.
      match type of E3 with _ ?x = _ => destruct (reap_each_spec lives ∅ creds) as [Hrem Hu];
        specialize (Hrem x); specialize (Hu x); rewrite E3 in Hrem, Hu; simpl in Hrem, Hu end.
      destruct Hrem as [Hsub Htab]. rewrite union_empty_l_L in Hu. subst u.
      intros Ht. assert (w_sub w' = w_sub w3 /\ same_tables (w_db w3) (w_db w') /\ reported' = unclaimed_ids creds) as (Es & Et & ->).
      { revert Ht. case_bool_decide as Eq; [intros [= <- <-]; by rewrite Eq|].
        match goal with |- context [bind ?m _ w3] => assert (removes (rt_remove_credential rt) [] m) as Hm end.
        { case_bool_decide; [apply removes_ret|apply removes_emit]. }
        specialize (Hm w3) as [Hm1 Hm2]. run_bind [w4 []] eqn E4. simpl in *. by intros [= <- <-]. }
      rewrite Es. split; [by transitivity (w_db w3)|]. exists (List.filter (orphaned lives) creds). split_and!.
      * done.
      * apply filter_bool_sublist.
      * intros c [_ Hc]%elem_filter_bool. by apply Hor.
      * intros _ _. split; [|done]. intros c iid Hc Hi Hl. apply elem_filter_bool. split; [done|]. apply Hor. eauto.
  - match goal with |- context [bind (emit_event clock faults ?ev) _ ?x] =>
      destruct (removes_emit clock faults (rt_remove_credential rt) ev x) as [Es Et] end.
    run_bind [w2 []] eqn E2. by intros [= <- <-].
Qed.
End Sweeps.

(** * Vanished sandboxes *)

(** The number of passes in a row, latest first, that saw [id] RUNNING and no sandbox of
    it; a pass is the RUNNING instances and the instances with a sandbox it saw. *)
Fixpoint absences (id : string) (passes : list (list string * list string)) : nat :=
  match passes with
  | [] => 0
  | (running, present) :: h => if bool_decide (id ∈ running /\ id ∉ present) then S (absences id h) else 0
  end.

(** What the counter of an instance is, from its absences. *)
Definition counted (n : nat) : option Z := let m := (n mod 3)%nat in if (m =? 0)%nat then None else Some (Z.of_nat m).
Definition tracks (passes : list (list string * list string)) (counts : gmap string Z) : Prop :=
  forall id, counts !! id = counted (absences id passes).

(** One more absence. *)
Definition bumped (c : option Z) : option Z := let n := default 0 c + 1 in if n <? 3 then Some n else None.

Lemma bumped_counted n : bumped (counted n) = counted (S n).
Proof.
  unfold bumped, counted. pose proof (Nat.mod_upper_bound n 3 ltac:(done)).
  assert ((S n mod 3 = if n mod 3 =? 2 then 0 else S (n mod 3))%nat) as ->.
  { pose proof (Nat.Div0.div_mod n 3) as E. destruct (Nat.eqb_spec (n mod 3) 2) as [E2|E2].
    - rewrite E2 in E. symmetry. apply (Nat.mod_unique (S n) 3 (S (n / 3))); lia.
    - symmetry. apply (Nat.mod_unique (S n) 3 (n / 3)); lia. }
  destruct (n mod 3)%nat as [|[|[|]]]; simpl; try done. lia.
Qed.

Section Vanished.
Context {W R : Type} (rt : Runtime W) (clock : nat -> Z) (faults : nat -> option string).

Definition gone (present : list string) (counts : gmap string Z) (id : string) : Prop :=
  (id ∉ present) /\ bumped (counts !! id) = None.

Definition after_pass (present : list string) (counts : gmap string Z) (id : string) : option Z :=
  if decide (id ∈ present) then None else bumped (counts !! id).

Abbreviation state w j := (i_state <$> instances (w_db w) !! j).
Definition failed_in (w w' : World W R) (j : string) : Prop :=
  state w' j = (fun _ => IS.Failed) <$> instances (w_db w) !! j.

(** What the loop does to the counters and to the states of the instances [l]. *)
Record vanish_effect (present : list string) (counts counts' : gmap string Z) (l : list string) (w w' : World W R)
    : Prop := {
  ve_counts id : counts' !! id = if decide (id ∈ l) then after_pass present counts id else counts !! id;
  ve_states j : state w' j = state w j \/ j ∈ l /\ gone present counts j /\ failed_in w w' j;
  ve_failed j : (forall n, faults n = None) -> j ∈ l -> gone present counts j -> failed_in w w' j }.

Lemma vanish_effect_cons present counts counts1 counts' id l (w w1 w' : World W R) :
  id ∉ l -> vanish_effect present counts counts1 [id] w w1 -> vanish_effect present counts1 counts' l w1 w' ->
  vanish_effect present counts counts' (id :: l) w w'.
Proof.
  intros Hid [C1 S1 F1] [C2 S2 F2].
  assert (forall j, j ∈ l -> counts1 !! j = counts !! j) as Hc.
  { intros j Hj. rewrite C1, decide_False; [done|]. intros ->%list_elem_of_singleton. done. }
  assert (forall j, j ∈ l -> state w1 j = state w j) as Hs.
  { intros j Hj. destruct (S1 j) as [?|(->%list_elem_of_singleton & _)]; done. }
  assert (forall j, j ∈ l -> gone present counts1 j <-> gone present counts j) as Hg.
  { intros j Hj. unfold gone. by rewrite Hc. }
  assert (forall j, j ∈ l -> failed_in w1 w' j -> failed_in w w' j) as Hf.
  { intros j Hj. unfold failed_in. intros ->. specialize (Hs j Hj).
    by destruct (instances (w_db w1) !! j), (instances (w_db w) !! j). }
  split.
  - intros j. rewrite C2. destruct (decide (j ∈ l)) as [Hj|Hj].
    + rewrite decide_True by set_solver. unfold after_pass. by rewrite Hc.
    + rewrite C1. repeat case_decide; set_solver.
  - intros j. destruct (S2 j) as [E|(Hj & Hgo & Hfa)]; [|right; split_and!; [set_solver|by apply Hg|by apply Hf]].
    rewrite E. destruct (S1 j) as [?|(->%list_elem_of_singleton & Hgo & Hfa)]; [by left|]. right. split_and!; [set_solver|done|].
    unfold failed_in in *. by rewrite E.
  - intros j Hn [->|Hj]%elem_of_cons Hgo; [|apply Hf, F2, Hg; done].
    specialize (F1 id Hn ltac:(set_solver) Hgo). destruct (S2 id) as [E|(? & _)]; [|done]. unfold failed_in in *. by rewrite E.
Qed.

(** One turn of the loop that leaves the states alone, or fails the instance that
    reached the threshold. *)
Lemma vanish_effect_one present counts id v (w w1 : World W R) :
  v = after_pass present counts id ->
  (forall j, j <> id -> state w1 j = state w j) ->
  (state w1 id = state w id \/ gone present counts id /\ failed_in w w1 id) ->
  (gone present counts id -> (forall n, faults n = None) -> failed_in w w1 id) ->
  vanish_effect present counts (partial_alter (fun _ => v) id counts) [id] w w1.
Proof.
  intros -> Hj Hs Hf. split.
  - intros j. destruct (decide (j = id)) as [->|Hn].
    + rewrite lookup_partial_alter_eq, decide_True; [done|by apply list_elem_of_singleton].
    + rewrite lookup_partial_alter_ne, decide_False; [done|by rewrite list_elem_of_singleton|done].
  - intros j. destruct (decide (j = id)) as [->|]; [|left; by apply Hj].
    destruct Hs as [?|[? ?]]; [by left|right]. split_and!; [by apply list_elem_of_singleton|done|done].
  - intros j Hn ->%list_elem_of_singleton Hg. by apply Hf.
Qed.

Lemma fails_state id t (w w1 : World W R) :
  same_tables (set_instance_state id IS.Failed t (w_db w)) (w_db w1) ->
  failed_in w w1 id /\ forall j, j <> id -> state w1 j = state w j.
Proof.
  unfold failed_in. intros [_ ->].
  split; [|intros j Hj; destruct (set_instance_state_lookup id IS.Failed t (w_db w) j) as (f & -> & _);
           rewrite decide_False by done; by destruct (instances (w_db w) !! j)].
  destruct (set_instance_state_lookup id IS.Failed t (w_db w) id) as (f & -> & Hf). rewrite decide_True by done.
  destruct (instances (w_db w) !! id) as [i|]; simpl; [|done]. by rewrite (proj1 (Hf i)).
Qed.

Lemma vanish_loop_effect present counts l (w w' : World W R) counts' failed :
  NoDup l -> vanish_loop clock faults present counts l w = (w', (counts', failed)) ->
  vanish_effect present counts counts' l w w'.
Proof.
  revert counts w failed. induction l as [|id l IH]; intros counts w failed Hnd; simpl.
  { intros [= <- <- <-]. split; [done|by left|by intros ? ? ?%elem_of_nil]. }
  apply NoDup_cons in Hnd as [Hid Hnd]. case_bool_decide as Hp.
  { intros H%IH; [|done]. eapply vanish_effect_cons; [done| |exact H].
    apply vanish_effect_one; [unfold after_pass; by rewrite decide_True|done|by left|by intros []]. }
  unfold VANISHED_SANDBOX_THRESHOLD. destruct (_ + 1 <? 3) eqn:Hlt.
  { intros H%IH; [|done]. eapply vanish_effect_cons; [done| |exact H].
    assert (bumped (counts !! id) = Some (default 0 (counts !! id) + 1)) as Hb by (unfold bumped; by rewrite Hlt).
    apply vanish_effect_one; [unfold after_pass; by rewrite decide_False|done|by left|]. intros [_ Hn]. congruence. }
  assert (bumped (counts !! id) = None) as Hb by (unfold bumped; by rewrite Hlt).
  assert (None = after_pass present counts id) as Ha by (unfold after_pass; by rewrite decide_False).
  run_bind [w1 t] eqn E1. injection E1 as <- <-. run_bind [w2 r] eqn E2. unfold journal in E2. simpl in E2.
  destruct (faults (w_calls w)) as [e|] eqn:Hfa; injection E2 as <- <-.
  { intros H%IH; [|done]. eapply vanish_effect_cons; [done| |exact H]. apply vanish_effect_one; [done|done|by left|].
    intros _ Hn. by rewrite Hn in Hfa. }
  match goal with |- context [bind (emit_event clock faults ?ev) _ ?x] =>
    pose proof (keeps_emit clock faults same_tables ev x) as T1 end. run_bind [w3 []] eqn E3.
  match goal with |- context [bind (emit_event clock faults ?ev) _ ?x] =>
    pose proof (keeps_emit clock faults same_tables ev x) as T2 end. run_bind [w4 []] eqn E4.
  run_bind [w5 [c5 f5]] eqn E5. intros [= <- <- <-]. apply IH in E5; [|done].
  destruct (fails_state id (clock (w_ticks w)) w w4) as [Hf Hj]; [transitivity (w_db w3); [exact T1|exact T2]|].
  eapply vanish_effect_cons; [done| |exact E5]. apply vanish_effect_one; [done|done|right|done]. by split; [split|].
Qed.

Context (stamp : string -> M W R unit) (Hstamp : forall id, keeps (on_db same_tables) (stamp id)).

Lemma stamp_all_quiet l : keeps (on_db same_tables) (stamp_all stamp l).
Proof. induction l as [|id l IH]; simpl; [apply keeps_ret; apply _|]. apply keeps_bind; [apply _|done|done]. Qed.

(** The counters after a history of passes, latest first; a pass that could not list the
    sandboxes or read the registry leaves no trace. *)
Inductive vanish_run : list (list string * list string) -> gmap string Z -> Prop :=
| vr_start : vanish_run [] ∅
| vr_pass h counts sandboxes (w w' : World W R) counts' :
    vanish_run h counts -> keyed (w_db w) -> rt_enumerates_sandboxes rt = true ->
    rt_list_sandboxes rt (w_sub w) = Ok sandboxes -> faults (w_calls w) = None ->
    reconcile_vanished_sandboxes rt clock faults stamp counts w = (w', counts') ->
    vanish_run ((running_ids (list_instances (w_db w)), sb_instance_id <$> sandboxes) :: h) counts'
| vr_skip h counts (w w' : World W R) counts' :
    vanish_run h counts ->
    (rt_enumerates_sandboxes rt = false \/ (exists e, rt_list_sandboxes rt (w_sub w) = Err e) \/ faults (w_calls w) <> None) ->
    reconcile_vanished_sandboxes rt clock faults stamp counts w = (w', counts') -> vanish_run h counts'.

Lemma elem_running_ids iid db :
  keyed db -> (iid ∈ running_ids (list_instances db)) <-> exists i, instances db !! iid = Some i /\ i_state i = IS.Running.
Proof.
  intros Hk. unfold running_ids. rewrite list_elem_of_fmap. split.
  - intros (row & -> & [Ht Hr]%list_elem_of_filter). apply elem_list_instances in Hr as (k & i & Hi & ->).
    simpl. rewrite (Hk _ _ Hi). by exists i.
  - intros (i & Hi & Ht). exists (instance_row_from i). split; [by rewrite <- (Hk _ _ Hi)|].
    apply list_elem_of_filter. split; [done|]. apply elem_list_instances. by exists iid, i.
Qed.

(** One pass that could look: the loop over the RUNNING instances, from the counters of
    those instances. *)
Lemma vanish_pass counts sandboxes (w w' : World W R) counts' :
  keyed (w_db w) -> rt_enumerates_sandboxes rt = true -> rt_list_sandboxes rt (w_sub w) = Ok sandboxes ->
  faults (w_calls w) = None -> reconcile_vanished_sandboxes rt clock faults stamp counts w = (w', counts') ->
  let running := running_ids (list_instances (w_db w)) in
  vanish_effect (sb_instance_id <$> sandboxes) (filter (fun p => p.1 ∈ running) counts) counts' running w w'.
Proof.
  intros Hk He Hl Hf. unfold reconcile_vanished_sandboxes, ask. rewrite He. simpl. run_bind [w1 l] eqn E1.
  unfold substrate in E1. rewrite Hl in E1. injection E1 as <- <-. run_bind [w2 rows] eqn E2.
  unfold reading, journal in E2. simpl in E2. rewrite Hf in E2. injection E2 as <- <-.
  run_bind [w3 [c failed]] eqn E3. pose proof (stamp_all_quiet failed w3) as [_ Hs]. run_bind [w4 []] eqn E4.
  intros [= <- <-]. apply vanish_loop_effect in E3; [|by apply NoDup_ids_filter, list_instances_NoDup]. simpl in *.
  destruct E3 as [C S F]. unfold failed_in in *. simpl in *. split; unfold failed_in; by rewrite ?Hs.
Qed.

Lemma vanish_run_tracks h counts : vanish_run h counts -> tracks h counts.
Proof.
  induction 1 as [|h counts sbs w w' counts' _ IH Hk He Hl Hf Hp|h counts w w' counts' _ IH Hskip Hp].
  - by intros id.
  - apply vanish_pass with (sandboxes := sbs) in Hp as [Hc _ _]; [|done..]. intros id. rewrite Hc. cbn [absences].
    set (running := running_ids _). unfold after_pass. destruct (decide (id ∈ running)) as [Hr|Hr].
    + destruct (decide (id ∈ sb_instance_id <$> sbs)); [by rewrite bool_decide_false by tauto|].
      rewrite bool_decide_true by done. rewrite <- bumped_counted, <- IH. f_equal.
      destruct (counts !! id) as [cnt|] eqn:En; [by apply map_lookup_filter_Some|].
      apply map_lookup_filter_None. by left.
    + rewrite bool_decide_false by tauto. apply map_lookup_filter_None. by right.
  - revert Hp. unfold reconcile_vanished_sandboxes, ask. destruct Hskip as [->|[[e He]|Hf]]; [by intros [= <- <-]| |].
    + destruct (rt_enumerates_sandboxes rt); [|by intros [= <- <-]]. simpl. run_bind [w1 l] eqn E1. unfold substrate in E1.
      rewrite He in E1. injection E1 as <- <-. by intros [= <- <-].
    + destruct (rt_enumerates_sandboxes rt); [|by intros [= <- <-]]. simpl. run_bind [w1 l] eqn E1. unfold substrate in E1.
      injection E1 as <- <-. destruct (rt_list_sandboxes rt (w_sub w)); [|by intros [= <- <-]].
      run_bind [w2 rows] eqn E2. unfold reading, journal in E2. simpl in E2. destruct (faults (w_calls w)); [|done].
      injection E2 as <- <-. by intros [= <- <-].
Qed.

Lemma counted_None n : counted n = None -> (0 < n)%nat -> (3 <= n)%nat.
Proof.
  unfold counted. destruct (Nat.eqb_spec (n mod 3) 0) as [E|]; [|done]. intros _ Hn.
  pose proof (Nat.Div0.div_mod n 3). lia.
Qed.

(** An instance fails for a vanished sandbox after three passes in a row, and not
    before. After any history of passes, a pass changes an instance's state only from
    RUNNING to FAILED, and only if this and at least the two passes before it, of those
    that could list the sandboxes and read the registry, saw it RUNNING with no sandbox;
    and with a journal that answers, the third such pass does fail it. *)
Theorem vanished_after_three_absences h counts sandboxes (w w' : World W R) counts' :
  vanish_run h counts -> keyed (w_db w) -> rt_enumerates_sandboxes rt = true ->
  rt_list_sandboxes rt (w_sub w) = Ok sandboxes -> faults (w_calls w) = None ->
  reconcile_vanished_sandboxes rt clock faults stamp counts w = (w', counts') ->
  let passes := (running_ids (list_instances (w_db w)), sb_instance_id <$> sandboxes) :: h in
  (forall j, state w' j = state w j \/
     state w j = Some IS.Running /\ state w' j = Some IS.Failed /\ (3 <= absences j passes)%nat) /\
  ((forall n, faults n = None) -> forall j, absences j passes = 3%nat -> state w' j = Some IS.Failed).
Proof.
  intros Hrun%vanish_run_tracks Hk He Hl Hf Hp. apply vanish_pass with (sandboxes := sandboxes) in Hp as [_ Hs Hfa]; [|done..].
  set (running := running_ids _) in *. cbv zeta. set (passes := (running, _) :: h).
  assert (forall j, j ∈ running -> state w j = Some IS.Running) as Hst.
  { intros j (i & -> & E)%elem_running_ids; [|done]. simpl. by rewrite E. }
  assert (forall j, j ∈ running -> gone (sb_instance_id <$> sandboxes) (filter (fun p => p.1 ∈ running) counts) j <->
    (j ∉ sb_instance_id <$> sandboxes) /\ counted (S (absences j h)) = None) as Hg.
  { intros j Hj. unfold gone. rewrite <- bumped_counted, <- Hrun.
    replace (filter _ counts !! j) with (counts !! j); [done|]. symmetry. destruct (counts !! j) as [c|] eqn:Ec;
      [by apply map_lookup_filter_Some|apply map_lookup_filter_None; by left]. }
  split.
  - intros j. destruct (Hs j) as [?|(Hj & [Hn Hc]%Hg & Hfail)]; [by left| |done]. right. split_and!; [by apply Hst| |].
    + unfold failed_in in Hfail. rewrite Hfail. specialize (Hst j Hj). by destruct (instances (w_db w) !! j).
    + unfold passes. cbn [absences]. rewrite bool_decide_true by done. apply counted_None; [done|lia].
  - intros Hn j. unfold passes. cbn [absences]. case_bool_decide as Hb; [|done]. destruct Hb as [Hj Hab]. intros E3.
    unfold failed_in in Hfa. rewrite Hfa; [|done..|apply Hg; [done|]; by rewrite E3]. specialize (Hst j Hj).
    by destruct (instances (w_db w) !! j).
Qed.
End Vanished.

(** * Retention under journal failures *)

Section RetentionSweep.
Context {W R : Type} (faults : nat -> option string).
#[local] Abbreviation aged cutoff db := (filter (fun e => e_at_ms e < cutoff) (events db)).
#[local] Abbreviation young cutoff db := (filter (fun e => cutoff <= e_at_ms e) (events db)).

Lemma prune_loop_spec fuel cutoff removed (w : World W R) :
  events_ok (w_db w) -> (length (aged cutoff (w_db w)) < fuel)%nat ->
  exists w' r, prune_loop faults fuel cutoff removed w = (w', Some r) /\ events_ok (w_db w') /\
    young cutoff (w_db w') = young cutoff (w_db w) /\ aged cutoff (w_db w') `suffix_of` aged cutoff (w_db w) /\
    match r with
    | Ok n => n = removed + Z.of_nat (length (aged cutoff (w_db w))) /\ aged cutoff (w_db w') = []
    | Err e => exists n, faults n = Some e
    end.
Proof.
  revert removed w. induction fuel as [|fuel IH]; intros removed w Hok Hf; [lia|]. cbn [prune_loop].
  run_bind [w1 r] eqn E1. unfold journal in E1. destruct (faults (w_calls w)) as [e|] eqn:Hfa.
  { injection E1 as <- <-. eexists _, (Err e). split; [reflexivity|]. split_and!; eauto. }
  assert (0 < RETENTION_CHUNK <= i64_max) as Hn by done.
  destruct (prune_events_spec cutoff RETENTION_CHUNK (w_db w) Hok Hn) as (_ & Ha & Hy & Hc & _).
  pose proof (prune_events_ok cutoff RETENTION_CHUNK (w_db w) Hok Hn) as Hok'.
  destruct (prune_events cutoff RETENTION_CHUNK (w_db w)) as [d n]. injection E1 as <- <-. simpl in *.
  rewrite length_take in Hc.
  assert (drop (Z.to_nat RETENTION_CHUNK) (aged cutoff (w_db w)) `suffix_of` aged cutoff (w_db w)) as Hsuf
    by (exists (take (Z.to_nat RETENTION_CHUNK) (aged cutoff (w_db w))); by rewrite take_drop).
  assert (n < RETENTION_CHUNK -> drop (Z.to_nat RETENTION_CHUNK) (aged cutoff (w_db w)) = []) as Hdone.
  { intros. apply drop_ge. lia. }
  assert (forall m, m = removed + n -> n < RETENTION_CHUNK -> exists w' r, (w <| w_calls := S (w_calls w) |> <| w_db := d |>, Some (@Ok string Z m)) = (w', Some r) /\
    events_ok (w_db w') /\ young cutoff (w_db w') = young cutoff (w_db w) /\ aged cutoff (w_db w') `suffix_of` aged cutoff (w_db w) /\
    match r with
    | Ok n => n = removed + Z.of_nat (length (aged cutoff (w_db w))) /\ aged cutoff (w_db w') = []
    | Err e => exists n, faults n = Some e
    end) as Hend.
  { intros m -> Hlt. eexists _, (Ok (removed + n)). split; [done|]. simpl. rewrite Ha, (Hdone Hlt). split_and!; [done..| |lia|done].
    apply suffix_nil. }
  destruct n as [|n|n]; [|..|lia].
  - by apply Hend; [lia|].
  - destruct (Z.ltb_spec (Z.pos n) RETENTION_CHUNK) as [Hlt|Hge]; [by apply Hend|].
    destruct (IH (removed + Z.pos n) (w <| w_calls := S (w_calls w) |> <| w_db := d |>)) as (w' & r & Hr & Hok2 & Hy2 & Hs2 & Hm);
      [done|simpl; rewrite Ha, length_drop; lia|]. simpl in Hy2, Hs2, Hm. exists w', r. rewrite Ha in *.
    split_and!; [done|done|congruence|by etrans|]. destruct r; [|done]. rewrite length_drop in Hm. destruct Hm as [-> ?]. split; [lia|done].
Qed.

(** The retention sweep ends, whatever fails. From any journal and whichever of its
    calls fail, the loop returns; it only ever removes events past retention, oldest
    first; and unless a call failed it removes all of them and says how many. *)
Theorem retention_sweep_terminates cutoff (w : World W R) :
  events_ok (w_db w) ->
  exists w' r, prune_loop faults (S (length (events (w_db w)))) cutoff 0 w = (w', Some r) /\
    young cutoff (w_db w') = young cutoff (w_db w) /\ aged cutoff (w_db w') `suffix_of` aged cutoff (w_db w) /\
    match r with
    | Ok n => n = Z.of_nat (length (aged cutoff (w_db w))) /\ aged cutoff (w_db w') = []
    | Err e => exists n, faults n = Some e
    end.
Proof.
  intros Hok. destruct (prune_loop_spec (S (length (events (w_db w)))) cutoff 0 w Hok) as (w' & r & ? & _ & ? & ? & ?); [|eauto 10].
  pose proof (length_filter (fun e => e_at_ms e < cutoff) (events (w_db w))). lia.
Qed.
End RetentionSweep.

(** * A whole tick *)

(** The operations of [d] are kept and those of [l] added, each on an instance no
    executor was working on, and no two on one instance. *)
Record spawned (d d' : Db) (l : list Spawn) : Prop := {
  spw_kept k o : operations d !! k = Some o -> operations d' !! k = Some o;
  spw_new k o : operations d' !! k = Some o -> operations d !! k = Some o \/ k ∈ op_id ∘ sp_op <$> l;
  spw_row sp : sp ∈ l -> operations d !! op_id (sp_op sp) = None /\
    (forall k o, operations d !! k = Some o -> ~ active_on (op_instance_id (sp_op sp)) o) /\
    exists o, operations d' !! op_id (sp_op sp) = Some o /\ active_on (op_instance_id (sp_op sp)) o;
  spw_once : NoDup (op_instance_id ∘ sp_op <$> l) }.

Lemma spawned_same d d' : operations d' = operations d -> spawned d d' [].
Proof. intros E. split; rewrite ?E; try done; [by left|by intros ? ?%elem_of_nil|constructor]. Qed.

Lemma spawned_app d1 d2 d3 l1 l2 : spawned d1 d2 l1 -> spawned d2 d3 l2 -> spawned d1 d3 (l1 ++ l2).
Proof.
  intros [K1 N1 R1 O1] [K2 N2 R2 O2]. split.
  - auto.
  - intros k o [H|H]%N2; [|right; rewrite fmap_app; apply elem_of_app; by right].
    apply N1 in H as [?|?]; [by left|right; rewrite fmap_app; apply elem_of_app; by left].
  - intros sp [H|H]%elem_of_app.
    + destruct (R1 _ H) as (? & ? & o & ? & ?). split_and!; eauto.
    + destruct (R2 _ H) as (Hf & Hi & ?). split_and!; [|by eauto|done].
      destruct (operations d1 !! op_id (sp_op sp)) eqn:E; [|done]. apply K1 in E. congruence.
  - rewrite fmap_app. apply NoDup_app. split_and!; [done| |done].
    intros x (sp1 & -> & H1)%list_elem_of_fmap (sp2 & E & H2)%list_elem_of_fmap. simpl in E.
    destruct (R1 _ H1) as (_ & _ & o & Ho & Ha). destruct (R2 _ H2) as (_ & Hi & _). rewrite E in Ha. by eapply Hi.
Qed.

Definition same_ops (d d' : Db) : Prop := operations d' = operations d.
#[global] Instance same_ops_DbRel : DbRel same_ops.
Proof. unfold same_ops. split; [split|done]; [done|]. intros a b c E1 E2. by rewrite E2. Qed.

Lemma same_ops_prune cutoff chunk d : same_ops d (fst (prune_events cutoff chunk d)).
Proof. unfold same_ops, prune_events. by destruct (max_cursor _). Qed.
Lemma same_ops_ready iid r t d : same_ops d (fst (set_instance_ready iid r t d)).
Proof. unfold same_ops, set_instance_ready. by destruct (update_where _ _ _ _). Qed.
Lemma same_ops_wake iid at_ t d : same_ops d (fst (claim_wake iid at_ t d)).
Proof. apply take_deadline_operations. Qed.
Lemma same_ops_refl d : same_ops d d.
Proof. done. Qed.
Lemma same_ops_state iid st t d : same_ops d (set_instance_state iid st t d).
Proof. done. Qed.
#[local] Hint Resolve same_ops_prune same_ops_ready same_ops_wake same_ops_refl same_ops_state : frame.

Section Tick.
Context {W R : Type} (rt : Runtime W) (sha256 : list Z -> list Z).
Context (node_cpu_class : string) (clock : nat -> Z) (faults : nat -> option string) (names : nat -> string).
Context (mint : string -> res string Identity).
Context (retention_sweep_interval event_retention credential_sweep_interval : Z).
#[local] Abbreviation act := (@act W R rt sha256 node_cpu_class clock faults names mint).
#[local] Abbreviation quiet m := (keeps (@on_db W R same_ops) m).

Lemma submit_spawned kind iid key p claim ann (w w' : World W R) r s :
  submit_claiming rt sha256 node_cpu_class clock faults names mint kind iid key p claim ann w = (w', (r, s)) ->
  spawned (w_db w) (w_db w') (option_list (spawn kind p s)) /\ ((exists e, r = Err e) -> s = None).
Proof.
  intros H%submit_claiming_spec. destruct s as [[op rec]|]; simpl.
  - destruct H as (-> & _ & (id & created & ->) & _ & cn & [Hf _ Hidle Hops _ _]). split; [|by intros [e [=]]].
    split; rewrite ?Hops.
    + intros k o Hk. rewrite lookup_insert_ne; [done|]. intros E. rewrite E in Hf. congruence.
    + intros k o [[<- <-]|[_ ?]]%lookup_insert_Some; [right|by left]. by apply list_elem_of_singleton.
    + intros sp ->%list_elem_of_singleton. simpl. split_and!; [done|done|]. eexists. by rewrite lookup_insert_eq.
    + apply NoDup_singleton.
  - destruct H as [[E _] _]. split; [by apply spawned_same|done].
Qed.

Lemma spawned_then d1 d2 d3 l : spawned d1 d2 l -> same_ops d2 d3 -> spawned d1 d3 l.
Proof. intros H E%spawned_same. rewrite <- (app_nil_r l). by eapply spawned_app. Qed.
Lemma spawned_after d1 d2 d3 l : same_ops d1 d2 -> spawned d2 d3 l -> spawned d1 d3 l.
Proof. intros E%spawned_same H. by eapply (spawned_app _ _ _ []). Qed.

(** A submission, then an event if it was refused for good. *)
Lemma submit_and_report kind iid key p claim ann (keep : SubmitError -> bool) (ev : SubmitError -> Event) (w w' : World W R) s' :
  (let! (r, s) := submit_claiming rt sha256 node_cpu_class clock faults names mint kind iid key p claim ann in
   match r with
   | Ok _ => ret (spawn kind p s)
   | Err e => if keep e then ret None else let! _ := emit_event clock faults (ev e) in ret None
   end) w = (w', s') ->
  spawned (w_db w) (w_db w') (option_list s').
Proof.
  run_bind [w1 [r s]] eqn E1. apply submit_spawned in E1 as [Hs Hn]. destruct r as [c|e]; [by intros [= <- <-]|].
  rewrite Hn in Hs by eauto. simpl in Hs. destruct (keep e); [by intros [= <- <-]|].
  pose proof (keeps_emit clock faults same_ops (ev e) w1) as Hq. run_bind [w2 []] eqn E2. intros [= <- <-].
  by eapply spawned_then.
Qed.

Lemma act_spawned t row (w w' : World W R) s : act t row w = (w', s) -> spawned (w_db w) (w_db w') (option_list s).
Proof.
  destruct t as [| |health]; simpl.
  - unfold fire_due_wake. destruct (ir_wake_at_ms row) as [at_|]; [|by intros [= <- <-]; apply spawned_same].
    run_bind [w1 now] eqn E1. injection E1 as <- <-. destruct (_ <? at_); [by intros [= <- <-]; apply spawned_same|].
    cbv zeta. destruct (wake_action (ir_state row)) as [[[kind verb]|]|]; [intros H; apply submit_and_report in H; exact H| |by intros [= <- <-]; apply spawned_same].
    intros H. assert (s = None) as ->.
    { revert H. run_bind [w2 t] eqn E2. run_bind [w3 r] eqn E3. destruct r as [[]|]; [|by intros [= <- <-]..].
      run_bind [w4 []] eqn E4. by intros [= <- <-]. }
    apply spawned_same. revert H. match goal with |- ?m ?x = _ -> _ => assert (quiet m) as Hq by keeps_tac; specialize (Hq x) end.
    intros E. rewrite E in Hq. exact Hq.
  - unfold enforce_ttl. destruct (ir_ttl_deadline_ms row) as [deadline|]; [|by intros [= <- <-]; apply spawned_same].
    run_bind [w1 now] eqn E1. injection E1 as <- <-. destruct (_ <? deadline); [by intros [= <- <-]; apply spawned_same|].
    cbv zeta. destruct (resolved_op _) as [[kind p] downgrade]. intros H. apply submit_and_report in H. exact H.
  - unfold enforce_idle. destruct (idle_action _) as [a|]; [|by intros [= <- <-]; apply spawned_same].
    destruct (idle_declared health) as [dec|]; [|by intros [= <- <-]; apply spawned_same]. cbv zeta.
    destruct (_ <=? _); [by intros [= <- <-]; apply spawned_same|]. destruct (_ <=? _); [by intros [= <- <-]; apply spawned_same|].
    destruct (resolved_op _) as [[kind p] downgrade]. intros H. eapply (submit_and_report kind (ir_id row)
      ("idle:" +:+ ir_id row +:+ ":" +:+ pretty (ts_ms dec)) p None _ (fun _ => true) (fun _ => Event_default)). exact H.
Qed.

Lemma each_row_spawned f l (w w' : World W R) ss :
  (forall row w w' s, f row w = (w', s) -> spawned (w_db w) (w_db w') (option_list s)) ->
  each_row f l w = (w', ss) -> spawned (w_db w) (w_db w') ss.
Proof.
  intros Hf. revert w w' ss. induction l as [|row l IH]; intros w w' ss; simpl; [by intros [= <- <-]; apply spawned_same|].
  run_bind [w1 s] eqn E1. run_bind [w2 ss'] eqn E2. intros [= <- <-]. eapply spawned_app; eauto.
Qed.

Lemma probe_spawned row (w w' : World W R) s :
  probe_readiness rt sha256 node_cpu_class clock faults names mint row w = (w', s) ->
  spawned (w_db w) (w_db w') (option_list s).
Proof.
  unfold probe_readiness, ask. run_bind [w1 c] eqn E1. unfold substrate in E1. injection E1 as <- <-.
  destruct (g_connect rt (w_sub w) row); [|by intros [= <- <-]; apply spawned_same]. run_bind [w2 h] eqn E2.
  unfold substrate in E2. destruct (g_health rt _ _ _) as [s2 h2]. injection E2 as <- <-.
  destruct h2 as [response|]; [|by intros [= <- <-]; apply spawned_same].
  match goal with |- ?m ?x = _ -> _ => assert (exists w3, on_db same_ops x w3 /\
    m x = enforce_idle rt sha256 node_cpu_class clock faults names mint row response w3) as (w3 & Hq & ->) end.
  { run_bind [w3 t] eqn E3. injection E3 as <- <-.
    match goal with |- context [bind (journal faults ?f) _ ?x] => pose proof (keeps_journal faults same_ops f
      (same_ops_ready _ _ _) x) as Q1 end. run_bind [w4 r] eqn E4.
    match goal with |- context [bind ?m _ w4] => assert (quiet m) as Q2 by (destruct r as [[]|]; keeps_tac) end.
    specialize (Q2 w4). run_bind [w5 []] eqn E5. exists w5. split; [|done]. unfold on_db in *. simpl in *. by transitivity (w_db w4). }
  intros H%(act_spawned (TIdle response)). by eapply spawned_after.
Qed.

Lemma quiet_retention last e1 s1 :
  quiet (sweep_retention clock faults retention_sweep_interval event_retention last e1 s1).
Proof.
  unfold sweep_retention, prune_fuel. assert (forall fuel c n, quiet (prune_loop faults fuel c n)) as Hl.
  { induction fuel as [|fuel IH]; intros c n; simpl; keeps_tac. }
  destruct (negb _); keeps_tac.
Qed.

Lemma quiet_sweep : quiet (sweep_instances rt clock faults).
Proof.
  assert (forall iid why l, quiet (reap_all rt clock faults iid why l)) as Hr.
  { intros iid why l. induction l as [|sb l IH]; simpl; unfold reap_sandbox; keeps_tac. }
  assert (forall lv fk kn sb l, quiet (sweep_groups rt clock faults lv fk kn sb l)) as Hg.
  { intros lv fk kn sb l. induction l as [|iid l IH]; simpl; [keeps_tac|]. apply keeps_bind; [apply _| |done].
    unfold sweep_group, degraded_duplicate. repeat case_match; keeps_tac. }
  unfold sweep_instances. keeps_tac.
Qed.

Lemma quiet_credentials c e1 s1 : quiet (sweep_credentials rt clock faults credential_sweep_interval c e1 s1).
Proof.
  assert (forall lv u l, quiet (reap_each rt clock faults lv u l)) as Hr.
  { intros lv u l. revert u. induction l as [|x l IH]; intros u; simpl; keeps_tac. }
  unfold sweep_credentials, reap_credentials. keeps_tac.
Qed.

Context (stamp : string -> M W R unit) (Hstamp : forall id, keeps (on_db same_tables) (stamp id)).

Lemma quiet_vanished counts : quiet (reconcile_vanished_sandboxes rt clock faults stamp counts).
Proof.
  assert (forall p c l, quiet (vanish_loop clock faults p c l)) as Hv.
  { intros p c l. revert c. induction l as [|id l IH]; intros c; simpl; keeps_tac. }
  assert (forall l, quiet (stamp_all stamp l)) as Hs.
  { intros l w. destruct (stamp_all_quiet stamp Hstamp l w) as [? _]. done. }
  unfold reconcile_vanished_sandboxes. keeps_tac.
Qed.

(** In one tick the reconciler starts at most one executor per instance, and exactly those
    it journals, where the fleet's pass does. *)
Lemma tick_spawned (fleet_pass : option (M W R (list Spawn))) tick_count instants mem (w w' : World W R) mem' spawns :
  (forall pass w, fleet_pass = Some pass -> spawned (w_db w) (w_db (fst (pass w))) (snd (pass w))) ->
  tick rt sha256 node_cpu_class clock faults names mint retention_sweep_interval event_retention
    credential_sweep_interval stamp fleet_pass tick_count instants mem w = (w', (mem', spawns)) ->
  spawned (w_db w) (w_db w') spawns.
Proof.
  intros Hpass. unfold tick. destruct instants as [[[e1 s1] e2] s2]. pose proof (keeps_reading faults same_ops list_instances w) as Q0.
  run_bind [w1 rows] eqn E1. destruct rows as [rows|]; [|by intros [= <- <- <-]; apply spawned_same].
  run_bind [w2 woken] eqn E2. apply each_row_spawned in E2; [|exact (act_spawned TWake)].
  run_bind [w3 expired] eqn E3. apply each_row_spawned in E3; [|exact (act_spawned TTtl)].
  pose proof (quiet_retention (last_sweep mem) e1 s1 w3) as Q4. run_bind [w4 ls] eqn E4.
  pose proof (quiet_sweep w4) as Q5. run_bind [w5 []] eqn E5.
  pose proof (quiet_vanished (vanished_counts mem) w5) as Q6. run_bind [w6 counts] eqn E6.
  pose proof (quiet_credentials (credential_sweep mem) e2 s2 w6) as Q7. run_bind [w7 creds] eqn E7.
  assert (forall m, m = match fleet_pass with Some pass => pass | None => ret [] end ->
    spawned (w_db w7) (w_db (fst (m w7))) (snd (m w7))) as Hf.
  { intros m ->. destruct fleet_pass as [pass|]; [by apply Hpass|by apply spawned_same]. }
  specialize (Hf _ eq_refl). run_bind [w8 fl] eqn E8. simpl in Hf.
  run_bind [w9 idle] eqn E9. apply each_row_spawned in E9; [|exact probe_spawned]. intros [= <- <- <-].
  assert (same_ops (w_db w3) (w_db w7)) as Q by (unfold on_db in *; simpl in *; unfold same_ops in *; congruence).
  eapply spawned_after; [exact Q0|]. eapply spawned_app; [exact E2|]. eapply spawned_app; [exact E3|].
  eapply spawned_app; [|exact E9]. by eapply spawned_after.
Qed.
End Tick.

(** * Examples *)

Lemma deadline_arithmetic_is_bounded_witness :
  ts_ms (ts 1500) = 1500 /\ (7 <= ttl_deadline_ms (2 ^ 63) 7 <= i64_max) /\ ttl_deadline_ms 2 7 = 2007.
Proof.
  destruct deadline_arithmetic_is_bounded as (_ & _ & _ & Hts & Hd).
  split; [apply Hts; vm_compute; split; discriminate|].
  assert (is_i64 7) as H7 by (vm_compute; split; discriminate).
  split; [apply (Hd (2 ^ 63) 7 ltac:(lia) H7 ltac:(lia))|].
  apply (Hd 2 7 ltac:(lia) H7 ltac:(lia)). vm_compute. discriminate.
Defined.

(** The instance of [toy_created], stopped, with an alarm that has passed; the substrate
    also runs a sandbox nobody knows. *)
Definition wake_world : World (list string) unit :=
  toy_created <| w_db := set_wake_at "i" (Some 3) 0 (set_instance_state "i" IS.Stopped 0 (w_db toy_created)) |>
              <| w_sub := ["i"; "j"] |>.
Definition wake_row : InstanceRow :=
  default (instance_row_from (mkInstance ex_spec IS.Created false empty_str 0 0 None empty_str empty_str [] [] [] [] []
             None None None None None empty_str empty_str empty_str empty_str 0)) (get_instance "i" (w_db wake_world)).
Definition toy_act := act toy_runtime toy_sha "cpu" toy_clock no_faults toy_names toy_mint TWake wake_row wake_world.
Definition toy_woken : World (list string) unit := fst toy_act.
Definition toy_spawn : Spawn :=
  mkSpawn KStart PStart (submitted_row KStart "i" (toy_names (w_names wake_world)) PStart (toy_clock (S (w_ticks wake_world)))) IS.Starting.

Lemma toy_act_eq :
  act toy_runtime toy_sha "cpu" toy_clock no_faults toy_names toy_mint TWake wake_row wake_world = (toy_woken, Some toy_spawn).
Proof. vm_compute. reflexivity. Qed.


Lemma wake_world_ops : ops_inv (operations (w_db wake_world)).
Proof.
  assert (exists o, operations (w_db wake_world) = {["n0" := o]} /\ op_is_in_flight (o_state o) = false) as (o & -> & Hf).
  { eexists. split; [vm_compute; reflexivity|reflexivity]. }
  split.
  - intros k o' [<- <-]%lookup_singleton_Some. congruence.
  - by intros k1 k2 o1 o2 [<- _]%lookup_singleton_Some [<- _]%lookup_singleton_Some.
  - by intros k1 k2 o1 o2 [<- _]%lookup_singleton_Some [<- _]%lookup_singleton_Some.
Qed.

(** The alarm is armed again for the same time and read again. *)
Definition rearmed : World (list string) unit :=
  toy_woken <| w_db := set_wake_at "i" (Some 3) 0 (w_db toy_woken) |>.
Definition toy_act_again := act toy_runtime toy_sha "cpu" toy_clock no_faults toy_names toy_mint TWake wake_row rearmed.

Lemma triggers_fire_once_witness : snd toy_act_again = None.
Proof.
  apply (triggers_fire_once toy_runtime toy_sha "cpu" toy_clock no_faults toy_names toy_mint TWake wake_row
    wake_world toy_woken rearmed (fst toy_act_again) toy_spawn (snd toy_act_again) wake_world_ops toy_act_eq).
  - apply rtc_once, ds_other. vm_compute. reflexivity.
  - unfold toy_act_again. apply surjective_pairing.
Defined.

Definition toy_listing : list Sandbox :=
  [{| substrate_id := "sb-i"; sb_instance_id := "i"; running := true |};
   {| substrate_id := "sb-j"; sb_instance_id := "j"; running := true |}].
Definition toy_swept : World (list string) unit := fst (sweep_instances toy_runtime toy_clock no_faults wake_world).

Lemma wake_world_keyed : keyed (w_db wake_world).
Proof. apply (bool_decide_unpack (keyed _)). vm_compute. exact I. Qed.
Lemma toy_swept_eq : sweep_instances toy_runtime toy_clock no_faults wake_world = (toy_swept, tt).
Proof. unfold toy_swept. by destruct (sweep_instances _ _ _ _) as [? []]. Qed.
#[local] Instance Sandbox_eq_dec : EqDecision Sandbox.
Proof. solve_decision. Defined.

Lemma instance_sweep_spares_live_witness :
  same_tables (w_db wake_world) (w_db toy_swept) /\ w_sub toy_swept = ["i"].
Proof.
  destruct (instance_sweep_spares_live toy_runtime toy_clock no_faults toy_listing wake_world toy_swept wake_world_keyed
    eq_refl ltac:(apply (bool_decide_unpack (NoDup _)); vm_compute; exact I) toy_swept_eq) as [H _].
  split; [exact H|vm_compute; reflexivity].
Defined.

Definition toy_reaped := reap_credentials toy_runtime toy_clock no_faults ∅ wake_world.

Lemma credential_sweep_exact_witness :
  same_tables (w_db wake_world) (w_db (fst toy_reaped)) /\ snd toy_reaped = {["c"]}.
Proof.
  destruct (credential_sweep_exact toy_runtime toy_clock no_faults ∅ wake_world (fst toy_reaped) (snd toy_reaped)
    wake_world_keyed ltac:(apply surjective_pairing)) as [H _].
  split; [exact H|vm_compute; reflexivity].
Defined.

(** The instance runs and its sandbox is gone: three passes. *)
Definition vanished_world : World (list string) unit :=
  toy_created <| w_db := set_instance_state "i" IS.Running 0 (w_db toy_created) |> <| w_sub := [] |>.
Definition no_stamp (_ : string) : M (list string) unit unit := ret tt.
Definition toy_vanish (counts : gmap string Z) :=
  reconcile_vanished_sandboxes toy_runtime toy_clock no_faults no_stamp counts vanished_world.
Definition vanish2 : gmap string Z := snd (toy_vanish (snd (toy_vanish ∅))).
Definition toy_pass : list string * list string := (running_ids (list_instances (w_db vanished_world)), []).

Lemma no_stamp_quiet id : keeps (on_db same_tables) (no_stamp id).
Proof. apply keeps_ret. apply _. Qed.
Lemma vanished_world_keyed : keyed (w_db vanished_world).
Proof. apply (bool_decide_unpack (keyed _)). vm_compute. exact I. Qed.
Lemma vanish2_run : vanish_run toy_runtime toy_clock no_faults no_stamp [toy_pass; toy_pass] vanish2.
Proof.
  apply (vr_pass _ _ _ _ [toy_pass] (snd (toy_vanish ∅)) [] vanished_world (fst (toy_vanish (snd (toy_vanish ∅)))));
    [|exact vanished_world_keyed|done..|by apply surjective_pairing].
  apply (vr_pass _ _ _ _ [] ∅ [] vanished_world (fst (toy_vanish ∅))); [constructor|exact vanished_world_keyed|done..|].
  apply surjective_pairing.
Qed.

Lemma vanished_after_three_absences_witness :
  i_state <$> instances (w_db (fst (toy_vanish vanish2))) !! "i" = Some IS.Failed.
Proof.
  destruct (vanished_after_three_absences toy_runtime toy_clock no_faults no_stamp no_stamp_quiet [toy_pass; toy_pass]
    vanish2 [] vanished_world (fst (toy_vanish vanish2)) (snd (toy_vanish vanish2)) vanish2_run vanished_world_keyed
    eq_refl eq_refl eq_refl ltac:(apply surjective_pairing)) as [_ H].
  apply H; [intros n; reflexivity|vm_compute; reflexivity].
Defined.

Definition retention_world : World (list string) unit := mkWorld ex_db2 ex_store [] 0 0 0 [].

Lemma retention_sweep_terminates_witness :
  exists w' r, prune_loop no_faults 3 15 0 retention_world = (w', Some r) /\
    match r with Ok n => n = 1 | Err _ => False end.
Proof.
  destruct (retention_sweep_terminates no_faults 15 retention_world ex_db2_ok) as (w' & r & H & _ & _ & Hr).
  exists w', r. split; [exact H|]. destruct r as [n|e]; [|destruct Hr as [m [=]]]. destruct Hr as [-> _]. vm_compute. reflexivity.
Defined.
