(* ===== verification/Fleet.v ===== *)
(** A node in a fleet: src/crates/barista-node-agent/src/fleet.rs and fleet_phase.rs. Each
    tick the node renews the leases it holds, fences itself where it has lost one,
    releases those whose session is no longer desired, acquires what is desired and
    advances the sessions it owns, over the lease protocol of [Lease] and the operations
    of [Ops]. *)

From S2P Require Import Prelude Lease Proto StateMachine Journal Events Operations Codec Restore Objects Runtime Ops Executor Reconcile.

(** * Decisions *)

Inductive OnOwnerLoss : Type := Coldboot | Hold.

Record Desired := {
  schema_version : Z;
  desired_name : string;
  desired_spec : list Z;
  on_owner_loss : OnOwnerLoss }.

Definition DESIRED_SCHEMA_VERSION : Z := 1.

Record DesiredSet := mkDesiredSet { ds_names : gset string; ds_records : list Desired }.

Inductive Intent : Type :=
| NotOurs
| AlreadyRunning
| Materialise (cold_boot : bool)
| HoldWithoutMaterialising.

Definition intent_for (policy : OnOwnerLoss) (took_over already_running_locally : bool) : Intent :=
  match took_over, already_running_locally, policy with
  | _, true, _ => AlreadyRunning
  | false, false, _ => Materialise false
  | true, false, Coldboot => Materialise true
  | true, false, Hold => HoldWithoutMaterialising
  end.

Record Outage := mkOutage { since_ms : Z; reported : bool }.

Definition outage_after_renewals (outage : option Outage) (reached_bucket : bool) (now : Z) (ttl : duration)
    : option Outage * bool :=
  if reached_bucket then (None, false)
  else
    match outage with
    | None => (Some (mkOutage now false), false)
    | Some o =>
        if negb (reported o) && (as_i64 (as_millis ttl) <=? wrap_i64 (now - since_ms o))
        then (Some (mkOutage (since_ms o) true), true)
        else (Some o, false)
    end.

Inductive Realising : Type := RRecord | RLease | RFresh.

#[global] Instance Realising_eq_dec : EqDecision Realising.
Proof. solve_decision. Defined.

Definition terminal (s : option IS.t) : bool := match s with Some s => is_terminal s | None => false end.

Definition realising_instance (record : option IS.t) (lease_names_another : bool) (lease : option IS.t) : Realising :=
  if negb (terminal record) then RRecord
  else if lease_names_another && negb (terminal lease) then RLease
  else RFresh.

Inductive ReleaseIntent : Type := RKeep | RDestroyIt | RRelease.

Definition release_intent (desired fencing : bool) (instance : option IS.t) : ReleaseIntent :=
  if desired || fencing then RKeep
  else match instance with
       | None | Some IS.Destroyed => RRelease
       | Some _ => RDestroyIt
       end.

(** The verb that advances an instance in a state towards running; [None] is to wait, or
    that nothing can. *)
Definition materialise_verb (known : option IS.t) (spec : InstanceSpec) (cold_boot : bool)
    : option (OpKind * OpPayload * string) :=
  match known with
  | None => Some (KCreate, PCreate spec, "create")
  | Some IS.Paused => if cold_boot then Some (KStart, PStart, "start") else Some (KResume, PResume None false, "resume")
  | Some IS.Created | Some IS.Stopped => Some (KStart, PStart, "start")
  | Some _ => None
  end.

(** * The node's fleet state *)

(** [Fleet]: the bucket, the leases held, the sessions whose hold was reported and the
    outage under way. The locks serialise the bucket's writes, as a pass here does. *)
Record Fleet (St : Type) := mkFleet {
  fl_store : St;
  fl_held : gmap string Held;
  fl_holds_reported : gset string;
  fl_outage : option Outage }.
Arguments mkFleet {St}. Arguments fl_store {St}. Arguments fl_held {St}. Arguments fl_holds_reported {St}.
Arguments fl_outage {St}.

#[global] Instance rebuild_Fleet St : Rebuild (Fleet St) := fun f =>
  mkFleet (fl_store f) (fl_held f) (fl_holds_reported f) (fl_outage f).

(** What listing the desired state asks of the bucket and of the JSON codec: the entries
    under a prefix, each of which may fail, an entry's file name, and a record's decoding. *)
Class DesiredStore (St Body : Type) := {
  os_list : St -> string -> list (res StoreError string);
  os_filename : string -> option string;
  desired_from_slice : Body -> res string Desired }.

(** A runtime beside a fleet's state: every operation works on the substrate alone. *)
Definition lift2 {W F A} (f : W -> W * A) (x : W * F) : (W * F) * A := let '(s, r) := f (fst x) in ((s, snd x), r).

Definition with_fleet {W} (F : Type) (rt : Runtime W) : Runtime (W * F) := {|
  rt_name := rt_name rt;
  rt_version := rt_version rt;
  rt_caps := rt_caps rt;
  rt_create := fun x spec g => lift2 (fun s => rt_create rt s spec g) x;
  rt_start := fun x iid spec g => lift2 (fun s => rt_start rt s iid spec g) x;
  rt_stop := fun x iid g => lift2 (fun s => rt_stop rt s iid g) x;
  rt_stop_status := fun x => rt_stop_status rt (fst x);
  rt_pause := fun x iid => lift2 (fun s => rt_pause rt s iid) x;
  rt_resume := fun x iid sid => lift2 (fun s => rt_resume rt s iid sid) x;
  rt_fork := fun x a b c d e => lift2 (fun s => rt_fork rt s a b c d e) x;
  rt_restore_from_objects := fun x l spec g => lift2 (fun s => rt_restore_from_objects rt s l spec g) x;
  rt_export_snapshot := fun x => rt_export_snapshot rt (fst x);
  rt_create_snapshot := fun x iid n => lift2 (fun s => rt_create_snapshot rt s iid n) x;
  rt_delete_snapshot := fun x sid => lift2 (fun s => rt_delete_snapshot rt s sid) x;
  rt_destroy := fun x iid => lift2 (fun s => rt_destroy rt s iid) x;
  rt_list_labeled := fun x => rt_list_labeled rt (fst x);
  rt_remove_orphan := fun x iid => lift2 (fun s => rt_remove_orphan rt s iid) x;
  rt_list_credentials := fun x => rt_list_credentials rt (fst x);
  rt_remove_credential := fun x c => lift2 (fun s => rt_remove_credential rt s c) x;
  rt_list_sandboxes := fun x => rt_list_sandboxes rt (fst x);
  rt_remove_sandbox := fun x sid => lift2 (fun s => rt_remove_sandbox rt s sid) x;
  rt_enumerates_sandboxes := rt_enumerates_sandboxes rt;
  rt_network_reachable := rt_network_reachable rt;
  rt_workload_address := fun x => rt_workload_address rt (fst x);
  rt_application_logs := fun x => rt_application_logs rt (fst x);
  rt_substrate_health := fun x => rt_substrate_health rt (fst x);
  g_connect := fun x => g_connect rt (fst x);
  g_run_hook := fun x iid k => lift2 (fun s => g_run_hook rt s iid k) x;
  g_restore_duties := fun x iid l e => lift2 (fun s => g_restore_duties rt s iid l e) x;
  g_health := fun x iid b => lift2 (fun s => g_health rt s iid b) x;
  read_urandom := fun x => lift2 (read_urandom rt) x |}.

(** [PassReport] *)
Record PassReport := mkPassReport {
  pr_renewed : Z; pr_fenced : Z; pr_acquired : Z; pr_materialised : Z; pr_held_without_materialising : Z;
  pr_refused : Z; pr_released : Z; pr_superseded : Z; pr_backend_unavailable : bool }.
#[global] Instance rebuild_PassReport : Rebuild PassReport := fun p =>
  mkPassReport (pr_renewed p) (pr_fenced p) (pr_acquired p) (pr_materialised p) (pr_held_without_materialising p)
    (pr_refused p) (pr_released p) (pr_superseded p) (pr_backend_unavailable p).
Definition PassReport_default : PassReport := mkPassReport 0 0 0 0 0 0 0 0 false.

Section Phase.
Context {W R St Body : Type} {OS : Lease.ObjectStore St Body} {LC : LeaseCodec Body} {DS : DesiredStore St Body}.
Context (rt0 : Runtime W) (sha256 : list Z -> list Z).
Context (node_cpu_class : string) (clock : nat -> Z) (faults : nat -> option string) (names : nat -> string).
Context (mint : string -> res string Identity).
(** [InstanceSpec::decode] of the protobuf library; [ulid::Ulid::from_string] and
    [str::trim], for admission. *)
Context (decode_spec : list Z -> res string InstanceSpec).
Context (ulid_from_string : string -> res string unit) (trim : string -> string).
(** The node's name and address in the fleet, and the protocol's timing. *)
Context (node_id advertise : string) (timing : Timing).

#[local] Abbreviation F := (Fleet St).
#[local] Abbreviation M := (M (W * F) R).
#[local] Abbreviation rt := (with_fleet F rt0).
#[local] Abbreviation journal := (@journal (W * F) R faults).
#[local] Abbreviation reading := (@reading (W * F) R faults).
#[local] Abbreviation emit_event := (@emit_event (W * F) R clock faults).
#[local] Abbreviation now_ms := (@now_ms (W * F) R clock).
#[local] Abbreviation fresh_name := (@fresh_name (W * F) R names).

(** One call on the bucket; reading and changing the node's own fleet state. *)
Definition bucket {A} (f : St -> St * A) : M A :=
  substrate (fun x => let '(st, a) := f (fl_store (snd x)) in ((fst x, (snd x) <| fl_store := st |>), a)).
Definition fleet : M F := ask snd.
Definition set_held (f : gmap string Held -> gmap string Held) : M unit :=
  substrate (fun x => ((fst x, (snd x) <| fl_held := f (fl_held (snd x)) |>), tt)).

(** [ops::submit], with the executor it spawns. *)
Definition submit (kind : OpKind) (iid key : string) (p : OpPayload) : M (res SubmitError OperationRow * list Spawn) :=
  let! (r, s) := submit rt sha256 node_cpu_class clock faults names mint kind iid key p in
  ret (r, option_list (spawn kind p s)).

(** [Desired::spec] *)
Definition spec_of (d : Desired) : res FleetError InstanceSpec :=
  if DESIRED_SCHEMA_VERSION <? schema_version d then
    Err (Config ("desired/" +:+ desired_name d +:+ " is schema version " +:+ pretty (schema_version d) +:+
      ", and this node understands up to " +:+ pretty DESIRED_SCHEMA_VERSION +:+
      ". Refusing rather than guessing: a newer record may carry policy this build would silently not apply. Upgrade the node."))
  else match decode_spec (desired_spec d) with
       | Ok spec => Ok spec
       | Err e => Err (Encode ("desired/" +:+ desired_name d +:+ ": " +:+ e))
       end.

(** [Fleet::desired]: the names, also those of records that cannot be read. *)
Fixpoint desired_entries (st : St) (l : list (res StoreError string)) (out : DesiredSet) : res FleetError DesiredSet :=
  match l with
  | [] => Ok out
  | Err e :: _ => Err (Backend e)
  | Ok location :: l =>
      let out := match os_filename location with
                 | Some name => mkDesiredSet ({[name]} ∪ ds_names out) (ds_records out)
                 | None => out
                 end in
      match os_get st location with
      | Err e => Err (Backend e)
      | Ok (bytes, _, _) =>
          desired_entries st l
            (match desired_from_slice bytes with
             | Ok d => mkDesiredSet (ds_names out) (ds_records out ++ [d])
             | Err _ => out
             end)
      end
  end.
Definition desired (st : St) : res FleetError DesiredSet := desired_entries st (os_list st "desired") (mkDesiredSet ∅ []).

(** The map of held leases in the order of its keys. *)
Definition held_before (a b : string * Held) : Prop := String.le (fst a) (fst b).
#[global] Instance held_before_dec : RelDecision held_before.
Proof. intros a b. unfold held_before. apply _. Defined.
Definition held_list (m : gmap string Held) : list (string * Held) := merge_sort held_before (map_to_list m).

(** [Agent::fleet_info]: what a node reports of its fleet. *)
Definition fleet_info (bucket : string) (f : F) : FleetInfo := {|
  fi_bucket := bucket;
  fi_advertise := advertise;
  fi_held := (fun p => {| hl_session := fst p; hl_session_epoch := epoch (lease (snd p));
                          hl_session_instance := Lease.instance_id (lease (snd p)) |}) <$> held_list (fl_held f) |}.

(** * Run states on leases *)

Definition lease_state_for (iid : string) : M (option string) :=
  if is_empty iid then ret (Some "paused")
  else
    let! r := reading (get_instance iid) in
    ret (match r with
         | Ok (Some row) => if bool_decide (ir_state row = IS.Running) then Some "running" else Some "paused"
         | Ok None => Some "paused"
         | Err _ => None
         end).

Definition stamp_lease_state (iid : string) : M unit :=
  if is_empty iid then ret tt
  else
    let! st := lease_state_for iid in
    match st with
    | None => ret tt
    | Some state =>
        let! f := fleet in
        match list_find (fun p => Lease.instance_id (lease (snd p)) = iid) (held_list (fl_held f)) with
        | None => ret tt
        | Some (_, (name, h)) =>
            if bool_decide (Lease.state (lease h) = Some state) then ret tt
            else
              let! r := bucket (fun b => stamp_state b name h (Some state)) in
              match r with
              | Ok (RenHeld next) => set_held <[name := next]>
              | Ok Fenced | Err _ => ret tt
              end
        end
    end.

(** * Fencing *)

Definition self_fence (name iid : string) : M (list Spawn) :=
  let! _ := emit_event (fenced iid ("session '" +:+ name +:+ "' is owned by another node now; this node stopped its workload. Two running processes for one single-writer session is the split-brain the session model forbids, so the losing side stops rather than waiting to be told.")) in
  if is_empty iid then
    let! _ := emit_event (degradation empty_str empty_str ("session '" +:+ name +:+ "' was fenced but its lease named no instance, so no workload could be stopped. If one is running for this session it is now unowned; check the node's instances against the fleet's desired state.")) in
    ret []
  else
    let! (_, s) := submit KStop iid ("fence-" +:+ name +:+ "-" +:+ iid) (PStop 5) in
    ret s.

(** [.ok().flatten().map(..).unwrap_or(true)] *)
Definition observed_stopped (r : res string (option InstanceRow)) : bool :=
  match r with
  | Ok (Some row) => bool_decide (ir_state row ∈ [IS.Stopped; IS.Destroyed; IS.Paused])
  | Ok None | Err _ => true
  end.

Definition fence_and_confirm (name iid : string) : M (list Spawn) :=
  let! _ := journal (fun db => (mark_lease_fencing name db, tt)) in
  let! s := self_fence name iid in
  if is_empty iid then
    let! _ := journal (fun db => (release_lease name db, tt)) in
    ret s
  else
    let! r := reading (get_instance iid) in
    if observed_stopped r then
      let! _ := journal (fun db => (release_lease name db, tt)) in
      ret s
    else ret s.

Fixpoint fence_all (l : list (string * string)) : M (list Spawn) :=
  match l with
  | [] => ret []
  | (name, iid) :: l => let! s := fence_and_confirm name iid in let! ss := fence_all l in ret (s ++ ss)
  end.

(** After a restart: the leases the journal remembers, against the bucket. *)
Fixpoint recover_leases (l : list HeldLeaseRow) : M (list Spawn) :=
  match l with
  | [] => ret []
  | row :: l =>
      let! r := bucket (fun b => (b, resolve b (hl_name row))) in
      match r with
      | Err _ => ret []
      | Ok (Some le) =>
          if bool_decide (owner le = node_id) && (epoch le =? hl_epoch row) then recover_leases l
          else let! s := fence_and_confirm (hl_name row) (hl_instance_id row) in
               let! ss := recover_leases l in ret (s ++ ss)
      | Ok None =>
          let! s := fence_and_confirm (hl_name row) (hl_instance_id row) in
          let! ss := recover_leases l in ret (s ++ ss)
      end
  end.

Definition recover : M (list Spawn) :=
  let! r := reading held_leases in
  match r with
  | Err _ => ret []
  | Ok rows => recover_leases rows
  end.

(** * Renewals *)

(** One held name: renewed, fenced, or left for the next pass. *)
Definition renew_one (name : string) (acc : PassReport * bool * list (string * string))
    : M (PassReport * bool * list (string * string)) :=
  let '(report, reached, fenced_names) := acc in
  let! f := fleet in
  match fl_held f !! name with
  | None => ret acc
  | Some current =>
      let! state := lease_state_for (Lease.instance_id (lease current)) in
      let! now := now_ms in
      let! r := bucket (fun b => renew b name current timing now state) in
      match r with
      | Ok (RenHeld next) =>
          let! _ := set_held <[name := next]> in
          ret (report <| pr_renewed := pr_renewed report + 1 |>, true, fenced_names)
      | Ok Fenced =>
          let! _ := set_held (delete name) in
          ret (report <| pr_fenced := pr_fenced report + 1 |>, true,
               fenced_names ++ [(name, Lease.instance_id (lease current))])
      | Err _ => ret (report <| pr_backend_unavailable := true |>, reached, fenced_names)
      end
  end.

Fixpoint renew_all (l : list string) (acc : PassReport * bool * list (string * string))
    : M (PassReport * bool * list (string * string)) :=
  match l with
  | [] => ret acc
  | name :: l => let! acc := renew_one name acc in renew_all l acc
  end.

Definition outage_event (p : string * Held) : Event :=
  degradation (Lease.instance_id (lease (snd p))) empty_str
    ("the coordination bucket has been unreachable for longer than the lease TTL (" +:+
     pretty (ttl timing / 1000000000) +:+ "s): this node's lease on session '" +:+ fst p +:+
     "' may have expired, and another node may own the name now. The session is kept running here — coordination unavailability is non-destructive by ratified policy — so if another node did take over, two writers may run until connectivity returns and this node fences itself at first contact.").

Definition note_outage (reached : bool) : M unit :=
  let! now := now_ms in
  let! due := substrate (fun x =>
    let '(next, due) := outage_after_renewals (fl_outage (snd x)) reached now (ttl timing) in
    ((fst x, (snd x) <| fl_outage := next |>), due)) in
  if due : bool then
    let! f := fleet in
    emit_events clock faults (outage_event <$> held_list (fl_held f))
  else ret tt.

(** * Releases *)

(** The leases the journal remembers and memory does not, of sessions no longer desired:
    re-acquired. [None] is that the bucket did not answer. *)
Fixpoint reacquire (desired : gset string) (candidates : list (string * Held)) (l : list HeldLeaseRow)
    : M (option (list (string * Held))) :=
  match l with
  | [] => ret (Some candidates)
  | row :: l =>
      if hl_fencing row || bool_decide (hl_name row ∈ desired) || bool_decide (hl_name row ∈ fst <$> candidates)
      then reacquire desired candidates l
      else
        let! now := now_ms in
        let! r := bucket (fun b => acquire b (hl_name row) node_id advertise timing now) in
        match r with
        | Ok (AcqHeld h) =>
            let! _ := set_held <[hl_name row := h]> in
            reacquire desired (candidates ++ [(hl_name row, h)]) l
        | Ok _ => reacquire desired candidates l
        | Err _ => ret None
        end
  end.

Definition release_one (desired : gset string) (name : string) (h : Held) (report : PassReport)
    : M (PassReport * list Spawn) :=
  let iid := Lease.instance_id (lease h) in
  let! instance := if is_empty iid then ret (Ok None) else reading (fun db => ir_state <$> get_instance iid db) in
  match instance with
  | Err _ => ret (report, [])
  | Ok instance =>
      match release_intent (bool_decide (name ∈ desired)) false instance with
      | RKeep => ret (report, [])
      | RDestroyIt =>
          let! (_, s) := submit KDestroy iid
                           ("fleet-delete-" +:+ name +:+ "-" +:+ pretty (epoch (lease h)) +:+ "-" +:+ iid) (PDestroy false) in
          ret (report, s)
      | RRelease =>
          let! r := bucket (fun b => release b name h) in
          match r with
          | Ok _ =>
              let! _ := journal (fun db => (release_lease name db, tt)) in
              let! _ := set_held (delete name) in
              ret (report <| pr_released := pr_released report + 1 |>, [])
          | Err _ => ret (report <| pr_backend_unavailable := true |>, [])
          end
      end
  end.

Fixpoint release_each (desired : gset string) (l : list (string * Held)) (report : PassReport) : M (PassReport * list Spawn) :=
  match l with
  | [] => ret (report, [])
  | (name, h) :: l =>
      let! (report, s) := release_one desired name h report in
      let! (report, ss) := release_each desired l report in
      ret (report, s ++ ss)
  end.

Definition release_sweep (desired : gset string) (report : PassReport) : M (PassReport * list Spawn) :=
  let! f := fleet in
  let! rows := reading held_leases in
  let! candidates := reacquire desired (held_list (fl_held f)) (default [] (res_ok rows)) in
  match candidates with
  | None => ret (report <| pr_backend_unavailable := true |>, [])
  | Some candidates => release_each desired candidates report
  end.

(** * Advancing a session *)

Definition materialise (name : string) (spec : InstanceSpec) (ep : Z) (cold_boot : bool) : M (bool * list Spawn) :=
  let id := instance_id spec in
  let! r := reading (get_instance id) in
  match materialise_verb (ir_state <$> ok_flatten r) spec cold_boot with
  | None => ret (false, [])
  | Some (kind, payload, verb) =>
      let key := "fleet-" +:+ verb +:+ "-" +:+ name +:+ "-" +:+ pretty ep +:+ "-" +:+ id in
      let! (r, s) := submit kind id key payload in
      match r with
      | Ok _ =>
          let! _ := if cold_boot && bool_decide (verb = "start") then
                      emit_event (degradation id empty_str ("session '" +:+ name +:+ "' was taken over from another node and cold-booted: its in-memory state lived on the previous owner's disk and is not reachable from here. Set on_owner_loss=hold on its desired record if that is not acceptable."))
                    else ret tt in
          ret (true, s)
      | Err _ => ret (false, s)
      end
  end.

Definition journal_state (iid : string) : M (res string (option IS.t)) :=
  if is_empty iid then ret (Ok None) else reading (fun db => ir_state <$> get_instance iid db).

(** The lease of a desired session: held already, acquired and journaled now, or not to
    be had ([None]); [false] is that the bucket did not answer and the pass ends. *)
Definition obtain (name : string) (report : PassReport) : M (option Held * bool * PassReport) :=
  let! f := fleet in
  match fl_held f !! name with
  | Some h => ret (Some h, true, report)
  | None =>
      let! now := now_ms in
      let! r := bucket (fun b => acquire b name node_id advertise timing now) in
      match r with
      | Ok (AcqHeld h) =>
          let report := report <| pr_acquired := pr_acquired report + 1 |> in
          let! t := now_ms in
          let! j := journal (fun db => (hold_lease name (epoch (lease h)) (Lease.instance_id (lease h)) t db, tt)) in
          match j with
          | Err _ => let! _ := bucket (fun b => release b name h) in ret (None, true, report)
          | Ok _ => let! _ := set_held <[name := h]> in ret (Some h, true, report)
          end
      | Ok _ => ret (None, true, report)
      | Err _ => ret (None, false, report <| pr_backend_unavailable := true |>)
      end
  end.

(** The lease is made to name the instance that realises the session. [None] is that the
    lease was lost or the bucket did not answer, with what self-fencing spawned. *)
Definition name_instance (name : string) (h : Held) (spec : InstanceSpec) (record_instance_id : string)
    (realising : Realising) (report : PassReport) : M (option PassReport * PassReport * list Spawn) :=
  let iid := instance_id spec in
  if bool_decide (Lease.instance_id (lease h) = iid) then ret (Some report, report, [])
  else
    let! r := bucket (fun b => set_instance b name h iid) in
    match r with
    | Ok (RenHeld next) =>
        let! _ := journal (fun db => (set_lease_instance name iid db, tt)) in
        let! _ := set_held <[name := next]> in
        if bool_decide (realising = RFresh) then
          let report := report <| pr_superseded := pr_superseded report + 1 |> in
          let! _ := emit_event (degradation iid empty_str ("session '" +:+ name +:+ "' is being realised by a new instance " +:+
            iid +:+ ": the instance its desired record names (" +:+ record_instance_id +:+ ") is terminal on this node, and a terminal instance never runs again. The lease now names the live one, which is where the fleet reads a session's instance from; the record still names the dead one until its author rewrites it.")) in
          ret (Some report, report, [])
        else ret (Some report, report, [])
    | Ok Fenced =>
        let report := report <| pr_fenced := pr_fenced report + 1 |> in
        let! _ := set_held (delete name) in
        let! s := self_fence name (Lease.instance_id (lease h)) in
        ret (None, report, s)
    | Err _ => ret (None, report, [])
    end.

(** What to do with a session whose lease is held and whose record could be read. *)
Definition advance (holds_reported : gset string) (want : Desired) (h : Held) (spec : InstanceSpec)
    (report : PassReport) : M (PassReport * list Spawn) :=
  let name := desired_name want in
  let lease_iid := Lease.instance_id (lease h) in
  let record_iid := instance_id spec in
  let! rs := journal_state record_iid in
  let! ls := journal_state lease_iid in
  match rs, ls with
  | Err _, _ | _, Err _ => ret (report, [])
  | Ok record_state, Ok lease_state =>
      let realising := realising_instance record_state
        (negb (is_empty lease_iid) && negb (bool_decide (lease_iid = record_iid))) lease_state in
      let! iid := match realising with
                  | RRecord => ret record_iid
                  | RLease => ret lease_iid
                  | RFresh => fresh_name
                  end in
      let spec := spec <| instance_id := iid |> in
      match admit_spec ulid_from_string trim spec false (rt_caps rt) (rt_name rt) with
      | Err refusal =>
          let! _ := emit_event (degradation iid empty_str ("desired session '" +:+ name +:+ "' was not started: " +:+
            ref_message refusal +:+ ". The lease is held so no other node materialises it either; fix the desired record.")) in
          ret (report <| pr_refused := pr_refused report + 1 |>, [])
      | Ok _ =>
          let! r := reading (get_instance iid) in
          let realised := match ok_flatten r with
                          | Some row => bool_decide (ir_state row ∈ [IS.Running; IS.Paused])
                          | None => false
                          end in
          match intent_for (on_owner_loss want) (1 <? epoch (lease h)) realised with
          | AlreadyRunning | NotOurs => ret (report, [])
          | HoldWithoutMaterialising =>
              let report := report <| pr_held_without_materialising := pr_held_without_materialising report + 1 |> in
              if bool_decide (name ∈ holds_reported) then ret (report, [])
              else
                let! _ := substrate (fun x => ((fst x, (snd x) <| fl_holds_reported := {[name]} ∪ fl_holds_reported (snd x) |>), tt)) in
                let! _ := emit_event (degradation iid empty_str ("took over session '" +:+ name +:+ "' but did not start it: its desired record says on_owner_loss=hold, and the previous owner's memory is not reachable from this node. The session stays as its last owner left it until an operator decides.")) in
                ret (report, [])
          | Materialise cold_boot =>
              let! (go, report, s) := name_instance name h spec record_iid realising report in
              match go with
              | None => ret (report, s)
              | Some _ =>
                  let! (done, ss) := materialise name spec (epoch (lease h)) cold_boot in
                  ret (if done : bool then report <| pr_materialised := pr_materialised report + 1 |> else report, s ++ ss)
              end
          end
      end
  end.

(** One desired record; [false] ends the loop. *)
Definition pass_one (holds_reported : gset string) (want : Desired) (report : PassReport)
    : M (bool * PassReport * list Spawn) :=
  let! (h, go, report) := obtain (desired_name want) report in
  match h with
  | None => ret (go, report, [])
  | Some h =>
      match spec_of want with
      | Err _ => ret (true, report, [])
      | Ok spec => let! (report, s) := advance holds_reported want h spec report in ret (true, report, s)
      end
  end.

Fixpoint pass_each (holds_reported : gset string) (l : list Desired) (report : PassReport) : M (PassReport * list Spawn) :=
  match l with
  | [] => ret (report, [])
  | want :: l =>
      let! (go, report, s) := pass_one holds_reported want report in
      if go : bool then let! (report, ss) := pass_each holds_reported l report in ret (report, s ++ ss)
      else ret (report, s)
  end.

(** [pass] *)
Definition pass : M (PassReport * list Spawn) :=
  let! f := fleet in
  let held := fst <$> held_list (fl_held f) in
  let! (report, reached, fenced_names) := renew_all held (PassReport_default, false, []) in
  let! _ := if bool_decide (held = []) then ret tt else note_outage reached in
  let! s1 := fence_all fenced_names in
  if pr_backend_unavailable report then ret (report, s1)
  else
    let! f := fleet in
    let! want := bucket (fun b => (b, desired b)) in
    match want with
    | Err _ => ret (report <| pr_backend_unavailable := true |>, s1)
    | Ok want =>
        let! (report, s2) := release_sweep (ds_names want) report in
        let! (report, s3) := pass_each (fl_holds_reported f) (ds_records want) report in
        ret (report, s1 ++ s2 ++ s3)
    end.

(** * The reconciler of a node in a fleet *)

Context (retention_sweep_interval event_retention credential_sweep_interval : Z).
Definition fleet_tick : Z -> Z * Z * Z * Z -> Memory -> M (Memory * list Spawn) :=
  tick rt sha256 node_cpu_class clock faults names mint retention_sweep_interval event_retention
    credential_sweep_interval stamp_lease_state (Some (let! (_, s) := pass in ret s)).
End Phase.
