(* ===== verification/FleetSafety.v ===== *)
(** What a node of a fleet guarantees: the passes of [Fleet]. *)

From S2P Require Import Prelude Lease Stores Proto StateMachine Journal Events Operations Codec Restore Objects Runtime Ops Executor Reconcile Reconciler Fleet.

(** * Frames *)

(** The leases the journal remembers are kept. *)
Definition leases_grow (d d' : Db) : Prop := forall n, is_Some (fleet_leases d !! n) -> is_Some (fleet_leases d' !! n).
Definition same_leases (d d' : Db) : Prop := fleet_leases d' = fleet_leases d.

#[global] Instance leases_grow_DbRel : DbRel leases_grow.
Proof. unfold leases_grow. split; [split|by intros ev t d n]; [by intros d n|]. intros a b c H1 H2 n Hn. auto. Qed.
#[global] Instance same_leases_DbRel : DbRel same_leases.
Proof. unfold same_leases. split; [split|done]; [done|]. intros a b c E1 E2. by rewrite E2. Qed.

Lemma same_leases_grow d d' : same_leases d d' -> leases_grow d d'.
Proof. intros E n. by rewrite E. Qed.

Lemma submit_atomically_leases mint plan op key tr cs rt tok claim lin cn now db :
  same_leases db (fst (submit_atomically mint plan op key tr cs rt tok claim lin cn now db)).
Proof.
  unfold same_leases, submit_atomically. destruct (op_id_of_key key db); [done|]. destruct (has_inflight_op _ _); [done|].
  destruct (submit_plan _ _ _ _ _) as [rec|]; [|done].
  destruct (submit_commit _ _ _ _ _ _ _ _ _ _ _ _) as [[tx|]|] eqn:E; try done. simpl. revert E. unfold submit_commit.
  assert (fleet_leases (fst (match claim with Some c => take_deadline (op_instance_id op) c cn db | None => (db, true) end)) =
    fleet_leases db) as Hc.
  { destruct claim as [c|]; [|done]. unfold take_deadline. by destruct (update_where _ _ _ _). }
  destruct (negb _); [done|]. unfold res_bind, insert_op_row, res_map_err. repeat case_match; intros; simplify_eq/=; done.
Qed.

Lemma mark_grow n d : leases_grow d (mark_lease_fencing n d).
Proof.
  intros m. unfold mark_lease_fencing. simpl. rewrite update_lookup. by destruct (fleet_leases d !! m); case_decide.
Qed.
Lemma set_instance_grow n i d : leases_grow d (set_lease_instance n i d).
Proof.
  intros m. unfold set_lease_instance. simpl. rewrite update_lookup. by destruct (fleet_leases d !! m); case_decide.
Qed.
Lemma hold_grow n e i t d : leases_grow d (hold_lease n e i t d) /\ is_Some (fleet_leases (hold_lease n e i t d) !! n).
Proof.
  unfold leases_grow, hold_lease. simpl. destruct (fleet_leases d !! n) as [l|] eqn:E; (split; [|by rewrite lookup_insert_eq]);
    intros m; (destruct (decide (m = n)) as [->|]; [by rewrite lookup_insert_eq|by rewrite lookup_insert_ne]).
Qed.

Section Phase.
Context {W R St Body : Type} {OS : Lease.ObjectStore St Body} {LC : LeaseCodec Body} {DS : DesiredStore St Body}.
Context (rt0 : Runtime W) (sha256 : list Z -> list Z).
Context (node_cpu_class : string) (clock : nat -> Z) (faults : nat -> option string) (names : nat -> string).
Context (mint : string -> res string Identity).
Context (decode_spec : list Z -> res string InstanceSpec).
Context (ulid_from_string : string -> res string unit) (trim : string -> string).
Context (node_id advertise : string) (timing : Timing).
#[local] Abbreviation World := (World (W * Fleet St) R).
#[local] Abbreviation rt := (with_fleet (Fleet St) rt0).
#[local] Abbreviation submit := (@Fleet.submit W R St rt0 sha256 node_cpu_class clock faults names mint).
#[local] Abbreviation held w := (fl_held (snd (w_sub w))).

(** The held leases are as they were, and the journal remembers those it did. *)
Definition calm : relation World := fun w w' => leases_grow (w_db w) (w_db w') /\ held w' = held w.
#[global] Instance calm_preorder : PreOrder calm.
Proof.
  split; [intros w; by split|]. intros a b c [H1 E1] [H2 E2]. split; [by transitivity (w_db b)|congruence].
Qed.

Lemma calm_journal {A} (f : Db -> Db * A) : (forall d, leases_grow d (fst (f d))) -> keeps calm (journal faults f).
Proof.
  intros Hf w. split; [apply (keeps_journal faults leases_grow f Hf)|]. unfold journal. destruct (faults _); [done|].
  by destruct (f _).
Qed.
Lemma calm_reading {A} (f : Db -> A) : keeps calm (reading faults f).
Proof. apply calm_journal. intros d. reflexivity. Qed.
Lemma calm_now : keeps calm (now_ms clock).
Proof. by intros w. Qed.
Lemma calm_fresh : keeps calm (fresh_name names).
Proof. by intros w. Qed.
Lemma calm_ask {A} (f : W * Fleet St -> A) : keeps calm (ask f).
Proof. by intros w. Qed.
Lemma calm_bucket {A} (f : St -> St * A) : keeps calm (@bucket W R St A f).
Proof. intros w. unfold bucket, substrate, calm. simpl. by destruct (f _). Qed.
Lemma calm_lift {A} (f : W -> W * A) : keeps calm (substrate (fun x => lift2 f x)).
Proof. intros w. unfold lift2, substrate, calm. simpl. by destruct (f _). Qed.
(** The answer of a call on the bucket. *)
Lemma bucket_run {A} (f : St -> St * A) (w w' : World) r :
  @bucket W R St A f w = (w', r) -> calm w w' /\ exists b, f (fl_store (snd (w_sub w))) = (b, r).
Proof.
  intros E. split; [pose proof (calm_bucket f w) as H; by rewrite E in H|]. revert E. unfold bucket, substrate.
  destruct (f _) as [b a]. intros [= <- <-]. by exists b.
Qed.
#[local] Hint Resolve calm_reading calm_now calm_fresh calm_ask calm_bucket calm_lift : keeps.
Lemma calm_emit ev : keeps calm (emit_event clock faults ev).
Proof.
  unfold emit_event. apply keeps_bind; [apply _|apply calm_now|]. intros t. apply keeps_bind; [apply _| |].
  - apply calm_journal. intros d. apply dbrel_record.
  - intros []; apply keeps_ret; apply _.
Qed.
#[local] Hint Resolve calm_emit : keeps.
Lemma calm_emits l : keeps calm (emit_events clock faults l).
Proof. induction l; simpl; keeps_tac. Qed.
#[local] Hint Resolve calm_emits : keeps.

Lemma calm_submit kind iid key p : keeps calm (submit kind iid key p).
Proof.
  unfold Fleet.submit, Ops.submit, submit_claiming.
  assert (forall op tok claim, keeps calm (submit_journal rt clock faults mint kind op key p tok claim)) as Hj.
  { intros op tok claim. unfold submit_journal, journal_try. apply keeps_bind; [apply _|apply calm_now|]. intros cn.
    apply keeps_bind; [apply _|apply calm_now|]. intros t. apply keeps_bind; [apply _| |intros r; apply keeps_ret; apply _].
    apply calm_journal. intros d. apply same_leases_grow, submit_atomically_leases. }
  assert (keeps calm (payload_token rt p)) as Ht by (unfold payload_token, new_guest_token; simpl; keeps_tac).
  assert (keeps calm (refused_early rt sha256 node_cpu_class faults iid p)) as Hr
    by (unfold refused_early, resolve_restore; destruct p; keeps_tac).
  assert (forall op original, keeps calm (check_replay faults op original p)) as Hc
    by (intros op original; unfold check_replay; keeps_tac).
  keeps_tac.
Qed.
#[local] Hint Resolve calm_submit : keeps.

Lemma calm_state_for iid : keeps calm (@lease_state_for W R St faults iid).
Proof. unfold lease_state_for. keeps_tac. Qed.
#[local] Hint Resolve calm_state_for : keeps.
Lemma calm_self_fence name iid : keeps calm (@self_fence W R St rt0 sha256 node_cpu_class clock faults names mint name iid).
Proof. unfold self_fence. keeps_tac. Qed.
#[local] Hint Resolve calm_self_fence : keeps.
Lemma calm_materialise name spec ep cold :
  keeps calm (@materialise W R St rt0 sha256 node_cpu_class clock faults names mint name spec ep cold).
Proof. unfold materialise. keeps_tac. Qed.
#[local] Hint Resolve calm_materialise : keeps.
Lemma calm_note_outage reached : keeps calm (@note_outage W R St clock faults timing reached).
Proof.
  unfold note_outage, fleet. apply keeps_bind; [apply _|apply calm_now|]. intros now. apply keeps_bind; [apply _| |].
  - intros w. unfold substrate, calm. simpl. by destruct (outage_after_renewals _ _ _ _).
  - intros []; keeps_tac.
Qed.

(** * Every held lease is this node's and journaled *)

Definition owned (w : World) : Prop :=
  forall n h, held w !! n = Some h -> owner (lease h) = node_id /\ is_Some (fleet_leases (w_db w) !! n).

Lemma owned_calm w w' : owned w -> calm w w' -> owned w'.
Proof. intros Ho [Hg E] n h. rewrite E. intros [? ?]%Ho. auto. Qed.

(** [preserves m] with what [m]'s result says of the world it leaves. *)
Definition upholds {A} (m : M (W * Fleet St) R A) (Q : A -> World -> Prop) : Prop :=
  forall w, owned w -> owned (fst (m w)) /\ Q (snd (m w)) (fst (m w)).
Definition anyway {A} (_ : A) (_ : World) : Prop := True.

Lemma upholds_calm {A} (m : M (W * Fleet St) R A) : keeps calm m -> upholds m anyway.
Proof. intros Hm w Ho. split; [|done]. by eapply owned_calm. Qed.

Lemma upholds_ret {A} (a : A) : upholds (ret a) anyway.
Proof. by intros w Ho. Qed.

Lemma upholds_bind {A B} (m : M (W * Fleet St) R A) (k : A -> M (W * Fleet St) R B) Q1 Q2 :
  upholds m Q1 -> (forall a w, owned w -> Q1 a w -> owned (fst (k a w)) /\ Q2 (snd (k a w)) (fst (k a w))) ->
  upholds (bind m k) Q2.
Proof.
  intros Hm Hk w Ho. unfold bind. destruct (Hm w Ho) as [Ho1 HQ]. destruct (m w) as [w1 a]. by apply Hk.
Qed.

Lemma upholds_then {A B} (m : M (W * Fleet St) R A) (k : A -> M (W * Fleet St) R B) Q :
  upholds m anyway -> (forall a, upholds (k a) Q) -> upholds (bind m k) Q.
Proof. intros Hm Hk. eapply upholds_bind; [exact Hm|]. intros a w Ho _. by apply Hk. Qed.

Lemma fenced_write_owner st n h l st' h' :
  fenced_write st n h l = (st', Ok (RenHeld h')) -> lease h' = l.
Proof. unfold fenced_write. destruct (put _ _ _ _) as [? [[?|]|?]]; intros; by simplify_eq. Qed.

Lemma acquire_owner st n me ep t now st' h : acquire st n me ep t now = (st', Ok (AcqHeld h)) -> owner (lease h) = me.
Proof.
  unfold acquire. destruct (validate t); [|done]. destruct (read st n) as [cur|]; [|done].
  destruct (acquire_decide me ep t now cur) as [|l m] eqn:Ed; [done|]. unfold acquire_write.
  destruct (put _ _ _ _) as [? [[?|]|?]]; intros; simplify_eq. simpl. revert Ed. unfold acquire_decide.
  destruct cur as [[prev v]|]; [destruct (negb _ && negb _)|]; intros; by simplify_eq.
Qed.

(** Putting a lease under a name the journal remembers; taking one away. *)
Lemma upholds_insert n h (w : World) :
  owned w -> owner (lease h) = node_id -> is_Some (fleet_leases (w_db w) !! n) ->
  owned (fst (@set_held W R St <[n := h]> w)).
Proof. intros Ho Hh Hn m h'. simpl. intros [[<- <-]|[? ?]]%lookup_insert_Some; [by split|by apply Ho]. Qed.

Lemma upholds_delete n : upholds (@set_held W R St (delete n)) (fun _ w => held w !! n = None).
Proof.
  intros w Ho. split; [|simpl; apply lookup_delete_eq]. intros m h. simpl. intros [? ?]%lookup_delete_Some. by apply Ho.
Qed.

Lemma bind_fleet {A} (k : Fleet St -> M (W * Fleet St) R A) (w : World) : bind fleet k w = k (snd (w_sub w)) w.
Proof. unfold bind, fleet, ask, substrate. simpl. by destruct w. Qed.

Lemma upholds_stamp iid : upholds (@stamp_lease_state W R St Body OS LC faults iid) anyway.
Proof.
  unfold stamp_lease_state. destruct (is_empty iid); [apply upholds_ret|].
  apply upholds_then; [apply upholds_calm, calm_state_for|]. intros [state|]; [|apply upholds_ret].
  intros w Ho. rewrite bind_fleet.
  destruct (list_find _ _) as [[k [name h]]|] eqn:El; [|by split]. case_bool_decide; [by split|].
  apply list_find_Some in El as (El & _ & _). apply list_elem_of_lookup_2 in El.
  unfold held_list in El. rewrite merge_sort_Permutation, elem_of_map_to_list in El. destruct (Ho _ _ El) as [Hown Hrow].
  unfold bind, bucket, substrate. simpl. destruct (stamp_state _ _ _ _) as [b r] eqn:Er. simpl.
  destruct r as [[next|]|]; try by split. split; [|done]. apply upholds_insert; [done| |done].
  apply fenced_write_owner in Er. by rewrite Er.
Qed.

(** The names fenced so far are not held. *)
Definition dropped (l : list (string * string)) (w : World) : Prop := forall p, p ∈ l -> held w !! fst p = None.

Lemma renew_one_owned name report reached fn :
  forall w, owned w -> dropped fn w ->
  let m := @renew_one W R St Body OS LC clock faults timing name (report, reached, fn) in
  owned (fst (m w)) /\ dropped (snd (snd (m w))) (fst (m w)).
Proof.
  intros w Ho Hd. cbv zeta. unfold renew_one. rewrite bind_fleet. destruct (held w !! name) as [cur|] eqn:Ec; [|by split].
  destruct (Ho _ _ Ec) as [Hown Hrow].
  pose proof (calm_state_for (Lease.instance_id (lease cur)) w) as Hq. run_bind [w1 state] eqn E1.
  pose proof (calm_now w1) as Hn. run_bind [w2 now] eqn E2. run_bind [w3 r] eqn E3.
  apply bucket_run in E3 as [Hb [b Er]]. assert (calm w w3) as Hc by (transitivity w1; [exact Hq|]; by transitivity w2).
  assert (owned w3) as Ho3 by (by eapply owned_calm). destruct Hc as [Hg Eh].
  assert (dropped fn w3) as Hd3 by (intros p Hp; rewrite Eh; by apply Hd).
  destruct r as [[next|]|e]; [| |by split].
  - run_bind [w4 []] eqn E4. assert (w4 = fst (@set_held W R St <[name := next]> w3)) as -> by (by rewrite E4). clear E4.
    split; [apply upholds_insert; [done| |by apply Hg]; apply fenced_write_owner in Er; by rewrite Er|].
    intros p Hp. simpl. rewrite lookup_insert_ne; [by apply Hd3|]. intros E. apply Hd in Hp. congruence.
  - destruct (upholds_delete name w3 Ho3) as [Ho4 Hn4]. run_bind [w4 []] eqn E4. split; [done|].
    injection E4 as <-. intros p [Hp| ->%list_elem_of_singleton]%elem_of_app; [|done].
    simpl. apply lookup_delete_None. right. by apply Hd3.
Qed.

Lemma renew_all_owned l acc w :
  owned w -> dropped (snd acc) w ->
  let m := @renew_all W R St Body OS LC clock faults timing l acc in
  owned (fst (m w)) /\ dropped (snd (snd (m w))) (fst (m w)).
Proof.
  cbv zeta. revert acc w. induction l as [|name l IH]; intros [[rep reached] fn] w Ho Hd; cbn [renew_all]; [by split|].
  pose proof (renew_one_owned name rep reached fn w Ho Hd) as [Ho1 Hd1]. run_bind [w1 acc1] eqn E1. by apply IH.
Qed.

(** Forgetting a lease the node does not hold. *)
Lemma forget_owned n w : owned w -> held w !! n = None -> let w' := fst (journal faults (fun db => (release_lease n db, tt)) w) in
  owned w' /\ held w' = held w.
Proof.
  intros Ho Hn. unfold journal. destruct (faults _); simpl; [done|]. split; [|done]. intros m h. simpl. intros Hm.
  rewrite lookup_delete_ne; [by apply Ho|]. intros ->. congruence.
Qed.

#[local] Abbreviation fence_and_confirm := (@fence_and_confirm W R St rt0 sha256 node_cpu_class clock faults names mint).
Lemma fence_owned name iid w :
  owned w -> held w !! name = None ->
  let w' := fst (fence_and_confirm name iid w) in owned w' /\ held w' = held w.
Proof.
  intros Ho Hn. cbv zeta. unfold Fleet.fence_and_confirm.
  pose proof (calm_journal (fun db => (mark_lease_fencing name db, tt)) (mark_grow name) w) as H1. run_bind [w1 r1] eqn E1.
  pose proof (calm_self_fence name iid w1) as H2. run_bind [w2 s] eqn E2.
  assert (calm w w2) as Hc by (transitivity w1; [exact H1|exact H2]).
  assert (forall w3, calm w w3 -> let w' := fst ((let! _ := journal faults (fun db => (release_lease name db, tt)) in ret s) w3) in
    owned w' /\ held w' = held w) as Hend.
  { intros w3 [Hg Eh]. destruct (forget_owned name w3) as [Ho4 Eh4]; [by eapply owned_calm|by rewrite Eh|]. cbv zeta.
    run_bind [w4 r4] eqn E4. simpl in *. split; [done|congruence]. }
  destruct (is_empty iid); [by apply Hend|]. pose proof (calm_reading (get_instance iid) w2) as H3. run_bind [w3 r3] eqn E3.
  assert (calm w w3) as Hc3 by (transitivity w2; [exact Hc|exact H3]).
  destruct (observed_stopped r3); [by apply Hend|]. simpl. split; [by eapply owned_calm|apply Hc3].
Qed.

Lemma fence_all_owned l w :
  owned w -> dropped l w ->
  let w' := fst (@fence_all W R St rt0 sha256 node_cpu_class clock faults names mint l w) in owned w' /\ held w' = held w.
Proof.
  cbv zeta. revert w. induction l as [|[name iid] l IH]; intros w Ho Hd; cbn [fence_all]; [by split|].
  destruct (fence_owned name iid w Ho) as [Ho1 Eh1]; [apply (Hd (name, iid)); set_solver|]. run_bind [w1 s] eqn E1. simpl in *.
  destruct (IH w1 Ho1) as [Ho2 Eh2]; [intros p Hp; rewrite Eh1; apply Hd; set_solver|]. run_bind [w2 ss] eqn E2. simpl in *.
  split; [done|congruence].
Qed.

Lemma release_one_owned desired name h report :
  upholds (@release_one W R St Body OS LC rt0 sha256 node_cpu_class clock faults names mint desired name h report) anyway.
Proof.
  unfold release_one. apply upholds_then; [apply upholds_calm; destruct (is_empty _); keeps_tac|].
  intros [instance|]; [|apply upholds_ret]. destruct (release_intent _ _ _); [apply upholds_ret| |].
  - apply upholds_then; [apply upholds_calm, calm_submit|]. intros [? s]. apply upholds_ret.
  - apply upholds_then; [apply upholds_calm, calm_bucket|]. intros [[]|]; [|apply upholds_ret]. intros w Ho.
    run_bind [w1 r] eqn E1. assert (held w1 = held w /\ forall n, n <> name -> is_Some (fleet_leases (w_db w) !! n) ->
      is_Some (fleet_leases (w_db w1) !! n)) as [Eh Hr].
    { unfold journal in E1. destruct (faults _); injection E1 as <- <-; split; try done. intros n Hn Hrow. simpl.
      by rewrite lookup_delete_ne. }
    run_bind [w2 []] eqn E2. split; [|done]. injection E2 as <-. intros n h'. simpl. rewrite Eh.
    intros [Hn Hh]%lookup_delete_Some. destruct (Ho _ _ Hh) as [? ?]. split; [done|]. by apply Hr.
Qed.

Lemma release_each_owned desired l report :
  upholds (@release_each W R St Body OS LC rt0 sha256 node_cpu_class clock faults names mint desired l report) anyway.
Proof.
  revert report. induction l as [|[name h] l IH]; intros report; cbn [release_each]; [apply upholds_ret|].
  apply upholds_then; [apply release_one_owned|]. intros [rep s]. apply upholds_then; [apply IH|]. intros [rep' ss]. apply upholds_ret.
Qed.

(** The rows of a journal, which holding and releasing other names leaves there. *)
Lemma reacquire_owned desired cands l w :
  owned w -> (forall row, row ∈ l -> is_Some (fleet_leases (w_db w) !! hl_name row)) ->
  owned (fst (@reacquire W R St Body OS LC clock node_id advertise timing desired cands l w)).
Proof.
  revert cands w. induction l as [|row l IH]; intros cands w Ho Hrows; cbn [reacquire]; [done|].
  destruct (hl_fencing row || _ || _); [apply IH; [done|set_solver]|]. pose proof (calm_now w) as Hn.
  run_bind [w1 now] eqn E1. run_bind [w2 r] eqn E2. apply bucket_run in E2 as [Hb [b Er]].
  assert (calm w w2) as Hc by (transitivity w1; [exact Hn|exact Hb]). assert (owned w2) as Ho2 by (by eapply owned_calm).
  destruct Hc as [Hg Eh]. assert (forall row', row' ∈ row :: l -> is_Some (fleet_leases (w_db w2) !! hl_name row')) as Hrows2
    by (intros; apply Hg, Hrows; done).
  destruct r as [[h| |]|]; [|apply IH; [done|set_solver]..|done].
  run_bind [w3 []] eqn E3. assert (w3 = fst (@set_held W R St <[hl_name row := h]> w2)) as -> by (by rewrite E3). clear E3.
  apply IH; [|intros; apply Hrows2; set_solver].
  apply upholds_insert; [done|by eapply acquire_owner|apply Hrows2; set_solver].
Qed.

Lemma elem_held_leases row db : row ∈ held_leases db -> is_Some (fleet_leases db !! hl_name row).
Proof.
  unfold held_leases. rewrite merge_sort_Permutation, list_elem_of_fmap. intros ([n l] & -> & Hn%elem_of_map_to_list). by exists l.
Qed.

Lemma release_sweep_owned desired report :
  upholds (@release_sweep W R St Body OS LC rt0 sha256 node_cpu_class clock faults names mint node_id advertise timing
    desired report) anyway.
Proof.
  intros w Ho. split; [|done]. unfold release_sweep. rewrite bind_fleet. run_bind [w1 rows] eqn E1.
  assert (calm w w1) as Hc by (pose proof (calm_reading held_leases w) as H; by rewrite E1 in H).
  assert (owned w1) as Ho1 by (by eapply owned_calm).
  assert (forall row, row ∈ default [] (res_ok rows) -> is_Some (fleet_leases (w_db w1) !! hl_name row)) as Hrows.
  { intros row. unfold reading, journal in E1. destruct (faults _); injection E1 as <- <-; simpl; [by intros ?%elem_of_nil|].
    apply elem_held_leases. }
  pose proof (reacquire_owned desired (held_list (held w)) _ w1 Ho1 Hrows) as Ho2. run_bind [w2 cands] eqn E2.
  destruct cands as [cands|]; [|done]. by apply release_each_owned.
Qed.

(** * Sessions are advanced only under a lease *)

Definition spawns_on (kinds : list OpKind) (iid : string) (l : list Spawn) : Prop :=
  forall sp, sp ∈ l -> sp_kind sp ∈ kinds /\ op_instance_id (sp_op sp) = iid.

Lemma submit_spawns_on kind iid key p (w : World) : spawns_on [kind] iid (snd (snd (submit kind iid key p w))).
Proof.
  unfold Fleet.submit, Ops.submit. run_bind [w1 [r s]] eqn E1. simpl.
  unfold bind at 1 in E1. destruct (submit_claiming _ _ _ _ _ _ _ _ _ _ _ _ _ w) as [w2 [r2 s2]] eqn:E2.
  injection E1 as <- <- <-. apply submit_claiming_spec in E2. destruct s2 as [[op rec]|]; simpl; [|by intros sp ?%elem_of_nil].
  destruct E2 as (_ & _ & (id & created & ->) & _). intros sp ->%list_elem_of_singleton. simpl. split; [|done]. by apply list_elem_of_singleton.
Qed.

Lemma self_fence_spawns name iid (w : World) :
  spawns_on [KStop] iid (snd (@self_fence W R St rt0 sha256 node_cpu_class clock faults names mint name iid w)).
Proof.
  unfold self_fence. run_bind [w1 []] eqn E1. destruct (is_empty iid).
  - run_bind [w2 []] eqn E2. by intros sp ?%elem_of_nil.
  - pose proof (submit_spawns_on KStop iid ("fence-" +:+ name +:+ "-" +:+ iid) (PStop 5) w1) as H.
    run_bind [w2 [r s]] eqn E2. done.
Qed.

Definition advancing : list OpKind := [KCreate; KStart; KResume].

Lemma materialise_verb_advances st spec cold kind p verb :
  materialise_verb st spec cold = Some (kind, p, verb) -> kind ∈ advancing.
Proof. destruct st as [[]|], cold; simpl; intros; simplify_eq; unfold advancing; set_solver. Qed.

Lemma materialise_spawns name spec ep cold (w : World) :
  spawns_on advancing (instance_id spec)
    (snd (snd (@materialise W R St rt0 sha256 node_cpu_class clock faults names mint name spec ep cold w))).
Proof.
  unfold materialise. run_bind [w1 r] eqn E1. destruct (materialise_verb _ _ _) as [[[kind p] verb]|] eqn:Ev;
    [|by intros sp ?%elem_of_nil].
  apply materialise_verb_advances in Ev.
  match goal with |- context [bind (submit ?a ?b ?c ?d) _ w1] => pose proof (submit_spawns_on a b c d w1) as H end.
  run_bind [w2 [r2 s]] eqn E2. assert (spawns_on advancing (instance_id spec) s) as Hs.
  { intros sp [->%list_elem_of_singleton ?]%H. done. }
  destruct r2; [|done]. run_bind [w3 []] eqn E3. done.
Qed.

(** The session [name]'s held lease names the instance [iid]. *)
Definition leased (name iid : string) (w : World) : Prop :=
  exists h, held w !! name = Some h /\ Lease.instance_id (lease h) = iid.

Lemma obtain_owned name report (w w' : World) oh go rep :
  owned w -> @obtain W R St Body OS LC clock faults node_id advertise timing name report w = (w', (oh, go, rep)) ->
  owned w' /\ forall h, oh = Some h -> held w' !! name = Some h.
Proof.
  intros Ho. unfold obtain. rewrite bind_fleet. destruct (held w !! name) as [h|] eqn:Eh.
  { intros [= <- <- <- <-]. split; [done|]. by intros h' [= <-]. }
  pose proof (calm_now w) as Hn. run_bind [w1 now] eqn E1. run_bind [w2 r] eqn E2. apply bucket_run in E2 as [Hb [b Er]].
  assert (calm w w2) as Hc by (transitivity w1; [exact Hn|exact Hb]). assert (owned w2) as Ho2 by (by eapply owned_calm).
  destruct r as [[h| |]|]; [|by intros [= <- <- <- <-]..]. cbv zeta.
  pose proof (calm_now w2) as Hn2. run_bind [w3 t] eqn E3.
  pose proof (calm_journal (fun db => (hold_lease name (epoch (lease h)) (Lease.instance_id (lease h)) t db, tt))
    (fun d => proj1 (hold_grow _ _ _ _ d)) w3) as Hj. run_bind [w4 j] eqn E4.
  assert (owned w4) as Ho4 by (eapply owned_calm; [|exact Hj]; by eapply owned_calm).
  destruct j as [[]|e].
  - run_bind [w5 []] eqn E5. intros [= <- <- <- <-]. assert (w5 = fst (@set_held W R St <[name := h]> w4)) as -> by (by rewrite E5).
    split; [|intros h' [= <-]; simpl; apply lookup_insert_eq]. apply upholds_insert; [done|by eapply acquire_owner|].
    unfold journal in E4. destruct (faults _); [done|]. injection E4 as <-. simpl. apply hold_grow.
  - run_bind [w5 r5] eqn E5. intros [= <- <- <- <-]. apply bucket_run in E5 as [H5 _]. split; [by eapply owned_calm|done].
Qed.

Lemma name_instance_owned name h spec rec_id realising report (w w' : World) go rep s :
  owned w -> held w !! name = Some h ->
  @name_instance W R St Body OS LC rt0 sha256 node_cpu_class clock faults names mint name h spec rec_id realising report w =
    (w', (go, rep, s)) ->
  owned w' /\
  match go with
  | Some _ => s = [] /\ leased name (instance_id spec) w'
  | None => spawns_on [KStop] (Lease.instance_id (lease h)) s
  end.
Proof.
  intros Ho Hh. unfold name_instance. case_bool_decide as Ei.
  { intros [= <- <- <- <-]. split; [done|]. split; [done|]. by exists h. }
  run_bind [w1 r] eqn E1. apply bucket_run in E1 as [Hc [b Er]]. assert (owned w1) as Ho1 by (by eapply owned_calm).
  destruct Hc as [Hg Eh]. destruct (Ho _ _ Hh) as [Hown Hrow]. destruct r as [[next|]|].
  - apply fenced_write_owner in Er.
    pose proof (calm_journal (fun db => (set_lease_instance name (instance_id spec) db, tt)) (set_instance_grow _ _) w1) as Hj.
    run_bind [w2 j] eqn E2. assert (owned w2) as Ho2 by (by eapply owned_calm). run_bind [w3 []] eqn E3.
    assert (owned w3 /\ leased name (instance_id spec) w3) as [Ho3 Hl3].
    { assert (w3 = fst (@set_held W R St <[name := next]> w2)) as -> by (by rewrite E3). split.
      - apply upholds_insert; [done|by rewrite Er|apply Hj, Hg, Hrow].
      - exists next. simpl. by rewrite lookup_insert_eq, Er. }
    case_bool_decide; [|intros [= <- <- <- <-]; by split_and!]. cbv zeta.
    match goal with |- context [bind (emit_event clock faults ?ev) _ w3] => pose proof (calm_emit ev w3) as He end.
    run_bind [w4 []] eqn E4. intros [= <- <- <- <-]. split_and!; [by eapply owned_calm|done|].
    destruct Hl3 as (h' & ? & ?). exists h'. destruct He as [_ He]. simpl in He. by rewrite He.
  - cbv zeta. destruct (upholds_delete name w1 Ho1) as [Ho2 _]. run_bind [w2 []] eqn E2.
    pose proof (self_fence_spawns name (Lease.instance_id (lease h)) w2) as Hs.
    pose proof (calm_self_fence name (Lease.instance_id (lease h)) w2) as Hq. run_bind [w3 s3] eqn E3.
    intros [= <- <- <- <-]. split; [by eapply owned_calm|done].
  - intros [= <- <- <- <-]. split; [done|]. by intros sp ?%elem_of_nil.
Qed.

(** An executor that advances a session runs the instance the session's lease names; any
    other stops the instance of a lease that was lost. *)
Definition under_lease (name : string) (l : list Spawn) (w : World) : Prop :=
  forall sp, sp ∈ l -> sp_kind sp = KStop \/ sp_kind sp ∈ advancing /\ leased name (op_instance_id (sp_op sp)) w.

Lemma under_lease_nil name w : under_lease name [] w.
Proof. by intros sp ?%elem_of_nil. Qed.

#[local] Abbreviation advance := (@advance W R St Body OS LC rt0 sha256 node_cpu_class clock faults names mint
  ulid_from_string trim).

Lemma advance_owned hr want h spec report (w w' : World) rep s :
  owned w -> held w !! desired_name want = Some h -> advance hr want h spec report w = (w', (rep, s)) ->
  owned w' /\ under_lease (desired_name want) s w'.
Proof.
  intros Ho Hh. unfold Fleet.advance, journal_state.
  assert (forall w1, calm w w1 -> owned w1 /\ held w1 !! desired_name want = Some h) as Hq.
  { intros w1 Hc. split; [by eapply owned_calm|]. destruct Hc as [_ ->]. done. }
  match goal with |- context [bind ?m _ w] => assert (keeps calm m) as K1 by (destruct (is_empty _); keeps_tac) end.
  specialize (K1 w). run_bind [w1 rs] eqn E1.
  match goal with |- context [bind ?m _ w1] => assert (keeps calm m) as K2 by (destruct (is_empty _); keeps_tac) end.
  specialize (K2 w1). run_bind [w2 ls] eqn E2. assert (calm w w2) as C2 by (by transitivity w1).
  destruct (Hq _ C2) as [Ho2 Hh2].
  destruct rs as [rs|]; [|intros [= <- <- <-]; split; [done|apply under_lease_nil]].
  destruct ls as [ls|]; [|intros [= <- <- <-]; split; [done|apply under_lease_nil]]. cbv zeta.
  set (realising := realising_instance _ _ _).
  match goal with |- context [bind ?m _ w2] => assert (keeps calm m) as K3 by (destruct realising; keeps_tac) end.
  specialize (K3 w2). run_bind [w3 iid] eqn E3. assert (calm w w3) as C3 by (by transitivity w2).
  destruct (Hq _ C3) as [Ho3 Hh3]. destruct (admit_spec _ _ _ _ _ _) as [[]|refusal].
  2: { match goal with |- context [bind (emit_event clock faults ?ev) _ w3] => pose proof (calm_emit ev w3) as K4 end.
    run_bind [w4 []] eqn E4. intros [= <- <- <-]. split; [by eapply owned_calm|apply under_lease_nil]. }
  pose proof (calm_reading (get_instance iid) w3) as K4. run_bind [w4 r] eqn E4. assert (calm w w4) as C4 by (by transitivity w3).
  destruct (Hq _ C4) as [Ho4 Hh4]. destruct (intent_for _ _ _) as [| |cold|];
    [intros [= <- <- <-]; split; [done|apply under_lease_nil]..| |].
  - run_bind [w5 [[go rep5] s5]] eqn E5. destruct (name_instance_owned _ _ _ _ _ _ _ _ _ _ _ Ho4 Hh4 E5) as [Ho5 Hgo].
    destruct go as [rep5'|]; [|intros [= <- <- <-]; split; [done|]; intros sp [->%list_elem_of_singleton _]%Hgo; by left].
    destruct Hgo as [-> (h5 & Hh5 & Hi5)].
    match goal with |- context [bind (materialise ?a ?b ?c ?d ?e ?f ?g ?i ?j ?k ?l) _ w5] =>
      pose proof (calm_materialise i j k l w5) as K6; pose proof (materialise_spawns i j k l w5) as S6 end.
    run_bind [w6 [done6 s6]] eqn E6. intros [= <- <- <-]. simpl in K6, S6. split; [by eapply owned_calm|].
    intros sp [? Ei]%S6. right. split; [done|]. exists h5. destruct K6 as [_ ->]. by rewrite Ei.
  - cbv zeta. case_bool_decide; [intros [= <- <- <-]; split; [done|apply under_lease_nil]|].
    run_bind [w5 []] eqn E5. assert (calm w4 w5) as K5 by (injection E5 as <-; by split).
    match goal with |- context [bind (emit_event clock faults ?ev) _ w5] => pose proof (calm_emit ev w5) as K6 end.
    run_bind [w6 []] eqn E6. intros [= <- <- <-]. split; [eapply owned_calm; [by eapply owned_calm|exact K6]|apply under_lease_nil].
Qed.

#[local] Abbreviation pass_one := (@pass_one W R St Body OS LC rt0 sha256 node_cpu_class clock faults names mint decode_spec
  ulid_from_string trim node_id advertise timing).

Lemma pass_one_owned hr want report (w w' : World) go rep s :
  owned w -> pass_one hr want report w = (w', (go, rep, s)) -> owned w' /\ under_lease (desired_name want) s w'.
Proof.
  intros Ho. unfold Fleet.pass_one. run_bind [w1 [[oh go1] rep1]] eqn E1.
  destruct (obtain_owned _ _ _ _ _ _ _ Ho E1) as [Ho1 Hh1].
  destruct oh as [h|]; [|intros [= <- <- <- <-]; split; [done|apply under_lease_nil]].
  destruct (spec_of _ _) as [spec|]; [|intros [= <- <- <- <-]; split; [done|apply under_lease_nil]].
  run_bind [w2 [rep2 s2]] eqn E2. intros [= <- <- <- <-]. by eapply advance_owned; eauto.
Qed.

(** C14: a pass of a fleet's node advances a session only under its lease. While every lease the
    node holds is its own, handling one desired record leaves it so; and whatever the
    bucket and the journal answer, each executor the handling spawns is a stop, or creates,
    starts or resumes the instance that the lease the node then holds on the session names.
    This is about the passes: an alarm and a request start an instance without asking for
    a lease. *)
Theorem sessions_advance_under_lease hr want report (w w' : World) go rep s :
  owned w -> pass_one hr want report w = (w', (go, rep, s)) ->
  owned w' /\
  forall sp, sp ∈ s -> sp_kind sp = KStop \/
    sp_kind sp ∈ advancing /\ exists h, held w' !! desired_name want = Some h /\
      Lease.instance_id (lease h) = op_instance_id (sp_op sp) /\ owner (lease h) = node_id.
Proof.
  intros Ho Hp. destruct (pass_one_owned _ _ _ _ _ _ _ _ Ho Hp) as [Ho' Hl]. split; [done|].
  intros sp [?|(? & h & Hh & ?)]%Hl; [by left|right]. split; [done|]. exists h. split_and!; [done..|]. by apply (Ho' _ _ Hh).
Qed.

Lemma pass_each_owned hr l report :
  upholds (@pass_each W R St Body OS LC rt0 sha256 node_cpu_class clock faults names mint decode_spec
    ulid_from_string trim node_id advertise timing hr l report) anyway.
Proof.
  intros w Ho. split; [|done]. revert report w Ho. induction l as [|want l IH]; intros report w Ho; cbn [pass_each]; [done|].
  run_bind [w1 [[go rep] s]] eqn E1. destruct (pass_one_owned _ _ _ _ _ _ _ _ Ho E1) as [Ho1 _].
  destruct go; [|done]. pose proof (IH rep w1 Ho1) as Ho2. run_bind [w2 [rep2 ss]] eqn E2. done.
Qed.

(** C15: a node never owns a name that a restart could not recover. Every pass, whichever
    journal calls fail and whatever the bucket answers, keeps each lease in memory this
    node's own and remembered in the journal; stamping a run state does too. *)
Theorem held_leases_are_journaled (w : World) iid :
  owned w ->
  owned (fst (@pass W R St Body OS LC DS rt0 sha256 node_cpu_class clock faults names mint decode_spec ulid_from_string trim
    node_id advertise timing w)) /\
  owned (fst (@stamp_lease_state W R St Body OS LC faults iid w)).
Proof.
  intros Ho. split; [|by apply upholds_stamp]. unfold pass. rewrite bind_fleet. cbv zeta.
  set (l := fst <$> held_list _).
  destruct (renew_all_owned l (PassReport_default, false, []) w Ho) as [Ho1 Hd1]; [by intros p ?%elem_of_nil|].
  run_bind [w1 [[rep reached] fn]] eqn E1. simpl in Hd1.
  assert (keeps calm (if bool_decide (l = []) then ret tt else @note_outage W R St clock faults timing reached)) as K2
    by (case_bool_decide; [apply keeps_ret, _|apply calm_note_outage]).
  specialize (K2 w1). run_bind [w2 []] eqn E2. assert (owned w2) as Ho2 by (by eapply owned_calm).
  destruct (fence_all_owned fn w2 Ho2) as [Ho3 _]; [intros p Hp; destruct K2 as [_ K2]; simpl in K2; rewrite K2; by apply Hd1|].
  run_bind [w3 s1] eqn E3. destruct (pr_backend_unavailable rep); [done|]. rewrite bind_fleet.
  run_bind [w4 want] eqn E4. apply bucket_run in E4 as [K4 _]. assert (owned w4) as Ho4 by (by eapply owned_calm).
  destruct want as [want|]; [|done]. destruct (release_sweep_owned (ds_names want) rep w4 Ho4) as [Ho5 _].
  run_bind [w5 [rep5 s2]] eqn E5.
  destruct (pass_each_owned (fl_holds_reported (snd (w_sub w3))) (ds_records want) rep5 w5 Ho5) as [Ho6 _].
  run_bind [w6 [rep6 s3]] eqn E6. done.
Qed.

(** * A pass spawns what it journals *)

(** [spawning m f]: the operations [m] journals are those of the executors [f] of its
    result. *)
Definition spawning {A} (m : M (W * Fleet St) R A) (f : A -> list Spawn) : Prop :=
  forall w, spawned (w_db w) (w_db (fst (m w))) (f (snd (m w))).
#[local] Abbreviation quiet m := (keeps (@on_db (W * Fleet St) R same_ops) m).

Lemma spawning_quiet {A} (m : M (W * Fleet St) R A) : quiet m -> spawning m (fun _ => []).
Proof. intros Hm w. apply spawned_same. apply Hm. Qed.
Lemma spawning_ret {A} (a : A) f : f a = [] -> spawning (ret a) f.
Proof. intros E w. simpl. rewrite E. by apply spawned_same. Qed.
Lemma spawning_bind {A B} (m : M (W * Fleet St) R A) (k : A -> M (W * Fleet St) R B) f g h :
  spawning m f -> (forall a, spawning (k a) (g a)) -> (forall a w, h (snd (k a w)) = f a ++ g a (snd (k a w))) ->
  spawning (bind m k) h.
Proof.
  intros Hm Hk Hh w. unfold bind. specialize (Hm w). destruct (m w) as [w1 a]. simpl in Hm. rewrite Hh.
  eapply spawned_app; [exact Hm|apply Hk].
Qed.
Lemma spawning_then {A B} (m : M (W * Fleet St) R A) (k : A -> M (W * Fleet St) R B) h :
  quiet m -> (forall a, spawning (k a) h) -> spawning (bind m k) h.
Proof. intros Hm Hk. eapply (spawning_bind m k (fun _ => []) (fun _ => h)); [by apply spawning_quiet|done|done]. Qed.
(** The last step of a handler: what was spawned, with a value. *)
Lemma spawning_tail {A B} (m : M (W * Fleet St) R A) (v : A -> B) f h :
  spawning m f -> (forall a, h (v a) = f a) -> spawning (let! a := m in ret (v a)) h.
Proof. intros Hm Hv w. unfold bind. specialize (Hm w). destruct (m w) as [w1 a]. simpl. by rewrite Hv. Qed.

Lemma quiet_bucket {A} (f : St -> St * A) : quiet (@bucket W R St A f).
Proof. unfold bucket. apply keeps_substrate. apply _. Qed.
Lemma quiet_held f : quiet (@set_held W R St f).
Proof. unfold set_held. apply keeps_substrate. apply _. Qed.
Lemma quiet_fleet : quiet (@fleet W R St).
Proof. unfold fleet, ask. apply keeps_substrate. apply _. Qed.
Lemma same_ops_mark n d : same_ops d (mark_lease_fencing n d).
Proof. done. Qed.
Lemma same_ops_set n i d : same_ops d (set_lease_instance n i d).
Proof. done. Qed.
Lemma same_ops_hold n e i t d : same_ops d (hold_lease n e i t d).
Proof. done. Qed.
Lemma same_ops_release n d : same_ops d (release_lease n d).
Proof. done. Qed.
#[local] Hint Resolve quiet_bucket quiet_held quiet_fleet : keeps.
#[local] Hint Resolve same_ops_mark same_ops_set same_ops_hold same_ops_release : frame.

Lemma submit_spawning kind iid key p : spawning (submit kind iid key p) snd.
Proof.
  intros w. unfold Fleet.submit, Ops.submit, bind.
  destruct (submit_claiming _ _ _ _ _ _ _ _ _ _ _ _ _ w) as [w1 [r s]] eqn:E. simpl. by apply submit_spawned in E as [? _].
Qed.

Lemma self_fence_spawning name iid :
  spawning (@self_fence W R St rt0 sha256 node_cpu_class clock faults names mint name iid) id.
Proof.
  unfold self_fence. apply spawning_then; [keeps_tac|]. intros []. destruct (is_empty iid).
  - apply spawning_then; [keeps_tac|]. intros []. by apply spawning_ret.
  - eapply (spawning_bind _ _ snd (fun _ _ => [])); [apply submit_spawning| |].
    + intros [r s]. intros w. by apply spawned_same.
    + intros [r s] w. simpl. by rewrite app_nil_r.
Qed.

Lemma fence_spawning name iid : spawning (fence_and_confirm name iid) id.
Proof.
  unfold Fleet.fence_and_confirm. apply spawning_then; [keeps_tac|]. intros r1.
  eapply (spawning_bind _ _ id (fun _ _ => [])); [apply self_fence_spawning| |].
  - intros s. destruct (is_empty iid).
    + apply spawning_quiet. keeps_tac.
    + apply spawning_quiet. keeps_tac.
  - intros s w. simpl. rewrite app_nil_r. destruct (is_empty iid); [by run_bind [w1 r] eqn E1|].
    run_bind [w1 r] eqn E1. destruct (observed_stopped r); [by run_bind [w2 r2] eqn E2|done].
Qed.

Lemma fence_all_spawning l :
  spawning (@fence_all W R St rt0 sha256 node_cpu_class clock faults names mint l) id.
Proof.
  induction l as [|[name iid] l IH]; cbn [fence_all]; [by apply spawning_ret|]. intros w.
  pose proof (fence_spawning name iid w) as H1. run_bind [w1 s] eqn E1. pose proof (IH w1) as H2. run_bind [w2 ss] eqn E2.
  simpl in *. by eapply spawned_app.
Qed.

Lemma release_one_spawning desired name h report :
  spawning (@release_one W R St Body OS LC rt0 sha256 node_cpu_class clock faults names mint desired name h report) snd.
Proof.
  unfold release_one. apply spawning_then; [destruct (is_empty _); keeps_tac|].
  intros [instance|]; [|by apply spawning_ret]. destruct (release_intent _ _ _); [by apply spawning_ret| |].
  - intros w. match goal with |- context [bind (submit ?a ?b ?c ?d) _ w] => pose proof (submit_spawning a b c d w) as H1 end.
    run_bind [w1 [r s]] eqn E1. exact H1.
  - apply spawning_then; [keeps_tac|]. intros [[]|]; [|by apply spawning_ret].
    apply spawning_then; [keeps_tac|]. intros r. apply spawning_then; [keeps_tac|]. intros []. by apply spawning_ret.
Qed.

Lemma release_each_spawning desired l report :
  spawning (@release_each W R St Body OS LC rt0 sha256 node_cpu_class clock faults names mint desired l report) snd.
Proof.
  revert report. induction l as [|[name h] l IH]; intros report; cbn [release_each]; [by apply spawning_ret|]. intros w.
  pose proof (release_one_spawning desired name h report w) as H1. run_bind [w1 [rep s]] eqn E1.
  pose proof (IH rep w1) as H2. run_bind [w2 [rep2 ss]] eqn E2. simpl in *. by eapply spawned_app.
Qed.

Lemma quiet_reacquire desired cands l :
  quiet (@reacquire W R St Body OS LC clock node_id advertise timing desired cands l).
Proof. revert cands. induction l as [|row l IH]; intros cands; cbn [reacquire]; keeps_tac. Qed.

Lemma release_sweep_spawning desired report :
  spawning (@release_sweep W R St Body OS LC rt0 sha256 node_cpu_class clock faults names mint node_id advertise timing
    desired report) snd.
Proof.
  unfold release_sweep. apply spawning_then; [keeps_tac|]. intros f. apply spawning_then; [keeps_tac|]. intros rows.
  apply spawning_then; [apply quiet_reacquire|]. intros [cands|]; [apply release_each_spawning|by apply spawning_ret].
Qed.

Lemma materialise_spawning name spec ep cold :
  spawning (@materialise W R St rt0 sha256 node_cpu_class clock faults names mint name spec ep cold) snd.
Proof.
  unfold materialise. apply spawning_then; [keeps_tac|]. intros r. destruct (materialise_verb _ _ _) as [[[kind p] verb]|];
    [|by apply spawning_ret]. intros w.
  match goal with |- context [bind (submit ?a ?b ?c ?d) _ w] => pose proof (submit_spawning a b c d w) as H1 end.
  run_bind [w1 [r1 s]] eqn E1. destruct r1; [|exact H1].
  match goal with |- context [bind ?m _ w1] => assert (quiet m) as Q by keeps_tac end. specialize (Q w1).
  run_bind [w2 []] eqn E2. by eapply spawned_then.
Qed.

Lemma name_instance_spawning name h spec rec_id realising report :
  spawning (@name_instance W R St Body OS LC rt0 sha256 node_cpu_class clock faults names mint name h spec rec_id realising report) snd.
Proof.
  unfold name_instance. case_bool_decide; [by apply spawning_ret|]. apply spawning_then; [keeps_tac|].
  intros [[next|]|]; [| |by apply spawning_ret].
  - apply spawning_then; [keeps_tac|]. intros r. apply spawning_then; [keeps_tac|]. intros [].
    case_bool_decide; [|by apply spawning_ret]. apply spawning_then; [keeps_tac|]. intros []. by apply spawning_ret.
  - apply spawning_then; [keeps_tac|]. intros []. apply (spawning_tail _ _ id); [apply self_fence_spawning|done].
Qed.

Lemma advance_spawning hr want h spec report : spawning (advance hr want h spec report) snd.
Proof.
  unfold Fleet.advance, journal_state. apply spawning_then; [destruct (is_empty _); keeps_tac|]. intros rs.
  apply spawning_then; [destruct (is_empty _); keeps_tac|]. intros ls.
  destruct rs as [rs|]; [|by apply spawning_ret]. destruct ls as [ls|]; [|by apply spawning_ret].
  apply spawning_then; [destruct (realising_instance _ _ _); keeps_tac|]. intros iid.
  destruct (admit_spec _ _ _ _ _ _); [|apply spawning_then; [keeps_tac|]; intros []; by apply spawning_ret].
  apply spawning_then; [keeps_tac|]. intros r. destruct (intent_for _ _ _) as [| |cold|]; [by apply spawning_ret..| |].
  - intros w. match goal with |- context [bind ?m _ w] => assert (spawning m snd) as H1 by apply name_instance_spawning end.
    specialize (H1 w). run_bind [w1 [[go rep] s]] eqn E1. destruct go as [rep'|]; [|exact H1].
    match goal with |- context [bind ?m _ w1] => assert (spawning m snd) as H2 by apply materialise_spawning end.
    specialize (H2 w1). run_bind [w2 [done2 ss]] eqn E2. simpl in *. by eapply spawned_app.
  - case_bool_decide; [by apply spawning_ret|]. apply spawning_then; [keeps_tac|]. intros []. apply spawning_then; [keeps_tac|].
    intros []. by apply spawning_ret.
Qed.

Lemma pass_one_spawning hr want report : spawning (pass_one hr want report) snd.
Proof.
  unfold Fleet.pass_one. apply spawning_then; [unfold obtain; keeps_tac|]. intros [[[h|] go] rep]; [|by apply spawning_ret].
  destruct (spec_of _ _); [|by apply spawning_ret]. intros w.
  match goal with |- context [bind ?m _ w] => assert (spawning m snd) as H1 by apply advance_spawning end.
  specialize (H1 w). run_bind [w1 [rep1 s]] eqn E1. exact H1.
Qed.

Lemma pass_each_spawning hr l report :
  spawning (@pass_each W R St Body OS LC rt0 sha256 node_cpu_class clock faults names mint decode_spec
    ulid_from_string trim node_id advertise timing hr l report) snd.
Proof.
  revert report. induction l as [|want l IH]; intros report; cbn [pass_each]; [by apply spawning_ret|]. intros w.
  pose proof (pass_one_spawning hr want report w) as H1. run_bind [w1 [[go rep] s]] eqn E1. destruct go; [|exact H1].
  pose proof (IH rep w1) as H2. run_bind [w2 [rep2 ss]] eqn E2. simpl in *. by eapply spawned_app.
Qed.

Lemma quiet_renew_all l acc : quiet (@renew_all W R St Body OS LC clock faults timing l acc).
Proof.
  revert acc. induction l as [|name l IH]; intros [[rep reached] fn]; cbn [renew_all]; [keeps_tac|].
  apply keeps_bind; [apply _| |done]. unfold renew_one, lease_state_for. keeps_tac.
Qed.

#[local] Abbreviation pass := (@pass W R St Body OS LC DS rt0 sha256 node_cpu_class clock faults names mint decode_spec
  ulid_from_string trim node_id advertise timing).

Lemma pass_spawning : spawning pass snd.
Proof.
  unfold Fleet.pass. apply spawning_then; [keeps_tac|]. intros f. apply spawning_then; [apply quiet_renew_all|].
  intros [[rep reached] fn]. apply spawning_then; [unfold note_outage; keeps_tac|]. intros [] w.
  pose proof (fence_all_spawning fn w) as H1. run_bind [w1 s1] eqn E1. simpl in H1.
  destruct (pr_backend_unavailable rep); [exact H1|]. rewrite bind_fleet.
  pose proof (quiet_bucket (fun b => (b, desired b)) w1) as Q2. run_bind [w2 want] eqn E2.
  destruct want as [want|]; [|by eapply spawned_then].
  pose proof (release_sweep_spawning (ds_names want) rep w2) as H3. run_bind [w3 [rep3 s2]] eqn E3.
  match goal with |- context [bind ?m _ w3] => assert (spawning m snd) as H4 by apply pass_each_spawning end.
  specialize (H4 w3).
  run_bind [w4 [rep4 s3]] eqn E4. simpl in *. eapply spawned_app; [by eapply spawned_then|]. by eapply spawned_app.
Qed.

Lemma stamp_quiet iid : keeps (on_db same_tables) (@stamp_lease_state W R St Body OS LC faults iid).
Proof. unfold stamp_lease_state, lease_state_for, fleet, bucket, set_held. keeps_tac. Qed.

(** In one tick a node starts at most one executor per instance, and exactly those it
    journals, in a fleet or out of one. A tick keeps every operation as it is; the
    operations it adds are those of the executors it spawns; each is for an instance no
    executor was working on when the tick began; and no two are for the same instance, so
    that a wake, an expired lease on life, an idle hint, a fence, a release and an advance
    that come due together are acted on one at a time. *)
Theorem tick_spawns_once_per_instance ri er ci in_fleet tick_count instants mem (w w' : World) mem' spawns :
  (if in_fleet : bool
   then @fleet_tick W R St Body OS LC DS rt0 sha256 node_cpu_class clock faults names mint decode_spec ulid_from_string trim
          node_id advertise timing ri er ci
   else tick rt sha256 node_cpu_class clock faults names mint ri er ci (fun _ => ret tt) None)
    tick_count instants mem w = (w', (mem', spawns)) ->
  spawned (w_db w) (w_db w') spawns.
Proof.
  destruct in_fleet; apply tick_spawned.
  - apply stamp_quiet.
  - intros p w0 [= <-]. pose proof (pass_spawning w0) as H. run_bind [w1 [rep s]] eqn E1. exact H.
  - intros id. apply keeps_ret. apply _.
  - done.
Qed.

(** * Fencing *)

(** The lease row of a name, and whether the workload it fences is observed at rest. *)
Definition at_rest (db : Db) (iid : string) : Prop :=
  forall i, instances db !! iid = Some i -> i_state i ∈ [IS.Stopped; IS.Destroyed; IS.Paused].

#[local] Abbreviation unleased m := (keeps (@on_db (W * Fleet St) R same_leases) m).

Lemma submit_leases kind iid key p : unleased (submit kind iid key p).
Proof.
  unfold Fleet.submit, Ops.submit, submit_claiming.
  assert (forall op tok claim, unleased (submit_journal rt clock faults mint kind op key p tok claim)) as Hj.
  { intros op tok claim. unfold submit_journal. apply keeps_bind; [apply _|apply keeps_now, _|]. intros cn.
    apply keeps_bind; [apply _|apply keeps_now, _|]. intros t. apply keeps_journal_try; [apply _|].
    intros d. apply submit_atomically_leases. }
  assert (unleased (payload_token rt p)) as Ht by (unfold payload_token, new_guest_token; keeps_tac).
  assert (unleased (refused_early rt sha256 node_cpu_class faults iid p)) as Hr
    by (unfold refused_early, resolve_restore; destruct p; keeps_tac).
  assert (forall op original, unleased (check_replay faults op original p)) as Hc
    by (intros op original; unfold check_replay; keeps_tac).
  keeps_tac.
Qed.
#[local] Hint Resolve submit_leases : keeps.

Lemma self_fence_leases name iid :
  unleased (@self_fence W R St rt0 sha256 node_cpu_class clock faults names mint name iid).
Proof. unfold self_fence. keeps_tac. Qed.

Lemma journal_ok {A} (f : Db -> Db * A) (w w' : World) r :
  (forall n, faults n = None) -> journal faults f w = (w', r) -> w_db w' = fst (f (w_db w)) /\ r = Ok (snd (f (w_db w))).
Proof. intros Hn. unfold journal. rewrite Hn. destruct (f (w_db w)). by intros [= <- <-]. Qed.

Lemma reading_ok {A} (f : Db -> A) (w w' : World) r :
  (forall n, faults n = None) -> reading faults f w = (w', r) -> w_db w' = w_db w /\ r = Ok (f (w_db w)).
Proof. intros Hn. apply journal_ok. exact Hn. Qed.

(** C16: while the journal answers, the fenced lease of a session that names an instance is
    forgotten only once that workload is at rest. Fencing the session marks its row and
    submits at most one stop, of the instance the lease names; the row goes only if that
    instance is then absent, stopped, paused or destroyed, and otherwise stays, marked,
    with its epoch and instance; no other row changes. (A journal that cannot be read drops
    the fence: [unread_journal_drops_the_fence].) *)
Theorem fenced_lease_kept_until_at_rest name iid (w w' : World) s row :
  (forall n, faults n = None) -> iid <> empty_str -> fleet_leases (w_db w) !! name = Some row ->
  fence_and_confirm name iid w = (w', s) ->
  spawns_on [KStop] iid s /\ (length s <= 1)%nat /\
  (forall n, n <> name -> fleet_leases (w_db w') !! n = fleet_leases (w_db w) !! n) /\
  match fleet_leases (w_db w') !! name with
  | None => at_rest (w_db w') iid
  | Some row' => row' = row <| fl_fencing := true |> /\ ~ at_rest (w_db w') iid
  end.
Proof.
  intros Hn Hi Hrow. unfold Fleet.fence_and_confirm. run_bind [w1 r1] eqn E1. apply journal_ok in E1 as [E1 _]; [|done].
  pose proof (self_fence_spawns name iid w1) as Hs. pose proof (self_fence_spawning name iid w1) as Hsp.
  pose proof (self_fence_leases name iid w1) as Hl. run_bind [w2 s2] eqn E2. simpl in Hs, Hsp.
  assert (forall n, fleet_leases (w_db w2) !! n =
    if decide (n = name) then Some (row <| fl_fencing := true |>) else fleet_leases (w_db w) !! n) as Hrows.
  { intros n. unfold on_db, same_leases in Hl. simpl in Hl. rewrite Hl, E1. unfold mark_lease_fencing. simpl. rewrite update_lookup.
    case_decide; [subst; by rewrite Hrow|done]. }
  assert (length s2 <= 1)%nat as Hlen.
  { destruct Hsp as [_ _ _ Ho]. destruct s2 as [|a [|b l]]; simpl in *; [lia..|]. exfalso. apply NoDup_cons in Ho as [Ho _].
    apply Ho. destruct (Hs a ltac:(set_solver)) as [_ ->], (Hs b ltac:(set_solver)) as [_ ->]. set_solver. }
  destruct (is_empty iid) eqn:Ee; [by apply is_empty_true in Ee|].
  run_bind [w3 r3] eqn E3. apply reading_ok in E3 as [E3 ->]; [|done].
  assert (observed_stopped (Ok (get_instance iid (w_db w2))) = true <-> at_rest (w_db w2) iid) as Hat.
  { unfold at_rest, get_instance. simpl. destruct (instances (w_db w2) !! iid) as [i|]; simpl; [|naive_solver].
    rewrite bool_decide_eq_true. naive_solver. }
  destruct (observed_stopped _) eqn:Eo.
  - run_bind [w4 r4] eqn E4. apply journal_ok in E4 as [E4 _]; [|done]. intros [= <- <-]. rewrite E4, E3. simpl.
    split_and!; [done|done| |]; [intros n Hne; by rewrite lookup_delete_ne, Hrows, decide_False|].
    rewrite lookup_delete_eq. unfold at_rest. simpl. by apply Hat.
  - intros [= <- <-]. rewrite E3. split_and!; [done|done| |]; [intros n Hne; by rewrite Hrows, decide_False|].
    rewrite Hrows, decide_True by done. split; [done|]. by rewrite <- Hat.
Qed.

(** * Releasing *)

Lemma release_intent_spec desired fencing st :
  match release_intent desired fencing st with
  | RKeep => desired = true \/ fencing = true
  | RDestroyIt => desired = false /\ fencing = false /\ exists s, st = Some s /\ s <> IS.Destroyed
  | RRelease => desired = false /\ fencing = false /\ (st = None \/ st = Some IS.Destroyed)
  end.
Proof.
  unfold release_intent. destruct desired; [by left|]. destruct fencing; [by right|].
  destruct st as [s|]; [|by split_and!; [..|left]]. destruct s; simpl; try (split_and!; [done..|eexists; by split]).
  split_and!; [done..|by right].
Qed.

(** A lease is given up only when its session is gone. Deciding about one held lease,
    whatever fails, forgets no other; it forgets this one only if the session is no
    longer desired and the instance the lease names, if any, is absent from the journal
    or DESTROYED; and it starts at most a destroy, of that instance, and only if the
    session is no longer desired and the instance is still there. *)
Theorem lease_released_only_when_gone desired name h report (w w' : World) rep s :
  @release_one W R St Body OS LC rt0 sha256 node_cpu_class clock faults names mint desired name h report w = (w', (rep, s)) ->
  let iid := Lease.instance_id (lease h) in
  let gone := iid = empty_str \/ instances (w_db w) !! iid = None \/
              exists i, instances (w_db w) !! iid = Some i /\ i_state i = IS.Destroyed in
  (forall n, n <> name -> fleet_leases (w_db w') !! n = fleet_leases (w_db w) !! n /\ held w' !! n = held w !! n) /\
  (fleet_leases (w_db w') !! name = fleet_leases (w_db w) !! name /\ held w' !! name = held w !! name \/
   (name ∉ desired) /\ gone) /\
  spawns_on [KDestroy] iid s /\
  (s <> [] -> (name ∉ desired) /\ exists i, instances (w_db w) !! iid = Some i /\ i_state i <> IS.Destroyed).
Proof.
  cbv zeta. unfold release_one. set (iid := Lease.instance_id (lease h)).
  run_bind [w1 inst] eqn E1.
  assert (w_db w1 = w_db w /\ held w1 = held w /\ forall st, inst = Ok st ->
    st = if is_empty iid then None else i_state <$> instances (w_db w) !! iid) as (Ed & Eh & Hst).
  { destruct (is_empty iid); [injection E1 as <- <-; split_and!; [done..|]; by intros st [= <-]|].
    unfold reading, journal in E1. destruct (faults _); injection E1 as <- <-; (split_and!; [done..|]); [done|].
    intros st [= <-]. unfold get_instance. simpl. by destruct (instances (w_db w) !! iid). }
  destruct inst as [st|]; [|intros [= <- <- <-]; rewrite Ed, Eh; split_and!; [done|by left|by intros sp ?%elem_of_nil|done]].
  specialize (Hst _ eq_refl). pose proof (release_intent_spec (bool_decide (name ∈ desired)) false st) as Hi.
  destruct (release_intent _ _ _).
  - intros [= <- <- <-]. rewrite Ed, Eh. split_and!; [done|by left|by intros sp ?%elem_of_nil|done].
  - destruct Hi as (Hd%bool_decide_eq_false & _ & st0 & -> & Hnd).
    match goal with |- context [bind (submit ?a ?b ?c ?d) _ w1] => pose proof (submit_spawns_on a b c d w1) as Hs;
      pose proof (submit_leases a b c d w1) as Hl; pose proof (calm_submit a b c d w1) as [_ Hc] end.
    run_bind [w2 [r s2]] eqn E2. intros [= <- <- <-]. unfold on_db, same_leases in Hl. simpl in Hs, Hl, Hc.
    rewrite Hl, Hc, Ed, Eh. split_and!; [done|by left|done|]. intros _. split; [done|].
    destruct (is_empty iid); [done|]. destruct (instances (w_db w) !! iid) as [i|]; [|done]. injection Hst as ->. by exists i.
  - destruct Hi as (Hd%bool_decide_eq_false & _ & Hgone). run_bind [w2 r2] eqn E2.
    assert (w_db w2 = w_db w1) as Ed2.
    { unfold bucket, substrate in E2. destruct (Lease.release _ _ _). by injection E2 as <- <-. }
    apply bucket_run in E2 as [[_ Hc2] _].
    destruct r2 as [[]|]; [|intros [= <- <- <-]; rewrite Ed2, Hc2, Ed, Eh; split_and!; [done|by left|by intros sp ?%elem_of_nil|done]].
    run_bind [w3 r3] eqn E3. run_bind [w4 []] eqn E4. intros [= <- <- <-].
    assert (forall n, n <> name -> fleet_leases (w_db w3) !! n = fleet_leases (w_db w) !! n) as Hl3.
    { intros n Hn. unfold journal in E3. destruct (faults _); injection E3 as <- <-; simpl; [by rewrite Ed2, Ed|].
      by rewrite lookup_delete_ne, Ed2, Ed. }
    assert (held w3 = held w) as Hc3 by (unfold journal in E3; destruct (faults _); injection E3 as <- <-; simpl; congruence).
    injection E4 as <-. simpl. rewrite Hc3. split_and!; [|right; split; [done|]|by intros sp ?%elem_of_nil|done].
    + intros n Hn. by rewrite lookup_delete_ne, Hl3.
    + destruct (is_empty iid) eqn:Ee; [left; by apply is_empty_true|right].
      destruct (instances (w_db w) !! iid) as [i|]; [right|by left]. exists i. subst st. simpl in Hgone. split; [done|].
      by destruct Hgone as [?|[= ->]].
Qed.

(** * Partitions *)

(** The bucket answers nothing. *)
Definition unreachable : Prop :=
  (forall st k, exists m, os_get st k = Err (StoreOther m)) /\
  (forall st k b mode, exists m, os_put st k b mode = (st, Err (StoreOther m))) /\
  (forall st p, exists m, os_list st p = [Err (StoreOther m)]).

Lemma unreachable_write st n h l : unreachable -> exists e, fenced_write st n h l = (st, Err e).
Proof.
  intros (_ & Hp & _). unfold fenced_write, put. destruct (to_vec l) as [body|e]; [|by eexists].
  destruct (Hp st (session_key n) body (Update (held_version h))) as [m ->]. by eexists.
Qed.

(** The registry and the leases, in the journal and in memory, as they were. *)
Definition untouched : relation World := fun w w' =>
  same_tables (w_db w) (w_db w') /\ same_leases (w_db w) (w_db w') /\ held w' = held w.
#[global] Instance untouched_preorder : PreOrder untouched.
Proof.
  split; [by intros w|]. intros a b c (T1 & L1 & H1) (T2 & L2 & H2).
  split_and!; [by transitivity (w_db b)|by transitivity (w_db b)|congruence].
Qed.

Lemma untouched_reading {A} (f : Db -> A) : keeps untouched (reading faults f).
Proof. intros w. unfold reading, journal. by destruct (faults _). Qed.
Lemma untouched_now : keeps untouched (now_ms clock).
Proof. by intros w. Qed.
Lemma untouched_ask {A} (f : W * Fleet St -> A) : keeps untouched (ask f).
Proof. by intros w. Qed.
Lemma untouched_emit ev : keeps untouched (emit_event clock faults ev).
Proof.
  intros w. split_and!; [apply (keeps_emit clock faults same_tables)|apply (keeps_emit clock faults same_leases)|apply calm_emit].
Qed.
Lemma untouched_bucket {A} (f : St -> St * A) : keeps untouched (@bucket W R St A f).
Proof. intros w. unfold bucket, substrate, untouched. simpl. by destruct (f _). Qed.
#[local] Hint Resolve untouched_reading untouched_now untouched_ask untouched_emit untouched_bucket : keeps.
Lemma untouched_emits l : keeps untouched (emit_events clock faults l).
Proof. induction l; simpl; keeps_tac. Qed.
#[local] Hint Resolve untouched_emits : keeps.

Lemma untouched_outage reached : keeps untouched (@note_outage W R St clock faults timing reached).
Proof.
  unfold note_outage, fleet. apply keeps_bind; [apply _|apply untouched_now|]. intros now.
  apply keeps_bind; [apply _| |intros []; keeps_tac].
  intros w. unfold substrate, untouched. simpl. by destruct (outage_after_renewals _ _ _ _).
Qed.

Lemma partition_renew_all l rep (w : World) :
  unreachable -> (forall n, n ∈ l -> is_Some (held w !! n)) ->
  exists w' rep', @renew_all W R St Body OS LC clock faults timing l (rep, false, []) w = (w', (rep', false, [])) /\
    untouched w w' /\ (l <> [] \/ pr_backend_unavailable rep = true -> pr_backend_unavailable rep' = true).
Proof.
  intros Hu. revert rep w. induction l as [|name l IH]; intros rep w Hl; cbn [renew_all].
  { exists w, rep. split_and!; [done..|]. by intros [?|?]. }
  destruct (Hl name ltac:(set_solver)) as [cur Hcur].
  assert (exists w1, renew_one clock faults timing name (rep, false, []) w = (w1, (rep <| pr_backend_unavailable := true |>, false, [])) /\
    untouched w w1) as (w1 & E1 & U1).
  { unfold renew_one. rewrite bind_fleet, Hcur.
    assert (keeps untouched (@lease_state_for W R St faults (Lease.instance_id (lease cur)))) as K1 by (unfold lease_state_for; keeps_tac).
    specialize (K1 w). run_bind [w1 state] eqn E1. pose proof (untouched_now w1) as K2. run_bind [w2 now] eqn E2.
    match goal with |- context [bind (bucket ?f) _ w2] => pose proof (untouched_bucket f w2) as K3 end.
    run_bind [w3 r] eqn E3. apply bucket_run in E3 as [_ [b Er]].
    unfold renew in Er. match type of Er with fenced_write ?a ?b ?c ?d = _ => destruct (unreachable_write a b c d Hu) as [e Ee] end.
    rewrite Ee in Er. injection Er as _ <-. exists w3. split; [done|].
    transitivity w1; [exact K1|]. by transitivity w2. }
  rewrite (bind_eq _ _ _ _ _ E1).
  destruct (IH (rep <| pr_backend_unavailable := true |>) w1) as (w2 & rep2 & E2 & U2 & B2).
  { intros n Hn. destruct U1 as (_ & _ & ->). apply Hl. set_solver. }
  exists w2, rep2. split_and!; [done|by transitivity w1|]. intros _. apply B2. by right.
Qed.

(** C17: losing the bucket costs no session. While the bucket does not answer, a pass
    starts nothing and stops nothing: no executor, no change to an instance, to an
    operation, to a lease in memory or in the journal; it reports the bucket as
    unavailable. *)
Theorem partition_is_nondestructive (w w' : World) rep s :
  unreachable -> pass w = (w', (rep, s)) ->
  s = [] /\ same_tables (w_db w) (w_db w') /\ same_leases (w_db w) (w_db w') /\ held w' = held w /\
  pr_backend_unavailable rep = true.
Proof.
  intros Hu. unfold Fleet.pass. rewrite bind_fleet. cbv zeta. set (l := fst <$> held_list (held w)).
  destruct (partition_renew_all l PassReport_default w Hu) as (w1 & rep1 & E1 & U1 & B1).
  { intros n Hn. unfold l, held_list in Hn. apply list_elem_of_fmap in Hn as ([n' h] & -> & Hh).
    rewrite merge_sort_Permutation, elem_of_map_to_list in Hh. by exists h. }
  rewrite (bind_eq _ _ _ _ _ E1).
  assert (keeps untouched (if bool_decide (l = []) then ret tt else @note_outage W R St clock faults timing false)) as K2.
  { case_bool_decide; [apply keeps_ret, _|apply untouched_outage]. }
  specialize (K2 w1). run_bind [w2 []] eqn E2. assert (untouched w w2) as (T2 & L2 & H2) by (by transitivity w1).
  rewrite (bind_eq (fence_all _ _ _ _ _ _ _ []) _ w2 w2 []) by done.
  destruct (pr_backend_unavailable rep1) eqn:Eb; [intros [= <- <- <-]; by split_and!|].
  rewrite bind_fleet. run_bind [w3 want] eqn E3. assert (want = Err (Backend (StoreOther (match os_list (fl_store (snd (w_sub w2))) "desired" with
    [Err (StoreOther m)] => m | _ => empty_str end)))) as ->.
  { apply bucket_run in E3 as [_ [b Ew]]. injection Ew as _ <-. unfold desired. destruct Hu as (_ & _ & Hl).
    destruct (Hl (fl_store (snd (w_sub w2))) "desired") as [m ->]. done. }
  assert (w_db w3 = w_db w2 /\ held w3 = held w2) as [Ed3 Eh3] by (by injection E3 as <-).
  intros [= <- <- <-]. rewrite Ed3, Eh3. by split_and!.
Qed.
End Phase.

(** * Outages *)

(** The outage after a history of passes, latest first, each with whether the bucket
    answered and when it was. *)
Fixpoint outage_after (ttl : duration) (h : list (bool * Z)) : option Outage :=
  match h with
  | [] => None
  | (reached, now) :: h => fst (outage_after_renewals (outage_after ttl h) reached now ttl)
  end.

(** The times of the passes, latest first, since the bucket last answered. *)
Fixpoint episode (h : list (bool * Z)) : list Z :=
  match h with
  | (false, now) :: h => now :: episode h
  | _ => []
  end.

Definition overdue (ttl : duration) (since now : Z) : bool := as_i64 (as_millis ttl) <=? wrap_i64 (now - since).

Lemma outage_after_episode ttl h :
  outage_after ttl h =
  match last (episode h) with
  | None => None
  | Some since => Some (mkOutage since (existsb (overdue ttl since) (removelast (episode h))))
  end.
Proof.
  induction h as [|[reached now] h IH]; [done|]. cbn [outage_after]. destruct reached; [done|].
  rewrite IH. cbn [episode]. destruct (episode h) as [|t ts] eqn:Ee; [done|].
  assert (last (now :: t :: ts) = last (t :: ts)) as -> by done. destruct (last (t :: ts)) as [since|] eqn:El; [|by apply last_None in El].
  change (removelast (now :: t :: ts)) with (now :: removelast (t :: ts)). cbn [existsb].
  unfold outage_after_renewals. cbn [reported since_ms]. fold (overdue ttl since now).
  destruct (existsb _ _), (overdue ttl since now); done.
Qed.

(** An outage is reported once, when it outlasts the lease. After any history of
    passes, a pass reports the outage exactly if the bucket did not answer it, nor any
    pass since some first one in this episode, that one is at least the lease's time to
    live ago, and at none of the passes between was it so. *)
Theorem outage_reported_once ttl h reached now :
  snd (outage_after_renewals (outage_after ttl h) reached now ttl) = true <->
  reached = false /\ exists earlier since, episode h = earlier ++ [since] /\
    overdue ttl since now = true /\ Forall (fun t => overdue ttl since t = false) earlier.
Proof.
  rewrite outage_after_episode. unfold outage_after_renewals. destruct reached; [naive_solver|].
  destruct (last (episode h)) as [since|] eqn:El.
  - apply last_Some in El as [earlier Ee]. rewrite Ee, removelast_last. cbn [reported since_ms]. fold (overdue ttl since now).
    assert (existsb (overdue ttl since) earlier = false <-> Forall (fun t => overdue ttl since t = false) earlier) as Hf.
    { clear Ee. induction earlier as [|t l IH]; simpl; [done|]. rewrite orb_false_iff, Forall_cons, IH. done. }
    split.
    + destruct (existsb _ _), (overdue ttl since now) eqn:Eo; try done. intros _. split; [done|]. exists earlier, since. naive_solver.
    + intros (_ & e' & s' & E & Eo & Hall). apply app_inj_2 in E as [-> [= ->]]; [|done]. rewrite Eo. apply Hf in Hall. by rewrite Hall.
  - apply last_None in El. rewrite El. split; [done|]. intros (_ & e' & s' & E & _). by destruct e'.
Qed.

(** * Examples *)

(** A bucket of leases and desired records, with one session desired. *)
Definition Doc : Type := Lease.Lease + Desired.
#[local] Instance doc_codec : LeaseCodec Doc :=
  {| to_vec := fun l => Ok (inl l); from_slice := fun b => match b with inl l => Ok l | inr _ => Err "not a lease" end |}.
#[local] Instance doc_desired : DesiredStore (LogStore Doc) Doc :=
  {| os_list := fun st p => Ok <$> (fst <$> List.filter (fun e => match snd e with inr _ => true | inl _ => false end) st);
     os_filename := strip_prefix "desired/";
     desired_from_slice := fun b => match b with inr d => Ok d | inl _ => Err "not a desired record" end |}.

Definition ex_want : Desired :=
  {| schema_version := 1; desired_name := "web"; desired_spec := []; on_owner_loss := Coldboot |}.
Definition fleet_spec : InstanceSpec :=
  ex_spec <| template := Some {| oci := Some {| image := "img"; digest := "d" |}; runtime_bundle_ref := empty_str;
                                template_hash_field := empty_str; arch := empty_str |} |>.

Definition fleet_world (db : Db) (held : gmap string Held) : World (list string * Fleet (LogStore Doc)) unit :=
  mkWorld db ex_store ([], mkFleet [("desired/web", inr ex_want)] held ∅ None) 9 0 9 [].
Definition empty_fleet : World (list string * Fleet (LogStore Doc)) unit := fleet_world empty_db ∅.
Definition any_ulid (_ : string) : res string unit := Ok tt.
Definition any_spec (_ : list Z) : res string InstanceSpec := Ok fleet_spec.

Definition ex_pass_one :=
  pass_one toy_runtime toy_sha "cpu" toy_clock no_faults toy_names toy_mint any_spec any_ulid (fun s => s) "a" "ep"
    Timing_default ∅ ex_want PassReport_default empty_fleet.

Lemma empty_fleet_owned : @owned (list string) unit (LogStore Doc) "a" empty_fleet.
Proof. intros n h H. vm_compute in H. destruct n; discriminate. Qed.

(** The first sight of the desired session: its lease is taken, and a create submitted. *)
Lemma sessions_advance_under_lease_witness :
  exists sp h, sp ∈ snd (snd ex_pass_one) /\ sp_kind sp = KCreate /\
    fl_held (snd (w_sub (fst ex_pass_one))) !! "web" = Some h /\
    Lease.instance_id (lease h) = "i" /\ owner (lease h) = "a".
Proof.
  destruct (sessions_advance_under_lease toy_runtime toy_sha "cpu" toy_clock no_faults toy_names toy_mint any_spec any_ulid
    (fun s => s) "a" "ep" Timing_default ∅ ex_want PassReport_default empty_fleet (fst ex_pass_one)
    (fst (fst (snd ex_pass_one))) (snd (fst (snd ex_pass_one))) (snd (snd ex_pass_one)) empty_fleet_owned) as [_ H].
  - fold ex_pass_one. destruct ex_pass_one as [w' [[go rep] s]]. reflexivity.
  - assert (exists sp, snd (snd ex_pass_one) = [sp] /\ sp_kind sp = KCreate /\ op_instance_id (sp_op sp) = "i")
      as (sp & E & Ek & Ei) by (eexists; vm_compute; split_and!; reflexivity).
    destruct (H sp) as [Hk|(_ & h & H1 & H2 & H3)]; [rewrite E; left| |].
    + rewrite Ek in Hk. discriminate.
    + exists sp, h. rewrite Ei in H2. split_and!; [rewrite E; left|exact Ek|exact H1|exact H2|exact H3].
Defined.

Definition ex_pass :=
  pass toy_runtime toy_sha "cpu" toy_clock no_faults toy_names toy_mint any_spec any_ulid (fun s => s) "a" "ep"
    Timing_default empty_fleet.

(** After the first pass the node holds a lease, and the journal remembers it. *)
Lemma held_leases_are_journaled_witness :
  exists h, fl_held (snd (w_sub (fst ex_pass))) !! "web" = Some h /\ owner (lease h) = "a" /\
    is_Some (fleet_leases (w_db (fst ex_pass)) !! "web").
Proof.
  destruct (held_leases_are_journaled toy_runtime toy_sha "cpu" toy_clock no_faults toy_names toy_mint any_spec any_ulid
    (fun s => s) "a" "ep" Timing_default empty_fleet "i" empty_fleet_owned) as [H _].
  assert (exists h, fl_held (snd (w_sub (fst ex_pass))) !! "web" = Some h) as [h Hh] by (eexists; vm_compute; reflexivity).
  exists h. split; [exact Hh|]. exact (H "web" h Hh).
Defined.

Definition ex_fleet_tick :=
  fleet_tick toy_runtime toy_sha "cpu" toy_clock no_faults toy_names toy_mint any_spec any_ulid (fun s => s) "a" "ep"
    Timing_default 0 0 0 1 (0, 0, 0, 0) (mkMemory None ∅ (mkCredentialSweep None ∅)) empty_fleet.

(** One tick of the same node: the create is spawned for an instance without an operation. *)
Lemma tick_spawns_once_per_instance_witness :
  exists sp, snd (snd ex_fleet_tick) = [sp] /\ op_instance_id (sp_op sp) = "i" /\
    exists o, operations (w_db (fst ex_fleet_tick)) !! op_id (sp_op sp) = Some o /\ active_on "i" o.
Proof.
  pose proof (tick_spawns_once_per_instance toy_runtime toy_sha "cpu" toy_clock no_faults toy_names toy_mint any_spec any_ulid
    (fun s => s) "a" "ep" Timing_default 0 0 0 true 1 (0, 0, 0, 0) (mkMemory None ∅ (mkCredentialSweep None ∅)) empty_fleet
    (fst ex_fleet_tick) (fst (snd ex_fleet_tick)) (snd (snd ex_fleet_tick))) as H.
  assert (exists sp, snd (snd ex_fleet_tick) = [sp] /\ op_instance_id (sp_op sp) = "i")
    as (sp & E & Ei) by (eexists; vm_compute; split; reflexivity).
  exists sp. split; [exact E|]. split; [exact Ei|].
  destruct (spw_row _ _ _ (H ltac:(unfold ex_fleet_tick; destruct (fleet_tick _ _ _ _ _ _ _ _ _ _ _ _ _ _ _ _ _ _ _ _) as [? [? ?]]; reflexivity)) sp)
    as (_ & _ & o & Ho & Ha); [rewrite E; left|]. rewrite Ei in Ha. exists o. split; [exact Ho|exact Ha].
Defined.

(** A node that holds the session with its instance running. *)
Definition holding (st : IS.t) : Db := hold_lease "web" 1 "i" 0 (set_instance_state "i" st 0 (w_db toy_created)).
Definition ex_fence (st : IS.t) :=
  fence_and_confirm toy_runtime toy_sha "cpu" toy_clock no_faults toy_names toy_mint "web" "i" (fleet_world (holding st) ∅).

(** A running workload: the row stays, marked; a stopped one: it goes. *)
Lemma fenced_lease_kept_until_at_rest_witness :
  fleet_leases (w_db (fst (ex_fence IS.Running))) !! "web" = Some (mkFleetLease 1 "i" true 0) /\
  ~ at_rest (w_db (fst (ex_fence IS.Running))) "i" /\
  at_rest (w_db (fst (ex_fence IS.Stopped))) "i".
Proof.
  assert (forall st, fleet_leases (holding st) !! "web" = Some (mkFleetLease 1 "i" false 0)) as Hrow by (intros []; reflexivity).
  assert (fleet_leases (w_db (fst (ex_fence IS.Running))) !! "web" = Some (mkFleetLease 1 "i" true 0)) as E1
    by (vm_compute; reflexivity).
  assert (fleet_leases (w_db (fst (ex_fence IS.Stopped))) !! "web" = None) as E2 by (vm_compute; reflexivity).
  destruct (fenced_lease_kept_until_at_rest toy_runtime toy_sha "cpu" toy_clock no_faults toy_names toy_mint any_ulid (fun s => s) "web" "i"
    (fleet_world (holding IS.Running) ∅) (fst (ex_fence IS.Running)) (snd (ex_fence IS.Running)) (mkFleetLease 1 "i" false 0)
    ltac:(reflexivity) ltac:(discriminate) (Hrow IS.Running) (surjective_pairing _)) as (_ & _ & _ & H1).
  destruct (fenced_lease_kept_until_at_rest toy_runtime toy_sha "cpu" toy_clock no_faults toy_names toy_mint any_ulid (fun s => s) "web" "i"
    (fleet_world (holding IS.Stopped) ∅) (fst (ex_fence IS.Stopped)) (snd (ex_fence IS.Stopped)) (mkFleetLease 1 "i" false 0)
    ltac:(reflexivity) ltac:(discriminate) (Hrow IS.Stopped) (surjective_pairing _)) as (_ & _ & _ & H2).
  rewrite E1 in H1. rewrite E2 in H2. split; [exact E1|]. split; [exact (proj2 H1)|exact H2].
Defined.

(** A journal that does not answer counts as a workload at rest: when the read that
    confirms the stop fails, the row goes while the instance is still stopping. *)
Definition fault_at (k n : nat) : option string := if decide (n = k) then Some "unavailable" else None.
Definition ex_unread : World (list string * Fleet (LogStore Doc)) unit :=
  fst (fence_and_confirm toy_runtime toy_sha "cpu" toy_clock (fault_at 4) toy_names toy_mint "web" "i"
    (fleet_world (holding IS.Running) ∅)).
Lemma unread_journal_drops_the_fence :
  fleet_leases (w_db ex_unread) !! "web" = None /\ i_state <$> instances (w_db ex_unread) !! "i" = Some IS.Stopping.
Proof. vm_compute. split; reflexivity. Qed.

(** A name fenced once and acquired again keeps its mark, so the release sweep, which
    passes over marked rows, does not re-acquire it after a restart. *)
Lemma reacquired_stays_marked name e iid t db row :
  fleet_leases db !! name = Some row -> fl_fencing row = true ->
  fl_fencing <$> fleet_leases (hold_lease name e iid t db) !! name = Some true.
Proof. intros Hr Hf. unfold hold_lease. rewrite Hr. cbn. rewrite lookup_insert_eq. cbn. by rewrite Hf. Qed.

Definition web_lease : Held := mkHeld (mkLease "a" 1 15000 "ep" "i" None) (log_version 1).
Definition ex_release (desired : gset string) (st : IS.t) :=
  release_one toy_runtime toy_sha "cpu" toy_clock no_faults toy_names toy_mint desired "web" web_lease PassReport_default
    (fleet_world (holding st) {["web" := web_lease]}).
Lemma ex_release_eq desired st :
  ex_release desired st = (fst (ex_release desired st), (fst (snd (ex_release desired st)), snd (snd (ex_release desired st)))).
Proof. by destruct (ex_release desired st) as [? [? ?]]. Qed.

(** The session is no longer desired: its running instance is destroyed first, and the
    lease kept; while it is desired nothing is spawned. *)
Lemma lease_released_only_when_gone_witness :
  is_Some (fl_held (snd (w_sub (fst (ex_release ∅ IS.Running)))) !! "web") /\
  (exists sp, snd (snd (ex_release ∅ IS.Running)) = [sp] /\ sp_kind sp ∈ [KDestroy] /\ op_instance_id (sp_op sp) = "i") /\
  snd (snd (ex_release {["web"]} IS.Running)) = [].
Proof.
  destruct (lease_released_only_when_gone toy_runtime toy_sha "cpu" toy_clock no_faults toy_names toy_mint ∅ "web" web_lease
    PassReport_default (fleet_world (holding IS.Running) {["web" := web_lease]}) _ _ _ (ex_release_eq ∅ IS.Running))
    as (_ & H1 & H2 & _).
  destruct (lease_released_only_when_gone toy_runtime toy_sha "cpu" toy_clock no_faults toy_names toy_mint {["web"]} "web"
    web_lease PassReport_default (fleet_world (holding IS.Running) {["web" := web_lease]}) _ _ _
    (ex_release_eq {["web"]} IS.Running)) as (_ & _ & _ & H3).
  split; [|split].
  - destruct H1 as [[_ H]|[_ [H|[H|(i & H & H')]]]].
    + eexists. rewrite H. vm_compute. reflexivity.
    + discriminate H.
    + vm_compute in H. discriminate H.
    + vm_compute in H. injection H as <-. vm_compute in H'. discriminate H'.
  - assert (exists sp, snd (snd (ex_release ∅ IS.Running)) = [sp]) as [sp E] by (eexists; vm_compute; reflexivity).
    exists sp. split; [exact E|]. apply H2. rewrite E. left.
  - assert (forall l : list Spawn, (l <> [] -> False) -> l = []) as Hnil by (intros [|? ?] Hn; [reflexivity|destruct Hn; discriminate]).
    apply Hnil. intros Hs. apply H3 in Hs as [Hs _]. apply Hs. apply elem_of_singleton_2. reflexivity.
Defined.

(** A bucket that answers nothing. *)
#[local] Instance down_store : Lease.ObjectStore unit Doc :=
  {| os_path := id; os_get := fun _ _ => Err (StoreOther "down"); os_put := fun st _ _ _ => (st, Err (StoreOther "down")) |}.
#[local] Instance down_desired : DesiredStore unit Doc :=
  {| os_list := fun _ _ => [Err (StoreOther "down")]; os_filename := fun _ => None;
     desired_from_slice := fun _ => Err "down" |}.
Definition partitioned : World (list string * Fleet unit) unit :=
  mkWorld (holding IS.Running) ex_store ([], mkFleet tt {["web" := web_lease]} ∅ None) 0 0 0 [].
Definition ex_partition :=
  pass toy_runtime toy_sha "cpu" toy_clock no_faults toy_names toy_mint any_spec any_ulid (fun s => s) "a" "ep"
    Timing_default partitioned.

Lemma partition_is_nondestructive_witness :
  snd (snd ex_partition) = [] /\ fl_held (snd (w_sub (fst ex_partition))) = {["web" := web_lease]}.
Proof.
  destruct (partition_is_nondestructive toy_runtime toy_sha "cpu" toy_clock no_faults toy_names toy_mint any_spec any_ulid
    (fun s => s) "a" "ep" Timing_default partitioned (fst ex_partition) (fst (snd ex_partition)) (snd (snd ex_partition)))
    as (H1 & _ & _ & H2 & _).
  - split; [|split]; intros; eexists; reflexivity.
  - unfold ex_partition. destruct (pass _ _ _ _ _ _ _ _ _ _ _ _ _ _) as [? [? ?]]. reflexivity.
  - split; [exact H1|exact H2].
Defined.
