(* ===== verification/Service.v ===== *)
(** The requests of src/crates/barista-node-agent/src/service.rs: what each handler
    checks, what it submits and what it answers. A handler returns its answer or a status,
    and the executors it spawned. The event watch is in [Events]; exec and file transfer
    forward bytes and are left out. *)

From S2P Require Import Prelude Proto StateMachine Journal Events Operations Capsules Codec Restore Objects Runtime Ops CapsuleTransfer Reconcile.

(** * Text *)

(** [str::split_once('\n')] *)
Fixpoint split_newline (l : list Z) : option (list Z * list Z) :=
  match l with
  | [] => None
  | c :: l => if c =? 10 then Some ([], l) else let o := split_newline l in (fun p => (c :: fst p, snd p)) <$> o
  end.

(** [str::parse::<i64>]: an optional sign and digits, within the range. *)
Fixpoint parse_digits (acc : Z) (l : list Z) : option Z :=
  match l with
  | [] => Some acc
  | c :: l => if (48 <=? c) && (c <=? 57) then parse_digits (acc * 10 + (c - 48)) l else None
  end.
Definition parse_unsigned (l : list Z) : option Z := match l with [] => None | _ => parse_digits 0 l end.
Definition parse_i64 (l : list Z) : option Z :=
  option_filter (fun z => (i64_min <=? z) && (z <=? i64_max))
    (match l with
     | [] => None
     | c :: ds => if c =? 45 then Z.opp <$> parse_unsigned ds else if c =? 43 then parse_unsigned ds else parse_unsigned l
     end).

(** [str::from_utf8]: the well-formed byte sequences. *)
Definition within (a b c : Z) : bool := (a <=? c) && (c <=? b).
Fixpoint is_utf8 (l : list Z) : bool :=
  match l with
  | [] => true
  | a :: l1 =>
      if within 0 127 a then is_utf8 l1
      else match l1 with
      | [] => false
      | b :: l2 =>
          if within 194 223 a then within 128 191 b && is_utf8 l2
          else match l2 with
          | [] => false
          | c :: l3 =>
              if within 224 239 a then
                within (if a =? 224 then 160 else 128) (if a =? 237 then 159 else 191) b && within 128 191 c && is_utf8 l3
              else match l3 with
              | [] => false
              | d :: l4 =>
                  within 240 244 a && within (if a =? 240 then 144 else 128) (if a =? 244 then 143 else 191) b &&
                  within 128 191 c && within 128 191 d && is_utf8 l4
              end
          end
      end
  end.

(** [u8::is_ascii_uppercase], [is_ascii_lowercase], [is_ascii_digit] *)
Definition is_ascii_uppercase : Z -> bool := within 65 90.
Definition is_ascii_lowercase : Z -> bool := within 97 122.
Definition is_ascii_digit : Z -> bool := within 48 57.

(** [str::len] *)
Definition str_len (s : string) : Z := Z.of_nat (String.length s).

(** * Statuses *)

Inductive Code : Type :=
| InvalidArgument | NotFound | AlreadyExists | FailedPrecondition | Unavailable | Internal | ResourceExhausted
| Unimplemented | PermissionDenied | DeadlineExceeded | Unauthenticated | Cancelled.

(** A [tonic::Status]: its code, its message and the [barista-reason] entry of its metadata. *)
Record Status := mkStatus { status_code : Code; status_message : string; status_reason : option string }.

Definition plain (code : Code) (msg : string) : Status := mkStatus code msg None.

Definition status_with_reason (code : Code) (reason : ErrorReason.t) (msg : string) : Status :=
  mkStatus code (ErrorReason.as_str_name reason +:+ ": " +:+ msg) (Some (ErrorReason.as_str_name reason)).

Definition capsule_status (reason : ErrorReason.t) (message : string) : Status :=
  let code := match reason with
              | ErrorReason.InvalidSpec => InvalidArgument
              | ErrorReason.CapsuleNotFound => NotFound
              | ErrorReason.SubstrateUnavailable | ErrorReason.ObjectStoreUnavailable => Unavailable
              | _ => FailedPrecondition
              end in
  status_with_reason code reason message.

Definition submit_error_to_status (e : SubmitError) : Status :=
  let code := match se_reason e with
              | ErrorReason.ConcurrentOperation => FailedPrecondition
              | ErrorReason.CapabilityMissing => FailedPrecondition
              | ErrorReason.InvalidSpec => InvalidArgument
              | ErrorReason.TemplateNotFound => NotFound
              | ErrorReason.CursorTooOld => FailedPrecondition
              | ErrorReason.SnapshotInvalidated => FailedPrecondition
              | ErrorReason.BundleMismatch => FailedPrecondition
              | ErrorReason.CpuClassMismatch => FailedPrecondition
              | ErrorReason.SubstrateUnavailable => Unavailable
              | ErrorReason.SnapshotNameConflict => AlreadyExists
              | _ => Internal
              end in
  status_with_reason code (se_reason e) (se_message e).

Definition internal (e : string) : Status := plain Internal ("internal: " +:+ e).

Definition runtime_log_status (e : RuntimeError) : Status :=
  match e with
  | SubstrateUnavailable m => status_with_reason Unavailable ErrorReason.SubstrateUnavailable m
  | CapabilityMissing m => status_with_reason FailedPrecondition ErrorReason.CapabilityMissing m
  | other => plain Internal ("application log stream failed: " +:+ runtime_error_text other)
  end.

Definition settled_refusal (op_id : string) (st : OperationState.t) (detail : string) : Status :=
  status_with_reason FailedPrecondition ErrorReason.InvalidSpec
    ("operation " +:+ op_id +:+ " has already settled as " +:+ OperationState.as_str_name st +:+
     " and cannot be cancelled (" +:+ detail +:+ "); read its recorded outcome with GetOperation").

Definition is_legal_snapshot_name (name : string) : bool :=
  let l := bytes_of name in
  (str_len name <=? 63) && negb (bool_decide (head l = Some 45)) && negb (bool_decide (last l = Some 45)) &&
  forallb (fun c => is_ascii_lowercase c || is_ascii_digit c || (c =? 45)) l.

(** Milliseconds of a [Timestamp] of the protocol's range; [None] outside it. *)
Definition MIN_SECONDS : Z := -62135596800.
Definition MAX_SECONDS : Z := 253402300799.
Definition checked_i64 (z : Z) : option Z := if (i64_min <=? z) && (z <=? i64_max) then Some z else None.
Definition timestamp_ms (t : Timestamp) : option Z :=
  if negb (within MIN_SECONDS MAX_SECONDS (seconds t)) || negb (within 0 999999999 (nanos t)) then None
  else checked_i64 (seconds t * 1000) ≫= fun ms => checked_i64 (ms + Z.quot (nanos t) 1000000).

(** * Rows as messages *)

Definition instance_row_to_proto (row : InstanceRow) : Instance_ := {|
  in_spec := Some (ir_spec row);
  in_state := InstanceState.to_i32 (ir_state row);
  in_ready := ir_ready row;
  in_runtime := ir_runtime row;
  in_created_at := Some (ts (ir_created_at_ms row));
  in_updated_at := Some (ts (ir_updated_at_ms row));
  in_ttl_deadline := ts <$> ir_ttl_deadline_ms row;
  in_latest_snapshot_id := ir_latest_snapshot_id row;
  in_wake_at := ts <$> ir_wake_at_ms row;
  in_stop_reason := ir_stop_reason row;
  in_network := None;
  in_lineage := ir_lineage row;
  in_execution_epoch := ir_execution_epoch row |}.

Definition snapshot_row_to_proto (row : SnapshotRow) : Snapshot := {|
  sn_snapshot_id := sr_snapshot_id row;
  sn_instance_id := sr_instance_id row;
  sn_kind := SnapshotKind.to_i32 (sr_kind row);
  sn_cpu_class := sr_cpu_class row;
  sn_template_hash := sr_template_hash row;
  sn_runtime_bundle_ref := sr_runtime_bundle_ref row;
  sn_tier := SnapshotTier.to_i32 (sr_tier row);
  sn_size_bytes := sr_size_bytes row;
  sn_created_at := Some (ts (sr_created_at_ms row));
  sn_pre_snapshot_hook := sr_pre_snapshot_hook row;
  sn_name := sr_name row |}.

Definition capsule_row_to_proto (row : CapsuleRow) : Capsule := {|
  pc_capsule_id := cr_capsule_id row;
  pc_manifest := Some (cr_manifest row);
  pc_storage := CapsuleStorage.to_i32 (cr_storage row);
  pc_total_size_bytes := cr_total_size row;
  pc_created_at := Some (ts (cr_created_at_ms row)) |}.

Definition capsule_op_row_to_proto (row : CapsuleOpRow) : Operation := {|
  po_op_id := cor_op_id row;
  po_kind := cor_kind row;
  po_instance_id := empty_str;
  po_state := OperationState.to_i32 (cor_state row);
  po_current_step := empty_str;
  po_error := if bool_decide (cor_state row = OperationState.Failed)
              then Some {| reason := cor_error_reason row; message := cor_error_message row |} else None;
  po_degraded := empty_str;
  po_created_at := Some (ts (cor_created_at_ms row));
  po_finished_at := ts <$> cor_finished_at_ms row;
  po_froze_workload := false;
  po_actual_fork_mode := ForkMode.to_i32 ForkMode.Unspecified;
  po_capsule_id := cor_capsule_id row |}.

Definition operation_row_to_proto (row : OperationRow) : Operation := {|
  po_op_id := op_id row;
  po_kind := op_kind row;
  po_instance_id := op_instance_id row;
  po_state := OperationState.to_i32 (op_state row);
  po_current_step := op_current_step row;
  po_error := if bool_decide (op_state row = OperationState.Failed)
              then Some {| reason := op_error_reason row; message := op_error_message row |} else None;
  po_degraded := op_degraded row;
  po_created_at := Some (ts (op_created_at_ms row));
  po_finished_at := ts <$> op_finished_at_ms row;
  po_froze_workload := op_froze_workload row;
  po_actual_fork_mode := ForkMode.to_i32 (op_actual_fork_mode row);
  po_capsule_id := empty_str |}.

(** * Pages of instances *)

Definition DEFAULT_INSTANCE_PAGE_SIZE : Z := 256.
Definition MAX_INSTANCE_PAGE_SIZE : Z := 256.
Definition MAX_INSTANCE_PAGE_BYTES : Z := 3 * 1024 * 1024.
Definition MAX_INSTANCE_PAGE_TOKEN_BYTES : Z := 256.
Definition MAX_APPLICATION_LOG_ENTRY_BYTES : Z := 256 * 1024.

(** [InstancePageCursor], as the pair its order is on. *)
Definition InstancePageCursor : Type := Z * string.
Definition page_key (row : InstanceRow) : InstancePageCursor := (ir_created_at_ms row, ir_id row).
Definition key_le : relation InstancePageCursor := lex Z.le String.le.
#[global] Instance key_le_dec : RelDecision key_le.
Proof. unfold key_le. apply _. Defined.
Definition row_le (a b : InstanceRow) : Prop := key_le (page_key a) (page_key b).
#[global] Instance row_le_dec : RelDecision row_le.
Proof. intros a b. unfold row_le. apply _. Defined.

(** The rows a request asks for, after its cursor, in order. *)
Definition wanted (r : ListInstancesRequest) (row : InstanceRow) : bool :=
  (bool_decide (lr_states r = []) || bool_decide (InstanceState.to_i32 (ir_state row) ∈ lr_states r)) &&
  bool_decide (map_Forall (fun k v => labels (ir_spec row) !! k = Some v) (lr_label_selector r)).
Definition after_cursor (cursor : option InstancePageCursor) (row : InstanceRow) : bool :=
  match cursor with None => true | Some c => negb (bool_decide (key_le (page_key row) c)) end.
Definition rows_after (r : ListInstancesRequest) (cursor : option InstancePageCursor) (all : list InstanceRow)
    : list InstanceRow :=
  merge_sort row_le (List.filter (after_cursor cursor) (List.filter (wanted r) all)).

(** * The handlers *)

Definition H (W R A : Type) : Type := M W R (res Status A * list Spawn).
Definition answer {W R A} (a : A) : H W R A := ret (Ok a, []).
Definition refuse {W R A} (s : Status) : H W R A := ret (Err s, []).
(** [.map_err(f)?] *)
Definition attempt {W R E A B} (f : E -> Status) (m : M W R (res E A)) (k : A -> H W R B) : H W R B :=
  let! r := m in match r with Ok a => k a | Err e => refuse (f e) end.
(** [.ok_or_else(..)?] *)
Definition ok_or {W R A B} (s : Status) (o : option A) (k : A -> H W R B) : H W R B :=
  match o with Some a => k a | None => refuse s end.

Notation "'let?!' x := m 'or' f 'in' k" := (attempt f m (fun x => k))
  (at level 10, x pattern, m at level 100, f at level 100, k at level 200) : agent_scope.

(** What a task that may panic ends with. *)
Inductive PanicPayload : Type := PanicStr (s : string) | PanicString (s : string) | PanicOther.
Inductive Caught (A : Type) : Type := Returned (a : A) | Panicked (p : PanicPayload).
Arguments Returned {A}. Arguments Panicked {A}.

Definition panic_message (p : PanicPayload) : string :=
  match p with PanicStr s | PanicString s => s | PanicOther => "panic payload of unknown type" end.

Inductive CapsuleSubmission : Type := Started (row : CapsuleOpRow) | Replayed (op : Operation).

Section Service.
Context {W R : Type} (rt : Runtime W) (bucket : Bucket R) (sha256 : list Z -> list Z).
Context (node_id node_arch node_cpu_class agent_version : string).
Context (clock : nat -> Z) (faults : nat -> option string) (names : nat -> string).
Context (mint : string -> res string Identity).
(** The ulid and base64 crates, [str::trim], and the message sizes of prost. *)
Context (ulid_from_string : string -> res string unit) (trim : string -> string).
Context (base64_encode : list Z -> string) (base64_decode : string -> option (list Z)).
Context (encoded_len : Instance_ -> Z) (length_delimiter_len : Z -> Z).
(** [std::thread::available_parallelism], and the node's fleet, when it is in one. *)
Context (available_parallelism : option Z) (fleet_info : W -> option FleetInfo).

#[local] Abbreviation M := (M W R).
#[local] Abbreviation H := (H W R).
#[local] Abbreviation journal := (@journal W R faults).
#[local] Abbreviation journal_try := (@journal_try W R faults).
#[local] Abbreviation reading := (@reading W R faults).
#[local] Abbreviation emit_event := (@emit_event W R clock faults).
#[local] Abbreviation now_ms := (@now_ms W R clock).
#[local] Abbreviation fresh_name := (@fresh_name W R names).

Definition submit (kind : OpKind) (iid key : string) (p : OpPayload) : H Operation :=
  let! (r, s) := Ops.submit rt sha256 node_cpu_class clock faults names mint kind iid key p in
  ret (match r with Ok op => Ok (operation_row_to_proto op) | Err e => Err (submit_error_to_status e) end,
       option_list (spawn kind p s)).

Definition instance_to_proto (row : InstanceRow) : M Instance_ :=
  let instance := instance_row_to_proto row in
  if bool_decide (ir_state row = InstanceState.Running) then
    let! r := ask (fun s => rt_workload_address rt s (ir_id row)) in
    ret (match r with
         | Ok (Some address) => instance <| in_network := Some {| address := address |} |>
         | Ok None | Err _ => instance
         end)
  else ret instance.

(** * Life cycle *)

Definition create_instance (r : CreateInstanceRequest) : H Operation :=
  match ci_spec r with
  | None => refuse (plain InvalidArgument "spec is required")
  | Some spec =>
      match admit_spec ulid_from_string trim spec (ci_require_hardware_isolation r) (rt_caps rt) (rt_name rt) with
      | Err refusal =>
          let code := match ref_reason refusal with ErrorReason.InvalidSpec => InvalidArgument | _ => FailedPrecondition end in
          refuse (status_with_reason code (ref_reason refusal) (ref_message refusal))
      | Ok _ => submit KCreate (instance_id spec) (ci_idempotency_key r) (PCreate spec)
      end
  end.

Definition start_instance (r : StartInstanceRequest) : H Operation :=
  submit KStart (si_instance_id r) (si_idempotency_key r) PStart.

Definition stop_instance (r : StopInstanceRequest) : H Operation :=
  submit KStop (st_instance_id r) (st_idempotency_key r) (PStop (st_grace_seconds r)).

Definition destroy_instance (r : DestroyInstanceRequest) : H Operation :=
  submit KDestroy (di_instance_id r) (di_idempotency_key r) (PDestroy (di_keep_snapshots r)).

Definition pause_instance (r : PauseInstanceRequest) : H Operation :=
  let keep_memory := default true (pi_keep_memory r) in
  let require_memory := keep_memory && pi_require_memory r in
  if require_memory && negb (memory_snapshot (rt_caps rt)) then
    refuse (status_with_reason FailedPrecondition ErrorReason.CapabilityMissing
      ("require_memory was set but runtime '" +:+ rt_name rt +:+
       "' cannot capture memory; use a memory-capable runtime or retry without require_memory to accept a DISK_ONLY pause"))
  else submit KPause (pi_instance_id r) (pi_idempotency_key r) (PPause require_memory).

Definition resume_instance (r : ResumeInstanceRequest) : H Operation :=
  let go iid sid := submit KResume iid (ru_idempotency_key r) (PResume sid (ru_require_memory r)) in
  match ru_target r with
  | Some (TargetInstanceId id) => go id None
  | Some (TargetSnapshotId sid) =>
      let?! row := reading (get_snapshot sid) or internal in
      ok_or (status_with_reason NotFound ErrorReason.SnapshotInvalidated
               ("snapshot " +:+ sid +:+ " is not known to this node")) row
        (fun row => go (sr_instance_id row) (Some sid))
  | None => refuse (status_with_reason InvalidArgument ErrorReason.InvalidSpec
                      "resume needs either instance_id or snapshot_id")
  end.

Definition checkpoint_instance : H Operation :=
  if negb (live_checkpoint (rt_caps rt)) then
    refuse (status_with_reason FailedPrecondition ErrorReason.CapabilityMissing
      ("runtime '" +:+ rt_name rt +:+ "' cannot checkpoint a running instance; its snapshot-from-running is pause-copy-resume, so honouring this would silently pause the workload. Use PauseInstance if a pause is acceptable"))
  else refuse (plain Unimplemented "implemented in openspec change nap-005-hypeman-backend").

(** * Alarms *)

Definition no_instance_found (id : string) : Status := plain NotFound ("instance " +:+ id +:+ " not found").

(** The alarm a request sets: [None] clears it. *)
Definition wake_at_of (at_ : option Timestamp) : M (res Status (option Z)) :=
  match at_ with
  | None => ret (Ok None)
  | Some t =>
      match timestamp_ms t with
      | None => ret (Err (status_with_reason InvalidArgument ErrorReason.InvalidSpec
          ("wake_at is not a usable timestamp (seconds " +:+ pretty (seconds t) +:+ ", nanos " +:+ pretty (nanos t) +:+
           "); `google.protobuf.Timestamp` runs from 0001-01-01 to 9999-12-31 with nanos in [0, 999999999]")))
      | Some ms =>
          let! now := now_ms in
          if ms <=? now then
            ret (Err (status_with_reason InvalidArgument ErrorReason.InvalidSpec
              ("wake_at must be in the future (" +:+ pretty ms +:+
               " ms is already past); omit wake_at to clear the alarm instead")))
          else ret (Ok (Some ms))
      end
  end.

Definition set_wake (r : SetWakeRequest) : H Instance_ :=
  let id := sw_instance_id r in
  let?! row := reading (get_instance id) or internal in
  ok_or (no_instance_found id) row (fun row =>
    if bool_decide (ir_state row = InstanceState.Destroyed) then
      refuse (status_with_reason FailedPrecondition ErrorReason.InvalidSpec
        ("instance " +:+ id +:+ " is DESTROYED, so a wake alarm on it could never fire"))
    else
      let?! wake := wake_at_of (sw_wake_at r) or (fun e => e) in
      let! t := now_ms in
      let?! _ := journal (fun db => (set_wake_at id wake t db, tt)) or internal in
      let?! row := reading (get_instance id) or internal in
      ok_or (no_instance_found id) row (fun row => answer (instance_row_to_proto row))).

(** * Reading instances and snapshots *)

Definition get_instance (id : string) : H Instance_ :=
  let?! row := reading (Journal.get_instance id) or internal in
  ok_or (no_instance_found id) row (fun row => let! i := instance_to_proto row in answer i).

Definition encode_instance_cursor (row : InstanceRow) : string :=
  base64_encode (bytes_of (pretty (ir_created_at_ms row) +:+ String (Ascii.ascii_of_nat 10) (ir_id row))).

Definition bad_token (msg : string) : Status := status_with_reason InvalidArgument ErrorReason.InvalidSpec msg.

Definition decode_instance_cursor (token : string) : res Status (option InstancePageCursor) :=
  if is_empty token then Ok None
  else if MAX_INSTANCE_PAGE_TOKEN_BYTES <? str_len token then Err (bad_token "ListInstances page_token exceeds its bound")
  else match base64_decode token with
  | None => Err (bad_token "ListInstances page_token is not valid URL-safe base64")
  | Some decoded =>
      if negb (is_utf8 decoded) then Err (bad_token "ListInstances page_token is not UTF-8")
      else match split_newline decoded with
      | None => Err (bad_token "ListInstances page_token has an invalid structure")
      | Some (created, iid) =>
          if negb (Z.of_nat (length iid) =? 26) || negb (forallb (fun b => is_ascii_uppercase b || is_ascii_digit b) iid)
          then Err (bad_token "ListInstances page_token carries an invalid instance id")
          else match parse_i64 created with
          | None => Err (bad_token "ListInstances page_token carries an invalid creation time")
          | Some created_at_ms => Ok (Some (created_at_ms, text_of iid))
          end
      end
  end.

Definition encoded_repeated_instance_bytes (i : Instance_) : Z :=
  let length := encoded_len i in 1 + length_delimiter_len length + length.

(** [buffered(..)] keeps the order of the rows. *)
Fixpoint enrich (rows : list InstanceRow) : M (list (InstanceRow * Instance_)) :=
  match rows with
  | [] => ret []
  | row :: rows => let! i := instance_to_proto row in let! l := enrich rows in ret ((row, i) :: l)
  end.

(** What fits the budget: the instances, the last row among them, and whether some did not. *)
Fixpoint fill_page (l : list (InstanceRow * Instance_)) (encoded_bytes : Z) (selected : list Instance_)
    (last_row : option InstanceRow) : res Status (list Instance_ * option InstanceRow * bool) :=
  match l with
  | [] => Ok (selected, last_row, false)
  | (row, i) :: l =>
      let instance_bytes := encoded_repeated_instance_bytes i in
      if (MAX_INSTANCE_PAGE_BYTES <? instance_bytes) && bool_decide (selected = []) then
        Err (plain ResourceExhausted "one admitted instance exceeds the ListInstances response budget")
      else if MAX_INSTANCE_PAGE_BYTES <? encoded_bytes + instance_bytes then Ok (selected, last_row, true)
      else fill_page l (encoded_bytes + instance_bytes) (selected ++ [i]) (Some row)
  end.

Definition list_instances (r : ListInstancesRequest) : H ListInstancesResponse :=
  let requested_size := if lr_page_size r =? 0 then DEFAULT_INSTANCE_PAGE_SIZE else lr_page_size r in
  if MAX_INSTANCE_PAGE_SIZE <? requested_size then
    refuse (status_with_reason InvalidArgument ErrorReason.InvalidSpec "ListInstances page_size must not exceed 256")
  else
    let?! cursor := ret (decode_instance_cursor (lr_page_token r)) or (fun e => e) in
    let?! all := reading Journal.list_instances or internal in
    let rows := rows_after r cursor all in
    let more_by_count := requested_size <? Z.of_nat (length rows) in
    let! enriched := enrich (take (Z.to_nat requested_size) rows) in
    match fill_page enriched 0 [] None with
    | Err e => refuse e
    | Ok (selected, last_row, more_by_bytes) =>
        if more_by_count || more_by_bytes then
          ok_or (plain ResourceExhausted "ListInstances could not fit one result") last_row (fun row =>
            answer {| li_instances := selected; li_next_page_token := encode_instance_cursor row |})
        else answer {| li_instances := selected; li_next_page_token := empty_str |}
    end.

Definition list_snapshots (iid : string) : H (list Snapshot) :=
  let?! rows := reading (Capsules.list_snapshots iid) or internal in answer (snapshot_row_to_proto <$> rows).

(** * Snapshots and forks *)

Definition delete_snapshot_descriptor (sid : string) : string := payload_descriptor (PDeleteSnapshot sid).

(** A snapshot that is gone may be the outcome of the very request that is repeated. *)
Definition delete_snapshot (r : DeleteSnapshotRequest) : H Operation :=
  let sid := ds_snapshot_id r in
  let?! row := reading (get_snapshot sid) or internal in
  match row with
  | Some row => submit KDeleteSnapshot (sr_instance_id row) (ds_idempotency_key r) (PDeleteSnapshot sid)
  | None =>
      let?! op := reading (find_op_by_idempotency_key (ds_idempotency_key r)) or internal in
      match option_filter (fun op => bool_decide (op_kind op = as_str KDeleteSnapshot) &&
                                     bool_decide (op_payload op = delete_snapshot_descriptor sid)) op with
      | Some original => answer (operation_row_to_proto original)
      | None => refuse (plain NotFound ("snapshot " +:+ sid +:+ " not found"))
      end
  end.

Definition create_snapshot (r : CreateSnapshotRequest) : H Operation :=
  if negb (memory_snapshot (rt_caps rt)) then
    refuse (status_with_reason FailedPrecondition ErrorReason.CapabilityMissing
      ("runtime '" +:+ rt_name rt +:+ "' cannot capture memory, so it cannot produce a snapshot worth returning to. Use StopInstance if a disk-only artifact is what you want"))
  else
    let name := if is_empty (cs_name r) then None else Some (cs_name r) in
    if negb (is_empty (cs_name r)) && negb (is_legal_snapshot_name (cs_name r)) then
      refuse (status_with_reason InvalidArgument ErrorReason.InvalidSpec
        ("snapshot name " +:+ quoted (cs_name r) +:+ " is not usable: names are at most 63 characters of lowercase letters, digits and dashes, and may not start or end with a dash"))
    else submit KCreateSnapshot (cs_instance_id r) (cs_idempotency_key r) (PCreateSnapshot name).

Definition restore_imported_capsule (r : ForkInstanceRequest) : H Operation :=
  let source_snapshot := fr_source_snapshot_id r in
  let caps := rt_caps rt in
  match capsule_id_from_snapshot_id source_snapshot with
  | None => refuse (status_with_reason FailedPrecondition ErrorReason.InvalidSpec
      ("snapshot " +:+ source_snapshot +:+ " names no source instance and is not an imported capsule, so there is nothing to branch from"))
  | Some capsule_id =>
      if negb (capsule_import caps) then
        refuse (status_with_reason FailedPrecondition ErrorReason.CapabilityMissing
          "this runtime cannot restore an imported capsule (it does not report capsule_import)")
      else if negb (memory_snapshot caps) then
        refuse (status_with_reason FailedPrecondition ErrorReason.CapabilityMissing
          "restoring a capsule reinstates exact memory, and this runtime does not report memory_snapshot")
      else if fr_require_cow r then
        refuse (status_with_reason FailedPrecondition ErrorReason.ForkModeUnavailable
          "require_cow cannot be honoured when restoring an imported capsule: there is no source instance on this node to share pages with. Retry without require_cow")
      else match fr_target_spec r with
      | None => refuse (status_with_reason InvalidArgument ErrorReason.InvalidSpec
          ("restoring capsule " +:+ capsule_id +:+ " needs target_spec: an imported capsule has no source instance whose spec the child could clone"))
      | Some target_spec =>
          let?! capsule := reading (get_capsule capsule_id) or internal in
          ok_or (status_with_reason NotFound ErrorReason.CapsuleIncompatible
                   ("capsule " +:+ capsule_id +:+ " is not registered on this node")) capsule (fun capsule =>
            match decide_capsule sha256 (cr_manifest capsule) target_spec node_cpu_class (rt_version rt) with
            | CapsuleRefuse reason why =>
                refuse (status_with_reason FailedPrecondition reason
                  ("capsule " +:+ capsule_id +:+ " cannot be restored here: " +:+ why))
            | Proceed =>
                let spec := target_spec <| instance_id := fr_target_instance_id r |> in
                let lineage := {|
                  lineage_id := if is_empty (cm_lineage_id (cr_manifest capsule)) then fr_target_instance_id r
                                else cm_lineage_id (cr_manifest capsule);
                  source_snapshot_id := source_snapshot;
                  source_capsule_id := capsule_id;
                  parent_instance_id := empty_str |} in
                submit KFork (fr_target_instance_id r) (fr_idempotency_key r)
                  (PRestoreCapsule spec capsule_id source_snapshot lineage)
            end)
      end
  end.

Definition fork_instance (r : ForkInstanceRequest) : H Operation :=
  let source_snapshot := fr_source_snapshot_id r in
  let caps := rt_caps rt in
  if is_empty (fr_target_instance_id r) then refuse (plain InvalidArgument "target_instance_id is required")
  else if is_empty source_snapshot then refuse (plain InvalidArgument "source_snapshot_id is required")
  else
    let?! snapshot := reading (get_snapshot source_snapshot)
      or (fun e => plain Internal ("reading snapshot " +:+ source_snapshot +:+ ": " +:+ e)) in
    ok_or (status_with_reason NotFound ErrorReason.InvalidSpec
             ("no snapshot " +:+ source_snapshot +:+ " is registered on this node to fork")) snapshot (fun snapshot =>
      let source_instance_id := sr_instance_id snapshot in
      if is_empty source_instance_id then restore_imported_capsule r
      else if fr_require_cow r && negb (cow_fork caps) then
        refuse (status_with_reason FailedPrecondition ErrorReason.ForkModeUnavailable
          "require_cow was set but this runtime has no copy-on-write fork; retry without require_cow to accept a full-copy freeze, or use a runtime that reports cow_fork")
      else if negb (cow_fork caps) && negb (full_copy_fork caps) then
        refuse (status_with_reason FailedPrecondition ErrorReason.ForkModeUnavailable
          "this runtime cannot fork an instance (it reports neither cow_fork nor full_copy_fork)")
      else
        let?! source_row := reading (Journal.get_instance source_instance_id)
          or (fun e => plain Internal ("reading source " +:+ source_instance_id +:+ ": " +:+ e)) in
        ok_or (status_with_reason NotFound ErrorReason.InvalidSpec
                 ("snapshot " +:+ source_snapshot +:+ " names source " +:+ source_instance_id +:+
                  ", which no longer exists on this node")) source_row (fun source_row =>
          let target_spec := (ir_spec source_row) <| instance_id := fr_target_instance_id r |> in
          let lineage := {|
            lineage_id := default source_instance_id
              (option_filter (fun id => negb (is_empty id)) (lineage_id <$> ir_lineage source_row));
            source_snapshot_id := source_snapshot;
            source_capsule_id := empty_str;
            parent_instance_id := source_instance_id |} in
          submit KFork (fr_target_instance_id r) (fr_idempotency_key r)
            (PFork target_spec source_instance_id source_snapshot lineage (fr_require_cow r)
               (ir_guest_token source_row) (ir_identity source_row)))).

(** * Capsules *)

Definition begin_capsule_op (kind request key : string) : M (res Status CapsuleSubmission) :=
  let! t := now_ms in
  let! id := fresh_name in
  let! r := journal_try (Capsules.begin_capsule_op kind request key id t) in
  ret match r with
      | Err e => Err (internal e)
      | Ok (CStarted row) => Ok (Started row)
      | Ok (CReplay row) =>
          if bool_decide (cor_state row = OperationState.Failed)
          then Err (capsule_status (cor_error_reason row) (cor_error_message row))
          else Ok (Replayed (capsule_op_row_to_proto row))
      | Ok (CMismatch original) =>
          Err (status_with_reason InvalidArgument ErrorReason.InvalidSpec
            ("idempotency key was already used for " +:+ cor_kind original +:+ " with a different request"))
      end.

(** The row of a capsule operation, settled. *)
Definition settle_capsule_op (op_id capsule_id : string) (st : OperationState.t) (reason : ErrorReason.t) (msg : string)
    : M (res string CapsuleOpRow) :=
  let! t := now_ms in journal_try (Capsules.finish_capsule_op op_id capsule_id st reason msg t).

Definition finish_capsule_op (row : CapsuleOpRow) (outcome : res CapsuleError Capsule) : H Operation :=
  match outcome with
  | Err (reason, message) =>
      let?! _ := settle_capsule_op (cor_op_id row) empty_str OperationState.Failed reason message or internal in
      refuse (capsule_status reason message)
  | Ok capsule =>
      let?! recorded := settle_capsule_op (cor_op_id row) (pc_capsule_id capsule) OperationState.Done
                          ErrorReason.Unspecified empty_str or internal in
      let tier := default CapsuleStorage.Unspecified (CapsuleStorage.try_from (pc_storage capsule)) in
      let subject := "capsule " +:+ pc_capsule_id capsule +:+ " (" +:+
        pretty (length (default [] (cm_objects <$> pc_manifest capsule))) +:+ " object(s), " +:+
        pretty (pc_total_size_bytes capsule) +:+ " bytes) in the " +:+ CapsuleStorage.as_str_name tier +:+ " tier" in
      let! _ :=
        if bool_decide (cor_kind row = "export_capsule") then
          emit_event (capsule_exported empty_str (cor_op_id recorded) ("exported " +:+ subject))
        else if bool_decide (cor_kind row = "import_capsule") then
          emit_event (capsule_imported empty_str (cor_op_id recorded) ("verified and registered " +:+ subject))
        else ret tt in
      answer (capsule_op_row_to_proto recorded)
  end.

(** The task runs to its end whether or not the caller waits, so that only the end of the
    process leaves the row running; its panics are caught and settle the row. *)
Definition run_capsule_op (row : CapsuleOpRow) (work : M (Caught (res CapsuleError Capsule))) : H Operation :=
  let! c := work in
  match c with
  | Returned outcome => finish_capsule_op row outcome
  | Panicked panic =>
      let message := "the " +:+ cor_kind row +:+ " task panicked: " +:+ panic_message panic in
      let?! _ := settle_capsule_op (cor_op_id row) empty_str OperationState.Failed ErrorReason.Unspecified message
                   or internal in
      refuse (capsule_status ErrorReason.Unspecified message)
  end.

(** Reserve the row and run, or answer what the key was used for. *)
Definition capsule_op (kind request key : string) (work : M (Caught (res CapsuleError Capsule))) : H Operation :=
  let?! begun := begin_capsule_op kind request key or (fun e => e) in
  match begun with
  | Started row => run_capsule_op row work
  | Replayed op => answer op
  end.

Definition export_work (sid : string) (tier : CapsuleStorage.t) : M (Caught (res CapsuleError Capsule)) :=
  let! r := CapsuleTransfer.export_capsule rt bucket sha256 node_arch clock faults names sid tier in
  ret (Returned (let? row := r in Ok (capsule_row_to_proto row))).

Definition export_capsule (r : ExportCapsuleRequest) : H Operation :=
  if is_empty (ec_idempotency_key r) then refuse (plain InvalidArgument "idempotency_key is required")
  else
    let tier := default CapsuleStorage.LocalDir (CapsuleStorage.try_from (ec_tier r)) in
    let request := pretty (str_len (ec_snapshot_id r)) +:+ ":" +:+ ec_snapshot_id r +:+ ":" +:+
                   pretty (CapsuleStorage.to_i32 tier) in
    capsule_op "export_capsule" request (ec_idempotency_key r) (export_work (ec_snapshot_id r) tier).

Definition import_work (m : CapsuleManifest) (storage : CapsuleStorage.t) : M (Caught (res CapsuleError Capsule)) :=
  let! r := CapsuleTransfer.import_capsule rt bucket sha256 node_arch node_cpu_class clock faults names m storage in
  ret (Returned (let? row := r in Ok (capsule_row_to_proto row))).

Definition import_capsule (r : ImportCapsuleRequest) : H Operation :=
  if is_empty (ic_idempotency_key r) then refuse (plain InvalidArgument "idempotency_key is required")
  else
    ok_or (plain InvalidArgument "manifest is required") (ic_manifest r) (fun manifest =>
      let storage := default CapsuleStorage.LocalDir (CapsuleStorage.try_from (ic_storage r)) in
      let request := text_of (capsule_id sha256 manifest) +:+ ":" +:+ pretty (CapsuleStorage.to_i32 storage) in
      capsule_op "import_capsule" request (ic_idempotency_key r) (import_work manifest storage)).

(** [objects::run_gc], its journal calls one by one. *)
Fixpoint gc_each (digests : list string) : M (res string Z) :=
  match digests with
  | [] => ret (Ok 0)
  | d :: digests =>
      let! removed := on_store (remove d) in
      match removed with
      | Err e => ret (Err e)
      | Ok _ =>
          let! f := journal (fun db => (finalize_object_gc d db, tt)) in
          match f with
          | Err e => ret (Err e)
          | Ok _ => let! n := gc_each digests in ret (let? n := n in Ok (n + 1))
          end
      end
  end.
Definition gc_pass : M (res string (Z * Z)) :=
  let! swept := on_store sweep_staging in
  let! digests := reading collectable_objects in
  match digests with
  | Err e => ret (Err e)
  | Ok digests => let! n := gc_each digests in ret (let? n := n in Ok (swept, n))
  end.

Definition delete_work (id : string) : M (Caught (res CapsuleError Capsule)) :=
  let! r := journal (fun db => (Capsules.delete_capsule id db, tt)) in
  match r with
  | Ok _ =>
      let! _ := gc_pass in
      ret (Returned (Ok {| pc_capsule_id := id; pc_manifest := None; pc_storage := 0; pc_total_size_bytes := 0;
                           pc_created_at := None |}))
  | Err e => ret (Returned (Err (ErrorReason.Unspecified, "deleting capsule: " +:+ e)))
  end.

Definition delete_capsule (r : DeleteCapsuleRequest) : H Operation :=
  if is_empty (dc_idempotency_key r) then refuse (plain InvalidArgument "idempotency_key is required")
  else if is_empty (dc_capsule_id r) then refuse (plain InvalidArgument "capsule_id is required")
  else
    let request := pretty (str_len (dc_capsule_id r)) +:+ ":" +:+ dc_capsule_id r in
    capsule_op "delete_capsule" request (dc_idempotency_key r) (delete_work (dc_capsule_id r)).

Definition get_capsule (id : string) : H Capsule :=
  let?! c := reading (Capsules.get_capsule id) or internal in
  ok_or (status_with_reason NotFound ErrorReason.CapsuleNotFound ("no capsule " +:+ id +:+ " is registered on this node")) c
    (fun c => answer (capsule_row_to_proto c)).

Definition list_capsules (lineage : string) : H (list Capsule) :=
  let?! l := reading (Capsules.list_capsules lineage) or internal in answer (capsule_row_to_proto <$> l).

(** * Operations *)

Definition get_operation (id : string) : H Operation :=
  let?! op := reading (Operations.get_operation id) or internal in
  match op with
  | Some op => answer (operation_row_to_proto op)
  | None =>
      let?! cop := reading (get_capsule_op id) or internal in
      match cop with
      | Some op => answer (capsule_op_row_to_proto op)
      | None => refuse (plain NotFound ("operation " +:+ id +:+ " not found"))
      end
  end.

Definition cancel_operation (r : CancelOperationRequest) : H Operation :=
  let id := co_op_id r in
  let?! op := reading (Operations.get_operation id) or internal in
  match op with
  | None =>
      let?! cop := reading (get_capsule_op id) or internal in
      match cop with
      | Some capsule_op =>
          if op_is_settled (cor_state capsule_op) then
            refuse (settled_refusal id (cor_state capsule_op)
              "a capsule operation settles exactly once, as the outcome its detached work produced")
          else refuse (status_with_reason FailedPrecondition ErrorReason.InvalidSpec
            ("operation " +:+ id +:+ " is a capsule operation still running; capsule operations hold no cancellation channel and run to completion — poll its outcome with GetOperation"))
      | None => refuse (plain NotFound ("operation " +:+ id +:+ " not found"))
      end
  | Some op =>
      let! c := cancel clock faults op (co_reason r) in
      match c with
      | Err refused =>
          let?! row := reading (Operations.get_operation id) or internal in
          match row with
          | Some row => if op_is_settled (op_state row) then refuse (settled_refusal id (op_state row) refused)
                        else refuse (internal refused)
          | None => refuse (internal refused)
          end
      | Ok _ =>
          let?! row := reading (Operations.get_operation id) or internal in
          ok_or (internal ("operation " +:+ id +:+ " vanished after cancel")) row
            (fun row => answer (operation_row_to_proto row))
      end
  end.

(** * Logs and the node *)

Definition log_entry (item : res RuntimeError (list Z)) : res Status (list Z) :=
  match item with
  | Ok data => if Z.of_nat (length data) <=? MAX_APPLICATION_LOG_ENTRY_BYTES then Ok data
               else Err (plain ResourceExhausted "application log entry exceeded 256 KiB")
  | Err e => Err (runtime_log_status e)
  end.

Definition watch_logs (r : WatchLogsRequest) : H (list (res Status (list Z))) :=
  let tail := if wl_tail r =? 0 then 100 else wl_tail r in
  if 1000 <? tail then
    refuse (status_with_reason InvalidArgument ErrorReason.InvalidSpec "application log tail must be between 1 and 1000")
  else
    let?! row := reading (Journal.get_instance (wl_instance_id r)) or internal in
    ok_or (no_instance_found (wl_instance_id r)) row (fun _ =>
      let?! stream := ask (fun s => rt_application_logs rt s (wl_instance_id r) tail (wl_follow r)) or runtime_log_status in
      answer (log_entry <$> stream)).

(** The runtime's capabilities, but for the one the node itself decides. *)
Definition reported_capabilities (has_remote : bool) (c : RuntimeCapabilities) : RuntimeCapabilities := {|
  memory_snapshot := memory_snapshot c; disk_snapshot := disk_snapshot c; live_checkpoint := live_checkpoint c;
  guest_agent := guest_agent c; hardware_isolation := hardware_isolation c; lazy_restore := lazy_restore c;
  cow_fork := cow_fork c; egress_control := egress_control c; full_copy_fork := full_copy_fork c;
  object_store_snapshots := has_remote;
  capsule_export := capsule_export c; capsule_import := capsule_import c; safe_grant_rebind := safe_grant_rebind c |}.

Definition get_node_info : H NodeInfo :=
  let! (health, detail) := ask (rt_substrate_health rt) in
  let! has := on_store (fun s => (s, has_remote s)) in
  let! fleet := ask fleet_info in
  answer {| ni_node_id := node_id; ni_arch := node_arch; ni_cpu_class := node_cpu_class;
    ni_runtimes := [{| ri_name := rt_name rt; ri_capabilities := Some (reported_capabilities has (rt_caps rt));
                       ri_version := rt_version rt; ri_health := SubstrateHealth.to_i32 health; ri_health_detail := detail |}];
    ni_total_resources := Some {| vcpu := default 1 ((fun n => n mod 2 ^ 32) <$> available_parallelism);
                                  mem_mib := 0; disk_mib := 0 |};
    ni_allocatable_resources := None; ni_agent_version := agent_version; ni_fleet := fleet |}.
End Service.
