(* ===== verification/Pages.v ===== *)
(** Listing instances page by page: [Service.list_instances] followed from token to token
    yields every wanted row once, in order. *)

From S2P Require Import Prelude Proto StateMachine Journal Events Operations Capsules Codec Restore Objects Runtime Ops CapsuleTransfer Executor Reconcile Reconciler Service.

(** * Numbers as text *)

Definition digit (c : Z) : Prop := 48 <= c <= 57.

Lemma bytes_of_app s t : bytes_of (s +:+ t) = bytes_of s ++ bytes_of t.
Proof. induction s as [|c s IH]; [done|]. change (String c s +:+ t) with (String c (s +:+ t)). simpl. by rewrite IH. Qed.

Lemma length_bytes_of s : length (bytes_of s) = String.length s.
Proof. induction s as [|c s IH]; [done|]. simpl. by rewrite IH. Qed.

Lemma text_of_bytes_of s : text_of (bytes_of s) = s.
Proof. induction s as [|c s IH]; [done|]. simpl. by rewrite IH, Nat2Z.id, Ascii.ascii_nat_embedding. Qed.

Lemma is_utf8_ascii l l' : Forall (fun c => within 0 127 c = true) l -> is_utf8 (l ++ l') = is_utf8 l'.
Proof. induction 1 as [|a l Ha _ IH]; [done|]. cbn [app is_utf8]. by rewrite Ha, IH. Qed.

Lemma digit_byte x : (x < 10)%N -> bytes_of (String (pretty_N_char x) EmptyString) = [48 + Z.of_N x].
Proof.
  intros Hx. assert (x = 0 \/ x = 1 \/ x = 2 \/ x = 3 \/ x = 4 \/ x = 5 \/ x = 6 \/ x = 7 \/ x = 8 \/ x = 9)%N as H by lia.
  repeat destruct H as [->|H]; try subst x; reflexivity.
Qed.

(** The decimal digits of a number, most significant first. *)
Lemma parse_pretty_go x s acc :
  parse_digits acc (bytes_of (pretty_N_go x s)) =
  parse_digits (acc * 10 ^ (Z.of_nat (String.length (pretty_N_go x s) - String.length s)) + Z.of_N x) (bytes_of s) /\
  (String.length s <= String.length (pretty_N_go x s))%nat /\
  (Forall digit (bytes_of s) -> Forall digit (bytes_of (pretty_N_go x s))).
Proof.
  revert s acc. induction (N.lt_wf_0 x) as [x _ IH]; intros s acc.
  destruct (decide (x = 0)%N) as [->|Hx].
  { rewrite pretty_N_go_0, Nat.sub_diag. simpl. split_and!; [by rewrite Z.mul_1_r, Z.add_0_r|done|done]. }
  rewrite pretty_N_go_step by lia.
  destruct (IH (x `div` 10)%N ltac:(apply N.div_lt; lia) (String (pretty_N_char (x `mod` 10)) s) acc) as (E & Hl & Hd).
  assert (x `mod` 10 < 10)%N as Hm by (apply N.mod_lt; lia).
  pose proof (digit_byte _ Hm) as Hb. cbn [bytes_of] in Hb. injection Hb as Hb.
  pose proof (N.div_mod x 10 ltac:(lia)) as Ex. generalize dependent (x `mod` 10)%N. intros d E Hl Hd Hm Hb Ex.
  generalize dependent (x `div` 10)%N. intros q E Hl Hd Ex.
  cbn [bytes_of String.length] in *. rewrite Hb in *. split_and!; [|lia|].
  - rewrite E. simpl parse_digits.
    replace (48 <=? 48 + Z.of_N d) with true by lia. replace (48 + Z.of_N d <=? 57) with true by lia.
    cbn [andb]. f_equal. set (n := String.length _) in *.
    replace (Z.of_nat (n - String.length s)) with (1 + Z.of_nat (n - S (String.length s))) by lia.
    rewrite Z.pow_add_r by lia. lia.
  - intros Hf. apply Hd. constructor; [unfold digit; lia|done].
Qed.

Lemma parse_pretty_N x : parse_digits 0 (bytes_of (pretty x)) = Some (Z.of_N x) /\ Forall digit (bytes_of (pretty x)) /\ pretty x <> EmptyString.
Proof.
  unfold pretty, pretty_N. destruct (decide (x = 0)%N) as [->|Hx].
  { split_and!; [done| |done]. change (Forall digit [48]). apply Forall_singleton. unfold digit. lia. }
  destruct (parse_pretty_go x EmptyString 0) as (E & _ & Hd). split_and!.
  - rewrite E. reflexivity.
  - apply Hd. constructor.
  - rewrite pretty_N_go_step by lia. intros Ee.
    destruct (parse_pretty_go (x `div` 10) (String (pretty_N_char (x `mod` 10)) EmptyString) 0) as (_ & Hl & _).
    rewrite Ee in Hl. simpl in Hl. lia.
Qed.

Lemma parse_positive ds z : Forall digit ds -> ds <> [] -> parse_digits 0 ds = Some z -> is_i64 z -> parse_i64 ds = Some z.
Proof.
  intros Hd Hn Hp [H1 H2]. unfold parse_i64. destruct ds as [|c ds]; [done|].
  assert (digit c) as [Hc1 Hc2] by (by inversion Hd).
  replace (c =? 45) with false by lia. replace (c =? 43) with false by lia. unfold parse_unsigned. rewrite Hp. simpl.
  by replace (i64_min <=? z) with true by lia; replace (z <=? i64_max) with true by lia.
Qed.

(** What [format!] writes of an [i64], [parse] reads back. *)
Lemma parse_pretty z : is_i64 z -> parse_i64 (bytes_of (pretty z)) = Some z /\ (10 ∉ bytes_of (pretty z)) /\
  Forall (within 0 127) (bytes_of (pretty z)).
Proof.
  assert (forall l, Forall digit l -> (10 ∉ l) /\ Forall (within 0 127) l) as Hdig.
  { intros l Hl. split.
    - intros Hin. rewrite Forall_forall in Hl. specialize (Hl _ Hin). unfold digit in Hl. lia.
    - eapply Forall_impl; [exact Hl|]. intros c [? ?]. unfold within. apply andb_prop_intro. split; apply Is_true_true; lia. }
  intros Hz. destruct z as [|p|p].
  - split; [reflexivity|]. apply Hdig. change (Forall digit [48]). apply Forall_singleton. unfold digit. lia.
  - change (pretty (Z.pos p)) with (pretty (Npos p)). destruct (parse_pretty_N (Npos p)) as (E & Hd & Hn).
    split; [|by apply Hdig]. apply parse_positive; [done| |by rewrite E|done]. by destruct (pretty (N.pos p)).
  - change (pretty (Z.neg p)) with ("-" +:+ pretty (Npos p)). destruct (parse_pretty_N (Npos p)) as (E & Hd & Hn).
    rewrite bytes_of_app. change (bytes_of "-") with [45]. simpl app. destruct (Hdig _ Hd) as [H1 H2]. split_and!.
    + assert (parse_unsigned (bytes_of (pretty (N.pos p))) = Some (Z.pos p)) as Eu.
      { unfold parse_unsigned. rewrite E. destruct (bytes_of (pretty (N.pos p))) eqn:Eb; [by destruct (pretty (N.pos p))|done]. }
      unfold parse_i64, option_filter. change (45 =? 45) with true. cbv iota. rewrite Eu.
      change (Z.opp <$> Some (Z.pos p)) with (Some (Z.neg p)). destruct Hz as [Hz1 Hz2]. cbv iota beta.
      by rewrite (proj2 (Z.leb_le _ _) Hz1), (proj2 (Z.leb_le _ _) Hz2).
    + by intros [?|?]%elem_of_cons.
    + by constructor.
Qed.

Lemma pretty_length_go x s (k : nat) :
  Z.of_N x < 10 ^ Z.of_nat k -> (String.length (pretty_N_go x s) <= k + String.length s)%nat.
Proof.
  revert x s. induction k as [|k IH]; intros x s Hx.
  { assert (x = 0)%N as -> by (simpl in Hx; lia). by rewrite pretty_N_go_0. }
  destruct (decide (x = 0)%N) as [->|Hn]; [rewrite pretty_N_go_0; lia|].
  rewrite pretty_N_go_step by lia. etransitivity; [apply IH|simpl; lia].
  rewrite Nat2Z.inj_succ, Z.pow_succ_r in Hx by lia. rewrite N2Z.inj_div. apply Z.div_lt_upper_bound; lia.
Qed.

Lemma pretty_length z : is_i64 z -> (String.length (pretty z) <= 20)%nat.
Proof.
  assert (forall p, Z.pos p <= 2 ^ 63 -> (String.length (pretty (Npos p)) <= 19)%nat) as Hp.
  { intros p Hp. unfold pretty, pretty_N. rewrite decide_False by done.
    pose proof (pretty_length_go (Npos p) EmptyString 19) as H. simpl String.length in H. rewrite Nat.add_0_r in H.
    apply H. change (Z.of_N (N.pos p)) with (Z.pos p). change (10 ^ Z.of_nat 19) with 10000000000000000000. lia. }
  unfold is_i64, i64_min, i64_max. intros Hz. destruct z as [|p|p].
  - simpl. lia.
  - change (pretty (Z.pos p)) with (pretty (Npos p)). etransitivity; [apply Hp; lia|lia].
  - change (pretty (Z.neg p)) with ("-" +:+ pretty (Npos p)). rewrite <- length_bytes_of, bytes_of_app, length_app, !length_bytes_of.
    assert (String.length (pretty (N.pos p)) <= 19)%nat by (apply Hp; lia). simpl. lia.
Qed.

(** * Cursors *)

Lemma split_newline_app l r : (10 ∉ l) -> split_newline (l ++ 10 :: r) = Some (l, r).
Proof.
  induction l as [|c l IH]; intros Hl; [done|]. apply not_elem_of_cons in Hl as [Hc Hl]. simpl.
  destruct (Z.eqb_spec c 10); [congruence|]. by rewrite (IH Hl).
Qed.

Lemma ascii_is_utf8 l : Forall (within 0 127) l -> is_utf8 l = true.
Proof. induction 1 as [|c l Hc _ IH]; [done|]. simpl. apply Is_true_true in Hc. by rewrite Hc. Qed.

(** An id as the contract writes it, and what the journal's types make of a creation time. *)
Definition ulid_text (id : string) : Prop :=
  str_len id = 26 /\ Forall (fun b => is_ascii_uppercase b || is_ascii_digit b) (bytes_of id).
Definition cursor_ok (row : InstanceRow) : Prop := ulid_text (ir_id row) /\ is_i64 (ir_created_at_ms row).
#[global] Instance cursor_ok_dec row : Decision (cursor_ok row).
Proof. unfold cursor_ok, ulid_text, is_i64. apply _. Defined.

(** What the base64 crate documents of its URL-safe alphabet without padding: decoding
    inverts encoding, and the text has four characters for three bytes. *)
Class Base64 (encode : list Z -> string) (decode : string -> option (list Z)) : Prop := {
  base64_inverse b : Forall is_byte b -> decode (encode b) = Some b;
  base64_length b : str_len (encode b) = (4 * Z.of_nat (length b) + 2) / 3 }.

Section Cursor.
Context (encode : list Z -> string) (decode : string -> option (list Z)) `{!Base64 encode decode}.

Lemma cursor_roundtrip row :
  cursor_ok row -> encode_instance_cursor encode row <> empty_str /\
  decode_instance_cursor decode (encode_instance_cursor encode row) = Ok (Some (page_key row)).
Proof.
  intros [[Hl Hid] Hc]. unfold encode_instance_cursor. destruct (parse_pretty _ Hc) as (Hp & Hn & Ha).
  rewrite bytes_of_app. set (t := bytes_of (pretty _)) in *.
  change (bytes_of (String (Ascii.ascii_of_nat 10) (ir_id row))) with (10 :: bytes_of (ir_id row)).
  set (b := t ++ 10 :: bytes_of (ir_id row)).
  assert (Z.of_nat (length b) <= 47 /\ 0 < Z.of_nat (length b)) as [Hb1 Hb2].
  { unfold b, t. rewrite length_app. simpl length. rewrite !length_bytes_of. pose proof (pretty_length _ Hc).
    unfold str_len in Hl. lia. }
  assert (Forall (within 0 127) (bytes_of (ir_id row))) as Ha2.
  { eapply Forall_impl; [exact Hid|]. intros c. unfold is_ascii_uppercase, is_ascii_digit, within.
    rewrite !Is_true_true. lia. }
  assert (Forall (within 0 127) b) as Hall by (apply Forall_app; split; [done|constructor; [done|done]]).
  assert (decode (encode b) = Some b) as Ed.
  { apply base64_inverse. eapply Forall_impl; [exact Hall|]. intros c. unfold within, is_byte. rewrite Is_true_true. lia. }
  pose proof (base64_length b) as Hlen.
  assert (0 < str_len (encode b) <= 63) as [Hs1 Hs2].
  { rewrite Hlen. split; [apply Z.div_str_pos; lia|]. apply Z.lt_succ_r, Z.div_lt_upper_bound; lia. }
  split; [intros E; rewrite E in Hs1; unfold str_len in Hs1; simpl in Hs1; lia|].
  unfold decode_instance_cursor. destruct (is_empty _) eqn:Ee.
  { apply is_empty_true in Ee. rewrite Ee in Hs1. unfold str_len in Hs1. simpl in Hs1. lia. }
  replace (MAX_INSTANCE_PAGE_TOKEN_BYTES <? str_len (encode b)) with false by (unfold MAX_INSTANCE_PAGE_TOKEN_BYTES; lia).
  rewrite Ed, (ascii_is_utf8 _ Hall). cbn [negb]. unfold b. rewrite (split_newline_app _ _ Hn).
  rewrite length_bytes_of. unfold str_len in Hl. rewrite Hl. change (26 =? 26) with true.
  assert (forallb (fun b => is_ascii_uppercase b || is_ascii_digit b) (bytes_of (ir_id row)) = true) as ->.
  { apply forallb_True in Hid. by apply Is_true_true. }
  cbn [negb orb]. rewrite Hp. unfold page_key. by rewrite text_of_bytes_of.
Qed.
End Cursor.

(** * The order of the rows *)

#[global] Instance key_le_po : PartialOrder key_le.
Proof. unfold key_le. apply _. Qed.
#[global] Instance key_le_total : Total key_le.
Proof. unfold key_le. apply _. Qed.
#[global] Instance row_le_transitive : Transitive row_le.
Proof. intros a b c. unfold row_le. apply transitivity. Qed.
#[global] Instance row_le_total : Total row_le.
Proof. intros a b. unfold row_le. apply (total key_le). Qed.

(** Rows told apart by their ids. *)
Definition distinct (l : list InstanceRow) : Prop := NoDup (ir_id <$> l).

Lemma distinct_key l a b : distinct l -> a ∈ l -> b ∈ l -> page_key a = page_key b -> a = b.
Proof.
  intros Hd Ha Hb [= _ E]. unfold distinct in Hd. induction l as [|x l IH]; [by apply not_elem_of_nil in Ha|].
  rewrite fmap_cons in Hd. apply NoDup_cons in Hd as [Hx Hd].
  apply elem_of_cons in Ha as [->|Ha], Hb as [->|Hb]; try done.
  - exfalso. apply Hx. rewrite E. by apply list_elem_of_fmap_2.
  - exfalso. apply Hx. rewrite <- E. by apply list_elem_of_fmap_2.
  - by apply IH.
Qed.

Lemma in_filter {A} (f : A -> bool) l x : x ∈ List.filter f l <-> x ∈ l /\ f x = true.
Proof. rewrite !list_elem_of_In. apply filter_In. Qed.

Lemma distinct_filter f l : distinct l -> distinct (List.filter f l).
Proof.
  unfold distinct. induction l as [|y l IH]; intros Hd; [constructor|]. rewrite fmap_cons in Hd.
  apply NoDup_cons in Hd as [Hy Hd]. simpl. destruct (f y); [|by apply IH]. rewrite fmap_cons. apply NoDup_cons.
  split; [|by apply IH]. intros (z & E & [Hz _]%in_filter)%list_elem_of_fmap. apply Hy. rewrite E. by apply list_elem_of_fmap_2.
Qed.

Lemma sorted_filter_bool {A} (R : relation A) (f : A -> bool) l : StronglySorted R l -> StronglySorted R (List.filter f l).
Proof.
  induction 1 as [|x l Hs IH Hx]; [constructor|]. simpl. destruct (f x); [|done]. constructor; [done|].
  apply Forall_forall. intros y [Hy _]%in_filter. rewrite Forall_forall in Hx. auto.
Qed.

Lemma filter_perm {A} (f : A -> bool) l k : l ≡ₚ k -> List.filter f l ≡ₚ List.filter f k.
Proof.
  induction 1 as [|x l k _ IH|x y l|l k m _ IH1 _ IH2]; simpl; [done| | |by etransitivity].
  - destruct (f x); by rewrite IH.
  - destruct (f x), (f y); try reflexivity. constructor.
Qed.

Definition listing (r : ListInstancesRequest) (all : list InstanceRow) : list InstanceRow :=
  merge_sort row_le (List.filter (wanted r) all).

(** The rows after a cursor are those of the whole listing that come after it. *)
Lemma rows_after_listing r c all :
  distinct all -> rows_after r c all = List.filter (after_cursor c) (listing r all).
Proof.
  intros Hd. unfold rows_after, listing. apply (StronglySorted_unique_strong row_le).
  - intros a b Ha Hb H1 H2. rewrite (merge_sort_Permutation row_le) in Ha. apply in_filter in Ha as [[Ha _]%in_filter _].
    apply in_filter in Hb as [Hb _]. rewrite (merge_sort_Permutation row_le) in Hb. apply in_filter in Hb as [Hb _].
    apply (distinct_key all); [done..|]. by apply (anti_symm key_le).
  - apply StronglySorted_merge_sort; apply _.
  - apply sorted_filter_bool, StronglySorted_merge_sort; apply _.
  - rewrite (merge_sort_Permutation row_le). symmetry. apply filter_perm, merge_sort_Permutation.
Qed.

Lemma listing_sorted r all : StronglySorted row_le (listing r all).
Proof. apply StronglySorted_merge_sort; apply _. Qed.

Lemma listing_elem r all row : row ∈ listing r all -> row ∈ all.
Proof. unfold listing. rewrite (merge_sort_Permutation row_le). by intros [? _]%in_filter. Qed.

Lemma after_cursor_trans c x y :
  after_cursor c x = true -> after_cursor (Some (page_key x)) y = true -> after_cursor c y = true.
Proof.
  destruct c as [c|]; [|done]. simpl. intros H1%negb_true_iff%bool_decide_eq_false H2%negb_true_iff%bool_decide_eq_false.
  apply negb_true_iff, bool_decide_eq_false. intros Hc. apply H1. transitivity (page_key y); [|done].
  by destruct (total key_le (page_key x) (page_key y)).
Qed.

Lemma filter_filter {A} (f g : A -> bool) l :
  (forall x, x ∈ l -> g x = true -> f x = true) -> List.filter g l = List.filter g (List.filter f l).
Proof.
  induction l as [|x l IH]; intros H; [done|]. simpl. rewrite IH by (intros y Hy; apply H; by right).
  assert (g x = true -> f x = true) as Hx by (apply H; left).
  destruct (f x) eqn:Ef, (g x) eqn:Eg; simpl; try rewrite Eg; try done. by specialize (Hx eq_refl).
Qed.

Lemma filter_all_bool {A} (f : A -> bool) l : (forall x, x ∈ l -> f x = true) -> List.filter f l = l.
Proof.
  induction l as [|x l IH]; intros H; [done|]. simpl. rewrite (H x) by left. rewrite IH; [done|].
  intros y Hy. apply H. by right.
Qed.
Lemma filter_none_bool {A} (f : A -> bool) l : (forall x, x ∈ l -> f x = false) -> List.filter f l = [].
Proof.
  induction l as [|x l IH]; intros H; [done|]. simpl. rewrite (H x) by left. apply IH. intros y Hy. apply H. by right.
Qed.

(** Going on from a row of the rows after a cursor: what follows it there. *)
Lemma rows_after_next r c all n x :
  distinct all -> rows_after r c all !! n = Some x ->
  rows_after r (Some (page_key x)) all = drop (S n) (rows_after r c all).
Proof.
  intros Hd. rewrite !rows_after_listing by done. set (L := listing r all). set (F := List.filter (after_cursor c) L).
  intros Hx. assert (StronglySorted row_le F) as Hs by (apply sorted_filter_bool, listing_sorted).
  assert (x ∈ F) as Hin by (by eapply list_elem_of_lookup_2).
  assert (distinct F) as HdF.
  { apply distinct_filter. unfold L, listing, distinct. rewrite (merge_sort_Permutation row_le). by apply distinct_filter. }
  rewrite (filter_filter (after_cursor c)).
  2: { intros y Hy Ha. apply (after_cursor_trans c x); [|done]. by apply in_filter in Hin as [_ ?]. }
  fold F. rewrite <- (take_drop (S n) F) in Hs, HdF |- * at 1. rewrite List.filter_app.
  assert (exists pre, take (S n) F = pre ++ [x]) as [pre Epre].
  { exists (take n F). by apply take_S_r. }
  rewrite Epre in *. rewrite filter_none_bool, filter_all_bool; [done| |].
  - intros y Hy. simpl. apply negb_true_iff, bool_decide_eq_false. intros Hle.
    assert (row_le x y) as Hxy by (eapply StronglySorted_app_1_elem_of; [exact Hs|apply elem_of_app; right; left|done]).
    assert (x = y) as ->.
    { apply (distinct_key ((pre ++ [x]) ++ drop (S n) F)); [done| | |by apply (anti_symm key_le)].
      - apply elem_of_app. left. apply elem_of_app. right. left.
      - apply elem_of_app. by right. }
    unfold distinct in HdF. rewrite fmap_app, NoDup_app in HdF. destruct HdF as (_ & Hdis & _).
    apply (Hdis (ir_id y)); apply list_elem_of_fmap_2; [apply elem_of_app; right; left|done].
  - intros y Hy. simpl. apply negb_false_iff, bool_decide_eq_true.
    apply elem_of_app in Hy as [Hy|Hy]; [|by apply list_elem_of_singleton in Hy as ->].
    apply StronglySorted_app_1_l in Hs. exact (StronglySorted_app_1_elem_of row_le _ _ _ _ Hs Hy ltac:(left)).
Qed.

(** * One page *)

Section Pages.
Context {W R : Type} (rt : Runtime W) (faults : nat -> option string).
Context (encode : list Z -> string) (decode : string -> option (list Z)) `{!Base64 encode decode}.
Context (encoded_len : Instance_ -> Z) (length_delimiter_len : Z -> Z).
#[local] Abbreviation World := (World W R).
#[local] Abbreviation bytes := (encoded_repeated_instance_bytes encoded_len length_delimiter_len).
#[local] Abbreviation fill := (fill_page encoded_len length_delimiter_len).
#[local] Abbreviation list_page := (@list_instances W R rt faults encode decode encoded_len length_delimiter_len).

(** A row as a client sees it, with the address the substrate reports. *)
Definition shown (s : W) (row : InstanceRow) : Instance_ :=
  let i := instance_row_to_proto row in
  if bool_decide (ir_state row = InstanceState.Running) then
    match rt_workload_address rt s (ir_id row) with
    | Ok (Some a) => i <| in_network := Some {| address := a |} |>
    | _ => i
    end
  else i.

Lemma instance_to_proto_run row (w : World) : instance_to_proto rt row w = (w, shown (w_sub w) row).
Proof.
  unfold instance_to_proto, shown. case_bool_decide; [|done]. unfold bind, ask, substrate. simpl.
  destruct w. simpl. by destruct (rt_workload_address _ _ _) as [[]|].
Qed.

Lemma enrich_run rows (w : World) : enrich rt rows w = (w, (fun row => (row, shown (w_sub w) row)) <$> rows).
Proof.
  induction rows as [|row rows IH]; [done|]. simpl. rewrite (bind_eq _ _ _ _ _ (instance_to_proto_run row w)).
  by rewrite (bind_eq _ _ _ _ _ IH).
Qed.

Definition page_bytes (l : list Instance_) : Z := foldr (fun i n => bytes i + n) 0 l.

Lemma page_bytes_app l k : page_bytes (l ++ k) = page_bytes l + page_bytes k.
Proof. induction l as [|i l IH]; simpl; [lia|]. rewrite IH. lia. Qed.

Definition fits (i : Instance_) : Prop := 0 <= bytes i <= MAX_INSTANCE_PAGE_BYTES.

(** The longest prefix within the budget, which is not empty unless there is nothing. *)
Lemma fill_page_spec (l : list (InstanceRow * Instance_)) sel lastr :
  Forall (fun p => fits (snd p)) l -> page_bytes sel <= MAX_INSTANCE_PAGE_BYTES ->
  exists n, fill l (page_bytes sel) sel lastr =
              Ok (sel ++ (snd <$> take n l), default lastr (Some <$> last (fst <$> take n l)), bool_decide (n < length l)%nat) /\
    (n <= length l)%nat /\ page_bytes (sel ++ (snd <$> take n l)) <= MAX_INSTANCE_PAGE_BYTES /\
    (page_bytes sel = 0 -> l <> [] -> (0 < n)%nat).
Proof.
  intros Hl. revert sel lastr. induction Hl as [|[row i] l [Hi1 Hi2] Hl IH]; intros sel lastr Hsel.
  { exists 0%nat. rewrite bool_decide_false by (simpl; lia). simpl. rewrite app_nil_r. by split_and!. }
  cbn [fill_page]. simpl in Hi1, Hi2. replace (MAX_INSTANCE_PAGE_BYTES <? bytes i) with false by lia. cbn [andb].
  destruct (Z.ltb_spec MAX_INSTANCE_PAGE_BYTES (page_bytes sel + bytes i)) as [Hlt|Hle].
  { exists 0%nat. rewrite bool_decide_true by (simpl; lia). simpl. rewrite app_nil_r. split_and!; [done|lia|done|lia]. }
  assert (page_bytes (sel ++ [i]) = page_bytes sel + bytes i) as Eb by (rewrite page_bytes_app; simpl; lia).
  destruct (IH (sel ++ [i]) (Some row)) as (n & En & Hn & Hb & _); [lia|]. rewrite Eb in En. rewrite En.
  exists (S n). rewrite <- app_assoc in Hb |- *. simpl. split_and!; [|lia|done|lia].
  do 2 f_equal; [f_equal|].
  - rewrite last_cons. change (list_fmap _ _ fst (take n l)) with (fst <$> take n l). by destruct (last (fst <$> take n l)).
  - apply bool_decide_ext. lia.
Qed.

(** * All pages *)

(** Following the tokens. *)
Fixpoint list_all (fuel : nat) (r : ListInstancesRequest) : M W R (res Status (list (list Instance_))) :=
  match fuel with
  | O => ret (Err (plain Internal "more pages than rows"))
  | S fuel =>
      let! (a, _) := list_page r in
      match a with
      | Err e => ret (Err e)
      | Ok page =>
          if is_empty (li_next_page_token page) then ret (Ok [li_instances page])
          else let! rest := list_all fuel (r <| lr_page_token := li_next_page_token page |>) in
               ret (let? rest := rest in Ok (li_instances page :: rest))
      end
  end.

Definition size_of (r : ListInstancesRequest) : Z := if lr_page_size r =? 0 then DEFAULT_INSTANCE_PAGE_SIZE else lr_page_size r.

Lemma reading_run {A} (f : Db -> A) (w : World) :
  (forall n, faults n = None) -> reading faults f w = (w <| w_calls := S (w_calls w) |>, Ok (f (w_db w))).
Proof. intros Hf. unfold reading, journal. rewrite Hf. by destruct w. Qed.

Lemma list_page_spec r c (w : World) :
  (forall n, faults n = None) -> 0 < size_of r <= MAX_INSTANCE_PAGE_SIZE ->
  decode_instance_cursor decode (lr_page_token r) = Ok c ->
  let rows := rows_after r c (Journal.list_instances (w_db w)) in
  Forall (fun row => fits (shown (w_sub w) row)) rows ->
  exists n page, list_page r w = (w <| w_calls := S (w_calls w) |>, (Ok page, [])) /\
    (n <= length rows)%nat /\ (rows <> [] -> (0 < n)%nat) /\
    li_instances page = shown (w_sub w) <$> take n rows /\
    Z.of_nat (length (li_instances page)) <= size_of r /\ page_bytes (li_instances page) <= MAX_INSTANCE_PAGE_BYTES /\
    match rows !! pred n with
    | Some row => li_next_page_token page = if bool_decide (n < length rows)%nat then encode_instance_cursor encode row else empty_str
    | None => li_next_page_token page = empty_str
    end.
Proof.
  intros Hf Hsize Hc rows Hfit. unfold Service.list_instances. fold (size_of r).
  replace (MAX_INSTANCE_PAGE_SIZE <? size_of r) with false by lia. unfold attempt.
  rewrite (bind_eq _ _ w w (Ok c)) by (unfold ret; by rewrite Hc).
  rewrite (bind_eq _ _ _ _ _ (reading_run Journal.list_instances w Hf)). set (w1 := w <| w_calls := S (w_calls w) |>).
  cbv zeta. fold rows. rewrite (bind_eq _ _ _ _ _ (enrich_run (take (Z.to_nat (size_of r)) rows) w1)).
  change (w_sub w1) with (w_sub w). set (m := Z.to_nat (size_of r)).
  set (l := (fun row => (row, shown (w_sub w) row)) <$> take m rows).
  assert (Forall (fun p => fits (snd p)) l) as Hl.
  { apply Forall_fmap. eapply Forall_impl; [apply Forall_take, Hfit|]. done. }
  destruct (fill_page_spec l [] None Hl) as (n & En & Hn & Hb & Hpos); [simpl; unfold MAX_INSTANCE_PAGE_BYTES; lia|].
  change (page_bytes []) with 0 in *. rewrite En. simpl app in *.
  assert (length l = m `min` length rows)%nat as El by (unfold l; rewrite length_fmap, length_take; done).
  assert (snd <$> take n l = shown (w_sub w) <$> take n rows) as Es.
  { unfold l. rewrite <- fmap_take, <- list_fmap_compose, take_take. f_equal. f_equal. lia. }
  assert (fst <$> take n l = take n rows) as Ef.
  { unfold l. rewrite <- fmap_take, <- list_fmap_compose, take_take.
    transitivity (id <$> take (n `min` m) rows); [done|]. rewrite list_fmap_id. f_equal. lia. }
  rewrite Es, Ef in *.
  assert ((size_of r <? Z.of_nat (length rows)) || bool_decide (n < length l)%nat = bool_decide (n < length rows)%nat) as Emore.
  { apply eq_true_iff_eq. rewrite orb_true_iff, !bool_decide_eq_true, Z.ltb_lt. unfold m in *. lia. }
  rewrite Emore. assert (rows <> [] -> (0 < n)%nat) as Hn0.
  { intros Hne. apply Hpos; [done|]. intros E. apply (f_equal length) in E. rewrite El in E. simpl in E.
    destruct rows; [done|]. simpl in E. unfold m in E. lia. }
  destruct (rows !! pred n) as [row|] eqn:Er.
  - assert (last (take n rows) = Some row) as Elast.
    { rewrite last_lookup, length_take. assert (n <> 0)%nat by (apply Nat.neq_0_lt_0, Hn0; by destruct rows).
      rewrite lookup_take_lt by lia. rewrite <- Er. f_equal. lia. }
    rewrite Elast. simpl. destruct (bool_decide (n < length rows)%nat) eqn:Em.
    + eexists n, _. split; [reflexivity|]. simpl. rewrite Er, Em. split_and!; [lia|done|done| |done|done].
      rewrite length_fmap, length_take. unfold m in *. lia.
    + eexists n, _. split; [reflexivity|]. simpl. rewrite Er, Em. split_and!; [lia|done|done| |done|done].
      rewrite length_fmap, length_take. unfold m in *. lia.
  - assert (rows = []) as E0.
    { destruct rows as [|x rows']; [done|]. exfalso. apply lookup_ge_None in Er. specialize (Hn0 ltac:(done)). lia. }
    clearbody rows. subst rows. rewrite bool_decide_false by (simpl; lia).
    eexists n, _. split; [reflexivity|]. simpl. split_and!; [simpl in El; lia|done|done| |done|done].
    rewrite take_nil. simpl. lia.
Qed.

(** The pages from a cursor on are the rows after it. *)
Lemma list_all_from fuel r c (w : World) :
  (forall n, faults n = None) -> 0 < size_of r <= MAX_INSTANCE_PAGE_SIZE ->
  let all := Journal.list_instances (w_db w) in
  distinct all -> Forall cursor_ok all ->
  decode_instance_cursor decode (lr_page_token r) = Ok c ->
  Forall (fun row => fits (shown (w_sub w) row)) (rows_after r c all) ->
  (length (rows_after r c all) < fuel)%nat ->
  exists w' pages, list_all fuel r w = (w', Ok pages) /\
    mjoin pages = shown (w_sub w) <$> rows_after r c all /\
    Forall (fun p => Z.of_nat (length p) <= size_of r /\ page_bytes p <= MAX_INSTANCE_PAGE_BYTES) pages.
Proof.
  intros Hf Hsize all Hd Hok. revert r c w Hsize all Hd Hok.
  induction fuel as [|fuel IH]; intros r c w Hsize all Hd Hok Hc Hfit Hfuel; [lia|].
  destruct (list_page_spec r c w Hf Hsize Hc Hfit) as (n & page & E & Hn & Hn0 & Ei & Hlen & Hbytes & Htok).
  cbn [list_all]. rewrite (bind_eq _ _ _ _ _ E). fold all in Ei, Htok, Hn, Hn0. set (rows := rows_after r c all) in *.
  assert (li_next_page_token page = empty_str -> mjoin [li_instances page] = shown (w_sub w) <$> rows -> exists w' pages,
    (if is_empty (li_next_page_token page) then ret (Ok [li_instances page])
     else let! rest := list_all fuel (r <| lr_page_token := li_next_page_token page |>) in
          ret (let? rest := rest in Ok (li_instances page :: rest))) (w <| w_calls := S (w_calls w) |>) = (w', Ok pages) /\
    mjoin pages = shown (w_sub w) <$> rows /\
    Forall (fun p => Z.of_nat (length p) <= size_of r /\ page_bytes p <= MAX_INSTANCE_PAGE_BYTES) pages) as Hlast.
  { intros Et Ej. rewrite Et. unfold is_empty. rewrite bool_decide_true by done. eexists _, _. split; [reflexivity|].
    split; [done|by repeat constructor]. }
  destruct (rows !! pred n) as [row|] eqn:Er; [destruct (bool_decide (n < length rows)%nat) eqn:Em|].
  - apply bool_decide_eq_true in Em. assert (0 < n)%nat as Hp by (apply Hn0; by destruct rows).
    assert (cursor_ok row) as Hrow.
    { rewrite Forall_forall in Hok. apply Hok. apply list_elem_of_lookup_2 in Er. unfold rows in Er.
      rewrite rows_after_listing in Er by done. apply in_filter in Er as [Er _]. by eapply listing_elem. }
    destruct (cursor_roundtrip encode decode row Hrow) as [Hne Hdec]. rewrite Htok in *.
    replace (is_empty (encode_instance_cursor encode row)) with false by (symmetry; by apply is_empty_false).
    set (r' := r <| lr_page_token := encode_instance_cursor encode row |>).
    assert (rows_after r' (Some (page_key row)) all = drop n rows) as Enext.
    { replace n with (S (pred n)) by lia. by apply (rows_after_next r c all). }
    set (w1 := w <| w_calls := S (w_calls w) |>).
    destruct (IH r' (Some (page_key row)) w1 Hsize Hd Hok Hdec) as (w' & pages & El & Ej & Hall).
    { change (w_db w1) with (w_db w). fold all. rewrite Enext. by apply Forall_drop. }
    { change (w_db w1) with (w_db w). fold all. rewrite Enext, length_drop. unfold rows in *. lia. }
    eexists _, _. split; [rewrite (bind_eq _ _ _ _ _ El); reflexivity|]. split; [|by constructor].
    change (mjoin (li_instances page :: pages)) with (li_instances page ++ mjoin pages). rewrite Ej, Ei. change (w_sub w1) with (w_sub w).
    change (w_db w1) with (w_db w). fold all. rewrite Enext, <- fmap_app. by rewrite take_drop.
  - apply bool_decide_eq_false in Em. apply Hlast; [done|]. simpl. by rewrite app_nil_r, Ei, take_ge by lia.
  - apply Hlast; [done|]. simpl. rewrite app_nil_r, Ei. destruct rows as [|x rows']; [by rewrite take_nil|].
    apply lookup_ge_None in Er. specialize (Hn0 ltac:(done)). lia.
Qed.

(** C12: while the journal answers and nothing changes in it, following the page tokens from
    the first page, with a page size in range, lists every wanted instance exactly once, in
    order of creation and id, and ends: the pages are as many as the rows at most, each
    within the size asked for and the byte budget, and together they are the rows that
    match the request's states and labels. This needs every id of the journal to be of the
    form the contract gives ids, 26 characters of capitals and digits, which the id of a
    fork need not be ([odd_id_ends_the_listing]), and every wanted instance to fit a page
    by itself. *)
Theorem pages_cover_the_listing r (w : World) :
  (forall n, faults n = None) -> 0 <= lr_page_size r <= MAX_INSTANCE_PAGE_SIZE -> lr_page_token r = empty_str ->
  keyed (w_db w) -> Forall cursor_ok (Journal.list_instances (w_db w)) ->
  let rows := listing r (Journal.list_instances (w_db w)) in
  Forall (fun row => fits (shown (w_sub w) row)) rows ->
  exists w' pages, list_all (S (length rows)) r w = (w', Ok pages) /\
    mjoin pages = shown (w_sub w) <$> rows /\
    StronglySorted row_le rows /\ NoDup (ir_id <$> rows) /\
    (forall row, row ∈ rows <-> (exists k i, instances (w_db w) !! k = Some i /\ row = instance_row_from i) /\ wanted r row = true) /\
    Forall (fun p => Z.of_nat (length p) <= size_of r /\ page_bytes p <= MAX_INSTANCE_PAGE_BYTES) pages.
Proof.
  intros Hf Hs Ht Hk Hok rows Hfit.
  assert (distinct (Journal.list_instances (w_db w))) as Hd by (by apply list_instances_NoDup).
  assert (rows_after r None (Journal.list_instances (w_db w)) = rows) as E.
  { rewrite rows_after_listing by done. by apply filter_all_bool. }
  destruct (list_all_from (S (length rows)) r None w Hf) as (w' & pages & El & Ej & Hall); rewrite ?E; try done; [| |lia|].
  - unfold size_of, DEFAULT_INSTANCE_PAGE_SIZE, MAX_INSTANCE_PAGE_SIZE in *. destruct (Z.eqb_spec (lr_page_size r) 0); lia.
  - by rewrite Ht.
  - exists w', pages. rewrite E in Ej. split_and!; [done|done|apply listing_sorted| | |done].
    + unfold rows, listing. rewrite (merge_sort_Permutation row_le). by apply distinct_filter.
    + intros row. unfold rows, listing. by rewrite (merge_sort_Permutation row_le), in_filter, elem_list_instances.
Qed.
End Pages.

(** * URL-safe base64 without padding, as it is documented *)

Definition url_char (c : Z) : Z := if c =? 43 then 45 else if c =? 47 then 95 else c.
Definition url_unchar (c : Z) : Z := if c =? 45 then 43 else if c =? 95 then 47 else c.
Definition unpadded (b : list Z) : list Z := filter (fun c => c <> equals_sign) (Codec.encode b).
Definition url_encode (b : list Z) : string := text_of (url_char <$> unpadded b).
Definition url_decode (s : string) : option (list Z) :=
  match decode_loop 0 0 [] (url_unchar <$> bytes_of s) with Ok b => Some b | Err _ => None end.

Lemma unpadded_alphabet b : Forall (fun c => c ∈ ALPHABET) (unpadded b).
Proof.
  apply Forall_forall. intros c [Hne Hc]%list_elem_of_filter. unfold Codec.encode in Hc.
  apply list_elem_of_join in Hc as (chunk & Hc & (ch & -> & _)%list_elem_of_fmap).
  apply list_elem_of_fmap in Hc as (i & -> & _). destruct (i <=? _); [|done].
  apply list_elem_of_In, nth_In. set (n := Z.lor _ _).
  assert (0 <= Z.land (Z.shiftr n (18 - 6 * i)) 63 < 64) as Hr by (change 63 with (Z.ones 6); rewrite Z.land_ones by done; by apply Z.mod_pos_bound).
  change (length ALPHABET) with 64%nat. lia.
Qed.

Lemma unpadded_length b : Z.of_nat (length (unpadded b)) = (4 * Z.of_nat (length b) + 2) / 3.
Proof.
  remember (length b) as len eqn:Hlen. revert b Hlen. induction (lt_wf len) as [len _ IH]. intros b ->.
  destruct b as [|x [|y [|z l]]]; [done| | |]; unfold unpadded.
  - change (Codec.encode [x]) with (encode_chunk [x] ++ []). rewrite app_nil_r, (encode_chunk_filtered [x] _) by (simpl; lia || done). done.
  - change (Codec.encode [x; y]) with (encode_chunk [x; y] ++ []). rewrite app_nil_r, (encode_chunk_filtered [x; y] _) by (simpl; lia || done). done.
  - change (Codec.encode (x :: y :: z :: l)) with (encode_chunk [x; y; z] ++ Codec.encode l). rewrite filter_app, length_app, Nat2Z.inj_add.
    rewrite (encode_chunk_filtered [x; y; z] _) by (simpl; lia || done). fold (unpadded l). rewrite (IH (length l)) by (simpl; lia || done).
    simpl length. Z.to_euclidean_division_equations. lia.
Qed.

Lemma alphabet_url c : c ∈ ALPHABET -> is_byte (url_char c) /\ url_unchar (url_char c) = c.
Proof.
  intros Hc. assert (Forall (fun c => is_byte (url_char c) /\ url_unchar (url_char c) = c) ALPHABET) as H.
  { unfold is_byte. apply (bool_decide_unpack _). vm_compute. exact I. }
  rewrite Forall_forall in H. auto.
Qed.

#[global] Instance url_safe_no_pad : Base64 url_encode url_decode.
Proof.
  split.
  - intros b Hb. unfold url_decode, url_encode. pose proof (unpadded_alphabet b) as Ha. rewrite bytes_of_text_of.
    2: { apply Forall_fmap. eapply Forall_impl; [exact Ha|]. intros c Hc. apply alphabet_url, Hc. }
    rewrite <- list_fmap_compose. replace ((url_unchar ∘ url_char) <$> unpadded b) with (unpadded b).
    + unfold unpadded. by rewrite (decode_encode 0 [] b Hb).
    + symmetry. rewrite <- (list_fmap_id (unpadded b)) at 2. apply list_fmap_ext. intros i c Hc. simpl.
      apply alphabet_url. rewrite Forall_forall in Ha. apply Ha. by eapply list_elem_of_lookup_2.
  - intros b. unfold url_encode, str_len. rewrite <- unpadded_length, <- length_bytes_of, bytes_of_text_of, length_fmap; [done|].
    apply Forall_fmap. eapply Forall_impl; [apply unpadded_alphabet|]. intros c Hc. apply alphabet_url, Hc.
Qed.

(** * Examples *)

Definition ex_row (id : string) (now : Z) (db : Db) : Db :=
  fst (insert_instance (ex_spec <| instance_id := id |>) "stub" "tok" now db).
Definition ulid_a : string := "01ARZ3NDEKTSV4RRFFQ69G5FAV".
Definition ulid_b : string := "01ARZ3NDEKTSV4RRFFQ69G5FAW".
Definition two_rows : World (list string) unit := mkWorld (ex_row ulid_b (-5) (ex_row ulid_a 7 empty_db)) ex_store [] 0 0 0 [].
Definition page_of_one : ListInstancesRequest := mkListInstancesRequest [] ∅ 1 empty_str.

(** Two instances on pages of one: two pages, the older instance first. *)
Lemma pages_cover_the_listing_witness :
  exists w' pages, list_all toy_runtime no_faults url_encode url_decode (fun _ => 100) (fun _ => 1) 3 page_of_one two_rows = (w', Ok pages) /\
    mjoin pages = shown toy_runtime [] <$> listing page_of_one (Journal.list_instances (w_db two_rows)) /\
    (ir_id <$> listing page_of_one (Journal.list_instances (w_db two_rows))) = [ulid_b; ulid_a] /\
    Forall (fun p => Z.of_nat (length p) <= 1) pages.
Proof.
  destruct (pages_cover_the_listing toy_runtime no_faults url_encode url_decode (fun _ => 100) (fun _ => 1) page_of_one two_rows)
    as (w' & pages & E & Ej & _ & _ & _ & Hall).
  - reflexivity.
  - vm_compute. split; discriminate.
  - reflexivity.
  - apply (bool_decide_unpack (keyed _)). vm_compute. exact I.
  - apply (bool_decide_unpack (Forall cursor_ok _)). vm_compute. exact I.
  - apply Forall_forall. intros row _. unfold fits. vm_compute. split; discriminate.
  - exists w', pages. change (S (length _)) with 3%nat in E. split; [exact E|]. split; [exact Ej|].
    split; [vm_compute; reflexivity|]. eapply Forall_impl; [exact Hall|]. intros p [Hp _]. exact Hp.
Defined.

(** An id that is not of the contract's form, which a fork may have, ends a page with a
    token that is then refused. *)
Definition odd_row : InstanceRow := instance_row_from (mkInstance (ex_spec <| instance_id := "my-fork" |>) IS.Created false
  "stub" 0 0 None empty_str empty_str [] [] [] [] [] None None None None None empty_str empty_str empty_str empty_str 0).
Lemma odd_id_ends_the_listing :
  decode_instance_cursor url_decode (encode_instance_cursor url_encode odd_row) =
  Err (bad_token "ListInstances page_token carries an invalid instance id").
Proof. vm_compute. reflexivity. Qed.
