(* ===== verification/Requests.v ===== *)
(** What the requests of [Service] guarantee: what is refused changes nothing, what is
    accepted is journaled before it is answered, and a repeated request is answered again. *)

From S2P Require Import Prelude Proto StateMachine Journal Events Operations Capsules Codec Restore Objects Runtime Ops CapsuleTransfer Executor Reconcile Reconciler Service Pages.

(** * The requests that submit an operation *)

Inductive Request : Type :=
| RCreate (r : CreateInstanceRequest)
| RStart (r : StartInstanceRequest)
| RStop (r : StopInstanceRequest)
| RDestroy (r : DestroyInstanceRequest)
| RPause (r : PauseInstanceRequest)
| RResume (r : ResumeInstanceRequest)
| RCheckpoint
| RDeleteSnapshot (r : DeleteSnapshotRequest)
| RCreateSnapshot (r : CreateSnapshotRequest)
| RFork (r : ForkInstanceRequest).

Section Requests.
Context {W R : Type} (rt : Runtime W) (sha256 : list Z -> list Z).
Context (node_cpu_class : string) (clock : nat -> Z) (faults : nat -> option string) (names : nat -> string).
Context (mint : string -> res string Identity).
Context (ulid_from_string : string -> res string unit) (trim : string -> string).
#[local] Abbreviation World := (World W R).
#[local] Abbreviation H := (H W R).

Definition handle (req : Request) : H Operation :=
  match req with
  | RCreate r => create_instance rt sha256 node_cpu_class clock faults names mint ulid_from_string trim r
  | RStart r => start_instance rt sha256 node_cpu_class clock faults names mint r
  | RStop r => stop_instance rt sha256 node_cpu_class clock faults names mint r
  | RDestroy r => destroy_instance rt sha256 node_cpu_class clock faults names mint r
  | RPause r => pause_instance rt sha256 node_cpu_class clock faults names mint r
  | RResume r => resume_instance rt sha256 node_cpu_class clock faults names mint r
  | RCheckpoint => checkpoint_instance rt
  | RDeleteSnapshot r => delete_snapshot rt sha256 node_cpu_class clock faults names mint r
  | RCreateSnapshot r => create_snapshot rt sha256 node_cpu_class clock faults names mint r
  | RFork r => fork_instance rt sha256 node_cpu_class clock faults names mint r
  end.

Definition request_key (req : Request) : string :=
  match req with
  | RCreate r => ci_idempotency_key r
  | RStart r => si_idempotency_key r
  | RStop r => st_idempotency_key r
  | RDestroy r => di_idempotency_key r
  | RPause r => pi_idempotency_key r
  | RResume r => ru_idempotency_key r
  | RCheckpoint => empty_str
  | RDeleteSnapshot r => ds_idempotency_key r
  | RCreateSnapshot r => cs_idempotency_key r
  | RFork r => fr_idempotency_key r
  end.

(** What each request asks for in a journal: the verb, the instance it works on and what
    it does there. What is asked for nowhere in this table can only be refused. *)
Inductive asks (d : Db) : Request -> OpKind -> string -> OpPayload -> Prop :=
| asks_create r spec :
    ci_spec r = Some spec ->
    admit_spec ulid_from_string trim spec (ci_require_hardware_isolation r) (rt_caps rt) (rt_name rt) = Ok tt ->
    asks d (RCreate r) KCreate (instance_id spec) (PCreate spec)
| asks_start r : asks d (RStart r) KStart (si_instance_id r) PStart
| asks_stop r : asks d (RStop r) KStop (st_instance_id r) (PStop (st_grace_seconds r))
| asks_destroy r : asks d (RDestroy r) KDestroy (di_instance_id r) (PDestroy (di_keep_snapshots r))
| asks_pause r memory :
    memory = default true (pi_keep_memory r) && pi_require_memory r -> (memory = true -> memory_snapshot (rt_caps rt) = true) ->
    asks d (RPause r) KPause (pi_instance_id r) (PPause memory)
| asks_resume r id :
    ru_target r = Some (TargetInstanceId id) -> asks d (RResume r) KResume id (PResume None (ru_require_memory r))
| asks_resume_from r sid row :
    ru_target r = Some (TargetSnapshotId sid) -> get_snapshot sid d = Some row ->
    asks d (RResume r) KResume (sr_instance_id row) (PResume (Some sid) (ru_require_memory r))
| asks_delete r row :
    get_snapshot (ds_snapshot_id r) d = Some row ->
    asks d (RDeleteSnapshot r) KDeleteSnapshot (sr_instance_id row) (PDeleteSnapshot (ds_snapshot_id r))
| asks_deleted r op :
    get_snapshot (ds_snapshot_id r) d = None -> find_op_by_idempotency_key (ds_idempotency_key r) d = Some op ->
    op_kind op = as_str KDeleteSnapshot -> op_payload op = payload_descriptor (PDeleteSnapshot (ds_snapshot_id r)) ->
    asks d (RDeleteSnapshot r) KDeleteSnapshot (op_instance_id op) (PDeleteSnapshot (ds_snapshot_id r))
| asks_snapshot r :
    memory_snapshot (rt_caps rt) = true -> cs_name r = empty_str ->
    asks d (RCreateSnapshot r) KCreateSnapshot (cs_instance_id r) (PCreateSnapshot None)
| asks_named_snapshot r :
    memory_snapshot (rt_caps rt) = true -> cs_name r <> empty_str -> is_legal_snapshot_name (cs_name r) = true ->
    asks d (RCreateSnapshot r) KCreateSnapshot (cs_instance_id r) (PCreateSnapshot (Some (cs_name r)))
| asks_fork r snapshot source l :
    fr_target_instance_id r <> empty_str -> fr_source_snapshot_id r <> empty_str ->
    get_snapshot (fr_source_snapshot_id r) d = Some snapshot -> sr_instance_id snapshot <> empty_str ->
    cow_fork (rt_caps rt) = true \/ fr_require_cow r = false /\ full_copy_fork (rt_caps rt) = true ->
    Journal.get_instance (sr_instance_id snapshot) d = Some source ->
    parent_instance_id l = sr_instance_id snapshot -> source_snapshot_id l = fr_source_snapshot_id r -> source_capsule_id l = empty_str ->
    lineage_id l = match ir_lineage source with
                   | Some line => if is_empty (lineage_id line) then sr_instance_id snapshot else lineage_id line
                   | None => sr_instance_id snapshot
                   end ->
    asks d (RFork r) KFork (fr_target_instance_id r)
      (PFork ((ir_spec source) <| instance_id := fr_target_instance_id r |>) (sr_instance_id snapshot) (fr_source_snapshot_id r) l
         (fr_require_cow r) (ir_guest_token source) (ir_identity source))
| asks_restore r snapshot cid capsule spec l :
    fr_target_instance_id r <> empty_str -> fr_source_snapshot_id r <> empty_str ->
    get_snapshot (fr_source_snapshot_id r) d = Some snapshot -> sr_instance_id snapshot = empty_str ->
    capsule_id_from_snapshot_id (fr_source_snapshot_id r) = Some cid ->
    capsule_import (rt_caps rt) = true -> memory_snapshot (rt_caps rt) = true -> fr_require_cow r = false ->
    fr_target_spec r = Some spec -> Capsules.get_capsule cid d = Some capsule ->
    decide_capsule sha256 (cr_manifest capsule) spec node_cpu_class (rt_version rt) = Proceed ->
    parent_instance_id l = empty_str -> source_snapshot_id l = fr_source_snapshot_id r -> source_capsule_id l = cid ->
    lineage_id l = (if is_empty (cm_lineage_id (cr_manifest capsule)) then fr_target_instance_id r else cm_lineage_id (cr_manifest capsule)) ->
    asks d (RFork r) KFork (fr_target_instance_id r)
      (PRestoreCapsule (spec <| instance_id := fr_target_instance_id r |>) cid (fr_source_snapshot_id r) l).

(** What an answer says of the journal: a refusal that nothing happened; an operation that
    it is what the request asks for, the row an earlier request left under the same key or
    the new row under that key, whose executor was spawned. *)
Definition accounted (req : Request) (d d' : Db) (a : res Status Operation) (s : list Spawn) : Prop :=
  match a with
  | Err _ => s = [] /\ same_tables d d'
  | Ok op =>
      exists kind iid p, asks d req kind iid p /\
      ((s = [] /\ same_tables d d' /\ exists old, op = operation_row_to_proto old /\ repeats kind iid (request_key req) p old d) \/
       (exists id created recorded, let row := submitted_row kind iid id p created in
          s = [mkSpawn kind p row recorded] /\ op = operation_row_to_proto row /\ request_key req <> empty_str /\
          operations d !! id = None /\
          (forall k o, operations d !! k = Some o -> o_idempotency_key o <> request_key req /\ ~ active_on iid o) /\
          operations d' = <[id := inserted_op row (request_key req)]> (operations d)))
  end.

Definition accounts (req : Request) (d : Db) (m : H Operation) : Prop :=
  forall w w' a s, w_db w = d -> m w = (w', (a, s)) -> accounted req d (w_db w') a s.

Lemma accounts_refuse req d st : accounts req d (refuse st).
Proof. intros w w' a s <- [= <- <- <-]. by split. Qed.

Lemma accounts_submit req d kind iid key p :
  asks d req kind iid p -> key = request_key req ->
  accounts req d (submit rt sha256 node_cpu_class clock faults names mint kind iid key p).
Proof.
  intros Ha -> w w' a s <-. unfold Service.submit, Ops.submit. unfold bind.
  destruct (submit_claiming _ _ _ _ _ _ _ _ _ _ _ _ _ w) as [w1 [r sp]] eqn:E. intros [= <- <- <-].
  apply submit_claiming_spec in E. destruct sp as [[op recorded]|]; simpl.
  - destruct E as (-> & Hne & (id & created & ->) & _ & cn & [Hid Hk Hi Ho _ _]). exists kind, iid, p. split; [done|]. right.
    exists id, created, recorded. split_and!; [done|done|done|done| |done]. intros k o Hko. split; [by eapply Hk|by eapply Hi].
  - destruct E as [Hq Hr]. destruct r as [[op|]|e]; simpl; [|by split|by split].
    exists kind, iid, p. split; [done|]. left. split_and!; [done|done|]. by exists op.
Qed.

Lemma accounts_reading {A} req d (f : Db -> A) g (k : A -> H Operation) :
  accounts req d (k (f d)) -> accounts req d (attempt g (reading faults f) k).
Proof.
  intros Hk w w' a s <-. unfold attempt. unfold bind, reading, journal. destruct (faults _).
  - intros [= <- <- <-]. by split.
  - intros Hr. by eapply Hk; [|exact Hr].
Qed.

Lemma accounts_ok_or {A} req d st (o : option A) (k : A -> H Operation) :
  (forall x, o = Some x -> accounts req d (k x)) -> accounts req d (ok_or st o k).
Proof. intros Hk. destruct o; [by apply Hk|apply accounts_refuse]. Qed.

Ltac accounts_tac :=
  cbv zeta; repeat first
    [ apply accounts_refuse | apply accounts_reading
    | apply accounts_ok_or; intros ? ?
    | lazymatch goal with |- accounts _ _ (match ?x with _ => _ end) => destruct x eqn:? end ].

Lemma accounts_delete_snapshot d r : accounts (RDeleteSnapshot r) d (delete_snapshot rt sha256 node_cpu_class clock faults names mint r).
Proof.
  unfold delete_snapshot. apply accounts_reading. destruct (get_snapshot _ d) as [row|] eqn:Es; [apply accounts_submit; [by apply asks_delete|done]|].
  apply accounts_reading. destruct (option_filter _ _) as [op|] eqn:E; [|accounts_tac].
  destruct (find_op_by_idempotency_key _ d) as [op'|] eqn:Ef; [|done]. simpl in E. destruct (_ && _) eqn:Eb; [|done]. injection E as <-.
  apply andb_true_iff in Eb as [Ek%bool_decide_eq_true Ep%bool_decide_eq_true].
  pose proof (asks_deleted d r op' Es Ef Ek Ep) as Ha.
  unfold find_op_by_idempotency_key in Ef. apply bind_Some in Ef as (k & (o & Ho & Ekey)%op_id_of_key_Some & Ek').
  unfold Operations.get_operation in Ek'. rewrite Ho in Ek'. injection Ek' as <-.
  intros w w' a s <- [= <- <- <-]. eexists _, _, _. split; [exact Ha|]. left. split_and!; [done|done|]. eexists. split; [done|]. exists o. by split_and!.
Qed.

Lemma accounts_fork d r : accounts (RFork r) d (fork_instance rt sha256 node_cpu_class clock faults names mint r).
Proof.
  unfold fork_instance, restore_imported_capsule. accounts_tac; to_prop; apply accounts_submit; try done.
  - eapply asks_restore; eauto.
  - eapply asks_fork; eauto.
    + destruct (cow_fork (rt_caps rt)); [by left|right]. by destruct (fr_require_cow r), (full_copy_fork (rt_caps rt)).
    + simpl. destruct (ir_lineage _) as [line|]; simpl; [|done]. by destruct (is_empty (lineage_id line)).
Qed.

Lemma accounts_pause d r : accounts (RPause r) d (pause_instance rt sha256 node_cpu_class clock faults names mint r).
Proof.
  unfold pause_instance. cbv zeta. destruct (_ && negb _) eqn:E; [apply accounts_refuse|]. apply accounts_submit; [|done].
  apply asks_pause; [done|]. intros Hm. rewrite Hm in E. simpl in E. by destruct (memory_snapshot _).
Qed.

Lemma accounts_create_snapshot d r :
  accounts (RCreateSnapshot r) d (create_snapshot rt sha256 node_cpu_class clock faults names mint r).
Proof.
  unfold create_snapshot. destruct (memory_snapshot _) eqn:Em; simpl; [|apply accounts_refuse].
  destruct (is_empty (cs_name r)) eqn:En; simpl; [|destruct (is_legal_snapshot_name _) eqn:El; simpl; [|apply accounts_refuse]];
    to_prop; apply accounts_submit; try done; by constructor.
Qed.

Lemma attempt_reading {A} (f : Db -> A) g (k : A -> H Operation) (w : World) :
  (forall n, faults n = None) -> attempt g (reading faults f) k w = k (f (w_db w)) (w <| w_calls := S (w_calls w) |>).
Proof. intros Hf. unfold attempt. by rewrite (bind_eq _ _ _ _ _ (reading_run faults f w Hf)). Qed.

(** A request that asks for something is not turned away by its handler: it is submitted,
    unless it repeats the deletion of a snapshot that is gone. *)
Lemma asked_is_submitted req kind iid p (w : World) :
  (forall n, faults n = None) -> asks (w_db w) req kind iid p ->
  (exists w1, w_db w1 = w_db w /\ w_sub w1 = w_sub w /\
     handle req w = submit rt sha256 node_cpu_class clock faults names mint kind iid (request_key req) p w1) \/
  (exists w1 op, handle req w = (w1, (Ok op, []))).
Proof.
  intros Hf Ha. assert (forall x, x <> empty_str -> is_empty x = false) as Hne by (by intros [|]).
  destruct Ha; cbn [handle request_key]; try (left; by exists w).
  - left. exists w. unfold create_instance. by rewrite H, H0.
  - left. exists w. unfold pause_instance. cbv zeta. rewrite <- H. destruct memory; [by rewrite H0|done].
  - left. exists w. unfold resume_instance. by rewrite H.
  - left. eexists. split; [|split]; [| |unfold resume_instance; rewrite H, attempt_reading, H0 by done; reflexivity]; done.
  - left. eexists. split; [|split]; [| |unfold delete_snapshot; rewrite attempt_reading, H by done; reflexivity]; done.
  - right. unfold delete_snapshot. rewrite attempt_reading, H, attempt_reading by done. simpl. rewrite H0. simpl.
    unfold delete_snapshot_descriptor. rewrite !bool_decide_true by done. by eexists _, _.
  - left. exists w. unfold create_snapshot. by rewrite H, H0.
  - left. exists w. unfold create_snapshot. by rewrite H, (Hne _ H0), H1.
  - left. eexists. split; [|split].
    3: { unfold fork_instance. rewrite (Hne _ H), (Hne _ H0), attempt_reading, H1 by done. simpl. rewrite (Hne _ H2).
      assert (fr_require_cow r && negb (cow_fork (rt_caps rt)) = false /\
              negb (cow_fork (rt_caps rt)) && negb (full_copy_fork (rt_caps rt)) = false) as [-> ->]
        by (destruct H3 as [-> |[-> ->]]; [by rewrite andb_false_r|by rewrite andb_false_r]).
      rewrite attempt_reading by done. simpl. rewrite H4. simpl. destruct l as [line sid cid pid]. simpl in *. subst.
      destruct (ir_lineage source) as [x|]; simpl; [|reflexivity]. destruct (is_empty (lineage_id x)); reflexivity. }
    all: done.
  - left. eexists. split; [|split].
    3: { unfold fork_instance. rewrite (Hne _ H), (Hne _ H0), attempt_reading, H1 by done. simpl. rewrite H2. simpl.
      unfold restore_imported_capsule. rewrite H3, H4, H5, H6, H7. cbn [negb]. rewrite attempt_reading by done. simpl. rewrite H8. simpl. rewrite H9.
      destruct l. simpl in *. subst. reflexivity. }
    all: done.
Qed.

(** C11: every request that works on an instance answers for what it did. A refusal, for
    whatever reason and whichever journal call failed, leaves the instances and the
    operations as they were and starts no executor. An accepted request is one that asks
    for something (the table [asks] says which verb, on which instance, doing what), and
    answers an operation of exactly that verb, instance and request: the one an earlier
    request journaled under the same key, changing nothing, or the one it has just
    journaled under its key, which no operation had, on an instance no executor was
    working on, and whose executor, and no other, it starts. While the journal answers, a
    request that asks for something is refused only when its submission is. *)
Theorem requests_answer_for_the_journal req (w w' : World) a s :
  handle req w = (w', (a, s)) ->
  accounted req (w_db w) (w_db w') a s /\
  ((forall n, faults n = None) -> forall kind iid p st, asks (w_db w) req kind iid p -> a = Err st ->
   exists (w1 : World) e, w_db w1 = w_db w /\ w_sub w1 = w_sub w /\ st = submit_error_to_status e /\
     fst (snd (Ops.submit rt sha256 node_cpu_class clock faults names mint kind iid (request_key req) p w1)) = Err e).
Proof.
  intros E. split.
  - assert (accounts req (w_db w) (handle req)) as H; [|by eapply H]. clear E.
    destruct req; unfold handle, create_instance, start_instance, stop_instance, destroy_instance, resume_instance, checkpoint_instance;
      auto using accounts_delete_snapshot, accounts_fork, accounts_pause, accounts_create_snapshot; accounts_tac;
      (apply accounts_submit; [|done]); econstructor; eauto. by destruct a0.
  - intros Hf kind iid p st Ha ->. apply asked_is_submitted in Ha as [(w1 & Ed & Es & Eh)|(w1 & op & Eh)]; [|congruence|done].
    rewrite E in Eh. exists w1. unfold Service.submit, bind in Eh.
    destruct (Ops.submit _ _ _ _ _ _ _ _ _ _ _ w1) as [w2 [[op|e] sp]]; [discriminate Eh|]. exists e. injection Eh as _ -> _. by split_and!.
Qed.

(** * Alarms *)

Lemma checked_i64_small z : is_i64 z -> checked_i64 z = Some z.
Proof. unfold is_i64, checked_i64. intros [H1 H2]. by rewrite (proj2 (Z.leb_le _ _) H1), (proj2 (Z.leb_le _ _) H2). Qed.

(** Within the protocol's range no step of the conversion overflows. *)
Lemma timestamp_ms_spec t ms :
  timestamp_ms t = Some ms <->
  MIN_SECONDS <= seconds t <= MAX_SECONDS /\ 0 <= nanos t < 1000000000 /\ ms = seconds t * 1000 + nanos t / 1000000.
Proof.
  unfold timestamp_ms, within. destruct (decide (MIN_SECONDS <= seconds t <= MAX_SECONDS)) as [[H1 H2]|Hn].
  2: { assert ((MIN_SECONDS <=? seconds t) && (seconds t <=? MAX_SECONDS) = false) as -> by lia. simpl. split; [done|]. by intros [? _]. }
  assert ((MIN_SECONDS <=? seconds t) && (seconds t <=? MAX_SECONDS) = true) as -> by lia.
  destruct (decide (0 <= nanos t < 1000000000)) as [[H3 H4]|Hn].
  2: { assert ((0 <=? nanos t) && (nanos t <=? 999999999) = false) as -> by lia. simpl. split; [done|]. by intros (_ & ? & _). }
  assert ((0 <=? nanos t) && (nanos t <=? 999999999) = true) as -> by lia. cbn [negb orb].
  rewrite Z.quot_div_nonneg by lia. assert (0 <= nanos t / 1000000 < 1000) as Hq.
  { split; [apply Z.div_pos; lia|apply Z.div_lt_upper_bound; lia]. }
  unfold MIN_SECONDS, MAX_SECONDS in *.
  rewrite (checked_i64_small (seconds t * 1000)) by (unfold is_i64, i64_min, i64_max; lia). simpl.
  rewrite checked_i64_small by (unfold is_i64, i64_min, i64_max; lia).
  split; [by intros [= <-]|]. by intros (_ & _ & ->).
Qed.

(** The alarm a request asks for can be set at a time. *)
Definition settable (now : Z) (at_ : option Timestamp) : Prop :=
  match at_ with None => True | Some t => exists ms, timestamp_ms t = Some ms /\ now < ms end.

Lemma wake_at_of_run at_ (w : World) :
  exists w' a, wake_at_of clock at_ w = (w', a) /\ w_db w' = w_db w /\
    match a with
    | Ok wake => settable (clock (w_ticks w)) at_ /\ wake = at_ ≫= timestamp_ms
    | Err _ => ~ settable (clock (w_ticks w)) at_
    end.
Proof.
  unfold wake_at_of, settable. destruct at_ as [t|]; [|by eexists _, _]. destruct (timestamp_ms t) as [ms|] eqn:Et; simpl.
  2: { eexists _, _. split; [reflexivity|]. split; [done|]. by intros (? & ? & _). }
  unfold bind, now_ms. destruct (Z.leb_spec ms (clock (w_ticks w))); eexists _, _; (split; [reflexivity|]); (split; [done|]).
  - intros (ms' & [= <-] & ?). lia.
  - split; [eauto|done].
Qed.

(** C13: an alarm is set exactly as asked, or not at all. With a journal that answers, the
    request is accepted if and only if the instance exists and is not destroyed and the
    time, if one is given, is a valid timestamp in the future; then the alarm of that
    instance, and of no other, becomes exactly that time in milliseconds, or is cleared,
    and the answer reports it; a refusal leaves the journal as it was. *)
Theorem alarms_are_set_exactly r (w w' : World) a s :
  (forall n, faults n = None) -> set_wake clock faults r w = (w', (a, s)) ->
  let id := sw_instance_id r in
  let possible := exists i, instances (w_db w) !! id = Some i /\ i_state i <> IS.Destroyed /\ settable (clock (w_ticks w)) (sw_wake_at r) in
  s = [] /\
  match a with
  | Err _ => w_db w' = w_db w /\ ~ possible
  | Ok answer =>
      possible /\
      (forall t, sw_wake_at r = Some t -> exists ms, timestamp_ms t = Some ms /\ ms = seconds t * 1000 + nanos t / 1000000) /\
      in_wake_at answer = ts <$> (sw_wake_at r ≫= timestamp_ms) /\
      operations (w_db w') = operations (w_db w) /\
      (forall k, k <> id -> instances (w_db w') !! k = instances (w_db w) !! k) /\
      exists i i', instances (w_db w) !! id = Some i /\ instances (w_db w') !! id = Some i' /\
        i_wake_at_ms i' = sw_wake_at r ≫= timestamp_ms /\ i_state i' = i_state i /\ i_spec i' = i_spec i
  end.
Proof.
  intros Hf. unfold set_wake, attempt. rewrite (bind_eq _ _ _ _ _ (reading_run faults (Journal.get_instance (sw_instance_id r)) w Hf)).
  cbv zeta. set (w1 := w <| w_calls := S (w_calls w) |>). unfold Journal.get_instance at 1.
  destruct (instances (w_db w) !! sw_instance_id r) as [i|] eqn:Ei; simpl.
  2: { intros [= <- <- <-]. split; [done|]. split; [done|]. by intros (? & ? & _). }
  case_bool_decide as Hd.
  { intros [= <- <- <-]. split; [done|]. split; [done|]. by intros (i' & [= <-] & ? & _). }
  destruct (wake_at_of_run (sw_wake_at r) w1) as (w2 & o & E2 & Edb & Ho). rewrite (bind_eq _ _ _ _ _ E2).
  change (w_ticks w1) with (w_ticks w) in Ho. change (w_db w1) with (w_db w) in Edb.
  destruct o as [wake|e].
  2: { intros [= <- <- <-]. split; [done|]. split; [done|]. intros (i' & _ & _ & ?). done. }
  destruct Ho as [Hs ->]. set (wake := sw_wake_at r ≫= timestamp_ms).
  set (w3 := w2 <| w_ticks := S (w_ticks w2) |>). rewrite (bind_eq (now_ms clock) _ w2 w3 (clock (w_ticks w2))) by done.
  set (w4 := w3 <| w_calls := S (w_calls w3) |> <| w_db := set_wake_at (sw_instance_id r) wake (clock (w_ticks w2)) (w_db w) |>).
  rewrite (bind_eq _ _ w3 w4 (Ok tt)) by (unfold journal; rewrite Hf; unfold w4, w3; simpl; by rewrite Edb).
  rewrite (bind_eq _ _ _ _ _ (reading_run faults (Journal.get_instance (sw_instance_id r)) w4 Hf)).
  assert (exists i', instances (w_db w4) !! sw_instance_id r = Some i' /\ i_wake_at_ms i' = wake /\ i_state i' = i_state i /\
            i_spec i' = i_spec i) as (i' & Ei' & Hw & Hst & Hsp).
  { unfold w4. simpl. rewrite update_lookup, decide_True, Ei by done. eexists. by split_and!. }
  unfold Journal.get_instance. rewrite Ei'. simpl. intros [= <- <- <-]. split; [done|]. split_and!.
  - by exists i.
  - intros t Et. rewrite Et in Hs. destruct Hs as (ms & Hms & _). exists ms. split; [done|]. by apply timestamp_ms_spec in Hms as (_ & _ & ?).
  - simpl. by rewrite Hw.
  - done.
  - intros k Hk. simpl. by rewrite update_lookup, decide_False.
  - by exists i, i'.
Qed.

(** * Cancellation *)

Lemma cancel_run op reason (w : World) :
  (forall n, faults n = None) ->
  exists w' c, cancel clock faults op reason w = (w', c) /\ instances (w_db w') = instances (w_db w) /\
    match c with
    | Ok _ => exists o, operations (w_db w) !! op_id op = Some o /\ op_is_in_flight (o_state o) = true /\
        operations (w_db w') = <[op_id op := o <| o_state := Op.Canceled |> <| o_error_message := reason |>
          <| o_current_step := empty_str |> <| o_finished_at_ms := Some (clock (w_ticks w)) |>
          <| o_executor_active := if bool_decide (o_state o = Op.AwaitingInput) then false else o_executor_active o |>]> (operations (w_db w))
    | Err _ => w_db w' = w_db w /\ forall o, operations (w_db w) !! op_id op = Some o -> op_is_in_flight (o_state o) = false
    end.
Proof.
  intros Hf. unfold cancel. set (w1 := w <| w_ticks := S (w_ticks w) |>). rewrite (bind_eq (now_ms clock) _ w w1 (clock (w_ticks w))) by done.
  destruct (finish_op_canceled (op_id op) reason (clock (w_ticks w)) (w_db w)) as [d r] eqn:E.
  set (w2 := w1 <| w_calls := S (w_calls w1) |> <| w_db := d |>).
  rewrite (bind_eq _ _ w1 w2 r).
  2: { unfold journal_try, bind, journal, ret. rewrite Hf. change (w_db w1) with (w_db w). by rewrite E. }
  unfold finish_op_canceled, move_op in E. destruct (update_op _ _ (op_id op) (w_db w)) as [d' b] eqn:Eu. destruct b; injection E as <- <-.
  - apply update_op_true in Eu as (o & Ho & Hp & ->).
    pose proof (keeps_emit clock faults same_tables (op_progress (op_instance_id op) (op_id op) ("canceled: " +:+ reason)) w2) as Hq.
    unfold bind. destruct (emit_event _ _ _ w2) as [w3 []] eqn:E3. destruct Hq as [Hq1 Hq2]. simpl in Hq1, Hq2.
    eexists _, _. split; [reflexivity|]. split; [done|]. exists o. split_and!; [done| |done].
    unfold state_in in Hp. apply bool_decide_eq_true, ops_movable_to_spec in Hp. by destruct (o_state o).
  - eexists _, _. split; [reflexivity|]. split_and!; [done|done|].
    intros o Ho. pose proof (update_op_false _ _ _ _ _ Eu _ Ho) as Hp. unfold state_in in Hp. apply bool_decide_eq_false in Hp.
    rewrite ops_movable_to_spec in Hp. by destruct (o_state o).
Qed.

(** A cancellation is answered with what happened. With a journal that answers, the
    request succeeds if and only if the operation was in flight; the row is then CANCELED
    with the caller's reason, keeps its executor's claim unless it was waiting for input,
    and is answered without an error, since a cancellation is not one. Otherwise the
    journal is as it was, and an operation that had settled is refused as such. Instances
    and other operations never change, and nothing is spawned. *)
Theorem cancellation_answers_truly r (w w' : World) a s :
  (forall n, faults n = None) -> cancel_operation clock faults r w = (w', (a, s)) ->
  let id := co_op_id r in
  s = [] /\ instances (w_db w') = instances (w_db w) /\
  match a with
  | Ok op => exists o o', operations (w_db w) !! id = Some o /\ op_is_in_flight (o_state o) = true /\
      operations (w_db w') = <[id := o']> (operations (w_db w)) /\
      o_state o' = Op.Canceled /\ o_error_message o' = co_reason r /\
      o_executor_active o' = (if bool_decide (o_state o = Op.AwaitingInput) then false else o_executor_active o) /\
      op = operation_row_to_proto (operation_row_from id o') /\ po_error op = None
  | Err st => w_db w' = w_db w /\
      forall o, operations (w_db w) !! id = Some o -> op_is_in_flight (o_state o) = false /\
        (op_is_settled (o_state o) = true -> exists detail, st = settled_refusal id (o_state o) detail)
  end.
Proof.
  intros Hf. unfold cancel_operation, attempt. cbv zeta.
  rewrite (bind_eq _ _ _ _ _ (reading_run faults (Operations.get_operation (co_op_id r)) w Hf)).
  set (w1 := w <| w_calls := S (w_calls w) |>). unfold Operations.get_operation at 1.
  destruct (operations (w_db w) !! co_op_id r) as [o|] eqn:Eo; cbn [fmap option_fmap option_map].
  - destruct (cancel_run (operation_row_from (co_op_id r) o) (co_reason r) w1 Hf) as (w2 & c & Ec & Ei & Hc).
    rewrite (bind_eq _ _ _ _ _ Ec). change (w_db w1) with (w_db w) in *.
    change (op_id (operation_row_from (co_op_id r) o)) with (co_op_id r) in Hc. destruct c as [[]|refused].
    + destruct Hc as (o1 & Ho1 & Hfl & Eops). rewrite Eo in Ho1. injection Ho1 as <-.
      rewrite (bind_eq _ _ _ _ _ (reading_run faults (Operations.get_operation (co_op_id r)) w2 Hf)).
      unfold Operations.get_operation. rewrite Eops, lookup_insert_eq. cbn [fmap option_fmap option_map ok_or]. intros [= <- <- <-].
      split_and!; [done|done|]. exists o. eexists. split_and!; [done|done|exact Eops|done..].
    + destruct Hc as [Edb Hc]. specialize (Hc o Eo).
      rewrite (bind_eq _ _ _ _ _ (reading_run faults (Operations.get_operation (co_op_id r)) w2 Hf)).
      unfold Operations.get_operation. rewrite Edb, Eo. cbn [fmap option_fmap option_map].
      change (op_state (operation_row_from (co_op_id r) o)) with (o_state o).
      destruct (op_is_settled (o_state o)) eqn:Es; intros [= <- <- <-]; (split_and!; [done|done|done|]);
        intros o' [= <-]; (split; [done|]); rewrite Es; [eauto|done].
  - rewrite (bind_eq _ _ _ _ _ (reading_run faults (get_capsule_op (co_op_id r)) w1 Hf)).
    destruct (get_capsule_op _ _) as [cop|]; [destruct (op_is_settled _)|]; intros [= <- <- <-]; by split_and!.
Qed.
End Requests.

(** * Capsule requests *)

Inductive CapsuleRequest : Type :=
| CExport (r : ExportCapsuleRequest)
| CImport (r : ImportCapsuleRequest)
| CDelete (r : DeleteCapsuleRequest).

Definition capsule_request_key (req : CapsuleRequest) : string :=
  match req with CExport r => ec_idempotency_key r | CImport r => ic_idempotency_key r | CDelete r => dc_idempotency_key r end.

(** A required field is missing. *)
Definition incomplete (req : CapsuleRequest) : bool :=
  is_empty (capsule_request_key req) ||
  match req with
  | CExport _ => false
  | CImport r => match ic_manifest r with None => true | Some _ => false end
  | CDelete r => is_empty (dc_capsule_id r)
  end.

Definition same_cops (d d' : Db) : Prop := capsule_operations d' = capsule_operations d.
#[global] Instance same_cops_DbRel : DbRel same_cops.
Proof. unfold same_cops. split; [split|done]; [done|]. intros a b c E1 E2. by rewrite E2. Qed.

Lemma same_cops_refl d : same_cops d d.
Proof. done. Qed.
Lemma same_cops_register row d : same_cops d (fst (register_capsule row d)).
Proof. unfold same_cops, register_capsule. destruct (capsules d !! _); [|done]. by destruct (_ <? _). Qed.
Lemma same_cops_snapshot row t d : same_cops d (insert_snapshot row t d).
Proof. done. Qed.
Lemma same_cops_delete k d : same_cops d (Capsules.delete_capsule k d).
Proof. unfold same_cops, Capsules.delete_capsule. by destruct (capsules d !! k). Qed.
Lemma same_cops_gc k d : same_cops d (finalize_object_gc k d).
Proof. unfold same_cops, finalize_object_gc. destruct (object_refs d !! k); [|done]. by case_decide. Qed.
#[global] Hint Resolve same_cops_refl same_cops_register same_cops_snapshot same_cops_delete same_cops_gc : frame.

Section Capsules.
Context {W R : Type} (rt : Runtime W) (bucket : Bucket R) (sha256 : list Z -> list Z).
Context (node_arch node_cpu_class : string).
Context (clock : nat -> Z) (faults : nat -> option string) (names : nat -> string).
#[local] Abbreviation World := (World W R).
#[local] Abbreviation H := (H W R).
#[local] Abbreviation idle m := (keeps (@on_db W R same_cops) m).

Definition handle_capsule (req : CapsuleRequest) : H Operation :=
  match req with
  | CExport r => Service.export_capsule rt bucket sha256 node_arch clock faults names r
  | CImport r => Service.import_capsule rt bucket sha256 node_arch node_cpu_class clock faults names r
  | CDelete r => Service.delete_capsule clock faults names r
  end.

Lemma idle_register m b t : idle (register sha256 clock faults m b t).
Proof. unfold register. keeps_tac. Qed.
#[local] Hint Resolve idle_register : keeps.

Lemma idle_export_objects b t l : idle (export_objects bucket sha256 names b t l).
Proof. revert t. induction l as [|o l IH]; intros t; cbn [export_objects]; unfold export_object; keeps_tac. Qed.
Lemma idle_import_objects b t l : idle (import_objects bucket sha256 names b t l).
Proof. revert t. induction l as [|o l IH]; intros t; cbn [import_objects]; unfold import_object; keeps_tac. Qed.
#[local] Hint Resolve idle_export_objects idle_import_objects : keeps.

Lemma idle_export sid tier : idle (export_work rt bucket sha256 node_arch clock faults names sid tier).
Proof. unfold export_work, CapsuleTransfer.export_capsule. keeps_tac. Qed.
Lemma idle_import m st : idle (import_work rt bucket sha256 node_arch node_cpu_class clock faults names m st).
Proof. unfold import_work, CapsuleTransfer.import_capsule. keeps_tac. Qed.

Lemma idle_gc l : idle (gc_each faults l).
Proof. induction l as [|d l IH]; cbn [gc_each]; keeps_tac. Qed.
#[local] Hint Resolve idle_gc : keeps.
Lemma idle_delete id : idle (delete_work faults id).
Proof. unfold delete_work, gc_pass. keeps_tac. Qed.

(** ** One key, one outcome *)

(** What a repeated request is answered from its row. *)
Definition recorded_answer (k : string) (c : CapsuleOpCols) : res Status Operation :=
  if bool_decide (co_state c = Op.Failed) then Err (capsule_status (co_error_reason c) (co_error_message c))
  else Ok (capsule_op_row_to_proto (capsule_op_row_from k c)).

Definition untouched (w w' : World) : Prop := w_db w' = w_db w /\ w_store w' = w_store w /\ w_sub w' = w_sub w.

Lemma capsule_op_of_key_found d k c :
  cop_keys (capsule_operations d) -> capsule_operations d !! k = Some c -> capsule_op_of_key (co_idempotency_key c) d = Some (k, c).
Proof.
  intros Hk Hc. destruct (capsule_op_of_key _ d) as [[k' c']|] eqn:E.
  - apply capsule_op_of_key_Some in E as [Hc' Ek]. assert (k' = k) as -> by (by eapply Hk). congruence.
  - by destruct (capsule_op_of_key_None _ _ E k c Hc).
Qed.

Lemma begin_run kind request key (w : World) :
  (forall n, faults n = None) ->
  let b := Capsules.begin_capsule_op kind request key (names (w_names w)) (clock (w_ticks w)) (w_db w) in
  exists w', begin_capsule_op clock faults names kind request key w =
    (w', match snd b with
         | Err e => Err (internal e)
         | Ok (CStarted row) => Ok (Started row)
         | Ok (CReplay row) => if bool_decide (cor_state row = OperationState.Failed)
                               then Err (capsule_status (cor_error_reason row) (cor_error_message row))
                               else Ok (Replayed (capsule_op_row_to_proto row))
         | Ok (CMismatch original) => Err (status_with_reason InvalidArgument ErrorReason.InvalidSpec
             ("idempotency key was already used for " +:+ cor_kind original +:+ " with a different request"))
         end) /\ w_db w' = fst b /\ w_store w' = w_store w /\ w_sub w' = w_sub w.
Proof.
  intros Hf b. unfold begin_capsule_op, journal_try, bind, now_ms, fresh_name, journal, ret. simpl. rewrite Hf. fold b.
  destruct b as [d r]. simpl. eexists. by split_and!.
Qed.

(** A row for the key and the same request: answered from it. *)
Lemma capsule_op_replays kind request key work k c (w : World) :
  (forall n, faults n = None) -> cop_keys (capsule_operations (w_db w)) -> capsule_operations (w_db w) !! k = Some c ->
  co_idempotency_key c = key -> co_kind c = kind -> co_request c = request -> request <> empty_str ->
  exists w', capsule_op clock faults names kind request key work w = (w', (recorded_answer k c, [])) /\ untouched w w'.
Proof.
  intros Hf Hk Hc Ek Ekind Ereq Hne. unfold capsule_op, attempt. subst key.
  destruct (begin_run kind request (co_idempotency_key c) w Hf) as (w1 & E & Edb & Es & Eu). unfold bind. rewrite E. clear E.
  revert Edb. unfold Capsules.begin_capsule_op. rewrite (capsule_op_of_key_found _ _ _ Hk Hc).
  rewrite (bool_decide_true (co_kind c = kind)) by done. replace (is_empty (co_request c)) with false
    by (symmetry; apply is_empty_false; by rewrite Ereq). simpl.
  rewrite (bool_decide_true (co_kind c = kind)), (bool_decide_true (co_request c = request)) by done. simpl. intros Edb.
  unfold recorded_answer. destruct (bool_decide (co_state c = Op.Failed)); eexists; (split; [reflexivity|]); by split_and!.
Qed.

(** A row for the key and another request: refused, and the row is bound to its request. *)
Lemma capsule_op_mismatch kind request key work k c (w : World) :
  (forall n, faults n = None) -> cop_keys (capsule_operations (w_db w)) -> capsule_operations (w_db w) !! k = Some c ->
  co_idempotency_key c = key -> (co_kind c <> kind \/ co_request c <> empty_str /\ co_request c <> request) ->
  exists w', capsule_op clock faults names kind request key work w =
    (w', (Err (status_with_reason InvalidArgument ErrorReason.InvalidSpec
            ("idempotency key was already used for " +:+ co_kind c +:+ " with a different request")), [])) /\ untouched w w'.
Proof.
  intros Hf Hk Hc Ek Hne. unfold capsule_op, attempt. subst key.
  destruct (begin_run kind request (co_idempotency_key c) w Hf) as (w1 & E & Edb & Es & Eu). unfold bind. rewrite E. clear E.
  revert Edb. unfold Capsules.begin_capsule_op. rewrite (capsule_op_of_key_found _ _ _ Hk Hc).
  assert (bool_decide (co_kind c = kind) && is_empty (co_request c) = false) as ->.
  { destruct Hne as [Hne|[Hne _]]; [by rewrite bool_decide_false|]. apply is_empty_false in Hne. rewrite Hne. apply andb_false_r. }
  assert (bool_decide (co_kind c = kind) && bool_decide (co_request c = request) = false) as ->.
  { destruct Hne as [Hne|[_ Hne]]; rewrite (bool_decide_false _ Hne); [done|apply andb_false_r]. }
  simpl. intros Edb. eexists. split; [reflexivity|]. by split_and!.
Qed.

(** ** Settling *)

Lemma settle_run k cid st reason msg c (w : World) :
  (forall n, faults n = None) -> capsule_operations (w_db w) !! k = Some c -> co_state c = Op.Running ->
  exists w' c', settle_capsule_op clock faults k cid st reason msg w = (w', Ok (capsule_op_row_from k c')) /\
    capsule_operations (w_db w') = <[k := c']> (capsule_operations (w_db w)) /\
    co_kind c' = co_kind c /\ co_idempotency_key c' = co_idempotency_key c /\ co_request c' = co_request c /\
    co_state c' = st /\ co_error_reason c' = reason /\ co_error_message c' = msg /\ co_capsule_id c' = cid.
Proof.
  intros Hf Hc Hr. unfold settle_capsule_op, journal_try, bind, now_ms, journal, ret. simpl. rewrite Hf.
  unfold Capsules.finish_capsule_op, update_where. rewrite Hc. rewrite bool_decide_true by done. simpl.
  rewrite lookup_insert_eq. eexists _, _. split; [reflexivity|]. simpl. by split_and!.
Qed.

(** The answer and the row agree. *)
Definition reported (k : string) (c : CapsuleOpCols) (a : res Status Operation) : Prop :=
  match a with
  | Ok op => co_state c = Op.Done /\ op = capsule_op_row_to_proto (capsule_op_row_from k c)
  | Err e => co_state c = Op.Failed /\ e = capsule_status (co_error_reason c) (co_error_message c)
  end.

Lemma reported_recorded k c a : reported k c a -> recorded_answer k c = a.
Proof.
  unfold recorded_answer, reported. destruct a as [op|e]; intros [E ->].
  - by rewrite bool_decide_false by (rewrite E; done).
  - by rewrite bool_decide_true.
Qed.

Lemma run_settles row work c (w : World) :
  (forall n, faults n = None) -> idle work -> capsule_operations (w_db w) !! cor_op_id row = Some c -> co_state c = Op.Running ->
  exists w' a c', run_capsule_op clock faults row work w = (w', (a, [])) /\
    capsule_operations (w_db w') = <[cor_op_id row := c']> (capsule_operations (w_db w)) /\
    co_kind c' = co_kind c /\ co_idempotency_key c' = co_idempotency_key c /\ co_request c' = co_request c /\
    reported (cor_op_id row) c' a.
Proof.
  intros Hf Hw Hc Hr. unfold run_capsule_op. specialize (Hw w). unfold bind at 1. destruct (work w) as [w1 o] eqn:Ew.
  unfold on_db, same_cops in Hw. simpl in Hw. rewrite <- Hw in Hc |- *.
  destruct o as [[capsule|[reason msg]]|panic]; cbn [finish_capsule_op]; unfold attempt.
  - destruct (settle_run (cor_op_id row) (pc_capsule_id capsule) Op.Done ErrorReason.Unspecified empty_str c w1 Hf Hc Hr)
      as (w2 & c' & E & Em & ? & ? & ? & Est & _). rewrite (bind_eq _ _ _ _ _ E). cbv zeta.
    match goal with |- context [bind ?m _ w2] => assert (idle m) as Hev by keeps_tac; generalize dependent m end.
    intros ev Hev. specialize (Hev w2). unfold bind. destruct (ev w2) as [w3 []] eqn:E3. unfold on_db, same_cops in Hev. simpl in Hev.
    eexists _, _, c'. split; [reflexivity|]. split_and!; [by rewrite Hev|done|done|done|]. done.
  - destruct (settle_run (cor_op_id row) empty_str Op.Failed reason msg c w1 Hf Hc Hr)
      as (w2 & c' & E & Em & ? & ? & ? & Est & Er & Emsg & _). rewrite (bind_eq _ _ _ _ _ E).
    eexists _, _, c'. split; [reflexivity|]. split_and!; [done..|]. simpl. by rewrite Er, Emsg.
  - destruct (settle_run (cor_op_id row) empty_str Op.Failed ErrorReason.Unspecified
      ("the " +:+ cor_kind row +:+ " task panicked: " +:+ panic_message panic) c w1 Hf Hc Hr)
      as (w2 & c' & E & Em & ? & ? & ? & Est & Er & Emsg & _). rewrite (bind_eq _ _ _ _ _ E).
    eexists _, _, c'. split; [reflexivity|]. split_and!; [done..|]. simpl. by rewrite Er, Emsg.
Qed.

(** ** Repeating a request *)

(** A request's first handling, and every later one. *)
Definition answered_once (key : string) (m : H Operation) (w w1 : World) (a : res Status Operation) : Prop :=
  (exists k c, capsule_operations (w_db w1) !! k = Some c /\ co_idempotency_key c = key /\
     (capsule_op_of_key key (w_db w) = None -> reported k c a)) /\
  forall w2, same_cops (w_db w1) (w_db w2) -> exists w3, m w2 = (w3, (a, [])) /\ untouched w2 w3.

Lemma cop_keys_insert (m : gmap string CapsuleOpCols) k c :
  cop_keys m -> (forall j x, m !! j = Some x -> j <> k -> co_idempotency_key x <> co_idempotency_key c) -> cop_keys (<[k := c]> m).
Proof.
  intros Hk Hn k1 k2 c1 c2. destruct (decide (k1 = k)) as [->|H1], (decide (k2 = k)) as [->|H2]; [done| | |].
  - rewrite lookup_insert_eq, lookup_insert_ne by done. intros [= <-] Hc2 E. by destruct (Hn _ _ Hc2 H2).
  - rewrite lookup_insert_eq, lookup_insert_ne by done. intros Hc1 [= <-] E. by destruct (Hn _ _ Hc1 H1).
  - rewrite !lookup_insert_ne by done. apply Hk.
Qed.

Lemma capsule_op_begun kind request key work (w w1 : World) a s :
  (forall n, faults n = None) -> request <> empty_str -> idle work -> cop_keys (capsule_operations (w_db w)) ->
  capsule_operations (w_db w) !! names (w_names w) = None -> capsule_op_of_key key (w_db w) = None ->
  capsule_op clock faults names kind request key work w = (w1, (a, s)) ->
  s = [] /\ answered_once key (capsule_op clock faults names kind request key work) w w1 a.
Proof.
  intros Hf Hne Hidle Hk Hfresh Hkey. unfold capsule_op at 1, attempt.
  destruct (begin_run kind request key w Hf) as (w2 & E & Edb & _). rewrite (bind_eq _ _ _ _ _ E). clear E.
  unfold Capsules.begin_capsule_op in Edb |- *. rewrite Hkey, Hfresh in Edb |- *. simpl in Edb |- *.
  set (c0 := mkCapsuleOp _ _ _ _ _ _ _ _ _) in *. set (row := capsule_op_row_from _ c0).
  assert (capsule_operations (w_db w2) = <[names (w_names w) := c0]> (capsule_operations (w_db w))) as Em by (by rewrite Edb).
  destruct (run_settles row work c0 w2 Hf Hidle) as (w3 & a' & c & Er & Em' & Ekind & Ek & Ereq & Hrep).
  { rewrite Em. apply lookup_insert_eq. } { done. }
  rewrite Er. intros [= <- <- <-]. split; [done|]. change (cor_op_id row) with (names (w_names w)) in *.
  rewrite Em, insert_insert_eq in Em'.
  assert (cop_keys (capsule_operations (w_db w3))) as Hk3.
  { rewrite Em'. apply cop_keys_insert; [done|]. intros j x Hj _. rewrite Ek. by eapply capsule_op_of_key_None. }
  assert (capsule_operations (w_db w3) !! names (w_names w) = Some c) as Hc by (rewrite Em'; apply lookup_insert_eq). split.
  - exists (names (w_names w)), c. split_and!; [done|by rewrite Ek|done].
  - intros w4 E4. unfold same_cops in E4. rewrite <- (reported_recorded _ _ _ Hrep).
    apply capsule_op_replays; rewrite ?E4; done.
Qed.

Lemma capsule_op_again kind request key work k c (w w1 : World) a s :
  (forall n, faults n = None) -> request <> empty_str -> cop_keys (capsule_operations (w_db w)) ->
  capsule_op_of_key key (w_db w) = Some (k, c) ->
  capsule_op clock faults names kind request key work w = (w1, (a, s)) ->
  s = [] /\ answered_once key (capsule_op clock faults names kind request key work) w w1 a.
Proof.
  intros Hf Hne Hk Hkey E. pose proof (capsule_op_of_key_Some _ _ _ _ Hkey) as [Hc Ek].
  assert (forall c1, capsule_operations (w_db w1) !! k = Some c1 -> co_idempotency_key c1 = key ->
    (forall w2, same_cops (w_db w1) (w_db w2) -> exists w3, capsule_op clock faults names kind request key work w2 = (w3, (a, [])) /\ untouched w2 w3) ->
    answered_once key (capsule_op clock faults names kind request key work) w w1 a) as Hdone.
  { intros c1 Hc1 Ek1 Hall. split; [|done]. exists k, c1. split_and!; [done|done|]. by rewrite Hkey. }
  destruct (decide (co_kind c = kind)) as [Ekind|Hkind].
  2: { destruct (capsule_op_mismatch kind request key work k c w Hf Hk Hc Ek (or_introl Hkind)) as (w' & E' & Hu & _).
    rewrite E' in E. injection E as <- <- <-. split; [done|]. apply (Hdone c); [by rewrite Hu|done|].
    intros w2 E2. unfold same_cops in E2. rewrite Hu in E2. apply (capsule_op_mismatch _ _ _ _ k c); rewrite ?E2; auto. }
  destruct (decide (co_request c = request)) as [Ereq|Hreq].
  { destruct (capsule_op_replays kind request key work k c w Hf Hk Hc Ek Ekind Ereq Hne) as (w' & E' & Hu & _).
    rewrite E' in E. injection E as <- <- <-. split; [done|]. apply (Hdone c); [by rewrite Hu|done|].
    intros w2 E2. unfold same_cops in E2. rewrite Hu in E2. apply capsule_op_replays; rewrite ?E2; done. }
  destruct (decide (co_request c = empty_str)) as [Eempty|Hfull].
  2: { destruct (capsule_op_mismatch kind request key work k c w Hf Hk Hc Ek (or_intror (conj Hfull Hreq))) as (w' & E' & Hu & _).
    rewrite E' in E. injection E as <- <- <-. split; [done|]. apply (Hdone c); [by rewrite Hu|done|].
    intros w2 E2. unfold same_cops in E2. rewrite Hu in E2. apply (capsule_op_mismatch _ _ _ _ k c); rewrite ?E2; auto. }
  unfold capsule_op at 1, attempt in E.
  destruct (begin_run kind request key w Hf) as (w2 & Eb & Edb & _). rewrite (bind_eq _ _ _ _ _ Eb) in E. clear Eb.
  unfold Capsules.begin_capsule_op in Edb, E. rewrite Hkey, Ekind, Eempty in Edb, E.
  rewrite (bool_decide_true (kind = kind)) in Edb, E by done. simpl in Edb, E. rewrite Ekind in E.
  rewrite (bool_decide_true (kind = kind)), (bool_decide_true (request = request)) in E by done. simpl in E.
  set (c1 := c <| co_request := request |>) in *.
  assert (capsule_operations (w_db w2) = <[k := c1]> (capsule_operations (w_db w))) as Em by (by rewrite Edb).
  assert (w1 = w2 /\ a = recorded_answer k c1 /\ s = []) as (-> & -> & ->).
  { unfold recorded_answer. change (co_state c1) with (co_state c).
    destruct (bool_decide (co_state c = Op.Failed)); injection E as <- <- <-; done. }
  split; [done|]. assert (cop_keys (capsule_operations (w_db w2))) as Hk2.
  { rewrite Em. apply cop_keys_insert; [done|]. intros j x Hj Hjk Ex. apply Hjk. eapply Hk; [exact Hj|exact Hc|exact Ex]. }
  apply (Hdone c1); [rewrite Em; apply lookup_insert_eq|done|].
  intros w3 E3. unfold same_cops in E3. apply capsule_op_replays; rewrite ?E3; try done. rewrite Em. apply lookup_insert_eq.
Qed.

(** A capsule request is worked on once. With a journal that answers, an export, an
    import or a deletion settles the row its key reserved, and answers what the row then
    says: DONE with the operation, or FAILED with its reason and message. The same request
    with the same key, at any later time until the rows of capsule operations change, is
    answered with the same operation or the same error, and neither the journal, the
    object store nor the substrate is touched again. A request that lacks its key, its
    manifest or its capsule is refused and does nothing. *)
Theorem capsule_requests_run_once req (w w1 : World) a s :
  (forall n, faults n = None) -> cop_keys (capsule_operations (w_db w)) ->
  capsule_operations (w_db w) !! names (w_names w) = None -> handle_capsule req w = (w1, (a, s)) ->
  s = [] /\
  if incomplete req then (exists msg, a = Err (plain InvalidArgument msg)) /\ untouched w w1
  else answered_once (capsule_request_key req) (handle_capsule req) w w1 a.
Proof.
  intros Hf Hk Hfresh.
  assert (forall kind request work, request <> empty_str -> idle work ->
    capsule_op clock faults names kind request (capsule_request_key req) work w = (w1, (a, s)) ->
    s = [] /\ answered_once (capsule_request_key req) (capsule_op clock faults names kind request (capsule_request_key req) work) w w1 a) as Hop.
  { intros kind request work Hne Hi E. destruct (capsule_op_of_key (capsule_request_key req) (w_db w)) as [[k c]|] eqn:Eo.
    - by eapply capsule_op_again.
    - by eapply capsule_op_begun. }
  assert (forall msg, [] = @nil Spawn /\
    ((exists m, @Err _ Operation (plain InvalidArgument msg) = Err (plain InvalidArgument m)) /\ untouched w w)) as Hplain.
  { intros msg. split; [done|]. split; [by eexists|done]. }
  assert (forall x y z, x +:+ ":" +:+ y <> empty_str /\ x +:+ ":" +:+ y +:+ ":" +:+ z <> empty_str) as Hs by (by intros [|? ?]).
  destruct req as [r|r|r]; unfold incomplete; cbn [handle_capsule capsule_request_key] in *.
  - unfold Service.export_capsule in *. destruct (is_empty _); [intros [= <- <- <-]; apply Hplain|].
    cbv zeta. by intros E%Hop; [|apply Hs|apply idle_export].
  - unfold Service.import_capsule in *. destruct (is_empty _); [intros [= <- <- <-]; apply Hplain|].
    destruct (ic_manifest r); cbn [ok_or]; [|intros [= <- <- <-]; apply Hplain].
    cbv zeta. by intros E%Hop; [|exact (proj1 (Hs _ _ empty_str))|apply idle_import].
  - unfold Service.delete_capsule in *. destruct (is_empty (dc_idempotency_key r)); [intros [= <- <- <-]; apply Hplain|].
    destruct (is_empty _); [intros [= <- <- <-]; apply Hplain|].
    cbv zeta. by intros E%Hop; [|exact (proj1 (Hs _ _ empty_str))|apply idle_delete].
Qed.
End Capsules.

(** * Examples *)

Definition any_id (_ : string) : res string unit := Ok tt.
Definition pinned_spec : InstanceSpec :=
  ex_spec <| template := Some {| oci := Some {| image := "img"; digest := "sha256:d" |}; runtime_bundle_ref := empty_str;
                                template_hash_field := empty_str; arch := empty_str |} |>.
Definition ex_create : Request :=
  RCreate {| ci_spec := Some pinned_spec; ci_idempotency_key := "key"; ci_require_hardware_isolation := false |}.
Definition ex_handled :=
  handle toy_runtime toy_sha "cpu" toy_clock no_faults toy_names toy_mint any_id (fun s => s) ex_create toy_world.

Lemma ex_handled_eq : ex_handled = (fst ex_handled, (fst (snd ex_handled), snd (snd ex_handled))).
Proof. by destruct ex_handled as [? [? ?]]. Qed.

(** A create is answered with the operation just journaled. *)
Lemma requests_answer_for_the_journal_witness :
  exists sp, snd (snd ex_handled) = [sp] /\ sp_kind sp = KCreate /\
    fst (snd ex_handled) = Ok (operation_row_to_proto (sp_op sp)) /\
    exists o, operations (w_db (fst ex_handled)) !! op_id (sp_op sp) = Some o /\ o_idempotency_key o = "key" /\
      o_instance_id o = instance_id pinned_spec /\ o_kind o = as_str KCreate.
Proof.
  pose proof (requests_answer_for_the_journal toy_runtime toy_sha "cpu" toy_clock no_faults toy_names toy_mint any_id (fun s => s)
    ex_create toy_world _ _ _ ex_handled_eq) as H.
  assert (exists sp, snd (snd ex_handled) = [sp] /\ sp_kind sp = KCreate) as (sp & Es & Ek) by (eexists; vm_compute; split; reflexivity).
  assert (exists op, fst (snd ex_handled) = Ok op) as [op Eo] by (eexists; vm_compute; reflexivity).
  rewrite Eo, Es in H. destruct H as [(kind & iid & p & Ha & [[H _]|(id & created & recorded & H & Ep & _ & _ & _ & Ei)]) _]; [discriminate H|].
  injection H as ->. exists (mkSpawn kind p (submitted_row kind iid id p created) recorded).
  split; [exact Es|]. split; [exact Ek|]. split; [rewrite Eo, Ep; reflexivity|].
  simpl in Ek. rewrite Ek in *. inversion Ha as [r spec Hspec Had Er Ekind Hi| | | | | | | | | | | |]. injection Hspec as <-.
  rewrite Ei. eexists. split; [apply lookup_insert_eq|]. split; [reflexivity|]. split; [symmetry; exact Hi|reflexivity].
Defined.

(** An alarm for one second after the epoch, on the instance of [toy_created]. *)
Definition ex_alarm : SetWakeRequest := {| sw_instance_id := "i"; sw_wake_at := Some {| seconds := 1; nanos := 500000000 |} |}.
Definition ex_set := set_wake toy_clock no_faults ex_alarm toy_created.
Lemma ex_set_eq : ex_set = (fst ex_set, (fst (snd ex_set), snd (snd ex_set))).
Proof. by destruct ex_set as [? [? ?]]. Qed.

Lemma alarms_are_set_exactly_witness :
  exists i, instances (w_db (fst ex_set)) !! "i" = Some i /\ i_wake_at_ms i = Some 1500.
Proof.
  destruct (alarms_are_set_exactly toy_clock no_faults ex_alarm toy_created _ _ _ ltac:(reflexivity) ex_set_eq) as [_ H].
  assert (exists a, fst (snd ex_set) = Ok a) as [a Ea] by (eexists; vm_compute; reflexivity).
  rewrite Ea in H. destruct H as (_ & _ & _ & _ & _ & i & i' & _ & Hi & Hw & _). exists i'. split; [exact Hi|].
  rewrite Hw. vm_compute. reflexivity.
Defined.

(** The create of [toy_submitted] is called off before its executor has begun. *)
Definition ex_cancel : CancelOperationRequest := {| co_op_id := "n0"; co_reason := "changed my mind" |}.
Definition ex_called_off := cancel_operation toy_clock no_faults ex_cancel toy_submitted.
Lemma ex_called_off_eq : ex_called_off = (fst ex_called_off, (fst (snd ex_called_off), snd (snd ex_called_off))).
Proof. by destruct ex_called_off as [? [? ?]]. Qed.

Lemma cancellation_answers_truly_witness :
  exists op o', fst (snd ex_called_off) = Ok op /\ po_error op = None /\
    operations (w_db (fst ex_called_off)) !! "n0" = Some o' /\ o_state o' = Op.Canceled /\ o_error_message o' = "changed my mind".
Proof.
  destruct (cancellation_answers_truly toy_clock no_faults ex_cancel toy_submitted _ _ _ ltac:(reflexivity) ex_called_off_eq) as (_ & _ & H).
  assert (exists op, fst (snd ex_called_off) = Ok op) as [op Ea] by (eexists; vm_compute; reflexivity).
  rewrite Ea in H. destruct H as (o & o' & _ & _ & Eo & Est & Em & _ & _ & Ep). exists op, o'.
  split; [exact Ea|]. split; [exact Ep|]. split; [rewrite Eo; apply lookup_insert_eq|]. split; [exact Est|exact Em].
Defined.

(** Deleting a capsule twice under one key. *)
Definition ex_delete : CapsuleRequest := CDelete {| dc_capsule_id := "c"; dc_idempotency_key := "key" |}.
Definition ex_deleted := handle_capsule toy_runtime no_bucket toy_sha "arch" "cpu" toy_clock no_faults toy_names ex_delete toy_world.
Lemma ex_deleted_eq : ex_deleted = (fst ex_deleted, (fst (snd ex_deleted), snd (snd ex_deleted))).
Proof. by destruct ex_deleted as [? [? ?]]. Qed.

Lemma capsule_requests_run_once_witness :
  (exists op, fst (snd ex_deleted) = Ok op /\ po_state op = 3) /\
  exists w3, handle_capsule toy_runtime no_bucket toy_sha "arch" "cpu" toy_clock no_faults toy_names ex_delete (fst ex_deleted) =
    (w3, (fst (snd ex_deleted), [])) /\ w_db w3 = w_db (fst ex_deleted).
Proof.
  destruct (capsule_requests_run_once toy_runtime no_bucket toy_sha "arch" "cpu" toy_clock no_faults toy_names ex_delete toy_world
    _ _ _ ltac:(reflexivity) ltac:(intros ? ? ? ? H; vm_compute in H; destruct k1; discriminate) ltac:(reflexivity) ex_deleted_eq)
    as [_ [_ H]].
  split; [eexists; vm_compute; split; reflexivity|].
  destruct (H (fst ex_deleted) (same_cops_refl _)) as (w3 & E & Hu & _). exists w3. split; [exact E|exact Hu].
Defined.

(** Restoring an imported capsule takes its specification from the request and does not
    ask admission: here one that demands mediated egress of a runtime without it. *)
Definition mediated_spec : InstanceSpec := pinned_spec <| egress := Some {| mediated := true; egress_mode := 0 |} |>.
Definition mediated_capsule : CapsuleRow :=
  mkCapsuleRow "c" {| schema_version := SCHEMA_VERSION; cm_cpu_class := "cpu"; cm_template_hash := template_hash_text toy_sha mediated_spec;
    cm_runtime_bundle_ref := rt_version toy_runtime; cm_kind := 1; cm_objects := []; cm_lineage_id := empty_str; architecture := empty_str;
    cm_created_at := None; required_restore_capabilities := [] |} CapsuleStorage.LocalDir 0 0.
Definition mediated_world : World (list string) unit :=
  toy_world <| w_db := insert_snapshot (imported_snapshot (cr_manifest mediated_capsule) "c" false 0 0) 0
                         (fst (register_capsule mediated_capsule empty_db)) |>.
Definition ex_restore : Request :=
  RFork {| fr_source_snapshot_id := imported_snapshot_id "c"; fr_target_instance_id := "not/a ulid"; fr_idempotency_key := "key";
           fr_require_cow := false; fr_target_spec := Some mediated_spec |}.
Lemma restore_skips_admission :
  (exists why, admit_spec any_id (fun s => s) mediated_spec false (rt_caps toy_runtime) (rt_name toy_runtime) =
     Err (missing why)) /\
  exists op, fst (snd (handle toy_runtime toy_sha "cpu" toy_clock no_faults toy_names toy_mint any_id (fun s => s) ex_restore mediated_world)) =
    Ok op /\ po_instance_id op = "not/a ulid".
Proof. split; eexists; vm_compute; [|split]; reflexivity. Qed.
