(* ===== verification/Watch.v ===== *)
(** Watching events: [replay_journal] and [watch_events] of
    src/crates/barista-node-agent/src/service.rs, beside the tasks that journal, broadcast
    and prune events (events.rs, db.rs, reconcile.rs).

    The task of a watch reads the journal and awaits in turns, so each of its steps meets
    whatever the other tasks left. *)

From S2P Require Import Prelude Proto Journal Events Service.

(** * The task *)

Definition EVENT_PAGE : Z := 256.

(** What the subscriber is sent. *)
Inductive Item : Type := Sent (ev : Event) | Failure (status : Status).

(** Where a watch is between two steps. [Paging] and [Sending] are [replay_journal]: about
    to read a page, and sending the rest of one that was the last or was not. *)
Inductive Watching : Type :=
| Absent
| Opening
| Refused (status : Status)
| Paging (last : Z)
| Sending (last : Z) (page : list Event) (exhausted : bool)
| Receiving (last : Z)
| Repairing (last : Z)
| Ended.

Definition cursor_too_old (from_cursor floor : Z) : Status :=
  status_with_reason FailedPrecondition ErrorReason.CursorTooOld
    ("cursor " +:+ pretty from_cursor +:+ " is older than this node's journal still holds (oldest " +:+
     "serviceable cursor is " +:+ pretty floor +:+ "); the events after it were deleted by " +:+
     "retention. Resynchronise with ListInstances and watch from now").
Definition fell_behind (last floor : Z) : Status :=
  status_with_reason FailedPrecondition ErrorReason.CursorTooOld
    ("this stream fell behind and retention deleted what it missed (cursor " +:+ pretty last +:+ ", oldest " +:+
     "serviceable " +:+ pretty floor +:+ "); resynchronise with ListInstances and watch again").

Section Task.
Context (from_cursor : Z) (filter_instance : string).

(** The handler, once subscribed: one read of the journal. *)
Definition watch_events (r : res string Db) : Watching :=
  match r with
  | Err e => Refused (internal e)
  | Ok db =>
      if from_cursor =? 0 then Receiving (head_cursor db)
      else
        let floor := journal_floor db in
        if from_cursor <? floor then Refused (cursor_too_old from_cursor floor) else Paging from_cursor
  end.

(** [replay_journal]: a page, read. *)
Definition read_page (last : Z) (r : res string Db) : Watching * list Item :=
  match r with
  | Err e => (Ended, [Failure (internal e)])
  | Ok db =>
      let page := events_after last filter_instance EVENT_PAGE db in
      (Sending last page (Z.of_nat (length page) <? EVENT_PAGE), [])
  end.

(** [replay_journal]: the next event of the page, unless the subscriber is gone. *)
Definition send_page (last : Z) (page : list Event) (exhausted alive : bool) : Watching * list Item :=
  match page with
  | [] => (if exhausted then Receiving last else Paging last, [])
  | ev :: rest => if alive then (Sending (ev_cursor ev) rest exhausted, [Sent ev]) else (Ended, [])
  end.

(** [live.recv()]: an event. *)
Definition receive (last : Z) (ev : Event) (alive : bool) : Watching * list Item :=
  if ev_cursor ev <=? last then (Receiving last, [])
  else if negb (is_empty filter_instance) && negb (bool_decide (ev_instance_id ev = filter_instance))
  then (Receiving last, [])
  else if alive then (Receiving (ev_cursor ev), [Sent ev]) else (Ended, []).

(** [live.recv()]: word that events were missed, and the floor read for it. *)
Definition repair (last : Z) (r : res string Db) : Watching * list Item :=
  match r with
  | Err e => (Ended, [Failure (internal e)])
  | Ok db =>
      let floor := journal_floor db in
      if last <? floor then (Ended, [Failure (fell_behind last floor)]) else (Paging last, [])
  end.
End Task.

(** * The node around it *)

(** The journal and the broadcast channel, a watch, and what only the proofs look at: every
    event ever journaled, where the watch began, and the cursors that retention deleted
    while a replay was between its floor and its last page. The channel is the list of all
    it carried; [position] is the receiver's place in it. *)
Record System := mkSystem {
  history : list EventCols;
  clock : Z;
  table : Db;
  emitting : option Event;
  bus : list Event;
  position : nat;
  watcher : Watching;
  delivered : list Item;
  began : Z;
  raced : list Z }.
#[global] Instance rebuild_System : Rebuild System := fun s =>
  mkSystem (history s) (clock s) (table s) (emitting s) (bus s) (position s) (watcher s) (delivered s) (began s) (raced s).

(** Some pages of a replay are still to be read. *)
Definition replaying (w : Watching) : bool :=
  match w with Paging _ => true | Sending _ _ exhausted => negb exhausted | _ => false end.

Definition becomes (x : Watching * list Item) (s : System) : System :=
  s <| watcher := fst x |> <| delivered := delivered s ++ snd x |>.

(** The cursors of the events of [db] that [db'] lacks. *)
Definition gone (db db' : Db) : list Z :=
  filter (fun c => c ∉ (e_cursor <$> events db')) (e_cursor <$> events db).

(** What reading the journal gives: it, or an error. *)
Inductive reads (db : Db) : res string Db -> Prop :=
| reads_ok : reads db (Ok db)
| reads_err e : reads db (Err e).

Section Node.
Context (from_cursor : Z) (iid : string).

(** A step of the node. [emit] holds a lock from its insertion to its broadcast, and its
    clock does not step back; a receiver that fell behind goes on at a later place. *)
Inductive node_step (s : System) : System -> Prop :=
| n_insert ev now row :
    emitting s = None -> clock s <= now -> event_seq (table s) < i64_max ->
    events (fst (insert_event ev now (table s))) = events (table s) ++ [row] ->
    node_step s (s <| table := fst (insert_event ev now (table s)) |> <| history := history s ++ [row] |>
                   <| clock := now |> <| emitting := Some (ev <| ev_cursor := snd (insert_event ev now (table s)) |>) |>)
| n_broadcast ev sent_at :
    emitting s = Some ev ->
    node_step s (s <| bus := bus s ++ [ev <| ev_at := Some (ts sent_at) |>] |> <| emitting := None |>)
| n_prune cutoff chunk :
    0 < chunk <= i64_max ->
    node_step s (s <| table := fst (prune_events cutoff chunk (table s)) |>
                   <| raced := raced s ++ (if replaying (watcher s)
                        then gone (table s) (fst (prune_events cutoff chunk (table s))) else []) |>)
| n_subscribe : watcher s = Absent -> node_step s (s <| watcher := Opening |> <| position := length (bus s) |>)
| n_open r :
    watcher s = Opening -> reads (table s) r ->
    node_step s (s <| watcher := watch_events from_cursor r |>
                   <| began := if from_cursor =? 0 then Z.max (head_cursor (table s)) (Z.of_nat (position s)) else from_cursor |>)
| n_page last r : watcher s = Paging last -> reads (table s) r -> node_step s (becomes (read_page iid last r) s)
| n_send last page exhausted alive :
    watcher s = Sending last page exhausted -> node_step s (becomes (send_page last page exhausted alive) s)
| n_receive last ev alive :
    watcher s = Receiving last -> bus s !! position s = Some ev ->
    node_step s (becomes (receive iid last ev alive) (s <| position := S (position s) |>))
| n_lag last p :
    watcher s = Receiving last -> (position s < p <= length (bus s))%nat ->
    node_step s (s <| watcher := Repairing last |> <| position := p |>)
| n_floor last r : watcher s = Repairing last -> reads (table s) r -> node_step s (becomes (repair last r) s)
| n_closed last : watcher s = Receiving last -> node_step s (s <| watcher := Ended |>).

(** Before the watch: any journal that appends and prunings with a clock that does not step
    back lead to. What an earlier process broadcast nobody here hears. *)
Inductive node_start : System -> Prop :=
| start_run t all db : run t all db -> Z.of_nat (length all) <= i64_max ->
    node_start (mkSystem all t db None (event_from <$> all) 0 Absent [] 0 []).
End Node.

(** * What was sent *)

Fixpoint sent_events (l : list Item) : list Event :=
  match l with
  | [] => []
  | Sent ev :: l => ev :: sent_events l
  | Failure _ :: l => sent_events l
  end.
Definition sent_cursors (s : System) : list Z := ev_cursor <$> sent_events (delivered s).

(** The event of a row, as subscribers get it: its time is read again for the broadcast. *)
Definition same_event (ev : Event) (e : EventCols) : Prop :=
  ev <| ev_at := None |> = (event_from e) <| ev_at := None |>.

(** Where the watch has come to, and how far its promise reaches: a watch that waits for
    the channel has dealt with all that the channel carried before its place. *)
Definition upto (s : System) : Z := default (began s) (last (sent_cursors s)).
Definition covered (s : System) : Z :=
  match watcher s with Receiving _ => Z.max (upto s) (Z.of_nat (position s)) | _ => upto s end.

(** What a watch is owed strictly above [a] and up to [b]. *)
Definition window (iid : string) (a b : Z) (all : list EventCols) : list EventCols :=
  filter (fun e => a < e_cursor e <= b /\ matches iid e) all.

Lemma sent_events_app l k : sent_events (l ++ k) = sent_events l ++ sent_events k.
Proof. induction l as [|[ev|st] l IH]; simpl; [done|by rewrite IH|done]. Qed.

Lemma sublist_sorted (l k : list Z) : l `sublist_of` k -> StronglySorted Z.lt k -> StronglySorted Z.lt l.
Proof.
  induction 1 as [|x l k Hs IH|x l k Hs IH]; intros Hk; [done|..]; apply StronglySorted_inv in Hk as [Hk Hf]; [|by apply IH].
  constructor; [by apply IH|]. eapply Forall_forall. intros y Hy. rewrite Forall_forall in Hf. apply Hf.
  by eapply sublist_subseteq.
Qed.

Lemma sorted_sublist_eq (l k : list Z) :
  l `sublist_of` k -> StronglySorted Z.lt k -> (forall c, c ∈ k -> c ∈ l) -> l = k.
Proof.
  induction 1 as [|x l k Hs IH|x l k Hs IH]; intros Hk Hin; [done|..]; apply StronglySorted_inv in Hk as [Hk Hf];
    rewrite Forall_forall in Hf.
  - f_equal. apply IH; [done|]. intros c Hc. specialize (Hin c ltac:(by right)). apply elem_of_cons in Hin as [->|?]; [|done].
    specialize (Hf _ Hc). lia.
  - exfalso. specialize (Hin x ltac:(by left)). eapply sublist_subseteq in Hin; [|done]. specialize (Hf _ Hin). lia.
Qed.

(** ** Histories *)

Section History.
Context (all : list EventCols) (iid : string).
Hypothesis indexed : forall i e, all !! i = Some e -> e_cursor e = Z.of_nat i + 1.

Lemma history_cursor e : e ∈ all -> 1 <= e_cursor e <= Z.of_nat (length all).
Proof. intros [i Hi]%list_elem_of_lookup_1. pose proof (lookup_lt_Some _ _ _ Hi). rewrite (indexed _ _ Hi). lia. Qed.

Lemma history_unique e e' : e ∈ all -> e' ∈ all -> e_cursor e = e_cursor e' -> e = e'.
Proof.
  intros [i Hi]%list_elem_of_lookup_1 [j Hj]%list_elem_of_lookup_1. rewrite (indexed _ _ Hi), (indexed _ _ Hj).
  intros E. assert (i = j) by lia. congruence.
Qed.

Lemma window_split a b c : a <= b <= c -> window iid a c all = window iid a b all ++ window iid b c all.
Proof.
  pose proof (indexed_sorted all indexed) as Hs. clear indexed. intros Hab. unfold window.
  induction Hs as [|x l Hs IH Hf]; [done|]. rewrite !filter_cons. destruct (decide (e_cursor x <= b)).
  - rewrite (decide_False (P := b < e_cursor x <= c /\ _)) by lia.
    assert (e_cursor x <= c) by lia. repeat case_decide; rewrite IH; (done || tauto).
  - rewrite IH, (filter_none (fun e => a < e_cursor e <= b /\ matches iid e) l).
    + rewrite (decide_False (P := a < e_cursor x <= b /\ _)) by lia. simpl.
      assert (a < e_cursor x) by lia. assert (b < e_cursor x) by lia. repeat case_decide; (done || tauto).
    + eapply Forall_impl; [exact Hf|]. unfold cursor_lt. simpl. lia.
Qed.

Lemma elem_window a b e : e ∈ window iid a b all <-> e ∈ all /\ a < e_cursor e <= b /\ matches iid e.
Proof. unfold window. rewrite list_elem_of_filter. tauto. Qed.

Lemma window_sorted a b : StronglySorted Z.lt (e_cursor <$> window iid a b all).
Proof.
  assert (StronglySorted cursor_lt (window iid a b all)) as Hs by apply sorted_filter, indexed_sorted, indexed.
  induction Hs as [|x l Hs IH Hf]; cbn [fmap list_fmap]; constructor; [done|]. by apply Forall_fmap.
Qed.

Lemma window_grow a b row :
  a = b \/ b <= Z.of_nat (length all) -> e_cursor row = Z.of_nat (length all) + 1 ->
  window iid a b (all ++ [row]) = window iid a b all.
Proof.
  intros Hb Hr. unfold window. rewrite filter_app, (filter_none _ [row]), app_nil_r; [done|].
  repeat constructor. lia.
Qed.
End History.

(** ** The invariant *)

(** Everything above [l] is still in the journal or was deleted during a replay. *)
Definition ahead (s : System) (l : Z) : Prop :=
  forall e, e ∈ history s -> l < e_cursor e -> e ∈ events (table s) \/ e_cursor e ∈ raced s.

(** The events owed above [a] and up to [b] are the [page]'s, or were deleted during a
    replay. *)
Definition accounted (iid : string) (s : System) (a b : Z) (page : list Event) : Prop :=
  forall e, e ∈ window iid a b (history s) -> e_cursor e ∈ (ev_cursor <$> page) \/ e_cursor e ∈ raced s.

(** What the stage of a watch rests on. *)
Definition stage_ok (iid : string) (s : System) : Prop :=
  match watcher s with
  | Absent | Opening | Refused _ => delivered s = []
  | Paging l => l = upto s /\ ahead s l
  | Sending l page exhausted =>
      l = upto s /\ StronglySorted Z.lt (l :: (ev_cursor <$> page)) /\
      Forall (fun ev => exists e, e ∈ history s /\ same_event ev e /\ matches iid e) page /\
      if exhausted
      then exists n, (position s <= n <= length (history s))%nat /\ Forall (fun ev => ev_cursor ev <= Z.of_nat n) page /\
             accounted iid s l (Z.of_nat n) page
      else let b := default l (last (ev_cursor <$> page)) in accounted iid s l b page /\ ahead s b
  | Receiving l =>
      l <= upto s <= Z.max l (Z.of_nat (position s)) /\ (l = upto s \/ l < last_pruned_cursor (table s)) /\
      accounted iid s (upto s) (Z.of_nat (position s)) []
  | Repairing l => l = upto s \/ l < last_pruned_cursor (table s)
  | Ended => True
  end.

Definition begun (w : Watching) : Prop :=
  match w with Absent | Opening | Refused _ => False | _ => True end.

Record watch_inv (from_cursor : Z) (iid : string) (s : System) : Prop := {
  wi_run : run (clock s) (history s) (table s);
  wi_bound : Z.of_nat (length (history s)) <= i64_max;
  wi_bus : (length (bus s) + match emitting s with Some _ => 1 | None => 0 end = length (history s))%nat;
  wi_heard : forall i ev, bus s !! i = Some ev -> exists e, history s !! i = Some e /\ same_event ev e;
  wi_emitting : forall ev, emitting s = Some ev -> exists e, history s !! length (bus s) = Some e /\ same_event ev e;
  wi_position : (position s <= length (bus s))%nat;
  wi_began : begun (watcher s) -> 0 <= began s <= i64_max /\ (from_cursor <> 0 -> began s = from_cursor);
  wi_upto : began s = upto s \/ upto s <= Z.of_nat (length (history s));
  wi_sent : Forall (fun ev => exists e, e ∈ history s /\ same_event ev e) (sent_events (delivered s));
  wi_order : sent_cursors s `sublist_of` (e_cursor <$> window iid (began s) (upto s) (history s));
  wi_gaps : forall e, e ∈ window iid (began s) (upto s) (history s) -> e_cursor e ∉ sent_cursors s -> e_cursor e ∈ raced s;
  wi_stage : stage_ok iid s }.

Section Invariant.
Context (from_cursor : Z) (iid : string).
Hypothesis from_small : 0 <= from_cursor <= i64_max.
#[local] Abbreviation inv := (watch_inv from_cursor iid).

Lemma inv_indexed s : inv s -> forall i e, history s !! i = Some e -> e_cursor e = Z.of_nat i + 1.
Proof. intros H. destruct (run_has_inv _ _ _ (wi_run _ _ _ H) (wi_bound _ _ _ H)) as [k Hk]. apply (ri_cursors _ _ _ _ Hk). Qed.

(** Above the floor nothing is missing. *)
Lemma inv_floor s : inv s ->
  journal_floor (table s) = last_pruned_cursor (table s) /\ events_ok (table s) /\
  (forall e, e ∈ history s -> last_pruned_cursor (table s) < e_cursor e -> e ∈ events (table s)) /\
  (forall e, e ∈ events (table s) -> e ∈ history s).
Proof.
  intros H. destruct (run_has_inv _ _ _ (wi_run _ _ _ H) (wi_bound _ _ _ H)) as [k Hk].
  rewrite (run_floor _ _ _ _ Hk (wi_bound _ _ _ H)). split_and!.
  - by rewrite (ri_pruned _ _ _ _ Hk).
  - exact (run_inv_ok _ _ _ _ Hk (wi_bound _ _ _ H)).
  - rewrite (ri_pruned _ _ _ _ Hk), (ri_events _ _ _ _ Hk). intros e [i Hi]%list_elem_of_lookup_1.
    rewrite (ri_cursors _ _ _ _ Hk _ _ Hi). intros Hlt. apply list_elem_of_lookup_2 with (i - k)%nat.
    rewrite lookup_drop. by replace (k + (i - k))%nat with i by lia.
  - rewrite (ri_events _ _ _ _ Hk). intros e [i Hi]%list_elem_of_lookup_1. rewrite lookup_drop in Hi.
    by eapply list_elem_of_lookup_2.
Qed.

Lemma same_event_cursor s ev e : inv s -> e ∈ history s -> same_event ev e ->
  ev_cursor ev = e_cursor e /\ ev_instance_id ev = e_instance_id e.
Proof.
  intros H He E. pose proof (f_equal ev_cursor E) as Ec. pose proof (f_equal ev_instance_id E) as Ei. simpl in Ec, Ei.
  split; [|done]. rewrite Ec. apply as_u64_small. pose proof (history_cursor _ (inv_indexed s H) _ He).
  pose proof (wi_bound _ _ _ H). lia.
Qed.

(** *** The other tasks *)

(** What they do to a watch: its stage stays, the history may grow, and what they take from
    the journal under a replay is recorded. *)
Record later (s s' : System) : Prop := {
  lt_watcher : watcher s' = watcher s;
  lt_delivered : delivered s' = delivered s;
  lt_began : began s' = began s;
  lt_position : position s' = position s;
  lt_history : exists new, history s' = history s ++ new /\ Forall (fun e => Z.of_nat (length (history s)) < e_cursor e) new;
  lt_raced : forall c, c ∈ raced s -> c ∈ raced s';
  lt_pruned : last_pruned_cursor (table s) <= last_pruned_cursor (table s');
  lt_ahead : replaying (watcher s) = true -> forall l, ahead s l -> ahead s' l }.

Lemma later_upto s s' : later s s' -> upto s' = upto s.
Proof. intros H. unfold upto, sent_cursors. by rewrite (lt_delivered _ _ H), (lt_began _ _ H). Qed.

Lemma later_window s s' a b :
  later s s' -> a = b \/ b <= Z.of_nat (length (history s)) -> window iid a b (history s') = window iid a b (history s).
Proof.
  intros H Hb. destruct (lt_history _ _ H) as (new & -> & Hn). unfold window.
  rewrite filter_app, (filter_none _ new), app_nil_r; [done|]. eapply Forall_impl; [exact Hn|]. simpl. lia.
Qed.

Lemma later_accounted s s' a b page :
  later s s' -> a = b \/ b <= Z.of_nat (length (history s)) -> accounted iid s a b page -> accounted iid s' a b page.
Proof.
  intros H Hb Ha e. rewrite (later_window s s') by done. intros [?|?]%Ha; [by left|right]. by apply (lt_raced _ _ H).
Qed.

Lemma later_elem s s' e : later s s' -> e ∈ history s -> e ∈ history s'.
Proof. intros H He. destruct (lt_history _ _ H) as (new & -> & _). apply elem_of_app. by left. Qed.

Lemma later_length s s' : later s s' -> (length (history s) <= length (history s'))%nat.
Proof. intros H. destruct (lt_history _ _ H) as (new & -> & _). rewrite length_app. lia. Qed.

(** The last cursor of a page is no later than the history. *)
Lemma page_end s l page :
  inv s -> Forall (fun ev => exists e, e ∈ history s /\ same_event ev e /\ matches iid e) page ->
  l = default l (last (ev_cursor <$> page)) \/ default l (last (ev_cursor <$> page)) <= Z.of_nat (length (history s)).
Proof.
  intros Hi Hp. rewrite fmap_last. destruct (last page) as [ev|] eqn:E; simpl; [right|by left].
  apply last_Some_elem_of in E. rewrite Forall_forall in Hp. destruct (Hp _ E) as (e & He & Hse & _).
  rewrite (proj1 (same_event_cursor s ev e Hi He Hse)). apply (history_cursor _ (inv_indexed s Hi) _ He).
Qed.

Lemma later_stage s s' : inv s -> later s s' -> stage_ok iid s'.
Proof.
  intros Hi H. pose proof (wi_stage _ _ _ Hi) as Hs. pose proof (wi_position _ _ _ Hi) as Hp. pose proof (wi_bus _ _ _ Hi) as Hb.
  pose proof (lt_ahead _ _ H) as Ha. unfold stage_ok in *.
  rewrite (lt_watcher _ _ H), (lt_delivered _ _ H), (later_upto _ _ H), ?(lt_position _ _ H).
  destruct (watcher s) as [| | |l|l page [|]|l|l|] eqn:Ew; try done; simpl in Ha.
  - destruct Hs as [-> Hs]. split; [done|]. by apply Ha.
  - destruct Hs as (-> & Hso & Hf & n & Hn & Hle & Hac). split_and!; try done.
    + eapply Forall_impl; [exact Hf|]. simpl. intros ev (e & He & ?). exists e. split; [by eapply later_elem|done].
    + exists n. pose proof (later_length _ _ H). split_and!; [lia|lia|done|]. eapply later_accounted; [done|right; lia|done].
  - destruct Hs as (Hl & Hso & Hf & Hac & Hah). split_and!; try done.
    + eapply Forall_impl; [exact Hf|]. simpl. intros ev (e & He & ?). exists e. split; [by eapply later_elem|done].
    + eapply later_accounted; [done|by apply page_end|done].
    + by apply Ha.
  - destruct Hs as (? & Hl & Hac). split_and!; [lia|lia| |].
    + destruct Hl; [by left|right]. pose proof (lt_pruned _ _ H). lia.
    + eapply later_accounted; [done| |done]. right. lia.
  - destruct Hs; [by left|right]. pose proof (lt_pruned _ _ H). lia.
Qed.

Lemma later_inv s s' : inv s -> later s s' ->
  run (clock s') (history s') (table s') -> Z.of_nat (length (history s')) <= i64_max ->
  (length (bus s') + match emitting s' with Some _ => 1 | None => 0 end = length (history s'))%nat ->
  (forall i ev, bus s' !! i = Some ev -> exists e, history s' !! i = Some e /\ same_event ev e) ->
  (forall ev, emitting s' = Some ev -> exists e, history s' !! length (bus s') = Some e /\ same_event ev e) ->
  (length (bus s) <= length (bus s'))%nat -> inv s'.
Proof.
  intros Hi H Hrun Hbd Hbus Hheard Hem Hle. pose proof (later_stage _ _ Hi H) as Hst.
  pose proof (later_window s s' (began s) (upto s) H (wi_upto _ _ _ Hi)) as Hw.
  pose proof (later_upto _ _ H) as Hu. pose proof (lt_began _ _ H) as Hbg. pose proof (lt_delivered _ _ H) as Hd.
  split; try done.
  - rewrite (lt_position _ _ H). pose proof (wi_position _ _ _ Hi). lia.
  - rewrite (lt_watcher _ _ H), Hbg. apply (wi_began _ _ _ Hi).
  - rewrite Hu, Hbg. pose proof (later_length _ _ H). destruct (wi_upto _ _ _ Hi); [by left|right; lia].
  - rewrite Hd. eapply Forall_impl; [exact (wi_sent _ _ _ Hi)|]. simpl. intros ev (e & He & ?).
    exists e. split; [by eapply later_elem|done].
  - rewrite Hu, Hbg, Hw. unfold sent_cursors. rewrite Hd. apply (wi_order _ _ _ Hi).
  - rewrite Hu, Hbg, Hw. unfold sent_cursors. rewrite Hd. intros e He Hn. apply (lt_raced _ _ H). by apply (wi_gaps _ _ _ Hi).
Qed.

Lemma insert_keeps s ev now row :
  inv s -> emitting s = None -> clock s <= now -> event_seq (table s) < i64_max ->
  events (fst (insert_event ev now (table s))) = events (table s) ++ [row] ->
  inv (s <| table := fst (insert_event ev now (table s)) |> <| history := history s ++ [row] |>
         <| clock := now |> <| emitting := Some (ev <| ev_cursor := snd (insert_event ev now (table s)) |>) |>).
Proof.
  intros Hi Hem Hnow Hseq Hrow. destruct (run_has_inv _ _ _ (wi_run _ _ _ Hi) (wi_bound _ _ _ Hi)) as [k Hk].
  pose proof (ri_seq _ _ _ _ Hk) as Hlen. pose proof (wi_bus _ _ _ Hi) as Hb. rewrite Hem in Hb.
  pose proof (f_equal last Hrow) as Hr. unfold insert_event in Hr. simpl in Hr. rewrite !last_snoc in Hr. injection Hr as Hr.
  apply (later_inv s); simpl; try done.
  - split; simpl; try done.
    + exists [row]. split; [done|]. rewrite <- Hr. repeat constructor. simpl. lia.
    + intros _ l Ha e [He|He%list_elem_of_singleton]%elem_of_app Hl; simpl in *.
      * destruct (Ha e He Hl); [left|by right]. apply elem_of_app. by left.
      * left. subst e. apply elem_of_app. right. rewrite <- Hr. by left.
  - by apply run_insert with (clock s); [apply Hi|..].
  - rewrite length_app. simpl. lia.
  - rewrite length_app. simpl. lia.
  - intros i x Hx. destruct (wi_heard _ _ _ Hi i x Hx) as (e & He & ?). exists e. split; [by apply lookup_app_l_Some|done].
  - intros x [= <-]. exists row. split; [apply list_lookup_middle; lia|]. rewrite <- Hr. unfold same_event.
    by destruct ev as [? ? ? ? ? ? ? [[? ? ?]|]].
Qed.

Lemma broadcast_keeps s ev sent_at :
  inv s -> emitting s = Some ev -> inv (s <| bus := bus s ++ [ev <| ev_at := Some (ts sent_at) |>] |> <| emitting := None |>).
Proof.
  intros Hi Hem. pose proof (wi_bus _ _ _ Hi) as Hb. rewrite Hem in Hb.
  apply (later_inv s); simpl; try done; try apply Hi.
  - split; simpl; try done. exists []. by rewrite app_nil_r.
  - rewrite length_app. simpl. lia.
  - intros i x [Hx|[Hge [Hx <-]%list_lookup_singleton_Some]]%lookup_app_Some; [by apply (wi_heard _ _ _ Hi)|].
    replace i with (length (bus s)) by lia. destruct (wi_emitting _ _ _ Hi ev Hem) as (e & He & Hs). exists e. by split.
  - rewrite length_app. lia.
Qed.

Lemma prune_keeps s cutoff chunk :
  inv s -> 0 < chunk <= i64_max ->
  inv (s <| table := fst (prune_events cutoff chunk (table s)) |>
         <| raced := raced s ++ (if replaying (watcher s) then gone (table s) (fst (prune_events cutoff chunk (table s))) else []) |>).
Proof.
  intros Hi Hc. destruct (inv_floor s Hi) as (_ & Hok & _ & Hin).
  destruct (prune_events_spec cutoff chunk (table s) Hok Hc) as (He & _ & _ & _ & Hl & _).
  apply (later_inv s); simpl; try done; try apply Hi.
  - split; simpl; try done.
    + exists []. by rewrite app_nil_r.
    + intros c ?. apply elem_of_app. by left.
    + rewrite Hl. lia.
    + intros Hr l Ha e He' Hlt. destruct (Ha e He' Hlt) as [Hev|Hrc]; simpl in *; [|right; apply elem_of_app; by left].
      rewrite Hr. destruct (decide (e_cursor e ∈ (e_cursor <$> events (fst (prune_events cutoff chunk (table s)))))) as [Hx|Hx].
      * left. apply list_elem_of_fmap in Hx as (e' & Hc' & Hx). pose proof Hx as Hx'. rewrite He in Hx'.
        apply list_elem_of_filter in Hx' as [_ Hx'].
        by rewrite (history_unique _ (inv_indexed s Hi) e e' He' (Hin _ Hx') Hc').
      * right. apply elem_of_app. right. unfold gone. apply list_elem_of_filter. split; [done|]. by apply list_elem_of_fmap_2.
  - by apply run_prune; [apply Hi|].
Qed.

(** *** The watch itself *)

(** Its steps leave the node alone. *)
Record own_step (s s' : System) : Prop := {
  os_history : history s' = history s;
  os_clock : clock s' = clock s;
  os_table : table s' = table s;
  os_emitting : emitting s' = emitting s;
  os_bus : bus s' = bus s;
  os_raced : raced s' = raced s;
  os_position : (position s <= position s' <= length (bus s))%nat }.

Lemma upto_quiet s s' : began s' = began s -> sent_events (delivered s') = sent_events (delivered s) -> upto s' = upto s.
Proof. intros Hb Hd. unfold upto, sent_cursors. by rewrite Hb, Hd. Qed.

Lemma quiet_keeps s s' :
  inv s -> own_step s s' -> began s' = began s -> sent_events (delivered s') = sent_events (delivered s) ->
  (begun (watcher s') -> begun (watcher s)) -> stage_ok iid s' -> inv s'.
Proof.
  intros Hi [Eh Ec Et Ee Eb Er Ep] Hbg Hd Hw Hst.
  assert (sent_cursors s' = sent_cursors s) as Hsc by (unfold sent_cursors; by rewrite Hd).
  pose proof (upto_quiet s s' Hbg Hd) as Hu.
  split; rewrite ?Eh, ?Ec, ?Et, ?Ee, ?Eb, ?Er, ?Hbg, ?Hu, ?Hsc, ?Hd; try apply Hi; try done; [lia|].
  intros H%Hw. by apply (wi_began _ _ _ Hi).
Qed.

Lemma upto_sent s s' ev : sent_events (delivered s') = sent_events (delivered s) ++ [ev] -> upto s' = ev_cursor ev.
Proof. intros E. unfold upto, sent_cursors. rewrite E, fmap_app. cbn [fmap list_fmap]. by rewrite last_snoc. Qed.

(** Sending the next event owed. *)
Lemma deliver_keeps s s' ev e :
  inv s -> own_step s s' -> began s' = began s -> sent_events (delivered s') = sent_events (delivered s) ++ [ev] ->
  begun (watcher s) -> e ∈ history s -> same_event ev e -> matches iid e -> began s <= upto s < e_cursor e ->
  (forall e', e' ∈ window iid (upto s) (e_cursor e - 1) (history s) -> e_cursor e' ∈ raced s) ->
  stage_ok iid s' -> inv s'.
Proof.
  intros Hi [Eh Ec Et Ee Eb Er Ep] Hbg Hd Hw He Hse Hm Hlt Hgap Hst.
  pose proof (inv_indexed s Hi) as Hidx. destruct (same_event_cursor s ev e Hi He Hse) as [Hcur _].
  assert (sent_cursors s' = sent_cursors s ++ [e_cursor e]) as Hsc
    by (unfold sent_cursors; rewrite Hd, fmap_app; cbn [fmap list_fmap]; by rewrite Hcur).
  assert (upto s' = e_cursor e) as Hu by (rewrite (upto_sent s s' ev Hd); done).
  pose proof (history_cursor _ Hidx _ He) as Hr.
  assert (window iid (began s) (e_cursor e) (history s) =
    window iid (began s) (upto s) (history s) ++ window iid (upto s) (e_cursor e - 1) (history s) ++
    window iid (e_cursor e - 1) (e_cursor e) (history s)) as Hsplit.
  { rewrite (window_split _ iid Hidx _ (upto s)), (window_split _ iid Hidx (upto s) (e_cursor e - 1)) by lia. done. }
  assert (e ∈ window iid (e_cursor e - 1) (e_cursor e) (history s)) as Hin by (apply elem_window; split_and!; (done || lia)).
  split; rewrite ?Eh, ?Ec, ?Et, ?Ee, ?Eb, ?Er, ?Hbg, ?Hu, ?Hsc, ?Hd; try apply Hi; try done; [lia|intros _; by apply (wi_began _ _ _ Hi)|right; lia|..].
  - apply Forall_app. split; [apply Hi|]. repeat constructor. eauto.
  - rewrite Hsplit, !fmap_app. apply sublist_app; [apply Hi|]. apply sublist_inserts_l.
    apply singleton_sublist_l. by apply list_elem_of_fmap_2.
  - intros x. rewrite Hsplit, !elem_of_app, list_elem_of_singleton. intros [Hx|[Hx|Hx]] Hn.
    + apply (wi_gaps _ _ _ Hi); tauto.
    + by apply Hgap.
    + exfalso. apply elem_window in Hx as (Hx & Hb & _). apply Hn. right. lia.
Qed.

Lemma began_upto s : inv s -> began s <= upto s.
Proof.
  intros Hi. unfold upto. destruct (last (sent_cursors s)) as [c|] eqn:E; simpl; [|lia].
  apply last_Some_elem_of in E. eapply sublist_subseteq in E; [|exact (wi_order _ _ _ Hi)].
  apply list_elem_of_fmap in E as (e & -> & (_ & ? & _)%elem_window). lia.
Qed.

Lemma fresh_upto s : delivered s = [] -> upto s = began s /\ sent_cursors s = [].
Proof. intros E. unfold upto, sent_cursors. by rewrite E. Qed.

Lemma window_empty a b l : b <= a -> window iid a b l = [].
Proof. intros. apply filter_none, Forall_forall. intros. lia. Qed.

(** Where a watch may begin. *)
Lemma open_stage s r :
  inv s -> watcher s = Opening -> reads (table s) r ->
  let s' := s <| watcher := watch_events from_cursor r |>
              <| began := if from_cursor =? 0 then Z.max (head_cursor (table s)) (Z.of_nat (position s)) else from_cursor |> in
  stage_ok iid s' /\ 0 <= began s' <= i64_max.
Proof.
  intros Hi Hw Hr. pose proof (wi_stage _ _ _ Hi) as Hd. unfold stage_ok in Hd. rewrite Hw in Hd.
  destruct (inv_floor s Hi) as (Hfl & Hok & Hab & Hin). pose proof (wi_position _ _ _ Hi). pose proof (wi_bus _ _ _ Hi).
  pose proof (wi_bound _ _ _ Hi). destruct (run_has_inv _ _ _ (wi_run _ _ _ Hi) (wi_bound _ _ _ Hi)) as [k Hk].
  pose proof (ri_events _ _ _ _ Hk) as Hev. pose proof (ri_pruned _ _ _ _ Hk) as Hpr. pose proof (ri_k _ _ _ _ Hk) as Hkl.
  intros s'. assert (upto s' = began s') as Hu by (apply fresh_upto; exact Hd).
  assert (head_cursor (table s) = if decide (k = length (history s)) then 0 else Z.of_nat (length (history s))) as Hh.
  { unfold head_cursor. rewrite max_cursor_sorted by apply Hok. rewrite Hev. case_decide as E.
    - rewrite drop_ge by lia. done.
    - rewrite last_lookup, length_drop, lookup_drop.
      destruct (history s !! (k + pred (length (history s) - k))%nat) as [e|] eqn:Ee; [|apply lookup_ge_None in Ee; lia].
      simpl. rewrite (ri_cursors _ _ _ _ Hk _ _ Ee), as_u64_small; lia. }
  split; [|subst s'; simpl; destruct (from_cursor =? 0); [rewrite Hh; case_decide; lia|lia]].
  unfold stage_ok. rewrite Hu. subst s'. simpl. destruct Hr as [|e]; simpl; [|done].
  destruct (Z.eqb_spec from_cursor 0) as [E|E].
  - split_and!; [lia|lia| |].
    + rewrite Hh, Hpr. case_decide; lia.
    + intros x. simpl. rewrite window_empty by lia. by intros ?%not_elem_of_nil.
  - destruct (Z.ltb_spec from_cursor (journal_floor (table s))); [done|]. split; [done|].
    intros x Hx Hlt. left. apply Hab; [done|]. simpl in *. lia.
Qed.

Lemma open_keeps s r :
  inv s -> watcher s = Opening -> reads (table s) r ->
  inv (s <| watcher := watch_events from_cursor r |>
         <| began := if from_cursor =? 0 then Z.max (head_cursor (table s)) (Z.of_nat (position s)) else from_cursor |>).
Proof.
  intros Hi Hw Hr. destruct (open_stage s r Hi Hw Hr) as [Hst Hb].
  pose proof (wi_stage _ _ _ Hi) as Hd. unfold stage_ok in Hd. rewrite Hw in Hd.
  set (s' := s <| watcher := _ |> <| began := _ |>) in *.
  destruct (fresh_upto s' Hd) as [Hu Hsc]. split; rewrite ?Hu, ?Hsc; try apply Hi; try done.
  - intros _. split; [done|]. intros Hn. subst s'. simpl. destruct (Z.eqb_spec from_cursor 0); [lia|done].
  - by left.
  - apply sublist_nil_l.
  - intros e. rewrite window_empty by lia. by intros ?%not_elem_of_nil.
Qed.

Ltac own := split; simpl; (done || lia).


(** What a page holds of all that is pending. *)
Lemma page_cursors s (rows : list EventCols) :
  inv s -> (forall e, e ∈ rows -> e ∈ history s) -> ev_cursor <$> (event_from <$> rows) = e_cursor <$> rows.
Proof.
  intros Hi Hr. rewrite <- list_fmap_compose. apply list_fmap_ext. intros i e He%list_elem_of_lookup_2. simpl.
  apply (same_event_cursor s (event_from e) e Hi); [by apply Hr|done].
Qed.

Lemma pending_sorted s l : inv s -> StronglySorted Z.lt (l :: (e_cursor <$> pending_after l iid (events (table s)))).
Proof.
  intros Hi. destruct (inv_floor s Hi) as (_ & Hok & _ & _).
  assert (StronglySorted cursor_lt (pending_after l iid (events (table s)))) as Hs by apply sorted_filter, Hok.
  constructor; [|apply Forall_fmap, Forall_forall; by intros e [[? _] _]%list_elem_of_filter].
  induction Hs as [|e k Hs IH Hf]; cbn [fmap list_fmap]; constructor; [done|]. by apply Forall_fmap.
Qed.

Lemma page_accounted s l rows rest b :
  inv s -> ahead s l -> pending_after l iid (events (table s)) = rows ++ rest ->
  (forall e, e ∈ rest -> b < e_cursor e) -> accounted iid s l b (event_from <$> rows).
Proof.
  intros Hi Ha Hp Hb e (He & Hlt & Hm)%elem_window. destruct (Ha e He) as [Hev|]; [lia| |by right]. left.
  assert (e ∈ rows ++ rest) as [Hr|Hr%Hb]%elem_of_app; [|..|lia].
  - rewrite <- Hp. apply list_elem_of_filter. split; [|done]. split; [lia|done].
  - destruct (inv_floor s Hi) as (_ & _ & _ & Hin). rewrite (page_cursors s); [by apply list_elem_of_fmap_2|done|].
    intros x Hx. apply Hin. assert (x ∈ pending_after l iid (events (table s))) as [_ ?]%list_elem_of_filter; [|done].
    rewrite Hp. apply elem_of_app. by left.
Qed.

Lemma page_stage s l :
  inv s -> ahead s l -> 0 <= l <= i64_max ->
  let page := events_after l iid EVENT_PAGE (table s) in
  StronglySorted Z.lt (l :: (ev_cursor <$> page)) /\
  Forall (fun ev => exists e, e ∈ history s /\ same_event ev e /\ matches iid e) page /\
  if Z.of_nat (length page) <? EVENT_PAGE
  then accounted iid s l (Z.of_nat (length (history s))) page
  else let b := default l (last (ev_cursor <$> page)) in accounted iid s l b page /\ ahead s b.
Proof.
  intros Hi Ha Hl page. destruct (inv_floor s Hi) as (_ & Hok & _ & Hin).
  set (pend := pending_after l iid (events (table s))). set (rows := take (Z.to_nat EVENT_PAGE) pend).
  assert (page = event_from <$> rows) as -> by (by apply events_after_page).
  assert (pend = rows ++ drop (Z.to_nat EVENT_PAGE) pend) as Hsplit by (symmetry; apply take_drop).
  assert (forall e, e ∈ rows -> e ∈ pend) as Hrp by (intros e He; rewrite Hsplit; apply elem_of_app; by left).
  assert (forall e, e ∈ pend -> e ∈ history s /\ matches iid e) as Hph
    by (intros e [[_ ?] ?%Hin]%list_elem_of_filter; done).
  rewrite (page_cursors s) by (try done; intros e He%Hrp; by apply Hph).
  pose proof (pending_sorted s l Hi) as Hs. fold pend in Hs. rewrite Hsplit, fmap_app in Hs.
  change (StronglySorted Z.lt ((l :: (e_cursor <$> rows)) ++ (e_cursor <$> drop (Z.to_nat EVENT_PAGE) pend))) in Hs.
  apply StronglySorted_app in Hs as (Hlt & Hs & _). split_and!; [done| |].
  { apply Forall_fmap, Forall_forall. intros e He%Hrp. destruct (Hph e He). by exists e. }
  rewrite length_fmap. destruct (Z.ltb_spec (Z.of_nat (length rows)) EVENT_PAGE) as [Hlen|Hlen].
  - apply (page_accounted s l rows []); [done|done| |by intros ? ?%not_elem_of_nil].
    unfold rows in Hlen. rewrite length_take in Hlen. rewrite app_nil_r. unfold rows. rewrite take_ge; [done|lia].
  - destruct (last (e_cursor <$> rows)) as [b|] eqn:Eb; simpl.
    2: { apply last_None, fmap_nil_inv in Eb. rewrite Eb in Hlen. done. }
    apply last_Some_elem_of in Eb. split.
    + apply (page_accounted s l rows (drop (Z.to_nat EVENT_PAGE) pend)); [done..|]. intros e He. apply Hlt; [by right|by apply list_elem_of_fmap_2].
    + assert (l < b) by (apply StronglySorted_inv in Hs as [_ Hs]; rewrite Forall_forall in Hs; by apply Hs).
      intros e He Hb. apply Ha; [done|lia].
Qed.

Lemma stage_bounds s l : inv s -> begun (watcher s) -> l = upto s -> 0 <= l <= i64_max.
Proof.
  intros Hi Hw ->. pose proof (began_upto s Hi). destruct (wi_began _ _ _ Hi Hw) as [Hb _].
  pose proof (wi_bound _ _ _ Hi). destruct (wi_upto _ _ _ Hi); lia.
Qed.

Lemma page_keeps s l r : inv s -> watcher s = Paging l -> reads (table s) r -> inv (becomes (read_page iid l r) s).
Proof.
  intros Hi Hw Hr. pose proof (wi_stage _ _ _ Hi) as Hs. unfold stage_ok in Hs. rewrite Hw in Hs. destruct Hs as [Hl Ha].
  pose proof (wi_position _ _ _ Hi). pose proof (wi_bus _ _ _ Hi).
  assert (0 <= l <= i64_max) as Hlm by (apply (stage_bounds s); [done|by rewrite Hw|done]).
  apply (quiet_keeps s); [done|own|done| |by rewrite Hw|]; destruct Hr as [|e]; cbn; rewrite ?app_nil_r; try done;
    [by rewrite sent_events_app, app_nil_r|].
  destruct (page_stage s l Hi Ha Hlm) as (H1 & H2 & H3). unfold stage_ok. simpl. split_and!; [|done|done|].
  - rewrite Hl. symmetry. by apply upto_quiet.
  - destruct (_ <? _); [|exact H3]. exists (length (history s)). split_and!; [simpl; lia|simpl; lia| |exact H3].
    eapply Forall_impl; [exact H2|]. simpl. intros ev (e & He & Hse & _). rewrite (proj1 (same_event_cursor s ev e Hi He Hse)).
    apply (history_cursor _ (inv_indexed s Hi) _ He).
Qed.

(** Sending one event of a page; the rest of the page stays owed. *)
Lemma accounted_rest s s' l ev page b :
  inv s -> history s' = history s -> raced s' = raced s -> StronglySorted Z.lt (l :: (ev_cursor <$> ev :: page)) ->
  accounted iid s l b (ev :: page) -> accounted iid s' (ev_cursor ev) b page.
Proof.
  intros Hi Eh Er Hs Ha e. rewrite Eh, Er. intros (He & Hlt & Hm)%elem_window.
  apply StronglySorted_inv in Hs as [_ Hs]. cbn [fmap list_fmap] in Hs. apply Forall_cons in Hs as [? _].
  destruct (Ha e) as [Hp|]; [apply elem_window; split_and!; (done || lia)| |by right].
  cbn [fmap list_fmap] in Hp. apply elem_of_cons in Hp as [?|?]; [lia|by left].
Qed.

(** Between two neighbours of a page nothing else is owed. *)
Lemma accounted_gap s l ev e page b :
  StronglySorted Z.lt (l :: (ev_cursor <$> ev :: page)) -> ev_cursor ev = e_cursor e -> e_cursor e <= b ->
  accounted iid s l b (ev :: page) ->
  forall e', e' ∈ window iid l (e_cursor e - 1) (history s) -> e_cursor e' ∈ raced s.
Proof.
  intros Hs Hc Hb Ha e' (He & Hlt & Hm)%elem_window. apply StronglySorted_inv in Hs as [Hs _].
  cbn [fmap list_fmap] in Hs. apply StronglySorted_inv in Hs as [_ Hs]. rewrite Forall_forall in Hs.
  destruct (Ha e') as [Hp|]; [apply elem_window; split_and!; (done || lia)| |done].
  cbn [fmap list_fmap] in Hp. apply elem_of_cons in Hp as [?|?%Hs]; lia.
Qed.

Lemma page_sorted l ev page :
  StronglySorted Z.lt (l :: (ev_cursor <$> ev :: page)) ->
  l < ev_cursor ev /\ StronglySorted Z.lt (ev_cursor ev :: (ev_cursor <$> page)) /\
  ev_cursor ev <= default l (last (ev_cursor <$> ev :: page)) /\
  default l (last (ev_cursor <$> ev :: page)) = default (ev_cursor ev) (last (ev_cursor <$> page)).
Proof.
  cbn [fmap list_fmap]. intros [Hs Hf]%StronglySorted_inv. apply Forall_cons in Hf as [? _].
  assert (default l (last (ev_cursor ev :: (ev_cursor <$> page))) = default (ev_cursor ev) (last (ev_cursor <$> page))) as E.
  { rewrite last_cons. by destruct (last (ev_cursor <$> page)). }
  split_and!; [done|done| |exact E]. etransitivity; [|rewrite E; reflexivity].
  apply StronglySorted_inv in Hs as [_ Hf]. rewrite Forall_forall in Hf.
  destruct (last (ev_cursor <$> page)) as [b|] eqn:Eb; simpl; [|lia]. apply last_Some_elem_of in Eb. specialize (Hf _ Eb). lia.
Qed.

Lemma send_rest_stage s s' l ev page ex :
  inv s -> watcher s = Sending l (ev :: page) ex -> own_step s s' -> position s' = position s ->
  watcher s' = Sending (ev_cursor ev) page ex -> upto s' = ev_cursor ev -> stage_ok iid s'.
Proof.
  intros Hi Hw [Eh _ Et _ _ Er _] Ep Hw' Hu. pose proof (wi_stage _ _ _ Hi) as Hs. unfold stage_ok in *.
  rewrite Hw in Hs. rewrite Hw', Hu. destruct Hs as (Hl & Hso & Hf & Hx).
  destruct (page_sorted _ _ _ Hso) as (_ & Hso' & _ & Hb). apply Forall_cons in Hf as [_ Hf]. rewrite Eh, Ep.
  split_and!; [done..|]. destruct ex.
  - destruct Hx as (n & Hn & Hle & Ha). apply Forall_cons in Hle as [_ Hle]. exists n. split_and!; [lia|lia|done|].
    by eapply accounted_rest.
  - destruct Hx as [Ha Hah]. rewrite <- Hb. split; [by eapply accounted_rest|].
    intros e. rewrite Eh, Et, Er. apply Hah.
Qed.

Lemma send_keeps s l page ex alive :
  inv s -> watcher s = Sending l page ex -> inv (becomes (send_page l page ex alive) s).
Proof.
  intros Hi Hw. pose proof (wi_stage _ _ _ Hi) as Hs. unfold stage_ok in Hs. rewrite Hw in Hs.
  destruct Hs as (Hl & Hso & Hf & Hx). pose proof (wi_position _ _ _ Hi). pose proof (wi_bus _ _ _ Hi).
  destruct page as [|ev page]; [|destruct alive]; cbn [send_page].
  - apply (quiet_keeps s); [done|own|done|simpl; by rewrite app_nil_r|by rewrite Hw|].
    assert (upto (becomes (if ex then Receiving l else Paging l, []) s) = upto s) as Hu
      by (apply upto_quiet; [done|simpl; by rewrite app_nil_r]).
    unfold stage_ok. rewrite Hu. simpl. destruct ex.
    + destruct Hx as (n & Hn & _ & Ha). split_and!; [lia|lia|by left|]. rewrite <- Hl. intros e (He & Hlt & Hm)%elem_window.
      simpl in *. apply Ha. apply elem_window. split_and!; (done || lia).
    + split; [done|]. exact (proj2 Hx).
  - pose proof Hf as Hf'. apply Forall_cons in Hf' as [(e & He & Hse & Hm) _]. destruct (same_event_cursor s ev e Hi He Hse) as [Hcur _].
    destruct (page_sorted _ _ _ Hso) as (Hlt & _ & Hb & _).
    assert (begun (watcher s)) as Hbg by (by rewrite Hw). pose proof (began_upto s Hi).
    assert (sent_events (delivered (becomes (Sending (ev_cursor ev) page ex, [Sent ev]) s)) = sent_events (delivered s) ++ [ev]) as Hd
      by (simpl; by rewrite sent_events_app).
    apply (deliver_keeps s _ ev e); try done; [lia| |].
    + rewrite <- Hl. destruct ex as [|].
      * destruct Hx as (n & _ & Hle & Ha). apply Forall_cons in Hle as [? _]. apply (accounted_gap s l ev e page (Z.of_nat n)); (done || lia).
      * destruct Hx as [Ha _]. eapply accounted_gap; [done|done| |done]. lia.
    + eapply send_rest_stage; [done|done|own|done|done|]. by apply (upto_sent s).
  - apply (quiet_keeps s); [done|own|done|simpl; by rewrite app_nil_r|by rewrite Hw|done].
Qed.

Lemma receive_keeps s l ev alive :
  inv s -> watcher s = Receiving l -> bus s !! position s = Some ev ->
  inv (becomes (receive iid l ev alive) (s <| position := S (position s) |>)).
Proof.
  intros Hi Hw Hev. pose proof (wi_stage _ _ _ Hi) as Hs. unfold stage_ok in Hs. rewrite Hw in Hs. destruct Hs as (Hl & Hlo & Ha).
  pose proof (lookup_lt_Some _ _ _ Hev) as Hp. pose proof (wi_bus _ _ _ Hi).
  destruct (wi_heard _ _ _ Hi _ _ Hev) as (e & Hhe & Hse). pose proof (list_elem_of_lookup_2 _ _ _ Hhe) as He.
  destruct (same_event_cursor s ev e Hi He Hse) as [Hcur Hins]. pose proof (inv_indexed s Hi _ _ Hhe) as Hidx.
  assert (forall x, x ∈ history s -> e_cursor x = Z.of_nat (S (position s)) -> x = e) as Huniq
    by (intros x Hx Ex; apply (history_unique _ (inv_indexed s Hi)); (done || lia)).
  (* a step that sends nothing *)
  assert (forall items, sent_events items = [] -> ~ matches iid e \/ Z.of_nat (position s) + 1 <= l ->
    inv (becomes (Receiving l, items) (s <| position := S (position s) |>))) as Hquiet.
  { intros items Hit Hskip. assert (sent_events (delivered s ++ items) = sent_events (delivered s)) as Hd
      by (by rewrite sent_events_app, Hit, app_nil_r).
    apply (quiet_keeps s); [done|own|done|done|by rewrite Hw|].
    assert (upto (becomes (Receiving l, items) (s <| position := S (position s) |>)) = upto s) as Hu by (by apply upto_quiet).
    unfold stage_ok. rewrite Hu. simpl. split_and!; [lia|lia|done|].
    intros x (Hx & Hlt & Hm)%elem_window. simpl in *. destruct (decide (e_cursor x <= Z.of_nat (position s))).
    - apply Ha. apply elem_window. split_and!; (done || lia).
    - exfalso. destruct Hskip as [Hskip|]; [|lia]. apply Hskip. rewrite <- (Huniq x Hx ltac:(lia)). done. }
  unfold receive. rewrite Hcur, Hidx. destruct (Z.leb_spec (Z.of_nat (position s) + 1) l); [apply Hquiet; [done|by right]|].
  destruct (negb (is_empty iid) && _) eqn:Em.
  { apply Hquiet; [done|left]. unfold matches. to_prop. intros [?|?]; congruence. }
  destruct alive; [|apply (quiet_keeps s); [done|own|done|simpl; by rewrite app_nil_r|by rewrite Hw|done]].
  assert (matches iid e) as Hm.
  { unfold matches. apply andb_false_iff in Em as [?|?]; to_prop; [left|right]; congruence. }
  assert (begun (watcher s)) as Hbg by (by rewrite Hw). pose proof (began_upto s Hi).
  apply (deliver_keeps s _ ev e); try done; [own|simpl; by rewrite sent_events_app|lia| |].
  - intros x (Hx & Hlt & Hmx)%elem_window. destruct (Ha x) as [Hn|]; [apply elem_window; split_and!; (done || lia)| |done].
    by apply not_elem_of_nil in Hn.
  - unfold stage_ok. rewrite (upto_sent s _ ev) by (simpl; by rewrite sent_events_app). simpl.
    split_and!; [lia|lia|by left; lia|]. intros x (Hx & Hlt & Hmx)%elem_window. simpl in *. lia.
Qed.

Lemma repair_keeps s l r : inv s -> watcher s = Repairing l -> reads (table s) r -> inv (becomes (repair l r) s).
Proof.
  intros Hi Hw Hr. pose proof (wi_stage _ _ _ Hi) as Hs. unfold stage_ok in Hs. rewrite Hw in Hs.
  destruct (inv_floor s Hi) as (Hfl & _ & Hab & _). pose proof (wi_position _ _ _ Hi).
  assert (forall w items, sent_events items = [] -> stage_ok iid (becomes (w, items) s) -> inv (becomes (w, items) s)) as Hq.
  { intros w items Hit. apply (quiet_keeps s); [done|own|done|simpl; by rewrite sent_events_app, Hit, app_nil_r|by rewrite Hw]. }
  destruct Hr as [|e]; cbn [repair]; [|by apply Hq]. destruct (Z.ltb_spec l (journal_floor (table s))); [by apply Hq|].
  apply Hq; [done|]. assert (upto (becomes (Paging l, []) s) = upto s) as Hu by (apply upto_quiet; [done|simpl; by rewrite app_nil_r]).
  unfold stage_ok. rewrite Hu. simpl. split; [lia|]. intros x Hx Hlt. left. apply Hab; [done|]. simpl in *. lia.
Qed.

Lemma step_keeps s s' : inv s -> node_step from_cursor iid s s' -> inv s'.
Proof.
  intros Hi H. pose proof (wi_position _ _ _ Hi).
  destruct H as [ev now row|ev at_|cutoff chunk|Hw|r Hw Hr|l r Hw Hr|l page ex alive Hw|l ev alive Hw Hev|l p Hw Hp|l r Hw Hr|l Hw].
  - by apply insert_keeps.
  - by apply broadcast_keeps.
  - by apply prune_keeps.
  - pose proof (wi_stage _ _ _ Hi) as Hs. unfold stage_ok in Hs. rewrite Hw in Hs. apply (quiet_keeps s); try done.
  - by apply open_keeps.
  - by apply page_keeps.
  - by apply send_keeps.
  - by apply receive_keeps.
  - pose proof (wi_stage _ _ _ Hi) as Hs. unfold stage_ok in Hs. rewrite Hw in Hs. destruct Hs as (_ & Hs & _).
    apply (quiet_keeps s); try done; [own|by rewrite Hw].
  - by apply repair_keeps.
  - apply (quiet_keeps s); try done. by rewrite Hw.
Qed.

Lemma start_inv s : node_start s -> inv s.
Proof.
  intros [t all db Hr Hb]. split; simpl; try done; try lia.
  - rewrite length_fmap. lia.
  - intros i ev Hi. rewrite list_lookup_fmap in Hi. apply fmap_Some in Hi as (e & He & ->). by exists e.
  - by left.
  - apply sublist_nil_l.
  - unfold upto. simpl. intros e. rewrite window_empty by done. by intros ?%not_elem_of_nil.
Qed.

Lemma watching_inv s0 s : node_start s0 -> rtc (node_step from_cursor iid) s0 s -> inv s.
Proof. intros H0 Hr. apply start_inv in H0. induction Hr as [|x y z Hs _ IH]; [done|]. apply IH. by eapply step_keeps. Qed.

(** *** A watch left to itself catches up *)

#[local] Abbreviation steps := (rtc (node_step from_cursor iid)).

(** Only the watch moved. *)
Definition alone (s s' : System) : Prop := steps s s' /\ history s' = history s /\ table s' = table s /\ bus s' = bus s.

Lemma alone_step s s' : node_step from_cursor iid s s' -> history s' = history s -> table s' = table s -> bus s' = bus s -> alone s s'.
Proof. intros. split_and!; try done. by apply rtc_once. Qed.
Lemma alone_trans s s' s'' : alone s s' -> alone s' s'' -> alone s s''.
Proof. intros (? & ? & ? & ?) (? & ? & ? & ?). split_and!; [by etransitivity|congruence..]. Qed.
Lemma alone_inv s s' : inv s -> alone s s' -> inv s'.
Proof. intros Hi (Hr & _). clear -Hi Hr from_small. induction Hr as [|x y z Hs _ IH]; [done|]. apply IH. by eapply step_keeps. Qed.

Lemma sending_drains s l page ex :
  watcher s = Sending l page ex ->
  exists s', alone s s' /\ let b := default l (last (ev_cursor <$> page)) in watcher s' = if ex then Receiving b else Paging b.
Proof.
  revert s l. induction page as [|ev page IH]; intros s l Hw.
  - exists (becomes (send_page l [] ex true) s). split; [|done]. apply alone_step; try done. by apply n_send.
  - destruct (IH (becomes (send_page l (ev :: page) ex true) s) (ev_cursor ev)) as (s' & Ha & Hw'); [done|].
    exists s'. split.
    + eapply alone_trans; [|exact Ha]. apply alone_step; try done. by apply n_send.
    + cbn zeta in *. rewrite Hw'. cbn [fmap list_fmap]. rewrite last_cons. by destruct (last (ev_cursor <$> page)).
Qed.

Lemma paging_ends n s l :
  inv s -> watcher s = Paging l -> (length (pending_after l iid (events (table s))) < n)%nat ->
  exists s' b, alone s s' /\ watcher s' = Receiving b.
Proof.
  revert s l. induction n as [|n IH]; intros s l Hi Hw Hn; [lia|].
  pose proof (wi_stage _ _ _ Hi) as Hs. unfold stage_ok in Hs. rewrite Hw in Hs. destruct Hs as [Hl _].
  assert (0 <= l <= i64_max) as Hlm by (apply (stage_bounds s); [done|by rewrite Hw|done]).
  destruct (inv_floor s Hi) as (_ & Hok & _ & Hin).
  set (s1 := becomes (read_page iid l (Ok (table s))) s).
  assert (alone s s1) as H1 by (apply alone_step; try done; apply n_page; [done|constructor]).
  set (pend := pending_after l iid (events (table s))) in *.
  assert (watcher s1 = Sending l (event_from <$> take (Z.to_nat EVENT_PAGE) pend)
            (Z.of_nat (length (take (Z.to_nat EVENT_PAGE) pend)) <? EVENT_PAGE)) as Hw1
    by (subst s1; simpl; by rewrite events_after_page, length_fmap by (done || lia)).
  destruct (sending_drains s1 _ _ _ Hw1) as (s2 & H2 & Hw2). pose proof (alone_trans _ _ _ H1 H2) as H12. cbn zeta in Hw2.
  destruct (Z.ltb_spec (Z.of_nat (length (take (Z.to_nat EVENT_PAGE) pend))) EVENT_PAGE) as [|Hge]; [by eexists _, _|].
  assert (forall e, e ∈ take (Z.to_nat EVENT_PAGE) pend -> e ∈ history s) as Hpage.
  { intros e He. apply Hin. eapply sublist_subseteq in He; [|apply sublist_take]. by apply list_elem_of_filter in He as [_ ?]. }
  rewrite (page_cursors s) in Hw2 by done.
  destruct (last (take (Z.to_nat EVENT_PAGE) pend)) as [z|] eqn:Ez; [|apply last_None in Ez; rewrite Ez in Hge; done].
  rewrite fmap_last, Ez in Hw2. simpl in Hw2.
  destruct (pending_after_split l iid (events (table s)) (take (Z.to_nat EVENT_PAGE) pend) (drop (Z.to_nat EVENT_PAGE) pend) z) as [_ Hrest];
    [apply Hok|symmetry; apply take_drop|done|].
  destruct (IH s2 (e_cursor z)) as (s3 & b & H3 & Hw3); [by eapply alone_inv|done| |].
  - destruct H12 as (_ & _ & -> & _). rewrite Hrest, length_drop. rewrite length_take in Hge. unfold EVENT_PAGE in *. lia.
  - exists s3, b. split; [by eapply alone_trans|done].
Qed.

Lemma receiving_catches_up n s l :
  watcher s = Receiving l -> (length (bus s) - position s = n)%nat -> (position s <= length (bus s))%nat ->
  exists s' b, alone s s' /\ watcher s' = Receiving b /\ position s' = length (bus s).
Proof.
  revert s l. induction n as [|n IH]; intros s l Hw Hn Hp.
  { exists s, l. split_and!; [|done|lia]. split_and!; done. }
  destruct (lookup_lt_is_Some_2 (bus s) (position s)) as [ev Hev]; [lia|].
  set (s1 := becomes (receive iid l ev true) (s <| position := S (position s) |>)).
  assert (alone s s1) as H1 by (apply alone_step; try done; by apply n_receive).
  assert (exists b, watcher s1 = Receiving b) as [b Hb].
  { subst s1. simpl. unfold receive. destruct (_ <=? _); [by eexists|]. destruct (_ && _); by eexists. }
  destruct (IH s1 b Hb) as (s2 & b2 & H2 & Hw2 & Hp2); [simpl; lia|simpl; lia|].
  exists s2, b2. split_and!; [by eapply alone_trans|done|by rewrite Hp2].
Qed.

(** A stream that is not over either comes to its place at the end of the channel, or is
    told that it fell behind. *)
Lemma left_alone s :
  inv s -> begun (watcher s) -> watcher s <> Ended ->
  exists s', alone s s' /\
    ((exists l, watcher s' = Receiving l) /\ position s' = length (bus s) \/
     exists l floor, watcher s' = Ended /\ last (delivered s') = Some (Failure (fell_behind l floor)) /\ l < floor).
Proof.
  intros Hi Hb Hne.
  assert (forall x l, alone s x -> watcher x = Receiving l -> exists s', alone s s' /\ (exists l, watcher s' = Receiving l) /\
    position s' = length (bus s)) as Hrec.
  { intros x l Hx Hw. pose proof (wi_position _ _ _ (alone_inv _ _ Hi Hx)) as Hp.
    destruct (receiving_catches_up _ x l Hw eq_refl Hp) as (s' & b & H' & Hw' & Hp'). exists s'. split_and!; [by eapply alone_trans|by eexists|].
    destruct Hx as (_ & _ & _ & <-). done. }
  assert (forall x l, alone s x -> watcher x = Paging l -> exists s', alone s s' /\ (exists l, watcher s' = Receiving l) /\
    position s' = length (bus s)) as Hpag.
  { intros x l Hx Hw. destruct (paging_ends _ x l (alone_inv _ _ Hi Hx) Hw (Nat.lt_succ_diag_r _)) as (s' & b & H' & Hw').
    apply (Hrec s' b); [by eapply alone_trans|done]. }
  assert (alone s s) as Hrefl by done.
  assert (forall x, alone s x -> (exists l, watcher x = Receiving l \/ watcher x = Paging l) -> exists s', alone s s' /\
    ((exists l, watcher s' = Receiving l) /\ position s' = length (bus s) \/
     exists l floor, watcher s' = Ended /\ last (delivered s') = Some (Failure (fell_behind l floor)) /\ l < floor)) as Hgo.
  { intros x Hx [l [Hw|Hw]]; [destruct (Hrec x l Hx Hw) as (s' & ? & ?)|destruct (Hpag x l Hx Hw) as (s' & ? & ?)]; exists s'; auto. }
  destruct (watcher s) as [| | |l|l page ex|l|l|] eqn:Ew; try done.
  - apply (Hgo s); [done|]. exists l. by right.
  - destruct (sending_drains s l page ex Ew) as (x & Hx & Hw). apply (Hgo x); [done|]. eexists. rewrite Hw. destruct ex; auto.
  - apply (Hgo s); [done|]. exists l. by left.
  - set (x := becomes (repair l (Ok (table s))) s).
    assert (alone s x) as Hx by (apply alone_step; try done; apply n_floor; [done|constructor]).
    destruct (Z.ltb_spec l (journal_floor (table s))) as [Hlt|Hge].
    + exists x. split; [done|right]. exists l, (journal_floor (table s)). subst x. unfold becomes, repair.
      rewrite (proj2 (Z.ltb_lt _ _) Hlt). simpl. by rewrite last_snoc.
    + apply (Hgo x); [done|]. exists l. right. subst x. unfold becomes, repair. by rewrite (proj2 (Z.ltb_ge _ _) Hge).
Qed.
End Invariant.

(** * What a watch promises *)


(** ** Examples *)

Definition ex_db4 : Db := fst (insert_event ex_ev 30 ex_db2).
Lemma ex_run4 : run 30 (events ex_db4) ex_db4.
Proof. apply (run_insert 20 (events ex_db2) ex_db2 ex_ev 30 _ ex_run2); [lia|reflexivity]. Qed.

Definition ex_node : System := mkSystem (events ex_db4) 30 ex_db4 None (event_from <$> events ex_db4) 0 Absent [] 0 [].
Lemma ex_node_start : node_start ex_node.
Proof. apply start_run; [exact ex_run4|by vm_compute]. Qed.

(** The steps of a watch from cursor 1 on: subscribe, open, and with a [pruning] in between or
    not, read a page and send what it holds. *)
Definition subscribed (s : System) : System := s <| watcher := Opening |> <| position := length (bus s) |>.
Definition opened (s : System) : System := s <| watcher := watch_events 1 (Ok (table s)) |> <| began := 1 |>.
Definition pruned (cutoff : Z) (s : System) : System :=
  s <| table := fst (prune_events cutoff RETENTION_CHUNK (table s)) |>
    <| raced := raced s ++ (if replaying (watcher s) then gone (table s) (fst (prune_events cutoff RETENTION_CHUNK (table s))) else []) |>.
Definition paged (s : System) : System := becomes (read_page empty_str 1 (Ok (table s))) s.
Definition sent_one (s : System) : System :=
  match watcher s with Sending l page ex => becomes (send_page l page ex true) s | _ => s end.

Lemma ex_steps (mid : System -> System) :
  node_step 1 empty_str (opened (subscribed ex_node)) (mid (opened (subscribed ex_node))) \/ mid (opened (subscribed ex_node)) = opened (subscribed ex_node) ->
  watcher (mid (opened (subscribed ex_node))) = Paging 1 ->
  rtc (node_step 1 empty_str) ex_node (paged (mid (opened (subscribed ex_node)))).
Proof.
  intros Hmid Hw. eapply rtc_l; [by apply n_subscribe|]. eapply rtc_l; [apply (n_open 1 empty_str (subscribed ex_node) (Ok (table ex_node))); [done|constructor]|].
  change (rtc (node_step 1 empty_str) (opened (subscribed ex_node)) (paged (mid (opened (subscribed ex_node))))).
  assert (node_step 1 empty_str (mid (opened (subscribed ex_node))) (paged (mid (opened (subscribed ex_node)))))
    by (apply n_page; [done|constructor]).
  destruct Hmid as [Hs|E]; [eapply rtc_l; [exact Hs|]; by apply rtc_once|rewrite <- E at 1; by apply rtc_once].
Qed.

Lemma sent_one_step s l page ex : watcher s = Sending l page ex -> node_step 1 empty_str s (sent_one s).
Proof. intros Hw. unfold sent_one. rewrite Hw. by apply n_send. Qed.

Definition ex_watched : System := sent_one (sent_one (sent_one (paged (opened (subscribed ex_node))))).
Lemma ex_watched_steps : rtc (node_step 1 empty_str) ex_node ex_watched.
Proof.
  etransitivity; [apply (ex_steps id); [by right|reflexivity]|].
  do 2 (eapply rtc_l; [eapply sent_one_step; reflexivity|]). apply rtc_once. eapply sent_one_step. reflexivity.
Qed.


(** A pruning between the floor and the first page: event 2 was served when the watch was
    accepted, is gone when its page is read, and the stream goes on from event 3 without a
    word. *)
Definition ex_raced : System := sent_one (sent_one (paged (pruned 25 (opened (subscribed ex_node))))).
Lemma retention_can_open_a_gap :
  rtc (node_step 1 empty_str) ex_node ex_raced /\ watcher ex_raced = Receiving 3 /\
  (exists ev, delivered ex_raced = [Sent ev] /\ ev_cursor ev = 3) /\
  e_cursor <$> window empty_str 1 3 (history ex_raced) = [2; 3].
Proof.
  split_and!; [|by vm_compute|by eexists; vm_compute|by vm_compute].
  etransitivity; [apply (ex_steps (pruned 25)); [left; by apply n_prune|reflexivity]|].
  eapply rtc_l; [eapply sent_one_step; reflexivity|]. apply rtc_once. eapply sent_one_step. reflexivity.
Qed.
