(* ===== verification/HypemanClient.v ===== *)
(** The client of the substrate's HTTP interface:
    src/crates/barista-node-agent/src/runtime/hypeman/client.rs.

    The substrate is a parameter: a function from its state and a request to its state and
    a response, or the text of a transport error. JSON text is read by a parameter (the
    serde_json crate); what [derive(Deserialize)] and [derive(Serialize)] make of a JSON
    value is written out. *)

From S2P Require Import Prelude Text Proto Codec.
From Stdlib Require Import Ascii.

Set Warnings "-register-all".

(** * JSON values and the derived codecs *)

Inductive Json : Type :=
| JNull
| JBool (b : bool)
| JInt (z : Z)
| JFloat (text : string)
| JStr (s : string)
| JArr (l : list Json)
| JObj (l : list (string * Json)).

Definition de (A : Type) : Type := Json -> option A.

Definition de_string : de string := fun j => match j with JStr s => Some s | _ => None end.
Definition de_bool : de bool := fun j => match j with JBool b => Some b | _ => None end.
Definition de_int (lo hi : Z) : de Z := fun j =>
  match j with JInt z => if (lo <=? z) && (z <=? hi) then Some z else None | _ => None end.
Definition de_i32 : de Z := de_int (- 2 ^ 31) (2 ^ 31 - 1).
Definition de_u64 : de Z := de_int 0 u64_max.
Definition de_u16 : de Z := de_int 0 65535.
Definition de_option {A} (d : de A) : de (option A) := fun j =>
  match j with JNull => Some None | j => Some <$> d j end.
Definition de_vec {A} (d : de A) : de (list A) := fun j =>
  match j with JArr l => mapM d l | _ => None end.
(** A [HashMap<String, String>]: the last of equal keys wins. *)
Definition de_map : de (gmap string string) := fun j =>
  match j with
  | JObj l =>
      kvs ← mapM (fun kv => v ← de_string kv.2; Some (kv.1, v)) l;
      Some (foldl (fun m kv => <[kv.1 := kv.2]> m) ∅ kvs)
  | _ => None
  end.
(** A variant without data: its name, or an object whose one key is the name. *)
Definition de_variant {A} (f : string -> option A) : de A := fun j =>
  match j with
  | JStr s => f s
  | JObj [(s, JNull)] => f s
  | _ => None
  end.

(** The fields of a struct: an object without repeated fields (unknown ones are ignored),
    or an array in the order of the declaration. *)
Definition de_fields (names : list string) (j : Json) : option (string -> option Json) :=
  match j with
  | JObj l =>
      if forallb (fun n => (length (filter (fun kv => kv.1 = n) l) <=? 1)%nat) names
      then Some (fun n => snd <$> head (filter (fun kv => kv.1 = n) l))
      else None
  | JArr l =>
      if (length l <=? length names)%nat
      then Some (fun n => snd <$> head (filter (fun kv => kv.1 = n) (zip names l)))
      else None
  | _ => None
  end.
Definition required {A} (f : string -> option Json) (n : string) (d : de A) : option A := f n ≫= d.
(** [#[serde(default)]] *)
Definition defaulted {A} (f : string -> option Json) (n : string) (d : de A) (a : A) : option A :=
  match f n with Some j => d j | None => Some a end.

(** [#[serde(skip_serializing_if = "Option::is_none")]] *)
Definition skip_none {A} (n : string) (s : A -> Json) (o : option A) : list (string * Json) :=
  match o with Some a => [(n, s a)] | None => [] end.
Definition ser_map (m : gmap string string) : Json := JObj ((fun kv => (kv.1, JStr kv.2)) <$> map_to_list m).

(** * The contract's types *)

Inductive SubstrateState : Type :=
  VmCreated | VmInitializing | VmRunning | VmPaused | VmShutdown | VmStopped | VmStandby | VmUnknown.
#[global] Instance SubstrateState_eq_dec : EqDecision SubstrateState.
Proof. solve_decision. Defined.

Definition de_state : de SubstrateState := de_variant (fun s =>
  if bool_decide (s = "Created") then Some VmCreated
  else if bool_decide (s = "Initializing") then Some VmInitializing
  else if bool_decide (s = "Running") then Some VmRunning
  else if bool_decide (s = "Paused") then Some VmPaused
  else if bool_decide (s = "Shutdown") then Some VmShutdown
  else if bool_decide (s = "Stopped") then Some VmStopped
  else if bool_decide (s = "Standby") then Some VmStandby
  else if bool_decide (s = "Unknown") then Some VmUnknown
  else None).

(** [{:?}] *)
Definition state_text (s : SubstrateState) : string :=
  match s with
  | VmCreated => "Created" | VmInitializing => "Initializing" | VmRunning => "Running"
  | VmPaused => "Paused" | VmShutdown => "Shutdown" | VmStopped => "Stopped"
  | VmStandby => "Standby" | VmUnknown => "Unknown"
  end.

Inductive SubstrateSnapshotKind : Type := KindStandby | KindStopped | KindUnknown.
(** [#[serde(other)]] on the last. *)
Definition de_kind : de SubstrateSnapshotKind := de_variant (fun s =>
  Some (if bool_decide (s = "Standby") then KindStandby
        else if bool_decide (s = "Stopped") then KindStopped else KindUnknown)).

Record InstanceNetwork := {
  in_enabled : option bool;
  in_name : option string;
  in_ip : option string }.
Definition de_network : de InstanceNetwork := fun j =>
  f ← de_fields ["enabled"; "name"; "ip"] j;
  e ← defaulted f "enabled" (de_option de_bool) None;
  n ← defaulted f "name" (de_option de_string) None;
  ip ← defaulted f "ip" (de_option de_string) None;
  Some {| in_enabled := e; in_name := n; in_ip := ip |}.

Record Instance := mkInstance {
  i_id : string;
  i_name : string;
  i_image : string;
  i_state : SubstrateState;
  i_state_error : option string;
  i_hypervisor : option string;
  i_tags : gmap string string;
  i_exit_code : option Z;
  i_has_snapshot : option bool;
  i_fork_mode : option string;
  i_network : option InstanceNetwork }.
Definition de_instance : de Instance := fun j =>
  f ← de_fields ["id"; "name"; "image"; "state"; "state_error"; "hypervisor"; "tags";
                 "exit_code"; "has_snapshot"; "fork_mode"; "network"] j;
  id ← required f "id" de_string;
  name ← defaulted f "name" de_string empty_str;
  image ← defaulted f "image" de_string empty_str;
  state ← required f "state" de_state;
  state_error ← defaulted f "state_error" (de_option de_string) None;
  hypervisor ← defaulted f "hypervisor" (de_option de_string) None;
  tags ← defaulted f "tags" de_map ∅;
  exit_code ← defaulted f "exit_code" (de_option de_i32) None;
  has_snapshot ← defaulted f "has_snapshot" (de_option de_bool) None;
  fork_mode ← defaulted f "fork_mode" (de_option de_string) None;
  network ← defaulted f "network" (de_option de_network) None;
  Some (mkInstance id name image state state_error hypervisor tags exit_code has_snapshot fork_mode network).

(** [Instance::ip] *)
Definition instance_ip (i : Instance) : option string :=
  option_filter (fun ip => negb (is_empty ip)) (i_network i ≫= in_ip).

Record Snapshot := {
  s_id : string;
  s_kind : SubstrateSnapshotKind;
  s_source_instance_name : string;
  s_size_bytes : Z }.
Definition de_snapshot : de Snapshot := fun j =>
  f ← de_fields ["id"; "kind"; "source_instance_name"; "size_bytes"] j;
  id ← required f "id" de_string;
  kind ← required f "kind" de_kind;
  source ← defaulted f "source_instance_name" de_string empty_str;
  size ← defaulted f "size_bytes" de_u64 0;
  Some {| s_id := id; s_kind := kind; s_source_instance_name := source; s_size_bytes := size |}.

Inductive SubstrateEgressMode : Type := EgressAll | EgressHttpHttpsOnly.
Record EgressEnforcement := { ee_mode : SubstrateEgressMode }.
Record EgressConfig := { ec_enabled : bool; ec_enforcement : option EgressEnforcement }.
Record NetworkConfig := { nc_egress : EgressConfig }.
Record VolumeMount := { vm_volume_id : string; vm_mount_path : string; vm_readonly : bool }.

Record CreateInstanceRequest := {
  cr_name : option string;
  cr_image : string;
  cr_size : option string;
  cr_vcpus : option Z;
  cr_overlay_size : option string;
  cr_hypervisor : option string;
  cr_env : option (gmap string string);
  cr_tags : option (gmap string string);
  cr_entrypoint : option (list string);
  cr_cmd : option (list string);
  cr_volumes : option (list VolumeMount);
  cr_network : option NetworkConfig }.

(** [#[serde(rename_all = "snake_case")]] *)
Definition ser_mode (m : SubstrateEgressMode) : Json :=
  JStr (match m with EgressAll => "all" | EgressHttpHttpsOnly => "http_https_only" end).
Definition ser_network (n : NetworkConfig) : Json :=
  JObj [("egress", JObj (("enabled", JBool (ec_enabled (nc_egress n)))
    :: skip_none "enforcement" (fun e => JObj [("mode", ser_mode (ee_mode e))]) (ec_enforcement (nc_egress n))))].
Definition ser_mount (v : VolumeMount) : Json :=
  JObj [("volume_id", JStr (vm_volume_id v)); ("mount_path", JStr (vm_mount_path v));
        ("readonly", JBool (vm_readonly v))].
Definition ser_create (r : CreateInstanceRequest) : Json :=
  JObj (skip_none "name" JStr (cr_name r) ++ [("image", JStr (cr_image r))]
    ++ skip_none "size" JStr (cr_size r) ++ skip_none "vcpus" JInt (cr_vcpus r)
    ++ skip_none "overlay_size" JStr (cr_overlay_size r)
    ++ skip_none "hypervisor" JStr (cr_hypervisor r)
    ++ skip_none "env" ser_map (cr_env r) ++ skip_none "tags" ser_map (cr_tags r)
    ++ skip_none "entrypoint" (fun l => JArr (JStr <$> l)) (cr_entrypoint r)
    ++ skip_none "cmd" (fun l => JArr (JStr <$> l)) (cr_cmd r)
    ++ skip_none "volumes" (fun l => JArr (ser_mount <$> l)) (cr_volumes r)
    ++ skip_none "network" ser_network (cr_network r)).

Record IngressMatch := { im_hostname : string; im_port : option Z }.
Record IngressTarget := { it_instance : string; it_port : Z }.
Record IngressRule := { ir_match : IngressMatch; ir_target : IngressTarget }.
Record Ingress := mkIngress {
  ig_id : string;
  ig_name : string;
  ig_rules : list IngressRule;
  ig_tags : gmap string string }.
Record CreateIngressRequest := {
  ci_name : string;
  ci_rules : list IngressRule;
  ci_tags : option (gmap string string) }.

Definition de_rule : de IngressRule := fun j =>
  f ← de_fields ["match"; "target"] j;
  m ← required f "match" (fun j =>
    f ← de_fields ["hostname"; "port"] j;
    h ← required f "hostname" de_string;
    p ← defaulted f "port" (de_option de_u16) None;
    Some {| im_hostname := h; im_port := p |});
  t ← required f "target" (fun j =>
    f ← de_fields ["instance"; "port"] j;
    i ← required f "instance" de_string;
    p ← required f "port" de_u16;
    Some {| it_instance := i; it_port := p |});
  Some {| ir_match := m; ir_target := t |}.
Definition de_ingress : de Ingress := fun j =>
  f ← de_fields ["id"; "name"; "rules"; "tags"] j;
  id ← required f "id" de_string;
  name ← defaulted f "name" de_string empty_str;
  rules ← defaulted f "rules" (de_vec de_rule) [];
  tags ← defaulted f "tags" de_map ∅;
  Some (mkIngress id name rules tags).
Definition ser_rule (r : IngressRule) : Json :=
  JObj [("match", JObj (("hostname", JStr (im_hostname (ir_match r)))
           :: skip_none "port" JInt (im_port (ir_match r))));
        ("target", JObj [("instance", JStr (it_instance (ir_target r))); ("port", JInt (it_port (ir_target r)))])].
Definition ser_ingress (r : CreateIngressRequest) : Json :=
  JObj ([("name", JStr (ci_name r)); ("rules", JArr (ser_rule <$> ci_rules r))]
    ++ skip_none "tags" ser_map (ci_tags r)).

Record Volume := mkVolume { v_id : string; v_name : string; v_tags : gmap string string }.
Definition de_volume : de Volume := fun j =>
  f ← de_fields ["id"; "name"; "tags"] j;
  id ← required f "id" de_string;
  name ← defaulted f "name" de_string empty_str;
  tags ← defaulted f "tags" de_map ∅;
  Some (mkVolume id name tags).

Record Health := { he_status : string }.
Definition de_health : de Health := fun j =>
  f ← de_fields ["status"] j;
  s ← required f "status" de_string;
  Some {| he_status := s |}.

(** * Requests and responses *)

Inductive Method : Type := GET | POST | DELETE.
#[global] Instance Method_eq_dec : EqDecision Method.
Proof. solve_decision. Defined.
Definition method_text (m : Method) : string :=
  match m with GET => "GET" | POST => "POST" | DELETE => "DELETE" end.

Inductive Body : Type := NoBody | JsonBody (j : Json) | GzipBody (bytes : list Z).
Record HttpRequest := mkHttpRequest {
  rq_method : Method;
  rq_url : string;
  rq_bearer : option string;
  rq_body : Body }.
(** [None]: the body could not be read to its end. *)
Record HttpResponse := { rs_status : Z; rs_body : option string }.
(** A streamed response: chunks of bytes, up to where they are read. *)
Record StreamResponse := {
  st_status : Z;
  st_body : option string;
  st_chunks : list (res string (list Z)) }.

Inductive Error : Type :=
| Unreachable (base_url source : string)
| Api (status : Z) (method path body : string)
| Decode (path source : string).

(** The [Display] form. *)
Definition error_text (e : Error) : string :=
  match e with
  | Unreachable b s => "hypeman unreachable at " +:+ b +:+ ": " +:+ s
  | Api st m p b => "hypeman " +:+ pretty st +:+ " on " +:+ m +:+ " " +:+ p +:+ ": " +:+ b
  | Decode p s => "decoding hypeman response for " +:+ p +:+ ": " +:+ s
  end.
Definition is_unreachable (e : Error) : bool := match e with Unreachable _ _ => true | _ => false end.

(** The status of an [Error::Api], for the patterns that name one. *)
Definition has_status (n : Z) (e : Error) : bool :=
  match e with Api st _ _ _ => st =? n | _ => false end.
Definition error_body (e : Error) : string := match e with Api _ _ _ body => body | _ => empty_str end.
Definition not_found (e : Error) : bool := has_status 404 e.

Definition is_success (status : Z) : bool := (200 <=? status) && (status <? 300).

(** * Paths *)

Definition hex_upper (n : nat) : Ascii.ascii := nth n (String.list_ascii_of_string "0123456789ABCDEF") "0"%char.

Definition unreserved (c : Ascii.ascii) : bool :=
  let n := Ascii.nat_of_ascii c in
  ((65 <=? n) && (n <=? 90) || (97 <=? n) && (n <=? 122) || (48 <=? n) && (n <=? 57)
   || (n =? 45) || (n =? 95) || (n =? 46) || (n =? 126))%nat.

Definition encode_byte (c : Ascii.ascii) : string :=
  if unreserved c then String c EmptyString
  else let n := Ascii.nat_of_ascii c in
       String "%" (String (hex_upper (n / 16)) (String (hex_upper (n mod 16)) EmptyString)).

Fixpoint urlencode (s : string) : string :=
  match s with
  | EmptyString => EmptyString
  | String c s' => encode_byte c +:+ urlencode s'
  end.

Definition path_segment (s : string) : string := urlencode s.

Definition tagged (base : string) (tag : option (string * string)) : string :=
  match tag with
  | Some (k, v) => base +:+ "?tags[" +:+ urlencode k +:+ "]=" +:+ urlencode v
  | None => base
  end.

Definition application_log_path (id : string) (tail : Z) (follow : bool) : string :=
  "/instances/" +:+ path_segment id +:+ "/logs?source=app&tail=" +:+ pretty tail
  +:+ "&follow=" +:+ fmt_bool follow.

(** * The client *)

Record HypemanClient := { hc_base_url : string; hc_token : option string }.

(** [trim_end_matches('/')] *)
Fixpoint trim_end_slashes (s : string) : string :=
  match s with
  | EmptyString => EmptyString
  | String c s' =>
      let t := trim_end_slashes s' in
      if bool_decide (c = "/"%char) && is_empty t then EmptyString else String c t
  end.

Definition new_client (base_url : string) (token : option string) : HypemanClient :=
  {| hc_base_url := trim_end_slashes base_url; hc_token := token |}.

Section Client.
Context {W : Type}.
(** The substrate, the JSON reader, and the text of a response that does not decode. *)
Context (http : W -> HttpRequest -> W * res string HttpResponse).
Context (http_stream : W -> HttpRequest -> W * res string StreamResponse).
Context (parse_json : list Z -> option Json) (undecodable : HttpResponse -> string).
Context (c : HypemanClient).

Definition request (m : Method) (path : string) (body : Body) : HttpRequest :=
  mkHttpRequest m (hc_base_url c +:+ path) (hc_token c) body.

Definition unreachable_error (source : string) : Error := Unreachable (hc_base_url c) source.
Definition refused (m : Method) (path : string) (r : HttpResponse) : Error :=
  Api (rs_status r) (method_text m) path (default empty_str (rs_body r)).

(** [HypemanClient::api_code] of an error. *)
Definition api_code (e : Error) : option string :=
  match e with
  | Api _ _ _ body =>
      option_filter (fun code => negb (is_empty code))
        (j ← parse_json (bytes_of body);
         f ← de_fields ["code"] j;
         defaulted f "code" de_string empty_str)
  | _ => None
  end.

Definition decoded {A} (d : de A) (path : string) (r : HttpResponse) : res Error A :=
  match (t ← rs_body r; j ← parse_json (bytes_of t); d j) with
  | Some a => Ok a
  | None => Err (Decode path (undecodable r))
  end.

Definition send {A} (d : de A) (m : Method) (path : string) (body : Body) : Call W (res Error A) :=
  let@? r := (fun w => http w (request m path body)) or unreachable_error in
  if is_success (rs_status r) then pass_back (decoded d path r)
  else pass_back (Err (refused m path r)).

Definition send_unit_with (m : Method) (path : string) (body : Body) : Call W (res Error unit) :=
  let@? r := (fun w => http w (request m path body)) or unreachable_error in
  if is_success (rs_status r) then pass_back (Ok tt)
  else pass_back (Err (refused (if bool_decide (m = DELETE) then DELETE else POST) path r)).
Definition send_unit (m : Method) (path : string) : Call W (res Error unit) := send_unit_with m path NoBody.

(** A 404 is the outcome a deletion asks for. *)
Definition absent_is_done (r : res Error unit) : res Error unit :=
  match r with Err e => if not_found e then Ok tt else Err e | Ok _ => Ok tt end.

Definition health : Call W (res Error Health) := send de_health GET "/health" NoBody.

Definition create_instance (r : CreateInstanceRequest) : Call W (res Error Instance) :=
  send de_instance POST "/instances" (JsonBody (ser_create r)).
Definition get_instance (id : string) : Call W (res Error Instance) :=
  send de_instance GET ("/instances/" +:+ path_segment id) NoBody.
Definition list_instances (tag : option (string * string)) : Call W (res Error (list Instance)) :=
  send (de_vec de_instance) GET (tagged "/instances" tag) NoBody.
Definition start_instance (id : string) : Call W (res Error unit) :=
  send_unit_with POST ("/instances/" +:+ path_segment id +:+ "/start") (JsonBody (JObj [])).
Definition stop_instance (id : string) : Call W (res Error unit) :=
  send_unit POST ("/instances/" +:+ path_segment id +:+ "/stop").
Definition standby_instance (id : string) : Call W (res Error unit) :=
  send_unit POST ("/instances/" +:+ path_segment id +:+ "/standby").
Definition restore_instance (id : string) : Call W (res Error unit) :=
  send_unit POST ("/instances/" +:+ path_segment id +:+ "/restore").
Definition restore_instance_snapshot (id snapshot_id : string) : Call W (res Error unit) :=
  send_unit_with POST ("/instances/" +:+ path_segment id +:+ "/snapshots/" +:+ path_segment snapshot_id +:+ "/restore")
    (JsonBody (JObj [])).
Definition delete_instance (id : string) : Call W (res Error unit) :=
  let@ r := send_unit DELETE ("/instances/" +:+ path_segment id) in
  pass_back (absent_is_done r).

Definition get_volume (id_or_name : string) : Call W (res Error Volume) :=
  send de_volume GET ("/volumes/" +:+ path_segment id_or_name) NoBody.
Definition list_volumes (tag : option (string * string)) : Call W (res Error (list Volume)) :=
  send (de_vec de_volume) GET (tagged "/volumes" tag) NoBody.
Definition archive_path (id name : string) (size_gb : Z) (tags : list (string * string)) : string :=
  foldl (fun p kv => p +:+ "&tags[" +:+ urlencode kv.1 +:+ "]=" +:+ urlencode kv.2)
    ("/volumes/from-archive?name=" +:+ urlencode name +:+ "&size_gb=" +:+ pretty size_gb
     +:+ "&id=" +:+ urlencode id) tags.
Definition create_volume_from_archive (id name : string) (size_gb : Z) (tags : list (string * string))
    (archive : list Z) : Call W (res Error Volume) :=
  let path := archive_path id name size_gb tags in
  let@? r := (fun w => http w (request POST path (GzipBody archive))) or unreachable_error in
  if is_success (rs_status r) then pass_back (decoded de_volume "/volumes/from-archive" r)
  else pass_back (Err (refused POST path r)).
Definition delete_volume (id : string) : Call W (res Error unit) :=
  send_unit DELETE ("/volumes/" +:+ path_segment id).

Definition create_instance_snapshot (id_or_name : string) (name : option string) : Call W (res Error Snapshot) :=
  let named := match option_filter (fun n => negb (is_empty n)) name with
               | Some n => [("name", JStr n)] | None => [] end in
  send de_snapshot POST ("/instances/" +:+ path_segment id_or_name +:+ "/snapshots")
    (JsonBody (JObj (("kind", JStr "Standby") :: named))).
Definition fork_snapshot (snapshot_id name target_state : string) (tags : gmap string string) : Call W (res Error Instance) :=
  send de_instance POST ("/snapshots/" +:+ path_segment snapshot_id +:+ "/fork")
    (JsonBody (JObj [("name", JStr name); ("target_state", JStr target_state); ("tags", ser_map tags)])).
Definition list_instance_snapshots (id_or_name : string) : Call W (res Error (list Snapshot)) :=
  let@? i := get_instance id_or_name or (fun e => e) in
  send (de_vec de_snapshot) GET ("/snapshots?source_instance_id=" +:+ path_segment (i_id i)) NoBody.
Definition get_snapshot (snapshot_id : string) : Call W (res Error Snapshot) :=
  send de_snapshot GET ("/snapshots/" +:+ path_segment snapshot_id) NoBody.
Definition delete_snapshot (snapshot_id : string) : Call W (res Error unit) :=
  let@ r := send_unit DELETE ("/snapshots/" +:+ path_segment snapshot_id) in
  pass_back (absent_is_done r).

Definition create_ingress (r : CreateIngressRequest) : Call W (res Error Ingress) :=
  send de_ingress POST "/ingresses" (JsonBody (ser_ingress r)).
Definition get_ingress (id_or_name : string) : Call W (res Error Ingress) :=
  send de_ingress GET ("/ingresses/" +:+ path_segment id_or_name) NoBody.
Definition list_ingresses (tag : option (string * string)) : Call W (res Error (list Ingress)) :=
  send (de_vec de_ingress) GET (tagged "/ingresses" tag) NoBody.
Definition delete_ingress (id_or_name : string) : Call W (res Error unit) :=
  let@ r := send_unit DELETE ("/ingresses/" +:+ path_segment id_or_name) in
  pass_back (absent_is_done r).
End Client.
