(* ===== verification/Logs.v ===== *)
(** The application log stream of
    src/crates/barista-node-agent/src/runtime/hypeman/client.rs: server-sent events cut
    out of a byte stream that arrives in arbitrary chunks, and that the result does not
    depend on the chunks. *)

From S2P Require Import Prelude Text Codec HypemanClient.

(** * Frames *)

Definition starts_with (pat l : list Z) : bool := bool_decide (take (length pat) l = pat).

(** [l.windows(pat.len()).position(|w| w == pat)] *)
Fixpoint position_of (pat l : list Z) : option nat :=
  match l with
  | [] => None
  | _ :: l' => if starts_with pat l then Some 0%nat else S <$> position_of pat l'
  end.

Definition LF : Z := 10.
Definition CR : Z := 13.
Definition MAX_LOG_FRAME_BYTES : Z := 256 * 1024.

(** Where the first frame ends, and the length of the blank line after it. *)
Definition sse_frame_end (buffer : list Z) : option (nat * nat) :=
  match position_of [LF; LF] buffer, position_of [CR; LF; CR; LF] buffer with
  | Some a, Some b => if (a <=? b)%nat then Some (a, 2%nat) else Some (b, 4%nat)
  | Some a, None => Some (a, 2%nat)
  | None, Some b => Some (b, 4%nat)
  | None, None => None
  end.

(** [slice::split] *)
Fixpoint split_on (sep : Z) (l : list Z) : list (list Z) :=
  match l with
  | [] => [[]]
  | b :: l' =>
      if b =? sep then [] :: split_on sep l'
      else match split_on sep l' with
           | x :: xs => (b :: x) :: xs
           | [] => [[b]]
           end
  end.

Definition strip_prefix (pat l : list Z) : option (list Z) :=
  if starts_with pat l then Some (drop (length pat) l) else None.
Definition strip_cr (l : list Z) : list Z :=
  if bool_decide (last l = Some CR) then take (length l - 1) l else l.

(** What one line adds to the data gathered so far. *)
Definition gather (data raw_line : list Z) : list Z :=
  let line := strip_cr raw_line in
  if starts_with (bytes_of ":") line || bool_decide (line = []) then data
  else match strip_prefix (bytes_of "data:") line with
       | None => data
       | Some value =>
           let value := default value (strip_prefix (bytes_of " ") value) in
           (if bool_decide (data = []) then data else data ++ [LF]) ++ value
       end.

Definition frame_data (frame : list Z) : list Z := foldl gather [] (split_on LF frame).

Definition is_ascii_whitespace (b : Z) : bool :=
  (b =? 32) || (b =? 9) || (b =? 10) || (b =? 12) || (b =? 13).

Section Stream.
Context (parse_json : list Z -> option Json).

Definition decode_log_sse_frame (frame : list Z) : res string (option (list Z)) :=
  if MAX_LOG_FRAME_BYTES <? Z.of_nat (length frame) then Err "application log frame exceeded 256 KiB"
  else
    let data := frame_data frame in
    if bool_decide (data = []) then Ok None
    else match (j ← parse_json data; de_string j) with
         | Some s => Ok (Some (bytes_of s))
         | None => Err "hypeman returned an invalid application log frame"
         end.

(** * The task that reads the stream *)

Context (base_url path : string).
Definition Item : Type := res Error (list Z).
Definition broken (message : string) : Item := Err (Api 502 "GET" path message).

(** The inner loop: the items of the complete frames in [pending], and what is left, or
    nothing once the task has returned. *)
Fixpoint drain (fuel : nat) (pending : list Z) : list Item * option (list Z) :=
  match fuel with
  | O => ([], Some pending)
  | S fuel =>
      match sse_frame_end pending with
      | None => ([], Some pending)
      | Some (e, sep) =>
          let rest := drop (e + sep) pending in
          match decode_log_sse_frame (take e pending) with
          | Ok (Some line) => let '(items, k) := drain fuel rest in (Ok line :: items, k)
          | Ok None => drain fuel rest
          | Err message => ([broken message], None)
          end
      end
  end.

(** The end of the stream. *)
Definition incomplete (pending : list Z) : list Item :=
  if existsb (fun b => negb (is_ascii_whitespace b)) pending
  then [broken "application log stream ended with an incomplete frame"] else [].

Fixpoint pump (chunks : list (res string (list Z))) (pending : list Z) : list Item :=
  match chunks with
  | [] => incomplete pending
  | Err source :: _ => [Err (Unreachable base_url source)]
  | Ok chunk :: chunks =>
      let pending := pending ++ chunk in
      let '(items, k) := drain (S (length pending)) pending in
      items ++ match k with
               | None => []
               | Some rest =>
                   if MAX_LOG_FRAME_BYTES <? Z.of_nat (length rest)
                   then [broken "application log frame exceeded 256 KiB"]
                   else pump chunks rest
               end
  end.

(** * The same, for bytes that are all there *)

Fixpoint split_frames_n (fuel : nat) (b : list Z) : list (list Z) * list Z :=
  match fuel with
  | O => ([], b)
  | S fuel =>
      match sse_frame_end b with
      | None => ([], b)
      | Some (e, sep) =>
          let '(fs, r) := split_frames_n fuel (drop (e + sep) b) in (take e b :: fs, r)
      end
  end.
(** The frames of [b] and what follows the last. *)
Definition split_frames (b : list Z) : list (list Z) * list Z := split_frames_n (S (length b)) b.

(** The lines of the frames, up to the first that is refused. *)
Fixpoint deliver (frames : list (list Z)) : list Item * bool :=
  match frames with
  | [] => ([], true)
  | f :: fs =>
      match decode_log_sse_frame f with
      | Ok (Some line) => let '(items, k) := deliver fs in (Ok line :: items, k)
      | Ok None => deliver fs
      | Err message => ([broken message], false)
      end
  end.

Definition log_items (b : list Z) : list Item :=
  let '(fs, r) := split_frames b in
  let '(items, k) := deliver fs in
  items ++ (if k then incomplete r else []).

(** Every frame leaves room for all but the last byte of the longest blank line. *)
Definition frames_fit (b : list Z) : Prop :=
  Forall (fun f => Z.of_nat (length f) + 3 <= MAX_LOG_FRAME_BYTES) (split_frames b).1
  /\ Z.of_nat (length (split_frames b).2) <= MAX_LOG_FRAME_BYTES.
End Stream.

(** [HypemanClient::stream_application_logs] *)
Definition stream_application_logs {W} (http_stream : W -> HttpRequest -> W * res string StreamResponse)
    (parse_json : list Z -> option Json) (c : HypemanClient) (id : string) (tail : Z) (follow : bool)
    : Call W (res Error (list Item)) :=
  let path := application_log_path id tail follow in
  let@? r := (fun w => http_stream w (request c GET path NoBody)) or unreachable_error c in
  if is_success (st_status r)
  then pass_back (Ok (pump parse_json (hc_base_url c) path (st_chunks r) []))
  else pass_back (Err (Api (st_status r) "GET" path (default empty_str (st_body r)))).

(** * Finding the first blank line *)

Section Frames.

Lemma starts_with_spec pat l : starts_with pat l = true <-> exists t, l = pat ++ t.
Proof.
  unfold starts_with. rewrite bool_decide_eq_true. split.
  - intros H. exists (drop (length pat) l). rewrite <- H at 1. by rewrite take_drop.
  - intros [t ->]. by rewrite take_app_length.
Qed.

Lemma starts_with_app pat l q : starts_with pat l = true -> starts_with pat (l ++ q) = true.
Proof. rewrite !starts_with_spec. intros [t ->]. exists (t ++ q). by rewrite app_assoc. Qed.

Lemma starts_with_nil pat : pat <> [] -> starts_with pat [] = false.
Proof. intros. apply not_true_iff_false. rewrite starts_with_spec. by intros [t ?]; destruct pat. Qed.

(** [position_of] finds the first occurrence. *)
Lemma position_of_Some pat l n :
  pat <> [] ->
  position_of pat l = Some n <->
  starts_with pat (drop n l) = true /\ forall m, (m < n)%nat -> starts_with pat (drop m l) = false.
Proof.
  intros Hp. revert n. induction l as [|x l IH]; intros n; cbn [position_of].
  { rewrite drop_nil, starts_with_nil by done. split; [done|by intros [? _]]. }
  destruct (starts_with pat (x :: l)) eqn:E.
  - split; [intros [= <-]; split; [done|lia]|]. intros [_ Hm]. destruct n; [done|].
    specialize (Hm 0%nat ltac:(lia)). cbn in Hm. congruence.
  - rewrite fmap_Some. split.
    + intros (n' & [? Hm]%IH & ->). split; [done|]. intros [|m] ?; [done|]. apply Hm. lia.
    + intros [H Hm]. destruct n as [|n]; [cbn in H; congruence|]. exists n. split; [|done].
      apply IH. split; [done|]. intros m ?. apply (Hm (S m)). lia.
Qed.

Lemma position_of_None pat l :
  pat <> [] -> position_of pat l = None <-> forall n, starts_with pat (drop n l) = false.
Proof.
  intros Hp. induction l as [|x l IH]; cbn [position_of].
  { split; [|done]. intros _ n. by rewrite drop_nil, starts_with_nil. }
  destruct (starts_with pat (x :: l)) eqn:E.
  - split; [done|]. intros H. specialize (H 0%nat). cbn in H. congruence.
  - rewrite fmap_None, IH. split; [intros H [|n]; [exact E|exact (H n)]|]. intros H n. exact (H (S n)).
Qed.

(** A blank line at [n]. *)
Definition blank_at (l : list Z) (n sep : nat) : Prop :=
  (sep = 2%nat /\ starts_with [LF; LF] (drop n l) = true)
  \/ (sep = 4%nat /\ starts_with [CR; LF; CR; LF] (drop n l) = true).

Lemma blank_at_fun l n s s' : blank_at l n s -> blank_at l n s' -> s = s'.
Proof.
  intros [[-> H]|[-> H]] [[-> H']|[-> H']]; try done; exfalso;
    apply starts_with_spec in H as [t E], H' as [t' E']; rewrite E in E'; discriminate.
Qed.

(** [sse_frame_end] finds the first blank line. *)
Lemma sse_frame_end_Some l e sep :
  sse_frame_end l = Some (e, sep) <-> blank_at l e sep /\ forall m s, (m < e)%nat -> ~ blank_at l m s.
Proof.
  assert (Hn : forall m s, blank_at l m s -> sse_frame_end l <> None).
  { unfold sse_frame_end. intros m s [[-> H]|[-> H]].
    - destruct (position_of [LF; LF] l) eqn:E; [repeat split_match; done|].
      rewrite position_of_None in E by done. by rewrite E in H.
    - destruct (position_of [CR; LF; CR; LF] l) eqn:E; [repeat split_match; done|].
      rewrite position_of_None in E by done. by rewrite E in H. }
  assert (Hs : forall e sep, sse_frame_end l = Some (e, sep) ->
    blank_at l e sep /\ forall m s, (m < e)%nat -> ~ blank_at l m s).
  { clear e sep. intros e sep. unfold sse_frame_end, blank_at.
    destruct (position_of [LF; LF] l) as [a|] eqn:Ea, (position_of [CR; LF; CR; LF] l) as [b|] eqn:Eb;
      try rewrite position_of_Some in Ea by done; try rewrite position_of_Some in Eb by done;
      try rewrite position_of_None in Ea by done; try rewrite position_of_None in Eb by done;
      [destruct (Nat.leb_spec a b)|..]; intros [= <- <-]; split; try tauto;
      intros m s ? [[-> H']|[-> H']]; try (by rewrite Ea in H'); try (by rewrite Eb in H');
      [rewrite (proj2 Ea) in H'|rewrite (proj2 Eb) in H'|rewrite (proj2 Ea) in H'
      |rewrite (proj2 Eb) in H'|rewrite (proj2 Ea) in H'|rewrite (proj2 Eb) in H']; try done; lia. }
  split; [apply Hs|]. intros [Hb Hm].
  destruct (sse_frame_end l) as [[e' sep']|] eqn:E; [|by destruct (Hn e sep)].
  destruct (Hs e' sep' eq_refl) as [Hb' Hm'].
  assert (e' = e) as -> by (destruct (lt_eq_lt_dec e' e) as [[|]|];
    [by destruct (Hm e' sep')|done|by destruct (Hm' e sep)]).
  by rewrite (blank_at_fun l e sep sep').
Qed.

Lemma sse_frame_end_None l : sse_frame_end l = None <-> forall m s, ~ blank_at l m s.
Proof.
  unfold sse_frame_end, blank_at. split.
  - intros H m s. repeat split_match; try done. rewrite position_of_None in Heqo, Heqo0 by done.
    rewrite Heqo, Heqo0. intros [[_ ?]|[_ ?]]; done.
  - intros H. rewrite (proj2 (position_of_None [LF; LF] l ltac:(done))).
    2:{ intros n. apply not_true_iff_false. intros ?. apply (H n 2%nat). tauto. }
    rewrite (proj2 (position_of_None [CR; LF; CR; LF] l ltac:(done))); [done|].
    intros n. apply not_true_iff_false. intros ?. apply (H n 4%nat). tauto.
Qed.

Lemma blank_at_app l q n s : blank_at l n s -> blank_at (l ++ q) n s.
Proof.
  assert (Hd : forall pat, pat <> [] -> starts_with pat (drop n l) = true ->
    starts_with pat (drop n (l ++ q)) = true).
  { intros pat Hp H. destruct (decide (n <= length l)%nat).
    - rewrite drop_app_le by done. by apply starts_with_app.
    - rewrite drop_ge, starts_with_nil in H by (done || lia). done. }
  intros [[-> H]|[-> H]]; [left|right]; eauto.
Qed.

Lemma blank_at_inside l n s : blank_at l n s -> (n + s <= length l)%nat.
Proof.
  intros [[-> H]|[-> H]]; apply starts_with_spec in H as [t E]; apply (f_equal length) in E;
    rewrite length_drop in E; cbn in E; lia.
Qed.

(** A blank line of a longer text that ends inside a prefix is one of the prefix. *)
Lemma blank_at_within l q n s : blank_at (l ++ q) n s -> (n + s <= length l)%nat -> blank_at l n s.
Proof.
  assert (Hd : forall pat, (n + length pat <= length l)%nat -> starts_with pat (drop n (l ++ q)) = true ->
    starts_with pat (drop n l) = true).
  { intros pat Hl. unfold starts_with. rewrite !bool_decide_eq_true, drop_app_le, take_app_le; [done| |lia].
    rewrite length_drop. lia. }
  intros [[-> H]|[-> H]] ?; [left|right]; split; try done; by apply Hd.
Qed.

(** A blank line that starts before a complete one cannot end after it. *)
Lemma blank_no_overlap l m s n s' :
  blank_at l m s -> blank_at l n s' -> (m < n)%nat -> (m + s <= n + s')%nat.
Proof.
  intros H H' Hlt. pose proof H as Hm; pose proof H' as Hn.
  destruct Hm as [[-> Hm]|[-> Hm]], Hn as [[-> Hn]|[-> Hn]]; try lia.
  destruct (decide (n = S m)) as [->|]; [exfalso|lia].
  apply starts_with_spec in Hm as [t Em], Hn as [t' En].
  replace (S m) with (m + 1)%nat in En by lia. rewrite <- drop_drop, Em in En. done.
Qed.

(** More bytes do not change where the first frame ends. *)
Lemma sse_frame_end_app l q e sep : sse_frame_end l = Some (e, sep) -> sse_frame_end (l ++ q) = Some (e, sep).
Proof.
  rewrite !sse_frame_end_Some. intros [Hb Hm]. split; [by apply blank_at_app|].
  intros m s Hlt H. apply (Hm m s Hlt). apply (blank_at_within _ q); [done|].
  pose proof (blank_no_overlap _ _ _ _ _ H (blank_at_app _ q _ _ Hb) Hlt).
  pose proof (blank_at_inside _ _ _ Hb). lia.
Qed.

Lemma sse_frame_end_inside l e sep :
  sse_frame_end l = Some (e, sep) -> (e + sep <= length l)%nat /\ (2 <= sep <= 4)%nat.
Proof.
  rewrite sse_frame_end_Some. intros [H _]. split; [by apply blank_at_inside|].
  destruct H as [[-> _]|[-> _]]; lia.
Qed.
End Frames.

(** * Splitting *)

Section Splitting.

Lemma split_frames_n_enough n m b :
  (length b < n)%nat -> (length b < m)%nat -> split_frames_n n b = split_frames_n m b.
Proof.
  revert m b. induction n as [|n IH]; intros [|m] b ? ?; try lia. cbn [split_frames_n].
  destruct (sse_frame_end b) as [[e sep]|] eqn:E; [|done].
  apply sse_frame_end_inside in E as [? ?].
  rewrite (IH m); [done|rewrite length_drop; lia|rewrite length_drop; lia].
Qed.

Lemma split_frames_eq b :
  split_frames b =
  match sse_frame_end b with
  | None => ([], b)
  | Some (e, sep) => (take e b :: (split_frames (drop (e + sep) b)).1, (split_frames (drop (e + sep) b)).2)
  end.
Proof.
  unfold split_frames at 1. cbn [split_frames_n].
  destruct (sse_frame_end b) as [[e sep]|] eqn:E; [|done].
  apply sse_frame_end_inside in E as [? ?]. unfold split_frames.
  rewrite (split_frames_n_enough (S (length (drop (e + sep) b))) (length b));
    [by destruct (split_frames_n _ _)|lia|rewrite length_drop; lia].
Qed.

(** Induction along the frames. *)
Lemma split_frames_ind (P : list Z -> Prop) :
  (forall b, sse_frame_end b = None -> P b) ->
  (forall b e sep, sse_frame_end b = Some (e, sep) -> P (drop (e + sep) b) -> P b) ->
  forall b, P b.
Proof.
  intros Hn Hs b. remember (length b) as n eqn:En. revert b En.
  induction (lt_wf n) as [n _ IH]. intros b ->.
  destruct (sse_frame_end b) as [[e sep]|] eqn:E; [|by apply Hn].
  apply (Hs b e sep E). eapply IH; [|done].
  apply sse_frame_end_inside in E as [? ?]. rewrite length_drop. lia.
Qed.

Lemma split_frames_rest b : sse_frame_end (split_frames b).2 = None.
Proof.
  induction b as [b E|b e sep E IH] using split_frames_ind; rewrite split_frames_eq, E; done.
Qed.

(** The frames of a text continue where those of a prefix stopped. *)
Lemma split_frames_app b q :
  split_frames (b ++ q) =
  ((split_frames b).1 ++ (split_frames ((split_frames b).2 ++ q)).1, (split_frames ((split_frames b).2 ++ q)).2).
Proof.
  induction b as [b E|b e sep E IH] using split_frames_ind.
  - rewrite (split_frames_eq b), E. cbn [fst snd app]. by destruct (split_frames (b ++ q)).
  - rewrite (split_frames_eq (b ++ q)), (sse_frame_end_app _ _ _ _ E).
    rewrite (split_frames_eq b), E. cbn [fst snd app].
    apply sse_frame_end_inside in E as [? ?].
    rewrite drop_app_le, take_app_le, IH by lia. done.
Qed.

(** A text without a complete frame is short when what it grows into fits. *)
Lemma pending_fits b q :
  sse_frame_end b = None -> frames_fit (b ++ q) -> Z.of_nat (length b) <= MAX_LOG_FRAME_BYTES.
Proof.
  unfold frames_fit. intros Hb. rewrite split_frames_eq.
  destruct (sse_frame_end (b ++ q)) as [[e sep]|] eqn:E; cbn [fst snd].
  - intros [[Hf _]%Forall_cons _]. pose proof (sse_frame_end_inside _ _ _ E) as [? ?].
    rewrite length_take in Hf. apply sse_frame_end_Some in E as [E _].
    destruct (decide (e + sep <= length b)%nat).
    + apply blank_at_within in E; [|done]. rewrite sse_frame_end_None in Hb. by destruct (Hb e sep).
    + lia.
  - intros [_ H]. rewrite length_app in H. lia.
Qed.

Context (parse_json : list Z -> option Json) (base_url path : string).

Lemma drain_delivers n b :
  (length b < n)%nat ->
  drain parse_json path n b =
  let '(items, k) := deliver parse_json path (split_frames b).1 in
  (items, if k then Some (split_frames b).2 else None).
Proof.
  revert n. induction b as [b E|b e sep E IH] using split_frames_ind;
    intros [|n] Hn; try lia; rewrite split_frames_eq; cbn [drain]; rewrite E; [done|].
  cbn [fst snd deliver]. pose proof (sse_frame_end_inside _ _ _ E) as [? ?].
  destruct (decode_log_sse_frame parse_json (take e b)) as [[line|]|m]; [| |done];
    rewrite IH by (rewrite length_drop; lia); by destruct (deliver parse_json path _).
Qed.

Lemma deliver_app fs fs' :
  deliver parse_json path (fs ++ fs') =
  let '(items, k) := deliver parse_json path fs in
  if k then let '(items', k') := deliver parse_json path fs' in (items ++ items', k') else (items, false).
Proof.
  induction fs as [|f fs IH]; cbn [deliver app]; [by destruct (deliver parse_json path fs')|].
  destruct (decode_log_sse_frame parse_json f) as [[line|]|m]; [|done|done].
  rewrite IH. destruct (deliver parse_json path fs) as [? []]; [|done].
  by destruct (deliver parse_json path fs').
Qed.

Lemma pump_from chunks pending :
  sse_frame_end pending = None ->
  frames_fit (pending ++ mjoin chunks) ->
  pump parse_json base_url path (Ok <$> chunks) pending = log_items parse_json path (pending ++ mjoin chunks).
Proof.
  revert pending. induction chunks as [|c chunks IH]; intros pending Hp Hfit.
  - cbn [mjoin list_join] in *. rewrite app_nil_r. unfold log_items.
    rewrite split_frames_eq, Hp. done.
  - change (mjoin (c :: chunks)) with (c ++ mjoin chunks) in *. rewrite app_assoc in *.
    cbn [fmap list_fmap pump]. rewrite drain_delivers by lia.
    unfold log_items, frames_fit in *. rewrite (split_frames_app (pending ++ c)) in *.
    cbn [fst snd] in *. rewrite deliver_app.
    destruct (deliver parse_json path (split_frames (pending ++ c)).1) as [items []]; [|done].
    destruct Hfit as [[_ Hfs]%Forall_app Hr].
    rewrite (proj2 (Z.ltb_ge _ _)) by (eapply (pending_fits _ (mjoin chunks)); [apply split_frames_rest|by split]).
    rewrite IH; [|apply split_frames_rest|by split]. unfold log_items.
    destruct (split_frames _) as [fs r]. cbn [fst snd].
    destruct (deliver parse_json path fs) as [items' k']. by rewrite app_assoc.
Qed.
End Splitting.

(** C27: while every frame of a log stream stays three bytes under the limit, and what follows the
    last is within it, the stream yields the same items however its bytes are cut into
    chunks: the lines of its frames in order, up to the first frame that is refused, and an
    error at the end exactly when something other than white space is left over. (A frame
    nearer to the limit is refused or not by where it is cut:
    [full_frame_refused_when_cut].) *)
Theorem log_stream_ignores_chunking (parse_json : list Z -> option Json) (base_url path : string)
    (chunks : list (list Z)) :
  frames_fit (mjoin chunks) ->
  pump parse_json base_url path (Ok <$> chunks) [] = log_items parse_json path (mjoin chunks).
Proof. intros H. by apply (pump_from parse_json base_url path chunks []). Qed.

(** * Concrete streams *)

(** A reader for JSON strings without escapes. *)
Definition toy_json (l : list Z) : option Json :=
  match l with
  | 34 :: l' => if bool_decide (last l' = Some 34) then Some (JStr (text_of (take (length l' - 1) l'))) else None
  | _ => None
  end.

Definition toy_frame (s : string) : list Z := bytes_of "data: " ++ [34] ++ bytes_of s ++ [34].

Definition toy_chunks : list (list Z) :=
  [toy_frame "one" ++ [LF]; [LF; CR]; [LF; CR]; [LF]; toy_frame "two" ++ [CR; LF; CR]; [LF]].

Lemma log_stream_ignores_chunking_witness :
  frames_fit (mjoin toy_chunks)
  /\ pump toy_json "u" "p" (Ok <$> toy_chunks) [] = log_items toy_json "p" (mjoin toy_chunks)
  /\ log_items toy_json "p" (mjoin toy_chunks) = [Ok (bytes_of "one"); Ok (bytes_of "two")].
Proof.
  assert (Hf : frames_fit (mjoin toy_chunks)).
  { assert (E : split_frames (mjoin toy_chunks) = ([toy_frame "one"; []; toy_frame "two"], []))
      by (vm_compute; reflexivity).
    unfold frames_fit. rewrite E. split; [repeat apply Forall_cons_2|]; [..|apply Forall_nil_2|];
      apply Z.leb_le; vm_compute; reflexivity. }
  split; [exact Hf|split; [exact (log_stream_ignores_chunking toy_json "u" "p" toy_chunks Hf)|]].
  vm_compute. reflexivity.
Defined.

(** A frame of exactly the size allowed is refused when its blank line arrives in two
    chunks, and accepted otherwise. *)
Definition full_frame : list Z := replicate (Z.to_nat MAX_LOG_FRAME_BYTES) 58.

Lemma colons_blank n t m s :
  (m < n)%nat -> ~ blank_at (replicate n 58 ++ t) m s.
Proof.
  intros Hm. replace n with (m + S (n - m - 1))%nat by lia.
  rewrite replicate_add. unfold blank_at.
  rewrite <- app_assoc, drop_app_length' by (by rewrite length_replicate). cbn [replicate app].
  intros [[_ H]|[_ H]]; apply starts_with_spec in H as [? ?]; discriminate.
Qed.

Lemma split_on_absent sep l : sep ∉ l -> split_on sep l = [l].
Proof.
  induction l as [|b l IH]; [done|]. rewrite not_elem_of_cons. intros [? ?]. cbn [split_on].
  rewrite (proj2 (Z.eqb_neq b sep)), IH by done. done.
Qed.

Lemma colons_decode n :
  Z.of_nat n <= MAX_LOG_FRAME_BYTES -> decode_log_sse_frame toy_json (replicate n 58) = Ok None.
Proof.
  intros Hn. unfold decode_log_sse_frame, frame_data. rewrite length_replicate.
  rewrite (proj2 (Z.ltb_ge _ _)) by done.
  rewrite split_on_absent by (intros [? _]%elem_of_replicate; done). destruct n as [|n]; [done|].
  cbn [foldl]. unfold gather, strip_cr.
  rewrite (bool_decide_eq_false_2 (last (replicate (S n) 58) = Some CR)); [done|].
  intros H. apply last_Some_elem_of, elem_of_replicate in H as [? _]. done.
Qed.

Lemma full_frame_refused_when_cut :
  pump toy_json "u" "p" [Ok (full_frame ++ [LF; LF])] [] = []
  /\ pump toy_json "u" "p" [Ok (full_frame ++ [LF]); Ok [LF]] []
     = [broken "p" "application log frame exceeded 256 KiB"].
Proof.
  unfold full_frame. assert (HN : Z.of_nat (Z.to_nat MAX_LOG_FRAME_BYTES) = MAX_LOG_FRAME_BYTES)
    by (apply Z2Nat.id; discriminate).
  revert HN. generalize (Z.to_nat MAX_LOG_FRAME_BYTES) as N. intros N HN. split.
  - cbn [pump app]. rewrite drain_delivers by lia.
    rewrite split_frames_eq, (proj2 (sse_frame_end_Some _ N 2)).
    + rewrite drop_app_ge, take_app_length', length_replicate by (rewrite length_replicate; lia).
      replace (N + 2 - N)%nat with 2%nat by lia. cbn [drop fst snd deliver].
      rewrite colons_decode by lia. done.
    + split; [|intros m s; apply colons_blank].
      left. split; [done|]. rewrite drop_app_length' by (by rewrite length_replicate). done.
  - cbn [pump app]. rewrite drain_delivers by lia.
    rewrite split_frames_eq, (proj2 (sse_frame_end_None _)).
    + cbn [fst snd deliver]. rewrite length_app, length_replicate.
      rewrite (proj2 (Z.ltb_lt _ _)); [done|]. cbn [length]. lia.
    + intros m s H. destruct (decide (m < N)%nat); [by eapply colons_blank|].
      apply blank_at_inside in H as H'. rewrite length_app, length_replicate in H'. cbn in H'.
      destruct H as [[-> _]|[-> _]]; lia.
Qed.
