(* ===== verification/Hypeman.v ===== *)
(** The hypeman implementation of the runtime trait: [runtime.rs], [ingress.rs],
    [token_volume.rs], [agent_volume.rs] and [channel.rs] of
    src/crates/barista-node-agent/src/runtime/hypeman.

    The substrate's server is a parameter, with the host's monotonic clock and what passes
    while a task sleeps. Ports reserved in memory are shared with the other tasks of the
    process, which may change them before each locking. *)

From S2P Require Import Prelude Text Proto Journal Codec Runtime HypemanClient Logs.
From Stdlib Require Import Ascii.

(** * Ingress configuration *)

Record IngressConfig := { advertise_host : string; ports_start : Z; ports_end : Z }.

Definition ingress_config_new (host : string) (lo hi : Z) : res string IngressConfig :=
  if is_empty host then Err "the ingress advertise host must not be empty"
  else if contains_char "/" host || any_char ascii_space host || contains_char ":" host
  then Err ("the ingress advertise host must be a bare host (no scheme, port or path): " +:+ quoted host)
  else if hi <? lo then Err ("the ingress port range is empty: " +:+ pretty lo +:+ "-" +:+ pretty hi)
  else if negb (0 <? lo) then Err "the ingress port range must not include port 0"
  else Ok {| advertise_host := host; ports_start := lo; ports_end := hi |}.

Definition parse_ports (s : string) : res string (Z * Z) :=
  match split_once "-" s with
  | None => Err ("ingress ports must be `min-max`, not " +:+ quoted s)
  | Some (min, max) =>
      match parse_u16 (trim_by ascii_space min) with
      | None => Err ("ingress port range start is not a port: " +:+ quoted s)
      | Some min =>
          match parse_u16 (trim_by ascii_space max) with
          | None => Err ("ingress port range end is not a port: " +:+ quoted s)
          | Some max =>
              if (min <=? max) && (0 <? min) then Ok (min, max)
              else Err ("ingress port range is empty: " +:+ quoted s)
          end
      end
  end.

Definition port_range (c : IngressConfig) : list Z := seqZ (ports_start c) (ports_end c - ports_start c + 1).
Definition pick_port (c : IngressConfig) (used : gset Z) : option Z :=
  head (filter (fun p => p ∉ used) (port_range c)).

Definition listener_port_of (i : Ingress) : res RuntimeError Z :=
  match ig_rules i with
  | [rule] => Ok (default 80 (im_port (ir_match rule)))
  | other => Err (Other ("ingress '" +:+ ig_name i +:+ "' has " +:+ pretty (length other)
      +:+ " rules where barista wrote one; refusing to guess which listener it serves"))
  end.

(** * Names *)

Definition NODE_TAG : string := "barista.node_id".
Definition INSTANCE_TAG : string := "barista.instance_id".

Definition is_alnum (c : ascii) : bool :=
  let n := Ascii.nat_of_ascii c in
  ((65 <=? n) && (n <=? 90) || (97 <=? n) && (n <=? 122) || (48 <=? n) && (n <=? 57))%nat.
(** [char::to_ascii_lowercase] *)
Definition lower (c : ascii) : ascii :=
  let n := Ascii.nat_of_ascii c in
  if ((65 <=? n) && (n <=? 90))%nat then Ascii.ascii_of_nat (n + 32) else c.
Definition is_dash (c : ascii) : bool := bool_decide (c = "-"%char).
(** Each character that is not ASCII alphanumeric becomes a dash: [chars] joins the bytes
    of one beyond ASCII. *)
Definition continuation (c : ascii) : bool :=
  let n := Ascii.nat_of_ascii c in ((128 <=? n) && (n <? 192))%nat.
Fixpoint map_name (s : string) : string :=
  match s with
  | EmptyString => EmptyString
  | String c s' =>
      if continuation c then map_name s'
      else String (if is_alnum c then lower c else "-"%char) (map_name s')
  end.
Definition sanitize (component : string) : string := trim_by is_dash (map_name component).
Definition sandbox_name (node_id instance_id : string) : string :=
  "barista-" +:+ sanitize node_id +:+ "-" +:+ sanitize instance_id.

(** * Credential and agent volumes *)

Definition ID_PREFIX : string := "barista-token-".
(** [trim_start_matches("barista-")] *)
Fixpoint trim_start_matches (fuel : nat) (pat s : string) : string :=
  match fuel with
  | O => s
  | S fuel => if String.prefix pat s
              then trim_start_matches fuel pat (String.substring (String.length pat) (String.length s - String.length pat) s)
              else s
  end.
Definition token_volume_id (node_id instance_id : string) : string :=
  let name := sandbox_name node_id instance_id in
  ID_PREFIX +:+ trim_start_matches (String.length name) "barista-" name.
Definition is_token_volume (volume_id : string) : bool := String.prefix ID_PREFIX volume_id.
Definition claim (node_id instance_id : string) : list (string * string) :=
  [(NODE_TAG, node_id); (INSTANCE_TAG, instance_id)].

Definition TOKEN_MOUNT_PATH : string := "/barista-secret".
Definition TOKEN_PATH : string := "/barista-secret/token".
Definition TLS_KEY_PATH : string := "/barista-secret/guest.key".
Definition TLS_CERT_PATH : string := "/barista-secret/guest.crt".
Definition TLS_ANCHOR_PATH : string := "/barista-secret/ca.crt".
Definition VOLUME_SIZE_GB : Z := 1.

(** One file of an archive: its path, mode and bytes. *)
Record TarEntry := { te_path : string; te_mode : Z; te_bytes : list Z }.

Definition token_entries (token : string) (identity : option Identity) : list TarEntry :=
  {| te_path := "token"; te_mode := 256; te_bytes := bytes_of token |}
  :: match identity with
     | Some id =>
         [{| te_path := "guest.key"; te_mode := 256; te_bytes := guest_key id |};
          {| te_path := "guest.crt"; te_mode := 256; te_bytes := guest_cert id |};
          {| te_path := "ca.crt"; te_mode := 256; te_bytes := anchor id |}]
     | None => []
     end.
Definition agent_entries (bytes : list Z) : list TarEntry :=
  [{| te_path := "barista-guest-agent"; te_mode := 493; te_bytes := bytes |}].

Record AgentVolume := { av_volume_id : string; agent_hash : string }.
Definition AGENT_MOUNT_PATH : string := "/barista".
Definition AGENT_PATH : string := "/barista/barista-guest-agent".
Definition agent_volume_id (agent_hash : string) : string := "barista-guest-agent-" +:+ agent_hash.

(** * Decisions *)

Inductive RunningTransition : Type := TStart | TRestore.
Inductive RunningDecision : Type := Complete | Wait | Refuse.
Definition running_decision (t : RunningTransition) (s : SubstrateState) : RunningDecision :=
  match t, s with
  | _, VmRunning => Complete
  | _, (VmCreated | VmInitializing) => Wait
  | TRestore, (VmPaused | VmStandby) => Wait
  | _, _ => Refuse
  end.

Definition survivor_rank (s : SubstrateState) : Z :=
  match s with
  | VmRunning => 7 | VmInitializing => 6 | VmCreated => 5 | VmStandby => 4
  | VmPaused => 3 | VmStopped => 2 | VmShutdown => 1 | VmUnknown => 0
  end.
(** [sort_by_key], which is stable. *)
Fixpoint insert_by_rank (x : Instance) (l : list Instance) : list Instance :=
  match l with
  | [] => [x]
  | y :: l' => if survivor_rank (i_state x) <=? survivor_rank (i_state y) then x :: l
               else y :: insert_by_rank x l'
  end.
Definition sort_by_rank (l : list Instance) : list Instance := foldr insert_by_rank [] l.
(** [Vec::pop] *)
Definition pop {A} (l : list A) : option A * list A := (last l, take (length l - 1) l).
Definition dedup_decision (mine : list Instance) : option Instance * list Instance :=
  if (length mine <=? 1)%nat then ((pop mine).1, []) else pop (sort_by_rank mine).

Definition map_client_err (e : Error) : RuntimeError :=
  match e with
  | Unreachable _ _ => SubstrateUnavailable (error_text e)
  | _ => if not_found e then TemplateNotFound ("hypeman: " +:+ error_text e) else Other (error_text e)
  end.

Definition map_snapshot_kind (k : SubstrateSnapshotKind) : SnapshotKind.t :=
  match k with KindStandby => SnapshotKind.MemoryAndDisk | _ => SnapshotKind.DiskOnly end.

Definition map_state (s : SubstrateState) : InstanceState.t :=
  match s with
  | VmInitializing => InstanceState.Starting
  | VmRunning => InstanceState.Running
  | VmStandby => InstanceState.Paused
  | VmStopped | VmShutdown => InstanceState.Stopped
  | VmCreated | VmPaused | VmUnknown => InstanceState.Unspecified
  end.

(** * The request for a sandbox *)

Definition default_process : Process := {| start_cmd := []; ready_cmd := []; env := ∅; workdir := empty_str |}.
Definition default_hooks : Hooks :=
  {| pre_snapshot_cmd := []; post_restore_cmd := []; pre_snapshot_timeout_ms := 0; post_restore_timeout_ms := 0 |}.

Definition image_of (spec : InstanceSpec) : res RuntimeError string :=
  match template spec with
  | None => Err (TemplateNotFound "spec.template missing")
  | Some t => match oci t with
              | Some o => Ok (image o +:+ "@" +:+ digest o)
              | None => Err (TemplateNotFound "template.oci missing")
              end
  end.

(** An unknown number reads as the default, as in the generated accessor. *)
Definition network_of (spec : InstanceSpec) : option NetworkConfig :=
  policy ← option_filter mediated (egress spec);
  let mode := if egress_mode policy =? 2 then EgressHttpHttpsOnly else EgressAll in
  Some {| nc_egress := {| ec_enabled := true; ec_enforcement := Some {| ee_mode := mode |} |} |}.

Definition spec_port (spec : InstanceSpec) : res RuntimeError (option Z) :=
  match process spec ≫= fun p => env p !! "PORT" with
  | None => Ok None
  | Some raw =>
      match option_filter (fun p => 0 <? p) (parse_u16 raw) with
      | Some p => Ok (Some p)
      | None => Err (Other ("spec.process.env PORT is " +:+ quoted raw +:+ ", which is not a TCP port; the workload "
          +:+ "would bind it while the ingress targets a number, so it is refused here "
          +:+ "rather than published broken"))
      end
  end.

Definition require_pinned_channel (g : GuestBootstrap) : res RuntimeError unit :=
  match gb_identity g with
  | Some _ => Ok tt
  | None => Err (CapabilityMissing ("this instance has no channel identity, and the hypeman guest channel is a TCP "
      +:+ "port on a network every sibling sandbox shares. Running it would leave the "
      +:+ "guest agent defended by a bearer token alone. An instance created before "
      +:+ "barista-021 cannot be cold-booted on this runtime; destroy it and create it again"))
  end.

Definition GUEST_PORT : Z := 7071.

Record HypemanRuntime := {
  h_client : HypemanClient;
  h_node_id : string;
  h_hypervisor : string;
  h_agent : AgentVolume;
  h_egress_control : bool;
  h_ingress : option IngressConfig }.

Definition mb (n : Z) : option string := if 0 <? n then Some (pretty n +:+ "MB") else None.

Section Request.
(** [encode_to_vec] of prost, in base64. *)
Context (encode_process : Process -> string) (encode_hooks : Hooks -> string).

Definition with_port (port : option Z) (p : Process) : Process :=
  match port with
  | Some n =>
      match env p !! "PORT" with
      | Some _ => p
      | None => {| start_cmd := start_cmd p; ready_cmd := ready_cmd p;
                   env := <["PORT" := pretty n]> (env p); workdir := workdir p |}
      end
  | None => p
  end.

Definition guest_environment (p : Process) (hk : Hooks) (has_identity : bool) : gmap string string :=
  let base : gmap string string := list_to_map
    [("BARISTA_INSTANCE_TOKEN_FILE", TOKEN_PATH);
     ("BARISTA_GUEST_SOCKET", "/run/barista/guest.sock");
     ("BARISTA_GUEST_PROCESS", encode_process p);
     ("BARISTA_GUEST_HOOKS", encode_hooks hk);
     ("BARISTA_GUEST_TCP_PORT", pretty GUEST_PORT)] in
  if has_identity then
    list_to_map
      [("BARISTA_GUEST_TLS_KEY_FILE", TLS_KEY_PATH);
       ("BARISTA_GUEST_TLS_CERT_FILE", TLS_CERT_PATH);
       ("BARISTA_GUEST_TLS_ANCHOR_FILE", TLS_ANCHOR_PATH)] ∪ base
  else base.

Definition create_request (rt : HypemanRuntime) (spec : InstanceSpec) (has_identity : bool)
    (workload_port : option Z) : res RuntimeError CreateInstanceRequest :=
  let p := default default_process (process spec) in
  if bool_decide (start_cmd p = []) then Err (Other "spec.process.start_cmd is required")
  else
    let p := with_port workload_port p in
    let r := default {| vcpu := 0; mem_mib := 0; disk_mib := 0 |} (resources spec) in
    let? img := image_of spec in
    Ok {| cr_name := Some (sandbox_name (h_node_id rt) (instance_id spec));
          cr_image := img;
          cr_size := mb (mem_mib r);
          cr_vcpus := if 0 <? vcpu r then Some (vcpu r) else None;
          cr_overlay_size := mb (disk_mib r);
          cr_hypervisor := Some (h_hypervisor rt);
          cr_env := Some (guest_environment p (default default_hooks (hooks spec)) has_identity);
          cr_tags := Some (list_to_map (claim (h_node_id rt) (instance_id spec)));
          cr_entrypoint := Some [AGENT_PATH; "serve"];
          cr_cmd := Some [];
          cr_volumes := Some
            [{| vm_volume_id := av_volume_id (h_agent rt); vm_mount_path := AGENT_MOUNT_PATH; vm_readonly := true |};
             {| vm_volume_id := token_volume_id (h_node_id rt) (instance_id spec);
                vm_mount_path := TOKEN_MOUNT_PATH; vm_readonly := true |}];
          cr_network := network_of spec |}.
End Request.

(** * The stateful part *)

(** The server, the exchanges so far (latest last), the ports reserved in memory, and how
    many lockings and fresh names there have been. *)
Record HState (S : Type) := mkHState {
  hs_server : S;
  hs_log : list (HttpRequest * res string HttpResponse);
  hs_reserved : gset Z;
  hs_locks : nat;
  hs_names : nat }.
Arguments mkHState {S}. Arguments hs_server {S}. Arguments hs_log {S}. Arguments hs_reserved {S}.
Arguments hs_locks {S}. Arguments hs_names {S}.
#[global] Instance rebuild_HState S : Rebuild (HState S) := fun h =>
  mkHState (hs_server h) (hs_log h) (hs_reserved h) (hs_locks h) (hs_names h).

(** What the runtime runs on. *)
Record Host (S : Type) := {
  server : S -> HttpRequest -> S * res string HttpResponse;
  server_stream : S -> HttpRequest -> S * res string StreamResponse;
  json_reader : list Z -> option Json;
  json_trouble : HttpResponse -> string;
  (** [std::time::Instant::now] and [tokio::time::sleep], in nanoseconds. *)
  instant : S -> Z;
  asleep : duration -> S -> S;
  (** What other tasks do to the reservations before the n-th locking. *)
  others : nat -> gset Z -> gset Z;
  ulids : nat -> string;
  (** The tar and flate2 crates. *)
  archive : list TarEntry -> res string (list Z);
  prost_process : Process -> string;
  prost_hooks : Hooks -> string;
  sha256 : list Z -> list Z;
  (** [tls_config], the endpoint, and one TCP and TLS connection attempt. *)
  tls_setup : Identity -> string -> string -> res string unit;
  dial : S -> Identity -> string -> string -> S * res string unit;
  metadata_ok : string -> bool;
  is_aarch64 : bool }.
Arguments server {S}. Arguments server_stream {S}. Arguments json_reader {S}. Arguments json_trouble {S}.
Arguments instant {S}. Arguments asleep {S}. Arguments others {S}. Arguments ulids {S}. Arguments archive {S}.
Arguments prost_process {S}. Arguments prost_hooks {S}. Arguments sha256 {S}. Arguments tls_setup {S}.
Arguments dial {S}. Arguments metadata_ok {S}. Arguments is_aarch64 {S}.

Section Hypeman.
Context {S : Type} (host : Host S).
Abbreviation H A := (Call (HState S) A).

Definition http_call (h : HState S) (r : HttpRequest) : HState S * res string HttpResponse :=
  let '(s, a) := server host (hs_server h) r in
  (h <| hs_server := s |> <| hs_log := hs_log h ++ [(r, a)] |>, a).
Definition http_stream_call (h : HState S) (r : HttpRequest) : HState S * res string StreamResponse :=
  let '(s, a) := server_stream host (hs_server h) r in (h <| hs_server := s |>, a).
Definition sleep (d : duration) : H unit := fun h => (h <| hs_server := asleep host d (hs_server h) |>, tt).
Definition fresh_ulid : H string := fun h => (h <| hs_names := (hs_names h + 1)%nat |>, ulids host (hs_names h)).

(** [PortReservations::lock]: others may have been here first. *)
Definition locked {A} (f : gset Z -> gset Z * A) : H A := fun h =>
  let '(r, a) := f (others host (hs_locks h) (hs_reserved h)) in
  (h <| hs_reserved := r |> <| hs_locks := (hs_locks h + 1)%nat |>, a).
Definition try_take (port : Z) : H bool :=
  locked (fun held => if bool_decide (port ∈ held) then (held, false) else ({[port]} ∪ held, true)).
Definition reserved_ports : H (gset Z) := locked (fun held => (held, held)).
Definition drop_reservation (port : Z) : H unit := locked (fun held => (held ∖ {[port]}, tt)).

Section WithClient.
Context (c : HypemanClient).
Notation "'call' f" := (f http_call (json_reader host) (json_trouble host) c) (at level 9, f at level 0).
Notation "'do' f" := (f http_call c) (at level 9, f at level 0).

(** ** Ingress *)

Definition rule_port (r : IngressRule) : Z := default 80 (im_port (ir_match r)).
Definition used_ports : H (res RuntimeError (gset Z)) :=
  let@? l := call list_ingresses None or map_client_err in
  pass_back (Ok (list_to_set (l ≫= fun i => rule_port <$> ig_rules i))).

Definition no_free_port (config : IngressConfig) : RuntimeError :=
  Other ("no free ingress port in " +:+ pretty (ports_start config) +:+ "-" +:+ pretty (ports_end config)
    +:+ ": every listener in the configured range is taken. Widen BARISTA_INGRESS_PORTS or destroy instances").

(** The loop of [planned_port]; [None] is out of fuel. *)
Fixpoint plan_loop (fuel : nat) (config : IngressConfig) (used refused : gset Z)
    : H (option (res RuntimeError Z)) :=
  match fuel with
  | O => pass_back None
  | Datatypes.S fuel =>
      let@ held := reserved_ports in
      match pick_port config (used ∪ held ∪ refused) with
      | None => pass_back (Some (Err (no_free_port config)))
      | Some port =>
          let@ mine := try_take port in
          if mine then pass_back (Some (Ok port))
          else plan_loop fuel config used ({[port]} ∪ refused)
      end
  end.
Definition plan_fuel (config : IngressConfig) : nat := Datatypes.S (length (port_range config)).

(** The listener port of the sandbox's ingress, if it has one. *)
Definition sticky_port (sandbox : string) : H (res RuntimeError (option Z)) :=
  let@ r := call get_ingress sandbox in
  pass_back (match r with
             | Ok existing => let? p := listener_port_of existing in Ok (Some p)
             | Err e => if not_found e then Ok None else Err (map_client_err e)
             end).

Definition planned_port (config : IngressConfig) (sandbox : string) : H (res RuntimeError Z) :=
  let@? sticky := sticky_port sandbox or (fun e => e) in
  match sticky with
  | Some port =>
      let@ mine := try_take port in
      pass_back (if mine then Ok port
        else Err (NameConflict ("ingress '" +:+ sandbox +:+ "' on port " +:+ pretty port
          +:+ ": another create for this sandbox is publishing it")))
  | None =>
      let@? used := used_ports or (fun e => e) in
      let@ r := plan_loop (plan_fuel config) config used ∅ in
      pass_back (default (Err (no_free_port config)) r)
  end.

Definition ingress_create (config : IngressConfig) (node_id instance_id sandbox : string)
    (listener target : Z) : H (res RuntimeError unit) :=
  let r := {| ci_name := sandbox;
              ci_rules := [{| ir_match := {| im_hostname := advertise_host config; im_port := Some listener |};
                              ir_target := {| it_instance := sandbox; it_port := target |} |}];
              ci_tags := Some (list_to_map (claim node_id instance_id)) |} in
  let@ a := call create_ingress r in
  pass_back (match a with
             | Ok _ => Ok tt
             | Err e =>
                 if has_status 409 e
                 then Err (NameConflict ("ingress '" +:+ sandbox +:+ "' on port " +:+ pretty listener +:+ ": " +:+ error_body e))
                 else Err (map_client_err e)
             end).

Definition publish (config : IngressConfig) (node_id instance_id sandbox : string)
    (listener target : Z) : H (res RuntimeError unit) :=
  let@ r := call get_ingress sandbox in
  match r with
  | Ok existing =>
      let@? p := pass_back (listener_port_of existing) or (fun e => e) in
      if (p =? listener) && bool_decide (it_port ∘ ir_target <$> head (ig_rules existing) = Some target)
      then pass_back (Ok tt)
      else
        let@? _ := do delete_ingress (ig_id existing) or map_client_err in
        ingress_create config node_id instance_id sandbox listener target
  | Err e =>
      if not_found e then ingress_create config node_id instance_id sandbox listener target
      else pass_back (Err (map_client_err e))
  end.

(** ** Credential volumes *)

Definition token_remove (node_id instance_id : string) : H (res string unit) :=
  let@ r := do delete_volume (token_volume_id node_id instance_id) in
  pass_back (match r with
             | Ok _ => Ok tt
             | Err e => if not_found e then Ok tt else Err (error_text e)
             end).

Definition token_ensure (node_id instance_id token : string) (identity : option Identity) : H (res string string) :=
  let id := token_volume_id node_id instance_id in
  let@? _ := token_remove node_id instance_id or (fun e => e) in
  let@? bytes := pass_back (archive host (token_entries token identity)) or (fun e => e) in
  let@? _ := call create_volume_from_archive id id VOLUME_SIZE_GB (claim node_id instance_id) bytes or error_text in
  pass_back (Ok id).

(** ** The agent's volume *)

Definition hash_binary (bytes : list Z) : string := text_of (to_lower (take 6 (sha256 host bytes))).

Definition agent_ensure (bytes : list Z) : H (res string AgentVolume) :=
  let hash := hash_binary bytes in
  let id := agent_volume_id hash in
  let@ r := call get_volume id in
  match r with
  | Ok volume => pass_back (Ok {| av_volume_id := v_id volume; agent_hash := hash |})
  | Err e =>
      if not_found e then
        let@? gz := pass_back (archive host (agent_entries bytes)) or (fun e => e) in
        let@ r := call create_volume_from_archive id id VOLUME_SIZE_GB [] gz in
        match r with
        | Ok volume => pass_back (Ok {| av_volume_id := v_id volume; agent_hash := hash |})
        | Err e =>
            if has_status 409 e || has_status 500 e then
              let@ again := call get_volume id in
              pass_back (match again with
                         | Ok volume => Ok {| av_volume_id := v_id volume; agent_hash := hash |}
                         | Err _ => Err (error_text e)
                         end)
            else pass_back (Err (error_text e))
        end
      else pass_back (Err (error_text e))
  end.
End WithClient.

(** ** The runtime *)

Section Runtime_.
Context (rt : HypemanRuntime).
Notation "'call' f" := (f http_call (json_reader host) (json_trouble host) (h_client rt)) (at level 9, f at level 0).
Notation "'do' f" := (f http_call (h_client rt)) (at level 9, f at level 0).
Definition name_of (instance_id : string) : string := sandbox_name (h_node_id rt) instance_id.

Definition BOOT_TIMEOUT : duration := from_secs 180.
Definition POLL_INTERVAL : duration := 200 * 1000000.
Definition INGRESS_PLAN_ATTEMPTS : nat := 4.

Definition wrong_state (name : string) (i : Instance) : RuntimeError :=
  Other (name +:+ " reached " +:+ state_text (i_state i) +:+ " instead of Running"
    +:+ match i_state_error i with Some e => ": " +:+ e | None => empty_str end).
Definition still_waiting (name : string) (s : string) : RuntimeError :=
  Other (name +:+ " was still " +:+ s +:+ " after 180s").

(** The polling loop; [None] is out of fuel. *)
Fixpoint await_loop (fuel : nat) (deadline : Z) (name : string) (t : RunningTransition)
    : H (option (res RuntimeError unit)) :=
  match fuel with
  | O => pass_back None
  | Datatypes.S fuel =>
      let@ r := call get_instance name in
      match r with
      | Err e => pass_back (Some (Err (map_client_err e)))
      | Ok i =>
          match running_decision t (i_state i) with
          | Complete => pass_back (Some (Ok tt))
          | Refuse => pass_back (Some (Err (wrong_state name i)))
          | Wait => fun h =>
              if deadline <=? instant host (hs_server h)
              then (h, Some (Err (still_waiting name (state_text (i_state i)))))
              else (let@ _ := sleep POLL_INTERVAL in await_loop fuel deadline name t) h
          end
      end
  end.
(** One poll each 200 ms for 180 s, and the last. *)
Definition AWAIT_FUEL : nat := 901.
Definition await_running (name : string) (t : RunningTransition) : H (res RuntimeError unit) := fun h =>
  let deadline := instant host (hs_server h) + BOOT_TIMEOUT in
  let '(h', r) := await_loop AWAIT_FUEL deadline name t h in
  (h', default (Err (still_waiting name empty_str)) r).

Inductive CreateAttempt : Type := Done | PortRace (detail : string).

(** What follows a sandbox that did not come up: it and its credential go. *)
Definition roll_back (iid : string) (i : Instance) (raced : bool) (e : RuntimeError) : H (res RuntimeError CreateAttempt) :=
  let@ _ := do delete_instance (i_id i) in
  let@ _ := token_remove (h_client rt) (h_node_id rt) iid in
  pass_back (if raced then Ok (PortRace (runtime_error_text e)) else Err e).

Definition is_name_conflict (r : res RuntimeError unit) : bool :=
  match r with Err (NameConflict _) => true | _ => false end.

(** [create_fresh_once] from the point where the listener, if any, is held. *)
Definition create_with (iid : string) (spec : InstanceSpec) (g : GuestBootstrap) (name : string)
    (plan : option (IngressConfig * Z)) : H (res RuntimeError CreateAttempt) :=
  let@? plan := pass_back (match plan with
      | Some (config, listener) =>
          let? p := spec_port spec in Ok (Some (config, listener, default listener p))
      | None => Ok None
      end) or (fun e => e) in
  let@? req := pass_back (create_request (prost_process host) (prost_hooks host) rt spec
      (is_some (gb_identity g)) ((fun p => p.1.2) <$> plan)) or (fun e => e) in
  let@? _ := pass_back (require_pinned_channel g) or (fun e => e) in
  let@? _ := token_ensure (h_client rt) (h_node_id rt) iid (gb_token g) (gb_identity g) or Other in
  let@ r := call create_instance req in
  match r with
  | Ok i =>
      let@ published := match plan with
        | Some (config, listener, target) => publish (h_client rt) config (h_node_id rt) iid name listener target
        | None => pass_back (Ok tt)
        end in
      let@ outcome := match published with
        | Ok _ => await_running name TStart
        | Err e => pass_back (Err e)
        end in
      match outcome with
      | Ok _ => pass_back (Ok Done)
      | Err e => roll_back iid i (is_name_conflict published) e
      end
  | Err e =>
      let@ _ := token_remove (h_client rt) (h_node_id rt) iid in
      pass_back (Err (map_client_err e))
  end.

(** The reservation is dropped on every way out. *)
Definition create_fresh_once (iid : string) (spec : InstanceSpec) (g : GuestBootstrap) (name : string)
    : H (res RuntimeError CreateAttempt) :=
  match h_ingress rt with
  | Some config =>
      let@? listener := planned_port (h_client rt) config name or (fun e => e) in
      let@ r := create_with iid spec g name (Some (config, listener)) in
      let@ _ := drop_reservation listener in
      pass_back r
  | None => create_with iid spec g name None
  end.

Fixpoint create_fresh_from (attempts : nat) (iid : string) (spec : InstanceSpec) (g : GuestBootstrap) (name : string)
    : H (res RuntimeError unit) :=
  match attempts with
  | O => pass_back (Err (Other "the loop returns on the last attempt"))
  | Datatypes.S more =>
      let@? a := create_fresh_once iid spec g name or (fun e => e) in
      match a with
      | Done => pass_back (Ok tt)
      | PortRace detail =>
          if (more =? 0)%nat then pass_back (Err (NameConflict detail))
          else create_fresh_from more iid spec g name
      end
  end.
Definition create_fresh := create_fresh_from INGRESS_PLAN_ATTEMPTS.

Fixpoint delete_each (l : list Instance) : H unit :=
  match l with
  | [] => pass_back tt
  | i :: l => let@ _ := do delete_instance (i_id i) in delete_each l
  end.

Definition dedup_instances (iid : string) : H (res RuntimeError (option Instance)) :=
  let@? l := call list_instances (Some (NODE_TAG, h_node_id rt)) or map_client_err in
  let '(survivor, extras) := dedup_decision (filter (fun i => i_tags i !! INSTANCE_TAG = Some iid) l) in
  let@ _ := delete_each extras in
  pass_back (Ok survivor).

Definition hm_create (spec : InstanceSpec) (g : GuestBootstrap) : res RuntimeError unit :=
  let? _ := create_request (prost_process host) (prost_hooks host) rt spec (is_some (gb_identity g)) None in
  let? _ := spec_port spec in
  require_pinned_channel g.

Definition hm_start (iid : string) (spec : InstanceSpec) (g : GuestBootstrap) : H (res RuntimeError unit) :=
  let name := name_of iid in
  let@? survivor := dedup_instances iid or (fun e => e) in
  match survivor with
  | Some i =>
      if bool_decide (i_state i = VmStandby) then
        let@? _ := do delete_instance (i_id i) or map_client_err in
        create_fresh iid spec g name
      else
        let@? _ := do start_instance name or map_client_err in
        await_running name TStart
  | None => create_fresh iid spec g name
  end.

Definition hm_stop (iid : string) (grace_seconds : Z) : H (res RuntimeError unit) :=
  let@? _ := do stop_instance (name_of iid) or map_client_err in pass_back (Ok tt).

Definition hm_stop_status (iid : string) : H (res RuntimeError (option StopStatus)) :=
  let@ r := call get_instance (name_of iid) in
  pass_back (match r with
             | Ok i => Ok (Some {| ss_exit_code := i_exit_code i; ss_detail := default empty_str (i_state_error i) |})
             | Err e => if not_found e then Ok None else Err (map_client_err e)
             end).

Definition hm_destroy (iid : string) : H (res RuntimeError unit) :=
  let name := name_of iid in
  let@? _ := do delete_ingress name or map_client_err in
  let@? _ := do delete_instance name or map_client_err in
  let@? _ := token_remove (h_client rt) (h_node_id rt) iid or Other in
  pass_back (Ok tt).

Definition hm_list_labeled : H (res RuntimeError (list string)) :=
  let@? l := call list_instances (Some (NODE_TAG, h_node_id rt)) or map_client_err in
  pass_back (Ok (omap (fun i => i_tags i !! INSTANCE_TAG) l)).

Definition hm_list_credentials : H (res RuntimeError (list Credential)) :=
  let@? mine := call list_volumes (Some (NODE_TAG, h_node_id rt)) or map_client_err in
  let@? all := call list_volumes None or map_client_err in
  pass_back (Ok (
    ((fun v => {| cred_id := v_id v; cred_instance := v_tags v !! INSTANCE_TAG |})
       <$> filter (fun v => is_token_volume (v_id v)) mine)
    ++ ((fun v => {| cred_id := v_id v; cred_instance := None |})
       <$> filter (fun v => is_token_volume (v_id v) /\ v_tags v !! NODE_TAG = None) all))).

Definition hm_remove_credential (id : string) : H (res RuntimeError unit) :=
  let@ r := do delete_volume id in
  pass_back (match r with
             | Ok _ => Ok tt
             | Err e => if not_found e then Ok tt else Err (map_client_err e)
             end).

Definition hm_list_sandboxes : H (res RuntimeError (list Sandbox)) :=
  let@? l := call list_instances (Some (NODE_TAG, h_node_id rt)) or map_client_err in
  pass_back (Ok (omap (fun i =>
    (fun id => {| substrate_id := i_id i; sb_instance_id := id; running := bool_decide (i_state i = VmRunning) |})
      <$> i_tags i !! INSTANCE_TAG) l)).

Definition hm_remove_sandbox (substrate_id : string) : H (res RuntimeError unit) :=
  let@? _ := do delete_instance substrate_id or map_client_err in pass_back (Ok tt).

Definition hm_pause (iid : string) : H (res RuntimeError SnapshotRef) :=
  let name := name_of iid in
  let@? _ := await_running name TStart or (fun e => e) in
  let@? _ := do standby_instance name or map_client_err in
  let@? i := call get_instance name or map_client_err in
  if bool_decide (i_has_snapshot i = Some true) then
    let@ id := fresh_ulid in
    pass_back (Ok {| ref_snapshot_id := "standby-" +:+ id; ref_kind := SnapshotKind.MemoryAndDisk; ref_size_bytes := 0 |})
  else pass_back (Err (Other ("standby reported success for " +:+ name
    +:+ " but the substrate reports no snapshot, so there is nothing to resume from"))).

Definition hm_resume (iid : string) (snapshot_id : option string) : H (res RuntimeError unit) :=
  let name := name_of iid in
  let@? _ := match snapshot_id with
             | None => do restore_instance name
             | Some id => do restore_instance_snapshot name id
             end or map_client_err in
  await_running name TRestore.

Definition hm_fork (source_snapshot : string) (target : InstanceSpec) (require_cow : bool) : H (res RuntimeError ForkOutcome) :=
  let target_name := name_of (instance_id target) in
  let@? i := call fork_snapshot source_snapshot target_name "Running"
      (list_to_map (claim (h_node_id rt) (instance_id target))) or map_client_err in
  let mode := if bool_decide (i_fork_mode i = Some "shared") then ForkMode.Cow else ForkMode.FullCopy in
  if require_cow && negb (bool_decide (mode = ForkMode.Cow)) then
    let@ _ := do delete_instance target_name in
    pass_back (Err (CapabilityMissing ("require_cow was set but the substrate forked as "
      +:+ quoted (ForkMode.as_str_name mode) +:+ "; refused rather than accept a full-copy freeze")))
  else pass_back (Ok {| fork_mode := mode; froze_source := false |}).

Definition snapshot_ref (s : HypemanClient.Snapshot) : SnapshotRef :=
  {| ref_snapshot_id := s_id s; ref_kind := map_snapshot_kind (s_kind s); ref_size_bytes := s_size_bytes s |}.

Definition hm_list_snapshots (iid : string) : H (res RuntimeError (list SnapshotRef)) :=
  let@? l := call list_instance_snapshots (name_of iid) or map_client_err in
  pass_back (Ok (snapshot_ref <$> l)).

Definition snapshot_error (name : string) (snapshot_name : option string) (e : Error) : RuntimeError :=
  match snapshot_name with
  | Some requested =>
      if has_status 409 e
      then NameConflict ("the substrate already holds a snapshot named '" +:+ requested +:+ "' for " +:+ name
             +:+ ": " +:+ error_body e)
      else map_client_err e
  | None => map_client_err e
  end.

Definition hm_create_snapshot (iid : string) (snapshot_name : option string) : H (res RuntimeError SnapshotRef) :=
  let name := name_of iid in
  let@? source := call get_instance name or map_client_err in
  let@? s := call create_instance_snapshot name snapshot_name or snapshot_error name snapshot_name in
  let@? _ := (if bool_decide (i_state source = VmRunning) then await_running name TRestore
              else pass_back (Ok tt)) or (fun e => e) in
  pass_back (Ok (snapshot_ref s)).

Definition hm_delete_snapshot (snapshot_id : string) : H (res RuntimeError unit) :=
  let@? _ := do delete_snapshot snapshot_id or map_client_err in pass_back (Ok tt).

Definition hm_workload_address (iid : string) : H (res RuntimeError (option string)) :=
  match h_ingress rt with
  | None => pass_back (Ok None)
  | Some config =>
      let@ r := call get_ingress (name_of iid) in
      pass_back (Ok (match r with
        | Ok published => (fun port => advertise_host config +:+ ":" +:+ pretty port) <$> res_ok (listener_port_of published)
        | Err _ => None
        end))
  end.

Definition hm_application_logs (iid : string) (tail : Z) (follow : bool) : H (res RuntimeError (list (res RuntimeError (list Z)))) :=
  let@? items := stream_application_logs http_stream_call (json_reader host) (h_client rt) (name_of iid) tail follow
    or map_client_err in
  pass_back (Ok (res_map_err map_client_err <$> items)).

Definition hm_substrate_health : H (SubstrateHealth.t * string) :=
  let@ r := call list_instances None in
  pass_back (match r with
             | Ok _ => (SubstrateHealth.Healthy, empty_str)
             | Err e => (SubstrateHealth.Unreachable, error_text e)
             end).

Definition PINNED_API_VERSION : string := "0.3.0".
Definition hm_version : string :=
  "api-" +:+ PINNED_API_VERSION +:+ "+hv-" +:+ h_hypervisor rt +:+ "+agent-"
  +:+ String.substring 0 12 (agent_hash (h_agent rt)).

Definition hm_capabilities : RuntimeCapabilities :=
  let memory := negb (bool_decide (h_hypervisor rt = "vz")) || is_aarch64 host in
  {| memory_snapshot := memory; disk_snapshot := true; live_checkpoint := false; guest_agent := true;
     hardware_isolation := true; lazy_restore := bool_decide (h_hypervisor rt = "firecracker");
     cow_fork := memory; egress_control := h_egress_control rt; full_copy_fork := true;
     object_store_snapshots := false; capsule_export := false; capsule_import := false;
     safe_grant_rebind := false |}.

(** ** The guest channel *)

Definition GUEST_CONNECT_TIMEOUT : duration := from_secs 20.
Definition CONNECT_RETRY : duration := 250 * 1000000.

Definition guest_address (iid : string) (tls : bool) : H (res string string) :=
  let name := name_of iid in
  let@? i := call get_instance name or error_text in
  pass_back (match instance_ip i with
    | None => Err ("sandbox " +:+ name +:+ " has no network address, so its guest agent cannot be reached; "
        +:+ "it was most likely created with networking disabled")
    | Some ip => Ok ((if tls then "https" else "http") +:+ "://" +:+ ip +:+ ":" +:+ pretty GUEST_PORT)
    end).

Definition guest_san (iid : string) : string := "guest." +:+ iid +:+ ".barista.invalid".

Fixpoint dial_loop (fuel : nat) (deadline : Z) (id : Identity) (address san : string) : H (option (res string unit)) :=
  match fuel with
  | O => pass_back None
  | Datatypes.S fuel => fun h =>
      let '(s, r) := dial host (hs_server h) id address san in
      let h := h <| hs_server := s |> in
      match r with
      | Ok _ => (h, Some (Ok tt))
      | Err e =>
          if deadline <=? instant host (hs_server h)
          then (h, Some (Err ("the guest agent at " +:+ address +:+ " did not answer within 20s (" +:+ e
                 +:+ "); the sandbox may not be running our agent, or may not be reachable from this host")))
          else (let@ _ := sleep CONNECT_RETRY in dial_loop fuel deadline id address san) h
      end
  end.
Definition DIAL_FUEL : nat := 81.

Definition guest_unreachable (iid source : string) : string := "guest agent unreachable for " +:+ iid +:+ ": " +:+ source.

Definition guest_connect (iid token : string) (identity : option Identity) : H (res string unit) :=
  match identity with
  | None => pass_back (Err (guest_unreachable iid ("instance " +:+ iid
      +:+ " has no channel identity and the hypeman guest channel is network-reachable; refusing a cleartext dial "
      +:+ "on the shared network. An instance created before barista-021 must be recreated to be reachable")))
  | Some id =>
      let@? address := guest_address iid true or guest_unreachable iid in
      let san := guest_san iid in
      let@? _ := pass_back (tls_setup host id address san) or guest_unreachable iid in
      let@? _ := (fun h =>
          let deadline := instant host (hs_server h) + GUEST_CONNECT_TIMEOUT in
          let '(h', r) := dial_loop DIAL_FUEL deadline id address san h in
          (h', default (Err (guest_unreachable iid address)) r)) or guest_unreachable iid in
      pass_back (if metadata_ok host token then Ok tt
                 else Err (guest_unreachable iid "instance token is not valid gRPC metadata"))
  end.
End Runtime_.

(** * The implementation of the trait *)

Definition unsupported {A} (m : string) : res RuntimeError A := Err (Other m).

(** What the guest agent answers over an established channel. *)
Context (run_hook : HState S -> string -> HookKind -> HState S * res string HookResponse)
        (duties : HState S -> string -> list Z -> Z -> HState S * res string RestoreReport)
        (guest_health : HState S -> string -> bool -> HState S * res string HealthResponse)
        (urandom : HState S -> HState S * res string (list Z)).

(** A method that only reads is given by its answer. *)
Definition hypeman_runtime (rt : HypemanRuntime) : Runtime (HState S) := {|
  rt_name := "hypeman";
  rt_version := hm_version rt;
  rt_caps := hm_capabilities rt;
  rt_create := fun h spec g => (h, hm_create rt spec g);
  rt_start := fun h iid spec g => hm_start rt iid spec g h;
  rt_stop := fun h iid grace => hm_stop rt iid grace h;
  rt_stop_status := fun h iid => (hm_stop_status rt iid h).2;
  rt_pause := fun h iid => hm_pause rt iid h;
  rt_resume := fun h iid s => hm_resume rt iid s h;
  rt_fork := fun h _ snap target _ cow => hm_fork rt snap target cow h;
  rt_restore_from_objects := fun h _ _ _ =>
    (h, unsupported "this runtime cannot restore an instance from capsule objects");
  rt_export_snapshot := fun _ _ => unsupported "this runtime cannot export a snapshot";
  rt_create_snapshot := fun h iid n => hm_create_snapshot rt iid n h;
  rt_delete_snapshot := fun h id => hm_delete_snapshot rt id h;
  rt_destroy := fun h iid => hm_destroy rt iid h;
  rt_list_labeled := fun h => (hm_list_labeled rt h).2;
  rt_remove_orphan := fun h iid => hm_destroy rt iid h;
  rt_list_credentials := fun h => (hm_list_credentials rt h).2;
  rt_remove_credential := fun h id => hm_remove_credential rt id h;
  rt_list_sandboxes := fun h => (hm_list_sandboxes rt h).2;
  rt_remove_sandbox := fun h id => hm_remove_sandbox rt id h;
  rt_enumerates_sandboxes := true;
  rt_network_reachable := true;
  rt_workload_address := fun h iid => (hm_workload_address rt iid h).2;
  rt_application_logs := fun h iid tail follow => (hm_application_logs rt iid tail follow h).2;
  rt_substrate_health := fun h => (hm_substrate_health rt h).2;
  g_connect := fun h row => (guest_connect rt (ir_id row) (ir_guest_token row) (ir_identity row) h).2;
  g_run_hook := run_hook;
  g_restore_duties := duties;
  g_health := guest_health;
  read_urandom := urandom |}.
End Hypeman.
