(* ===== verification/HypemanSafety.v ===== *)
(** What the hypeman runtime guarantees, whatever the substrate answers: the requests a
    call makes are read off the log of exchanges. *)

From S2P Require Import Prelude Text Proto Journal Codec Runtime HypemanClient Logs Hypeman.

(** * Reasoning about exchanges *)

Definition Exchange : Type := HttpRequest * res string HttpResponse.

(** The call adds exchanges that are related to its answer by [Q]. *)
Definition traced {S A} (m : Call (HState S) A) (Q : list Exchange -> A -> Prop) : Prop :=
  forall h, exists new, hs_log (m h).1 = hs_log h ++ new /\ Q new (m h).2.

Section Traces.
Context {S : Type}.

Lemma traced_weaken {A} (m : Call (HState S) A) (Q Q' : list Exchange -> A -> Prop) :
  traced m Q -> (forall new a, Q new a -> Q' new a) -> traced m Q'.
Proof. intros Hm Hw h. destruct (Hm h) as (new & ? & ?). eauto. Qed.

Lemma traced_ret {A} (a : A) (Q : list Exchange -> A -> Prop) : Q [] a -> traced (S := S) (pass_back a) Q.
Proof. intros ? h. exists []. by rewrite app_nil_r. Qed.

Lemma traced_then {A B} (m : Call (HState S) A) (k : A -> Call (HState S) B) Q (R : list Exchange -> B -> Prop) :
  traced m Q ->
  (forall new a, Q new a -> traced (k a) (fun new' b => R (new ++ new') b)) ->
  traced (then_ m k) R.
Proof.
  intros Hm Hk h. destruct (Hm h) as (new & Hl & HQ). unfold then_.
  destruct (m h) as [h1 a]. cbn [fst snd] in *.
  destruct (Hk new a HQ h1) as (new' & Hl' & HR). exists (new ++ new'). split; [|done].
  by rewrite Hl', Hl, app_assoc.
Qed.

Lemma traced_try {E F A B} (m : Call (HState S) (res E A)) (f : E -> F)
    (k : A -> Call (HState S) (res F B)) Q (R : list Exchange -> res F B -> Prop) :
  traced m Q ->
  (forall new e, Q new (Err e) -> R new (Err (f e))) ->
  (forall new a, Q new (Ok a) -> traced (k a) (fun new' b => R (new ++ new') b)) ->
  traced (try_ m f k) R.
Proof.
  intros Hm He Hk. unfold try_. eapply traced_then; [exact Hm|]. intros new [a|e] HQ; [by apply Hk|].
  apply traced_ret. rewrite app_nil_r. by apply He.
Qed.

Lemma traced_silent {A} (m : Call (HState S) A) :
  (forall h, hs_log (m h).1 = hs_log h) -> traced m (fun new _ => new = []).
Proof. intros Hm h. exists []. by rewrite app_nil_r, Hm. Qed.

Lemma traced_if {A} (b : bool) (m m' : Call (HState S) A) Q :
  (b = true -> traced m Q) -> (b = false -> traced m' Q) -> traced (if b then m else m') Q.
Proof. destruct b; auto. Qed.

(** A choice by the state, such as a reading of the clock. *)
Lemma traced_choose {A} (b : HState S -> bool) (m m' : Call (HState S) A) Q :
  traced m Q -> traced m' Q -> traced (fun h => if b h then m h else m' h) Q.
Proof. intros ? ? h. destruct (b h); auto. Qed.
End Traces.

(** ** The client's exchanges *)

(** What the client makes of an answer. *)
Definition got {A} (parse_json : list Z -> option Json) (undecodable : HttpResponse -> string)
    (c : HypemanClient) (d : de A) (m : Method) (path : string) (a : res string HttpResponse) : res Error A :=
  match a with
  | Err s => Err (unreachable_error c s)
  | Ok r => if is_success (rs_status r) then decoded parse_json undecodable d path r else Err (refused m path r)
  end.
Definition got_unit (c : HypemanClient) (m : Method) (path : string) (a : res string HttpResponse) : res Error unit :=
  match a with
  | Err s => Err (unreachable_error c s)
  | Ok r => if is_success (rs_status r) then Ok tt
            else Err (refused (if bool_decide (m = DELETE) then DELETE else POST) path r)
  end.

Section Exchanges.
Context {S : Type} (host : Host S) (c : HypemanClient).
Notation "'call' f" := (f (http_call host) (json_reader host) (json_trouble host) c) (at level 9, f at level 0).
Notation "'do' f" := (f (http_call host) c) (at level 9, f at level 0).
Abbreviation gets d := (got (json_reader host) (json_trouble host) c d).

(** One exchange, and an answer made of it. *)
Definition one_exchange {A} (rq : HttpRequest) (f : res string HttpResponse -> A) (new : list Exchange) (r : A) : Prop :=
  exists a, new = [(rq, a)] /\ r = f a.

Lemma http_traced rq : traced (fun w => http_call host w rq) (one_exchange rq (fun a => a)).
Proof.
  intros h. unfold http_call, one_exchange. destruct (server host (hs_server h) rq) as [s a].
  exists [(rq, a)]. split; [done|]. by exists a.
Qed.

Lemma send_traced {A} (d : de A) m path body :
  traced (send (http_call host) (json_reader host) (json_trouble host) c d m path body)
    (one_exchange (request c m path body) (gets d m path)).
Proof.
  unfold send. eapply traced_try; [apply http_traced| |].
  - intros new e (a & -> & <-). by exists (Err e).
  - intros new r (a & -> & <-).
    apply traced_if; intros E; apply traced_ret; exists (Ok r); cbn [got]; by rewrite E.
Qed.

Lemma send_unit_traced m path body :
  traced (do send_unit_with m path body) (one_exchange (request c m path body) (got_unit c m path)).
Proof.
  unfold send_unit_with. eapply traced_try; [apply http_traced| |].
  - intros new e (a & -> & <-). by exists (Err e).
  - intros new r (a & -> & <-).
    apply traced_if; intros E; apply traced_ret; exists (Ok r); cbn [got_unit]; by rewrite E.
Qed.

Lemma absent_traced path :
  traced (let@ r := do send_unit DELETE path in pass_back (absent_is_done r))
    (one_exchange (request c DELETE path NoBody) (fun a => absent_is_done (got_unit c DELETE path a))).
Proof.
  eapply traced_then; [apply send_unit_traced|]. intros new r (a & -> & ->). apply traced_ret. by exists a.
Qed.

Lemma archive_traced id name size tags bytes :
  traced (call create_volume_from_archive id name size tags bytes)
    (one_exchange (request c POST (archive_path id name size tags) (GzipBody bytes))
       (fun a => match a with
                 | Err s => Err (unreachable_error c s)
                 | Ok r => if is_success (rs_status r)
                           then decoded (json_reader host) (json_trouble host) de_volume "/volumes/from-archive" r
                           else Err (refused POST (archive_path id name size tags) r)
                 end)).
Proof.
  unfold create_volume_from_archive. eapply traced_try; [apply http_traced| |].
  - intros new e (a & -> & <-). by exists (Err e).
  - intros new r (a & -> & <-). apply traced_if; intros E; apply traced_ret; exists (Ok r); by rewrite E.
Qed.

Lemma delete_volume_traced id :
  traced (do delete_volume id)
    (one_exchange (request c DELETE ("/volumes/" +:+ path_segment id) NoBody)
       (got_unit c DELETE ("/volumes/" +:+ path_segment id))).
Proof. apply send_unit_traced. Qed.

Lemma token_remove_traced node iid :
  traced (token_remove host c node iid)
    (one_exchange (request c DELETE ("/volumes/" +:+ path_segment (token_volume_id node iid)) NoBody)
       (fun a => match got_unit c DELETE ("/volumes/" +:+ path_segment (token_volume_id node iid)) a with
                 | Ok _ => Ok tt
                 | Err e => if not_found e then Ok tt else Err (error_text e)
                 end)).
Proof.
  eapply traced_then; [apply delete_volume_traced|]. intros new r (a & -> & ->). apply traced_ret. by exists a.
Qed.
End Exchanges.

(** * Waiting for a sandbox *)

Section Waiting.
Context {S : Type} (host : Host S) (rt : HypemanRuntime).

Definition poll_path (name : string) : string := "/instances/" +:+ path_segment name.
Definition poll (name : string) : HttpRequest := request (h_client rt) GET (poll_path name) NoBody.
(** The substrate's answer to a poll, as the client reads it. *)
Definition seen (name : string) (a : res string HttpResponse) : res Error Instance :=
  got (json_reader host) (json_trouble host) (h_client rt) de_instance GET (poll_path name) a.
(** The exchange is a poll that showed the sandbox running. *)
Definition saw_running (name : string) (x : Exchange) : Prop :=
  x.1 = poll name /\ exists i, seen name x.2 = Ok i /\ i_state i = VmRunning.

Lemma await_loop_traced fuel deadline name t :
  traced (await_loop host rt fuel deadline name t) (fun new r =>
    Forall (fun x => x.1 = poll name) new
    /\ (r = Some (Ok tt) -> exists x, last new = Some x /\ saw_running name x)).
Proof.
  induction fuel as [|fuel IH]; cbn [await_loop]; [by apply traced_ret|].
  eapply traced_then; [apply send_traced|]. intros new r (a & -> & ->).
  change (got _ _ _ _ _ _ a) with (seen name a).
  assert (Hp : Forall (fun x : Exchange => x.1 = poll name) [(poll name, a)]) by (by repeat constructor).
  destruct (seen name a) as [i|e] eqn:Ei; [|apply traced_ret; rewrite app_nil_r; done].
  destruct (running_decision t (i_state i)) eqn:Ed.
  - apply traced_ret. split; [done|]. intros _. exists (poll name, a). split; [done|].
    split; [done|]. exists i. split; [done|]. by destruct t, (i_state i).
  - apply (traced_choose (fun h => deadline <=? instant host (hs_server h)) (pass_back _));
      [by apply traced_ret|].
    eapply traced_then; [apply (traced_silent (sleep host POLL_INTERVAL)); done|].
    intros ? [] ->. eapply traced_weaken; [exact IH|]. intros new r [Hf Hr]. cbn [app]. split; [by constructor|].
    intros (x & Hl & Hx)%Hr. exists x. split; [|done]. by rewrite last_cons, Hl.
  - apply traced_ret. rewrite app_nil_r. done.
Qed.

Lemma await_running_traced name t :
  traced (await_running host rt name t) (fun new r =>
    Forall (fun x => x.1 = poll name) new
    /\ (r = Ok tt -> exists x, last new = Some x /\ saw_running name x)).
Proof.
  intros h. unfold await_running.
  destruct (await_loop_traced AWAIT_FUEL (instant host (hs_server h) + BOOT_TIMEOUT) name t h) as (new & Hl & Hf & Hr).
  destruct (await_loop _ _ _ _ _ _ h) as [h' o]. cbn [fst snd] in *.
  exists new. split; [done|]. split; [done|]. intros E. apply Hr. by destruct o as [r|]; cbn in E; simplify_eq.
Qed.
End Waiting.

(** * Destroying *)

Section Destroying.
Context {S : Type} (host : Host S) (rt : HypemanRuntime).

(** The substrate answered that the thing is gone. *)
Definition gone (a : res string HttpResponse) : Prop :=
  match a with Ok r => is_success (rs_status r) = true \/ rs_status r = 404 | Err _ => False end.

Definition deletion (path : string) : HttpRequest := request (h_client rt) DELETE path NoBody.
Definition destroy_requests (iid : string) : list HttpRequest :=
  let name := sandbox_name (h_node_id rt) iid in
  [deletion ("/ingresses/" +:+ path_segment name); deletion ("/instances/" +:+ path_segment name);
   deletion ("/volumes/" +:+ path_segment (token_volume_id (h_node_id rt) iid))].

Lemma absent_is_done_gone c path a : absent_is_done (got_unit c DELETE path a) = Ok tt <-> gone a.
Proof.
  unfold absent_is_done, got_unit, gone, refused, not_found.
  destruct a as [[st body]|e]; cbn [rs_status rs_body has_status]; [|by split].
  destruct (is_success st) eqn:E; [split; [by left|done]|]. cbn [has_status].
  destruct (Z.eqb_spec st 404) as [->|]; split; [by right|done|done|by intros [|]].
Qed.

Lemma token_gone c path a :
  match got_unit c DELETE path a with
  | Ok _ => Ok tt
  | Err e => if not_found e then Ok tt else Err (error_text e)
  end = (Ok tt : res string unit) <-> gone a.
Proof.
  rewrite <- (absent_is_done_gone c path). unfold absent_is_done.
  destruct (got_unit c DELETE path a) as [|e]; [by split|]. by destruct (not_found e).
Qed.

(** The answers to the requests [rqs], sent one after another until one is not [gone]. *)
Definition until_refused (rqs : list HttpRequest) (new : list Exchange) (done : bool) : Prop :=
  exists answers,
    new = zip (take (length answers) rqs) answers /\ (length answers <= length rqs)%nat
    /\ (done = true -> length answers = length rqs /\ Forall gone answers)
    /\ (done = false -> exists before a, answers = before ++ [a] /\ Forall gone before /\ ~ gone a).

Lemma until_refused_stop rq rqs a :
  ~ gone a -> until_refused (rq :: rqs) [(rq, a)] false.
Proof.
  intros Ha. exists [a]. split; [done|]. split; [cbn; lia|]. split; [done|].
  intros _. exists [], a. by repeat split.
Qed.

Lemma until_refused_next rq rqs a new done :
  gone a -> until_refused rqs new done -> until_refused (rq :: rqs) ((rq, a) :: new) done.
Proof.
  intros Ha (answers & -> & Hl & Ht & Hf). exists (a :: answers). cbn [length take zip zip_with].
  split; [done|]. split; [lia|].
  split; [intros E; destruct (Ht E); split; [lia|by constructor]|].
  intros E. destruct (Hf E) as (before & b & -> & ? & ?). exists (a :: before), b.
  split; [done|]. split; [by constructor|done].
Qed.

Lemma until_refused_nil : until_refused [] [] true.
Proof. exists []. by repeat split. Qed.

Lemma destroy_traced iid :
  traced (hm_destroy host rt iid) (fun new r =>
    until_refused (destroy_requests iid) new (match r with Ok _ => true | Err _ => false end)).
Proof.
  unfold hm_destroy, destroy_requests. cbn [name_of].
  eapply traced_try; [apply absent_traced| |].
  { intros new e (a & -> & E). apply until_refused_stop. rewrite <- absent_is_done_gone, <- E. done. }
  intros new [] (a & -> & E). symmetry in E. apply absent_is_done_gone in E.
  eapply traced_try; [apply absent_traced| |].
  { intros new e (b & -> & E'). apply until_refused_next; [done|]. apply until_refused_stop.
    rewrite <- absent_is_done_gone, <- E'. done. }
  intros new [] (b & -> & E'). symmetry in E'. apply absent_is_done_gone in E'.
  eapply traced_try; [apply token_remove_traced| |].
  { intros new e (d & -> & E''). do 2 (apply until_refused_next; [done|]). apply until_refused_stop.
    rewrite <- token_gone, <- E''. done. }
  intros new [] (d & -> & E''). symmetry in E''. apply token_gone in E''.
  apply traced_ret. do 3 (apply until_refused_next; [done|]). apply until_refused_nil.
Qed.
End Destroying.

(** Destroying an instance asks for the deletion of its ingress, its sandbox and its
    credential volume, in this order, and goes on only while the substrate answers that the
    thing is gone (deleted now, or not there). It succeeds exactly when all three answers
    were that, and otherwise stops at the first that was not. *)
Theorem destroy_confirms_each_deletion {S} (host : Host S) (rt : HypemanRuntime) (iid : string) (h h' : HState S)
    (r : res RuntimeError unit) :
  hm_destroy host rt iid h = (h', r) ->
  exists new, hs_log h' = hs_log h ++ new
    /\ until_refused (destroy_requests rt iid) new (match r with Ok _ => true | Err _ => false end).
Proof. intros E. pose proof (destroy_traced host rt iid h) as Ht. by rewrite E in Ht. Qed.

(** * What a start leaves behind *)

Inductive Thing : Type := ASandbox (id : string) | ACredential.

Section Leftovers.
Context {S : Type} (host : Host S) (rt : HypemanRuntime) (iid : string).
Notation "'call' f" := (f (http_call host) (json_reader host) (json_trouble host) (h_client rt)) (at level 9, f at level 0).
Notation "'do' f" := (f (http_call host) (h_client rt)) (at level 9, f at level 0).

Definition url (path : string) : string := hc_base_url (h_client rt) +:+ path.
Definition volume : string := token_volume_id (h_node_id rt) iid.
Definition volume_path : string := archive_path volume volume VOLUME_SIZE_GB (claim (h_node_id rt) iid).

(** What the exchange created: a sandbox or the credential volume the substrate confirmed. *)
Definition created (x : Exchange) : option Thing :=
  if bool_decide (rq_method x.1 = POST) then
    if bool_decide (rq_url x.1 = url "/instances") then
      match got (json_reader host) (json_trouble host) (h_client rt) de_instance POST "/instances" x.2 with
      | Ok i => Some (ASandbox (i_id i))
      | Err _ => None
      end
    else if bool_decide (rq_url x.1 = url volume_path) then
      match x.2 with
      | Ok r =>
          if is_success (rs_status r)
          then (fun _ => ACredential)
                 <$> res_ok (decoded (json_reader host) (json_trouble host) de_volume "/volumes/from-archive" r)
          else None
      | Err _ => None
      end
    else None
  else None.

(** The exchange asked for the deletion of [t]. *)
Definition deletes (x : Exchange) (t : Thing) : Prop :=
  rq_method x.1 = DELETE
  /\ rq_url x.1 = url (match t with
                       | ASandbox id => "/instances/" +:+ path_segment id
                       | ACredential => "/volumes/" +:+ path_segment volume
                       end).
#[local] Instance deletes_dec x t : Decision (deletes x t).
Proof. apply _. Defined.

Definition left_step (left : list Thing) (x : Exchange) : list Thing :=
  match created x with Some t => t :: left | None => filter (fun t => ~ deletes x t) left end.
(** What was created and not asked to be deleted afterwards. *)
Definition left_behind (new : list Exchange) : list Thing := foldl left_step [] new.

Definition inert (x : Exchange) : Prop := created x = None /\ forall t, ~ deletes x t.

Lemma inert_fold l new : Forall inert new -> foldl left_step l new = l.
Proof.
  intros H. revert l. induction H as [|x new [Hc Hd] _ IH]; intros l; [done|]. cbn [foldl].
  unfold left_step at 2. rewrite Hc, filter_all; [apply IH|]. by apply Forall_forall.
Qed.

Lemma inert_get path body a : inert (request (h_client rt) GET path body, a).
Proof. split; [done|]. by intros t [? _]. Qed.

Lemma url_inj p q : url p = url q <-> p = q.
Proof. unfold url. split; [apply (inj _)|by intros ->]. Qed.

Lemma volume_path_head : exists t, volume_path = "/v" +:+ t.
Proof. eexists. unfold volume_path, archive_path, claim. cbn. reflexivity. Qed.

(** Requests that are about neither. *)
Lemma inert_other m path body a :
  path <> "/instances" -> path <> volume_path ->
  (m = DELETE -> forall id, path <> "/instances/" +:+ id /\ path <> "/volumes/" +:+ id) ->
  inert (request (h_client rt) m path body, a).
Proof.
  intros H1 H2 H3. split.
  - unfold created. cbn [fst request rq_method rq_url]. change (_ +:+ path) with (url path).
    rewrite (bool_decide_eq_false_2 (url path = url "/instances")) by (by rewrite url_inj).
    rewrite (bool_decide_eq_false_2 (url path = url volume_path)) by (by rewrite url_inj).
    by destruct (bool_decide _).
  - intros t [Hm Hu]. cbn [fst request rq_method rq_url] in *. change (_ +:+ path) with (url path) in Hu.
    rewrite url_inj in Hu. destruct (H3 Hm (match t with ASandbox id => path_segment id | _ => path_segment volume end)).
    by destruct t.
Qed.

Lemma created_sandbox body a :
  created (request (h_client rt) POST "/instances" body, a)
  = match got (json_reader host) (json_trouble host) (h_client rt) de_instance POST "/instances" a with
    | Ok i => Some (ASandbox (i_id i)) | Err _ => None end.
Proof.
  unfold created. cbn [fst snd request rq_method rq_url]. rewrite bool_decide_eq_true_2 by done.
  by rewrite (bool_decide_eq_true_2 (_ = url _)).
Qed.

Definition other_sandbox (id : string) (t : Thing) : bool :=
  match t with ASandbox id' => negb (bool_decide (path_segment id = path_segment id')) | ACredential => true end.
Definition is_sandbox (t : Thing) : bool := match t with ASandbox _ => true | ACredential => false end.

Lemma deleted_sandbox l id a :
  left_step l (request (h_client rt) DELETE ("/instances/" +:+ path_segment id) NoBody, a)
  = filter (fun t => other_sandbox id t = true) l.
Proof.
  unfold left_step. change (created _) with (@None Thing). apply filter_ext_in. intros t _. unfold deletes.
  cbn [fst request rq_method rq_url]. change (_ +:+ ("/instances/" +:+ ?p)) with (url ("/instances/" +:+ p)).
  rewrite url_inj. destruct t as [id'|]; cbn [other_sandbox].
  - rewrite negb_true_iff, bool_decide_eq_false. split; [intros H E; apply H; by rewrite E|].
    intros H [_ E]. apply H. by apply (inj _) in E.
  - split; [done|]. by intros _ [_ E].
Qed.

Lemma deleted_credential l a :
  left_step l (request (h_client rt) DELETE ("/volumes/" +:+ path_segment volume) NoBody, a)
  = filter (fun t => is_sandbox t = true) l.
Proof.
  unfold left_step. change (created _) with (@None Thing). apply filter_ext_in. intros t _. unfold deletes.
  cbn [fst request rq_method rq_url]. change (_ +:+ ("/volumes/" +:+ ?p)) with (url ("/volumes/" +:+ p)).
  rewrite url_inj. destruct t as [id'|]; cbn [is_sandbox].
  - split; [done|]. by intros _ [_ E].
  - split; [|done]. intros H. by destruct H.
Qed.

Lemma left_behind_app a b : left_behind (a ++ b) = foldl left_step (left_behind a) b.
Proof. unfold left_behind. apply foldl_app. Qed.

Lemma left_behind_after a b : left_behind a = [] -> left_behind (a ++ b) = left_behind b.
Proof. intros H. by rewrite left_behind_app, H. Qed.

(** ** The parts of a start *)

(** A call whose exchanges are about neither. *)
Definition quiet {A} (m : Call (HState S) A) : Prop := traced m (fun new _ => Forall inert new).

Lemma quiet_ret {A} (a : A) : quiet (pass_back a).
Proof. by apply traced_ret. Qed.
Lemma quiet_silent {A} (m : Call (HState S) A) : (forall h, hs_log (m h).1 = hs_log h) -> quiet m.
Proof. intros. eapply traced_weaken; [by apply traced_silent|]. by intros ? ? ->. Qed.
Lemma quiet_then {A B} (m : Call (HState S) A) (k : A -> Call (HState S) B) :
  quiet m -> (forall a, quiet (k a)) -> quiet (then_ m k).
Proof.
  intros Hm Hk. eapply traced_then; [exact Hm|]. intros new a Hn.
  eapply traced_weaken; [apply Hk|]. intros new' b Hn'. by apply Forall_app.
Qed.
Lemma quiet_try {E F A B} (m : Call (HState S) (res E A)) (f : E -> F) (k : A -> Call (HState S) (res F B)) :
  quiet m -> (forall a, quiet (k a)) -> quiet (try_ m f k).
Proof. intros Hm Hk. apply quiet_then; [done|]. intros [a|e]; [done|apply quiet_ret]. Qed.
Lemma quiet_get {A} (d : de A) path body :
  quiet (send (http_call host) (json_reader host) (json_trouble host) (h_client rt) d GET path body).
Proof.
  eapply traced_weaken; [apply send_traced|]. intros new r (a & -> & _). constructor; [apply inert_get|done].
Qed.
Lemma quiet_locked {A} (f : gset Z -> gset Z * A) : quiet (locked host f).
Proof. apply quiet_silent. intros h. unfold locked. by destruct (f _). Qed.

Lemma plan_loop_quiet fuel config used refused : quiet (plan_loop host fuel config used refused).
Proof.
  revert refused. induction fuel as [|fuel IH]; intros refused; cbn [plan_loop]; [apply quiet_ret|].
  apply quiet_then; [apply quiet_locked|]. intros held. destruct (pick_port _ _); [|apply quiet_ret].
  apply quiet_then; [apply quiet_locked|]. intros []; [apply quiet_ret|apply IH].
Qed.

Lemma planned_port_quiet config sandbox : quiet (planned_port host (h_client rt) config sandbox).
Proof.
  apply quiet_try; [apply quiet_then; [apply quiet_get|intros; apply quiet_ret]|]. intros [port|].
  - apply quiet_then; [apply quiet_locked|intros; apply quiet_ret].
  - apply quiet_try; [apply quiet_try; [apply quiet_get|intros; apply quiet_ret]|]. intros used.
    apply quiet_then; [apply plan_loop_quiet|intros; apply quiet_ret].
Qed.

Lemma inert_ingress m path body a :
  (exists t, path = "/ing" +:+ t) -> inert (request (h_client rt) m path body, a).
Proof.
  intros [t ->]. apply inert_other; [done| |done]. by destruct volume_path_head as [v ->].
Qed.

Lemma publish_quiet config node sandbox listener target :
  quiet (publish host (h_client rt) config node iid sandbox listener target).
Proof.
  assert (Hc : quiet (ingress_create host (h_client rt) config node iid sandbox listener target)).
  { apply quiet_then; [|intros; apply quiet_ret]. eapply traced_weaken; [apply send_traced|].
    intros new r (a & -> & _). constructor; [|done]. apply inert_ingress. by eexists. }
  apply quiet_then; [apply quiet_get|]. intros [existing|e]; [|by destruct (not_found e); [|apply quiet_ret]].
  apply quiet_try; [apply quiet_ret|]. intros p. destruct (_ && _); [apply quiet_ret|].
  apply quiet_try; [|done]. eapply traced_weaken; [apply absent_traced|].
  intros new r (a & -> & _). constructor; [|done]. apply inert_ingress. by eexists.
Qed.

Lemma created_volume bytes a :
  created (request (h_client rt) POST volume_path (GzipBody bytes), a)
  = match a with
    | Ok r => if is_success (rs_status r)
              then (fun _ => ACredential)
                 <$> res_ok (decoded (json_reader host) (json_trouble host) de_volume "/volumes/from-archive" r)
              else None
    | Err _ => None
    end.
Proof.
  unfold created. cbn [fst snd request rq_method rq_url]. change (_ +:+ volume_path) with (url volume_path).
  rewrite bool_decide_eq_true_2 by done.
  rewrite bool_decide_eq_false_2 by (rewrite url_inj; destruct volume_path_head as [t ->]; done).
  by rewrite bool_decide_eq_true_2.
Qed.

Lemma token_removed l a :
  foldl left_step l [(request (h_client rt) DELETE ("/volumes/" +:+ path_segment volume) NoBody, a)]
  = filter (fun t => is_sandbox t = true) l.
Proof. apply deleted_credential. Qed.

Lemma token_ensure_traced token identity :
  traced (token_ensure host (h_client rt) (h_node_id rt) iid token identity) (fun new r =>
    left_behind new = match r with Ok _ => [ACredential] | Err _ => [] end).
Proof.
  eapply traced_try; [apply token_remove_traced| |].
  { intros new e (a & -> & _). apply (token_removed []). }
  intros new [] (a & -> & _).
  eapply traced_try; [apply (traced_ret _ (fun new r => new = [])); done| |].
  { intros ? e ->. rewrite app_nil_r. apply (token_removed []). }
  intros ? bytes ->. eapply traced_try; [apply archive_traced| |].
  - intros new e (b & -> & E). rewrite left_behind_app. unfold left_behind at 1. rewrite token_removed.
    cbn [app foldl filter list_filter]. unfold left_step. fold volume volume_path.
    rewrite created_volume. destruct b as [r|]; [|done]. destruct (is_success _); [|done]. by rewrite <- E.
  - intros new v (b & -> & E). apply traced_ret. rewrite !app_nil_r, left_behind_app.
    unfold left_behind at 1. rewrite token_removed. cbn [app foldl filter list_filter].
    unfold left_step. fold volume volume_path. rewrite created_volume.
    destruct b as [r|]; [|done]. destruct (is_success _); [|done]. by rewrite <- E.
Qed.

(** ** One attempt *)

(** The last exchange showed the sandbox running. *)
Definition ends_running (name : string) (new : list Exchange) : Prop :=
  exists x, last new = Some x /\ saw_running host rt name x.

Lemma ends_running_app name a b : ends_running name b -> ends_running name (a ++ b).
Proof. intros (x & Hl & Hx). exists x. split; [|done]. by rewrite last_app, Hl. Qed.

Lemma polls_inert name new : Forall (fun x : Exchange => x.1 = poll rt name) new -> Forall inert new.
Proof. intros H. eapply Forall_impl; [exact H|]. intros [rq a] [= ->]. apply inert_get. Qed.

Lemma roll_back_traced i raced e :
  traced (roll_back host rt iid i raced e) (fun new r =>
    foldl left_step [ASandbox (i_id i); ACredential] new = [] /\ r <> Ok Done).
Proof.
  eapply traced_then; [apply absent_traced|]. intros new r (a & -> & _).
  eapply traced_then; [apply token_remove_traced|]. intros new r' (b & -> & _).
  apply traced_ret. rewrite app_nil_r, foldl_app. cbn [foldl]. rewrite deleted_sandbox, deleted_credential.
  split; [|by destruct raced]. rewrite filter_cons_False by (cbn; by rewrite bool_decide_eq_true_2).
  done.
Qed.

(** A finished attempt leaves the sandbox it created, seen running, and its credential;
    any other leaves nothing. *)
Definition attempt_post (name : string) (new : list Exchange) (r : res RuntimeError CreateAttempt) : Prop :=
  match r with
  | Ok Done => (exists id, left_behind new = [ASandbox id; ACredential]) /\ ends_running name new
  | _ => left_behind new = []
  end.

Lemma create_with_traced spec g name plan :
  traced (create_with host rt iid spec g name plan) (attempt_post name).
Proof.
  assert (Hret : forall A E (r : res E A), traced (S := S) (pass_back r) (fun new r' => new = [] /\ r' = r))
    by (intros; by apply traced_ret).
  eapply traced_try; [apply Hret|by intros ? ? [-> _]|]. intros ? plan' [-> _].
  eapply traced_try; [apply Hret|by intros ? ? [-> _]|]. intros ? req [-> _].
  eapply traced_try; [apply Hret|by intros ? ? [-> _]|]. intros ? [] [-> _]. cbn [app].
  eapply traced_try; [apply token_ensure_traced|by intros|]. intros new0 id0 H0.
  eapply traced_then; [apply send_traced|]. intros new1 r (a & -> & ->).
  destruct (got _ _ _ _ _ _ a) as [i|e] eqn:Ei.
  2:{ eapply traced_then; [apply token_remove_traced|]. intros new r (b & -> & _). apply traced_ret.
      cbn [attempt_post]. rewrite app_nil_r, left_behind_app, H0. cbn [app foldl]. rewrite deleted_credential.
      unfold left_step. rewrite created_sandbox, Ei. by rewrite filter_none by (by repeat constructor). }
  assert (H1 : left_behind (new0 ++ [(request (h_client rt) POST "/instances" (JsonBody (ser_create req)), a)])
               = [ASandbox (i_id i); ACredential]).
  { rewrite left_behind_app, H0. cbn [foldl]. unfold left_step. by rewrite created_sandbox, Ei. }
  eapply (traced_then _ _ (fun new _ => Forall inert new)).
  { destruct plan' as [[[config l] t]|]; [apply publish_quiet|apply quiet_ret]. }
  intros new2 published H2.
  eapply (traced_then _ _ (fun new r => Forall inert new /\ (r = Ok tt -> ends_running name new))).
  { destruct published; [|by apply traced_ret]. eapply traced_weaken; [apply await_running_traced|].
    intros new r [Hf Hr]. split; [by eapply polls_inert|done]. }
  intros new3 outcome [H3 H3']. destruct outcome as [[]|e].
  - apply traced_ret. rewrite app_nil_r. split.
    + exists (i_id i). rewrite !app_assoc, !left_behind_app, !inert_fold by done. by rewrite <- left_behind_app.
    + do 3 apply ends_running_app. by apply H3'.
  - eapply traced_weaken; [apply roll_back_traced|]. intros new r [Hl Hr].
    assert (left_behind (new0 ++ [(request (h_client rt) POST "/instances" (JsonBody (ser_create req)), a)]
      ++ new2 ++ new3 ++ new) = []) as E.
    { rewrite !app_assoc, !left_behind_app, !(inert_fold _ new2), !(inert_fold _ new3) by done.
      by rewrite <- left_behind_app, H1. }
    unfold attempt_post. destruct r as [[]|]; [done|..]; exact E.
Qed.

Lemma create_fresh_once_traced spec g name :
  traced (create_fresh_once host rt iid spec g name) (attempt_post name).
Proof.
  unfold create_fresh_once. destruct (h_ingress rt) as [config|]; [|apply create_with_traced].
  eapply traced_try; [apply planned_port_quiet| |].
  { intros new e Hn. by apply inert_fold. }
  intros new listener Hn. eapply traced_then; [apply create_with_traced|]. intros new' r Hr.
  eapply traced_then; [apply (traced_silent (drop_reservation host listener)); done|].
  intros ? [] ->. apply traced_ret. rewrite !app_nil_r. unfold attempt_post in *.
  pose proof (left_behind_after new new' (inert_fold [] new Hn)) as E.
  destruct r as [[]|]; rewrite E; try done. destruct Hr as [? ?]. split; [done|by apply ends_running_app].
Qed.

(** ** The whole start *)

(** A start that succeeded left at most one new sandbox, with its credential, and last saw
    the sandbox running; one that failed left nothing new. *)
Definition start_post (name : string) (new : list Exchange) (r : res RuntimeError unit) : Prop :=
  match r with
  | Ok _ => (left_behind new = [] \/ exists id, left_behind new = [ASandbox id; ACredential])
            /\ ends_running name new
  | Err _ => left_behind new = []
  end.

Lemma start_post_after name new new' r :
  left_behind new = [] -> start_post name new' r -> start_post name (new ++ new') r.
Proof.
  intros Hn. pose proof (left_behind_after new new' Hn) as E.
  destruct r; cbn [start_post]; rewrite E; [|done]. intros [? ?]. split; [done|by apply ends_running_app].
Qed.

Lemma create_fresh_from_traced n spec g name :
  traced (create_fresh_from host rt n iid spec g name) (start_post name).
Proof.
  induction n as [|n IH]; cbn [create_fresh_from]; [by apply traced_ret|].
  eapply traced_try; [apply create_fresh_once_traced|done|]. intros new [|detail] Hp.
  - apply traced_ret. rewrite app_nil_r. destruct Hp as [? ?]. split; [by right|done].
  - destruct (n =? 0)%nat; [apply traced_ret; by rewrite app_nil_r|].
    eapply traced_weaken; [exact IH|]. intros new' r. by apply start_post_after.
Qed.

Lemma nothing_left_nothing new : Forall (fun x => created x = None) new -> left_behind new = [].
Proof.
  unfold left_behind. induction 1 as [|x new Hx _ IH]; [done|]. cbn [foldl].
  unfold left_step at 2. by rewrite Hx.
Qed.

Lemma created_delete path body a : created (request (h_client rt) DELETE path body, a) = None.
Proof. done. Qed.

Lemma delete_each_traced l : traced (delete_each host rt l) (fun new _ => Forall (fun x => created x = None) new).
Proof.
  induction l as [|i l IH]; cbn [delete_each]; [by apply traced_ret|].
  eapply traced_then; [apply absent_traced|]. intros new r (a & -> & _).
  eapply traced_weaken; [exact IH|]. intros new' u H'. constructor; [done|exact H'].
Qed.

Lemma dedup_traced :
  traced (dedup_instances host rt iid) (fun new _ => Forall (fun x => created x = None) new).
Proof.
  eapply traced_try; [apply send_traced|intros new e (a & -> & _); by repeat constructor|].
  intros new l (a & -> & _). destruct (dedup_decision _) as [survivor extras].
  eapply traced_then; [apply delete_each_traced|]. intros new' u H'. apply traced_ret.
  rewrite app_nil_r. by constructor.
Qed.

Lemma start_traced spec g :
  traced (hm_start host rt iid spec g) (start_post (sandbox_name (h_node_id rt) iid)).
Proof.
  unfold hm_start. eapply traced_try; [apply dedup_traced| |].
  { intros new e Hn. by apply nothing_left_nothing. }
  intros new survivor Hn. apply nothing_left_nothing in Hn as Hn'.
  assert (Hfresh : forall new', left_behind new' = [] ->
    traced (create_fresh host rt iid spec g (name_of rt iid))
      (fun new'' r => start_post (sandbox_name (h_node_id rt) iid) (new' ++ new'') r)).
  { intros new' H'. eapply traced_weaken; [apply create_fresh_from_traced|].
    intros ? ?. by apply start_post_after. }
  destruct survivor as [i|]; [|by apply Hfresh]. case_bool_decide.
  - eapply traced_try; [apply absent_traced| |].
    { intros new' e (a & -> & _). apply nothing_left_nothing, Forall_app_2; [done|]. by repeat constructor. }
    intros new' [] (a & -> & _).
    match goal with |- context [new ++ ?x ++ _] => eapply traced_weaken; [apply (Hfresh (new ++ x))|] end.
    { apply nothing_left_nothing, Forall_app_2; [done|]. by repeat constructor. }
    intros new'' r. by rewrite app_assoc.
  - assert (Hs : forall a, inert (request (h_client rt) POST ("/instances/" +:+ path_segment (name_of rt iid) +:+ "/start")
        (JsonBody (JObj [])), a)).
    { intros a. apply inert_other; [done| |done]. by destruct volume_path_head as [t ->]. }
    eapply traced_try; [apply send_unit_traced| |].
    { intros new' e (a & -> & _). cbn [start_post]. rewrite left_behind_app, Hn'. apply inert_fold.
      constructor; [apply Hs|done]. }
    intros new' [] (a & -> & _). eapply traced_weaken; [apply await_running_traced|].
    intros new'' r [Hf Hr]. apply polls_inert in Hf.
    assert (E : left_behind (new ++ [(request (h_client rt) POST ("/instances/" +:+ path_segment (name_of rt iid) +:+ "/start")
        (JsonBody (JObj [])), a)] ++ new'') = []).
    { rewrite left_behind_app, Hn'. apply inert_fold. constructor; [apply Hs|done]. }
    destruct r as [[]|]; [|exact E]. split; [by left|]. do 2 apply ends_running_app. by apply Hr.
Qed.
End Leftovers.

(** C20: A start that fails leaves nothing behind: every sandbox and every credential
    volume whose creation the substrate confirmed during it, over all its attempts at a
    port, was afterwards asked to be deleted. One that succeeds leaves at most one new
    sandbox, with its credential, and its last exchange is a poll the substrate answered
    with the state Running. *)
Theorem start_cleans_up_or_runs {S} (host : Host S) (rt : HypemanRuntime) (iid : string) (spec : InstanceSpec)
    (g : GuestBootstrap) (h h' : HState S) (r : res RuntimeError unit) :
  hm_start host rt iid spec g h = (h', r) ->
  exists new, hs_log h' = hs_log h ++ new
    /\ match r with
       | Err _ => left_behind host rt iid new = []
       | Ok _ => (left_behind host rt iid new = []
                  \/ exists id, left_behind host rt iid new = [ASandbox id; ACredential])
                 /\ exists x, last new = Some x /\ saw_running host rt (sandbox_name (h_node_id rt) iid) x
       end.
Proof.
  intros E. destruct (start_traced host rt iid spec g h) as (new & Hl & Hp). rewrite E in *.
  exists new. by destruct r.
Qed.

(** * The polling loops return *)

(** The host's clock does not go back, and a sleep lasts at least as long as asked. *)
Class HostClock {S} (host : Host S) : Prop := {
  instant_server : forall s rq, instant host s <= instant host (server host s rq).1;
  instant_dial : forall s id address san, instant host s <= instant host (dial host s id address san).1;
  instant_asleep : forall s d, 0 <= d -> instant host s + d <= instant host (asleep host d s) }.

(** Any loop that polls against a deadline: a round answers, or finds the deadline ahead
    and leaves the clock at least [d] later. *)
Section Polling.
Context {W R : Type} (now : W -> Z) (deadline d : Z) (round : W -> (W * R) + W) (loop : nat -> W -> W * option R).
Context (loop_S : forall n w, loop (S n) w = match round w with
                                             | inl (w', r) => (w', Some r)
                                             | inr w' => loop n w'
                                             end).
Context (round_later : forall w w', round w = inr w' -> now w < deadline /\ now w + d <= now w').

Lemma polling_returns n w :
  deadline - now w <= Z.of_nat n * d ->
  (exists r, (loop (n + 1) w).2 = Some r)
  /\ forall fuel, (n + 1 <= fuel)%nat -> loop fuel w = loop (n + 1) w.
Proof.
  revert w. induction n as [|n IH]; intros w Hd.
  - assert (E : exists w' r, round w = inl (w', r)).
    { destruct (round w) as [[w' r]|w'] eqn:E; [by eexists _, _|]. apply round_later in E. lia. }
    destruct E as (w' & r & E). change (0 + 1)%nat with 1%nat. split; [exists r; by rewrite loop_S, E|].
    intros [|fuel] ?; [lia|]. by rewrite !loop_S, E.
  - replace (S n + 1)%nat with (S (n + 1)) by lia. rewrite loop_S.
    destruct (round w) as [[w' r]|w'] eqn:E.
    + split; [by exists r|]. intros [|fuel] ?; [lia|]. by rewrite loop_S, E.
    + apply round_later in E as E'. destruct (IH w') as [Hr Hf]; [nia|]. split; [exact Hr|].
      intros [|fuel] ?; [lia|]. rewrite loop_S, E. apply Hf. lia.
Qed.
End Polling.

Section Returning.
Context {S : Type} (host : Host S) `{!HostClock host} (rt : HypemanRuntime).
Let now (h : HState S) : Z := instant host (hs_server h).

Lemma send_instant {A} (d : de A) m path body h :
  now h <= now (send (http_call host) (json_reader host) (json_trouble host) (h_client rt) d m path body h).1.
Proof.
  unfold send, try_, then_, http_call, now. pose proof (instant_server (hs_server h) (request (h_client rt) m path body)) as Hi.
  destruct (server host (hs_server h) _) as [s [r|e]]; cbn [fst] in *; [|done].
  by destruct (is_success (rs_status r)).
Qed.

(** One round of [await_running]. *)
Definition await_round (deadline : Z) (name : string) (t : RunningTransition) (h : HState S)
    : (HState S * res RuntimeError unit) + HState S :=
  let '(h, r) := get_instance (http_call host) (json_reader host) (json_trouble host) (h_client rt) name h in
  match r with
  | Err e => inl (h, Err (map_client_err e))
  | Ok i =>
      match running_decision t (i_state i) with
      | Complete => inl (h, Ok tt)
      | Refuse => inl (h, Err (wrong_state name i))
      | Wait =>
          if deadline <=? now h then inl (h, Err (still_waiting name (state_text (i_state i))))
          else inr (sleep host POLL_INTERVAL h).1
      end
  end.

Lemma await_returns fuel name t h :
  (AWAIT_FUEL <= fuel)%nat ->
  (exists r, (await_loop host rt AWAIT_FUEL (now h + BOOT_TIMEOUT) name t h).2 = Some r)
  /\ await_loop host rt fuel (now h + BOOT_TIMEOUT) name t h
     = await_loop host rt AWAIT_FUEL (now h + BOOT_TIMEOUT) name t h.
Proof.
  intros Hf. set (deadline := now h + BOOT_TIMEOUT).
  destruct (polling_returns now deadline POLL_INTERVAL (await_round deadline name t)
    (fun n => await_loop host rt n deadline name t)) with (n := 900%nat) (w := h) as [Hr Hn].
  - intros n w. cbn [await_loop]. unfold then_, await_round.
    destruct (get_instance _ _ _ _ _ w) as [w1 [i|e]]; [|done].
    destruct (running_decision t (i_state i)); [done| |done]. fold (now w1).
    by destruct (deadline <=? now w1).
  - intros w w'. unfold await_round. pose proof (send_instant de_instance GET (poll_path name) NoBody w) as Hi.
    unfold get_instance. fold (poll_path name). destruct (send _ _ _ _ _ _ _ _ w) as [w1 [i|e]]; [|done].
    cbn [fst] in Hi. destruct (running_decision t (i_state i)); [done| |done].
    destruct (Z.leb_spec deadline (now w1)); [done|]. intros [= <-].
    pose proof (instant_asleep (hs_server w1) POLL_INTERVAL ltac:(done)). unfold sleep, now in *. cbn in *. lia.
  - unfold deadline, BOOT_TIMEOUT, POLL_INTERVAL, from_secs. lia.
  - split; [exact Hr|by apply Hn].
Qed.

Definition dial_round (deadline : Z) (id : Identity) (address san : string) (h : HState S)
    : (HState S * res string unit) + HState S :=
  let '(s, r) := dial host (hs_server h) id address san in
  let h := h <| hs_server := s |> in
  match r with
  | Ok _ => inl (h, Ok tt)
  | Err e =>
      if deadline <=? now h
      then inl (h, Err ("the guest agent at " +:+ address +:+ " did not answer within 20s (" +:+ e
                 +:+ "); the sandbox may not be running our agent, or may not be reachable from this host"))
      else inr (sleep host CONNECT_RETRY h).1
  end.

Lemma dial_returns fuel id address san h :
  (DIAL_FUEL <= fuel)%nat ->
  (exists r, (dial_loop host DIAL_FUEL (now h + GUEST_CONNECT_TIMEOUT) id address san h).2 = Some r)
  /\ dial_loop host fuel (now h + GUEST_CONNECT_TIMEOUT) id address san h
     = dial_loop host DIAL_FUEL (now h + GUEST_CONNECT_TIMEOUT) id address san h.
Proof.
  intros Hf. set (deadline := now h + GUEST_CONNECT_TIMEOUT).
  destruct (polling_returns now deadline CONNECT_RETRY (dial_round deadline id address san)
    (fun n => dial_loop host n deadline id address san)) with (n := 80%nat) (w := h) as [Hr Hn].
  - intros n w. cbn [dial_loop]. unfold dial_round.
    destruct (dial host (hs_server w) id address san) as [s [[]|e]]; [done|]. unfold now.
    by destruct (deadline <=? _).
  - intros w w'. unfold dial_round. pose proof (instant_dial (hs_server w) id address san) as Hi.
    destruct (dial host (hs_server w) id address san) as [s [[]|e]]; [done|]. cbn [fst] in Hi.
    destruct (Z.leb_spec deadline (now (w <| hs_server := s |>))) as [|Hl]; [done|]. intros [= <-].
    pose proof (instant_asleep s CONNECT_RETRY ltac:(done)). unfold sleep, now in *. cbn in *. lia.
  - unfold deadline, GUEST_CONNECT_TIMEOUT, CONNECT_RETRY, from_secs. lia.
  - split; [exact Hr|by apply Hn].
Qed.
End Returning.

(** C26: Waiting for a sandbox to run, and for a guest agent to answer, ends: when the
    host's clock does not go back and a sleep lasts as long as asked, the two loops return
    within 901 polls and 81 connection attempts, whatever the substrate answers. *)
Theorem waiting_ends {S} (host : Host S) `{!HostClock host} (rt : HypemanRuntime) (name : string)
    (t : RunningTransition) (id : Identity) (address san : string) (h : HState S) (fuel : nat) :
  (901 <= fuel)%nat ->
  let boot := instant host (hs_server h) + BOOT_TIMEOUT in
  let answer := instant host (hs_server h) + GUEST_CONNECT_TIMEOUT in
  (exists r, (await_loop host rt 901 boot name t h).2 = Some r)
  /\ await_loop host rt fuel boot name t h = await_loop host rt 901 boot name t h
  /\ (exists r, (dial_loop host 81 answer id address san h).2 = Some r)
  /\ dial_loop host fuel answer id address san h = dial_loop host 81 answer id address san h.
Proof.
  intros Hf. destruct (await_returns host rt fuel name t h Hf) as [? ?].
  destruct (dial_returns host fuel id address san h ltac:(unfold DIAL_FUEL; lia)) as [? ?]. done.
Qed.

(** * A concrete host *)

(** A server that answers from a script, one second after the other. *)
Record Script := mkScript { sc_now : Z; sc_answers : list (res string HttpResponse) }.

Definition script_answer (s : Script) : Script * res string HttpResponse :=
  match sc_answers s with
  | [] => (mkScript (sc_now s + 1) [], Err "connection refused")
  | a :: l => (mkScript (sc_now s + 1) l, a)
  end.

Definition answer (status : Z) (body : string) : res string HttpResponse :=
  Ok {| rs_status := status; rs_body := Some body |}.

(** A reader for the documents the scripts use. *)
Definition vm (id state : string) : Json :=
  JObj [("id", JStr id); ("state", JStr state); ("tags", JObj [(INSTANCE_TAG, JStr "01I")])].
Definition script_json (l : list Z) : option Json :=
  let doc := text_of l in
  if bool_decide (doc = "none") then Some (JArr [])
  else if bool_decide (doc = "vms") then Some (JArr [vm "vm-a" "Stopped"; vm "vm-b" "Running"; vm "vm-c" "Created"])
  else if bool_decide (doc = "new") then Some (vm "vm-1" "Initializing")
  else if bool_decide (doc = "running") then Some (vm "vm-1" "Running")
  else if bool_decide (doc = "stopped") then Some (vm "vm-1" "Stopped")
  else if bool_decide (doc = "volume") then Some (JObj [("id", JStr "v")])
  else None.

Definition script_host : Host Script := {|
  server := fun s _ => script_answer s;
  server_stream := fun s _ => (s, Err "no stream");
  json_reader := script_json;
  json_trouble := fun _ => "error decoding response body";
  instant := sc_now;
  asleep := fun d s => mkScript (sc_now s + Z.max 0 d) (sc_answers s);
  others := fun _ r => r;
  ulids := fun n => pretty n;
  archive := fun entries => Ok (mjoin (te_bytes <$> entries));
  prost_process := fun p => join " " (start_cmd p);
  prost_hooks := fun _ => empty_str;
  sha256 := fun l => l;
  tls_setup := fun _ _ _ => Ok tt;
  dial := fun s _ _ _ => (s, Err "connection refused");
  metadata_ok := fun _ => true;
  is_aarch64 := true |}.

#[local] Instance script_clock : HostClock script_host.
Proof.
  split.
  - intros s rq. cbn. unfold script_answer. destruct (sc_answers s); cbn; lia.
  - done.
  - intros s d Hd. cbn. lia.
Qed.

Definition script_state (answers : list (res string HttpResponse)) : HState Script :=
  mkHState (mkScript 0 answers) [] ∅ 0 0.
Definition script_runtime (ingress : option IngressConfig) : HypemanRuntime := {|
  h_client := new_client "http://127.0.0.1:4973/" None; h_node_id := "01N"; h_hypervisor := "vz";
  h_agent := {| av_volume_id := "agent"; agent_hash := "abcdef123456" |};
  h_egress_control := false; h_ingress := ingress |}.
Definition script_identity : Identity :=
  {| anchor := [1]; guest_cert := [2]; guest_key := [3]; host_cert := [4]; host_key := [5] |}.
Definition script_guest : GuestBootstrap := {| gb_token := "s3cr3t"; gb_identity := Some script_identity |}.
Definition script_spec : InstanceSpec :=
  mkInstanceSpec "01I" (Some {| oci := Some {| image := "busybox"; digest := "sha256:unit" |};
      runtime_bundle_ref := empty_str; template_hash_field := empty_str; arch := empty_str |})
    None (Some {| start_cmd := ["sleep"; "300"]; ready_cmd := []; env := ∅; workdir := empty_str |})
    None 0 0 ∅ None None.

(** The ingress is gone, the sandbox was not there, and the volume's deletion fails. *)
Definition destroy_script : HState Script := script_state [answer 204 empty_str; answer 404 "gone"; answer 500 "busy"].

Lemma destroy_confirms_each_deletion_witness :
  exists new, hs_log (hm_destroy script_host (script_runtime None) "01I" destroy_script).1 = new
    /\ length new = 3%nat
    /\ until_refused (destroy_requests (script_runtime None) "01I") new false.
Proof.
  destruct (destroy_confirms_each_deletion script_host (script_runtime None) "01I" destroy_script
    _ _ (surjective_pairing _)) as (new & Hl & Hu).
  exists new. split; [exact Hl|]. split.
  - replace new with (hs_log (hm_destroy script_host (script_runtime None) "01I" destroy_script).1) by exact Hl.
    vm_compute. reflexivity.
  - replace false with (match (hm_destroy script_host (script_runtime None) "01I" destroy_script).2 with
                        | Ok _ => true | Err _ => false end) by (vm_compute; reflexivity).
    exact Hu.
Defined.

(** Nothing is there; the volume and the sandbox are created, which then stops. *)
Definition failing_script : HState Script := script_state
  [answer 200 "none"; answer 404 "gone"; answer 201 "volume"; answer 201 "new"; answer 200 "new";
   answer 200 "stopped"; answer 204 empty_str; answer 204 empty_str].
Definition running_script : HState Script := script_state
  [answer 200 "none"; answer 404 "gone"; answer 201 "volume"; answer 201 "new"; answer 200 "new"; answer 200 "running"].

Lemma start_cleans_up_or_runs_witness :
  (exists e, (hm_start script_host (script_runtime None) "01I" script_spec script_guest failing_script).2 = Err e
     /\ exists new, hs_log (hm_start script_host (script_runtime None) "01I" script_spec script_guest failing_script).1 = new
        /\ left_behind script_host (script_runtime None) "01I" new = [])
  /\ exists new, hs_log (hm_start script_host (script_runtime None) "01I" script_spec script_guest running_script).1 = new
     /\ exists x, last new = Some x /\ saw_running script_host (script_runtime None) "barista-01n-01i" x.
Proof.
  split.
  - destruct (start_cleans_up_or_runs script_host (script_runtime None) "01I" script_spec script_guest failing_script
      _ _ (surjective_pairing _)) as (new & Hl & Hr).
    destruct (hm_start _ _ _ _ _ failing_script).2 as [u|e] eqn:E; [vm_compute in E; discriminate|].
    exists e. split; [reflexivity|]. exists new. split; [exact Hl|exact Hr].
  - destruct (start_cleans_up_or_runs script_host (script_runtime None) "01I" script_spec script_guest running_script
      _ _ (surjective_pairing _)) as (new & Hl & Hr).
    destruct (hm_start _ _ _ _ _ running_script).2 as [u|e] eqn:E; [|vm_compute in E; discriminate].
    exists new. split; [exact Hl|exact (proj2 Hr)].
Defined.

(** The loops on a scripted host, whose guest agent never answers. *)
Lemma waiting_ends_witness :
  (exists r, (await_loop script_host (script_runtime None) 901 (sc_now (hs_server running_script) + BOOT_TIMEOUT)
                "barista-01n-01i" TStart running_script).2 = Some r)
  /\ (exists r, (dial_loop script_host 81 (sc_now (hs_server running_script) + GUEST_CONNECT_TIMEOUT)
                script_identity "https://10.0.0.2:7071" "guest.01I.barista.invalid" running_script).2 = Some r).
Proof.
  destruct (waiting_ends script_host (script_runtime None) "barista-01n-01i" TStart script_identity
    "https://10.0.0.2:7071" "guest.01I.barista.invalid" running_script 901 (Nat.le_refl 901)) as (H1 & _ & H2 & _).
  split; [exact H1|exact H2].
Defined.
