(* ===== verification/HypemanPlans.v ===== *)
(** The hypeman runtime's choices: which port a workload gets, which of several sandboxes
    is kept, and what things are called. *)

From S2P Require Import Prelude Text Proto Journal Codec Runtime HypemanClient Logs Hypeman HypemanSafety.
From Stdlib Require Import Ascii.

(** * Ports *)

Section Ports.
Context {S : Type} (host : Host S) (config : IngressConfig).

Lemma pick_port_Some used p : pick_port config used = Some p -> p ∈ port_range config /\ (p ∉ used).
Proof.
  unfold pick_port. intros E. apply head_Some_elem_of, list_elem_of_filter in E. tauto.
Qed.

Lemma pick_port_None used : pick_port config used = None -> forall p, p ∈ port_range config -> p ∈ used.
Proof.
  unfold pick_port. intros E p Hp. destruct (decide (p ∈ used)) as [|Hn]; [done|].
  destruct (filter _ _) as [|x l] eqn:El; [|done].
  assert (Hf : p ∈ filter (fun p => p ∉ used) (port_range config)) by (by apply list_elem_of_filter).
  rewrite El in Hf. by apply not_elem_of_nil in Hf.
Qed.

(** The port was nobody's when it was taken, and is held now. *)
Definition just_taken (p : Z) (h : HState S) : Prop :=
  exists held, (p ∉ held) /\ hs_reserved h = {[p]} ∪ held.

Lemma try_take_spec p h h' mine :
  try_take host p h = (h', mine) ->
  if mine then just_taken p h' else p ∈ others host (hs_locks h) (hs_reserved h).
Proof.
  unfold try_take, locked. case_bool_decide as Hp; intros [= <- <-]; [done|].
  by exists (others host (hs_locks h) (hs_reserved h)).
Qed.

(** Another task was seen to hold the port. *)
Definition seen_held (p : Z) : Prop := exists n r, p ∈ others host n r.

Lemma plan_loop_spec fuel used refused h h' r :
  plan_loop host fuel config used refused h = (h', r) ->
  refused ⊆ list_to_set (port_range config) ->
  (forall p, p ∈ refused -> seen_held p) ->
  (length (port_range config) < fuel + size refused)%nat ->
  match r with
  | None => False
  | Some (Ok p) => p ∈ port_range config /\ (p ∉ used) /\ just_taken p h'
  | Some (Err _) => forall p, p ∈ port_range config -> p ∈ used \/ seen_held p
  end.
Proof.
  revert refused h. induction fuel as [|fuel IH]; intros refused h; cbn [plan_loop].
  { intros [= <- <-] Hsub _ Hf. apply subseteq_size in Hsub.
    rewrite size_list_to_set in Hsub by apply NoDup_seqZ. lia. }
  unfold then_ at 1. destruct (reserved_ports host h) as [h1 held] eqn:Er.
  assert (Hheld : forall p, p ∈ held -> seen_held p).
  { unfold reserved_ports, locked in Er. injection Er as _ <-. intros p Hp. by eexists _, _. }
  intros E Hsub Hseen Hf.
  destruct (pick_port config (used ∪ held ∪ refused)) as [p|] eqn:Ep.
  - apply pick_port_Some in Ep as [Hr Hp]. unfold then_ in E.
    destruct (try_take host p h1) as [h2 mine] eqn:Et. apply try_take_spec in Et.
    destruct mine; [injection E as <- <-; set_solver|].
    apply (IH _ _ E).
    + apply union_subseteq. split; [|done]. apply singleton_subseteq_l, elem_of_list_to_set. done.
    + intros q [->%elem_of_singleton|]%elem_of_union; [by eexists _, _|by apply Hseen].
    + rewrite size_union, size_singleton by set_solver. lia.
  - injection E as <- <-. intros p Hp. pose proof (pick_port_None _ Ep p Hp) as Hu.
    rewrite !elem_of_union in Hu. destruct Hu as [[|]|]; [by left|right; by apply Hheld|right; by apply Hseen].
Qed.

Context (c : HypemanClient).

(** The exchange is the listing of all ingresses, and no rule in it listens on [p]. *)
Definition listed_free (p : Z) (x : Exchange) : Prop :=
  x.1 = request c GET "/ingresses" NoBody
  /\ exists l, got (json_reader host) (json_trouble host) c (de_vec de_ingress) GET "/ingresses" x.2 = Ok l
     /\ forall i r, i ∈ l -> r ∈ ig_rules i -> rule_port r <> p.
(** The exchange is the answer that the sandbox's own ingress listens on [p]. *)
Definition own_listener (sandbox : string) (p : Z) (x : Exchange) : Prop :=
  x.1 = request c GET ("/ingresses/" +:+ path_segment sandbox) NoBody
  /\ exists i, got (json_reader host) (json_trouble host) c de_ingress GET ("/ingresses/" +:+ path_segment sandbox) x.2 = Ok i
     /\ listener_port_of i = Ok p.

Lemma used_ports_spec h :
  exists a, hs_log (used_ports host c h).1
            = hs_log h ++ [(request c GET "/ingresses" NoBody, a)]
    /\ match (used_ports host c h).2 with
       | Ok used => forall p, p ∉ used -> listed_free p (request c GET "/ingresses" NoBody, a)
       | Err _ => True
       end.
Proof.
  unfold used_ports, try_, then_, list_ingresses. cbn [tagged].
  destruct (send_traced host c (de_vec de_ingress) GET "/ingresses" NoBody h) as (new & Hl & a & -> & Hr).
  destruct (send _ _ _ _ _ _ _ _ h) as [h1 r]. cbn [fst snd] in *. exists a.
  destruct r as [l|e]; cbn [fst snd pass_back]; (split; [done|]); [|done]. intros p Hp. split; [done|].
  exists l. split; [done|]. intros i r Hi Hrule <-. apply Hp, elem_of_list_to_set.
  apply list_elem_of_bind. exists i. split; [|done]. by apply list_elem_of_fmap_2.
Qed.

Lemma sticky_port_spec sandbox h :
  exists a, hs_log (sticky_port host c sandbox h).1
            = hs_log h ++ [(request c GET ("/ingresses/" +:+ path_segment sandbox) NoBody, a)]
    /\ forall p, (sticky_port host c sandbox h).2 = Ok (Some p) ->
         own_listener sandbox p (request c GET ("/ingresses/" +:+ path_segment sandbox) NoBody, a).
Proof.
  unfold sticky_port, then_, get_ingress.
  destruct (send_traced host c de_ingress GET ("/ingresses/" +:+ path_segment sandbox) NoBody h) as (new & Hl & a & -> & Hr).
  destruct (send _ _ _ _ _ _ _ _ h) as [h1 r]. cbn [fst snd pass_back] in *. exists a. split; [done|].
  intros p E. split; [done|]. destruct r as [i|e]; [|by destruct (not_found e)]. exists i. split; [done|].
  by destruct (listener_port_of i); cbn in E; simplify_eq.
Qed.

Lemma reserved_log p h : hs_log (try_take host p h).1 = hs_log h.
Proof. unfold try_take, locked. by case_bool_decide. Qed.

Lemma plan_loop_log fuel used refused h : hs_log (plan_loop host fuel config used refused h).1 = hs_log h.
Proof.
  revert refused h. induction fuel as [|fuel IH]; intros refused h; cbn [plan_loop]; [done|].
  unfold then_ at 1. destruct (reserved_ports host h) as [h1 held] eqn:Er.
  assert (E1 : hs_log h1 = hs_log h) by (unfold reserved_ports, locked in Er; by injection Er as <- _).
  destruct (pick_port _ _) as [p|]; [|done]. unfold then_.
  pose proof (reserved_log p h1) as E2. destruct (try_take host p h1) as [h2 []]; cbn [fst] in E2; [by rewrite <- E1|].
  by rewrite IH, E2.
Qed.
End Ports.

(** The search always ends with a port or with the reason there is none. *)
Lemma plan_loop_ends {S} (host : Host S) (config : IngressConfig) (used : gset Z) (h : HState S) :
  match (plan_loop host (plan_fuel config) config used ∅ h).2 with
  | None => False
  | Some (Ok p) => p ∈ port_range config /\ (p ∉ used)
  | Some (Err _) => forall p, p ∈ port_range config -> p ∈ used \/ seen_held host p
  end.
Proof.
  destruct (plan_loop host (plan_fuel config) config used ∅ h) as [h' r] eqn:E. cbn [snd].
  apply plan_loop_spec in E; [|set_solver|set_solver|unfold plan_fuel; rewrite size_empty; lia].
  destruct r as [[p|e]|]; tauto.
Qed.

Lemma planned_port_spec {S} (host : Host S) (c : HypemanClient) (config : IngressConfig) (sandbox : string)
    (h h' : HState S) (p : Z) :
  planned_port host c config sandbox h = (h', Ok p) ->
  just_taken p h'
  /\ exists new x, hs_log h' = hs_log h ++ new /\ last new = Some x
     /\ (own_listener host c sandbox p x \/ p ∈ port_range config /\ listed_free host c p x).
Proof.
  unfold planned_port, try_ at 1, then_ at 1. intros E.
  destruct (sticky_port_spec host c sandbox h) as (a & Hl & Hs).
  destruct (sticky_port host c sandbox h) as [h1 [[q|]|e]]; [| |done]; cbn [fst snd] in *.
  - unfold then_ in E. pose proof (reserved_log host q h1) as Hl'.
    destruct (try_take host q h1) as [h2 mine] eqn:Et. apply try_take_spec in Et.
    cbn [fst] in Hl'. destruct mine; [|done]. injection E as <- ->. split; [done|].
    eexists [_], _. split; [by rewrite Hl', Hl|]. split; [done|]. left. by apply Hs.
  - unfold try_ at 1, then_ at 1 in E. destruct (used_ports_spec host c h1) as (b & Hl' & Hu).
    destruct (used_ports host c h1) as [h2 [used|e]]; [|done]. cbn [fst snd] in *.
    unfold then_ in E. pose proof (plan_loop_log host config (plan_fuel config) used ∅ h2) as Hl''.
    destruct (plan_loop _ _ _ _ _ h2) as [h3 r] eqn:Ep. cbn [fst] in Hl''.
    apply plan_loop_spec in Ep; [|set_solver|set_solver|unfold plan_fuel; rewrite size_empty; lia].
    injection E as <- E. destruct r as [[q|e]|]; cbn in E; [|done|done]. injection E as ->.
    destruct Ep as (? & ? & ?). split; [done|].
    eexists [_; _], _. split; [by rewrite Hl'', Hl', Hl, <- app_assoc|]. split; [done|]. right. split; [done|by apply Hu].
Qed.


(** A port planned for a workload was reserved by nobody in this process at the
    moment it was taken, and is reserved from then on; and it is the one the sandbox's own
    ingress listens on, or one in the configured range that no ingress listens on. The
    search for a free one ends whatever the other tasks reserve meanwhile, and gives up
    only when every port of the range is listened on or was seen reserved. *)
Theorem planned_ports_are_free {S} (host : Host S) (c : HypemanClient) (config : IngressConfig) (sandbox : string)
    (h h' : HState S) (p : Z) (used : gset Z) :
  planned_port host c config sandbox h = (h', Ok p) ->
  just_taken p h'
  /\ (exists new x, hs_log h' = hs_log h ++ new /\ last new = Some x
     /\ (own_listener host c sandbox p x \/ p ∈ port_range config /\ listed_free host c p x))
  /\ match (plan_loop host (plan_fuel config) config used ∅ h).2 with
     | None => False
     | Some (Ok q) => q ∈ port_range config /\ (q ∉ used)
     | Some (Err _) => forall q, q ∈ port_range config -> q ∈ used \/ seen_held host q
     end.
Proof.
  intros E. apply planned_port_spec in E as [? ?]. split; [done|]. split; [done|apply plan_loop_ends].
Qed.

(** ** Reservations are given back *)

Section GivenBack.
Context {S : Type} (host : Host S).

(** The call leaves the reservations as they were. *)
Definition unreserved_by {A} (m : Call (HState S) A) : Prop := forall h, hs_reserved (m h).1 = hs_reserved h.

Lemma unreserved_ret {A} (a : A) : unreserved_by (pass_back a).
Proof. done. Qed.
Lemma unreserved_then {A B} (m : Call (HState S) A) (k : A -> Call (HState S) B) :
  unreserved_by m -> (forall a, unreserved_by (k a)) -> unreserved_by (then_ m k).
Proof. intros Hm Hk h. unfold then_. specialize (Hm h). destruct (m h) as [h' a]. by rewrite Hk. Qed.
Lemma unreserved_try {E F A B} (m : Call (HState S) (res E A)) (f : E -> F) (k : A -> Call (HState S) (res F B)) :
  unreserved_by m -> (forall a, unreserved_by (k a)) -> unreserved_by (try_ m f k).
Proof. intros Hm Hk. apply unreserved_then; [done|]. intros [a|e]; [done|apply unreserved_ret]. Qed.
Lemma unreserved_http rq : unreserved_by (fun h => http_call host h rq).
Proof. intros h. unfold http_call. by destruct (server host (hs_server h) rq). Qed.
Lemma unreserved_if {A} (b : bool) (m m' : Call (HState S) A) :
  unreserved_by m -> unreserved_by m' -> unreserved_by (if b then m else m').
Proof. by destruct b. Qed.
Lemma unreserved_choose {A} (b : HState S -> bool) (m m' : Call (HState S) A) :
  unreserved_by m -> unreserved_by m' -> unreserved_by (fun h => if b h then m h else m' h).
Proof. intros ? ? h. by destruct (b h). Qed.
End GivenBack.

Ltac unreserved :=
  repeat first
    [ progress intros
    | apply unreserved_ret | apply unreserved_http
    | apply unreserved_try | apply unreserved_then | apply unreserved_if
    | match goal with |- unreserved_by (match ?x with _ => _ end) => destruct x end
    | done ].

Section GivenBackBy.
Context {S : Type} (host : Host S) (alone : forall n r, others host n r = r) (rt : HypemanRuntime).

Lemma unreserved_send {A} c (d : de A) m path body :
  unreserved_by (send (http_call host) (json_reader host) (json_trouble host) c d m path body).
Proof. unfold send. unreserved. Qed.
Lemma unreserved_send_unit c m path body : unreserved_by (send_unit_with (http_call host) c m path body).
Proof. unfold send_unit_with. unreserved. Qed.
Lemma unreserved_token_remove node iid : unreserved_by (token_remove host (h_client rt) node iid).
Proof. apply unreserved_then; [apply unreserved_send_unit|unreserved]. Qed.
Lemma unreserved_delete_instance id : unreserved_by (delete_instance (http_call host) (h_client rt) id).
Proof. apply unreserved_then; [apply unreserved_send_unit|unreserved]. Qed.

Lemma unreserved_await name t : unreserved_by (await_running host rt name t).
Proof.
  assert (Hl : forall fuel deadline, unreserved_by (await_loop host rt fuel deadline name t)).
  { induction fuel as [|fuel IH]; intros deadline; cbn [await_loop]; [apply unreserved_ret|].
    apply unreserved_then; [apply unreserved_send|]. intros [i|e]; [|apply unreserved_ret].
    destruct (running_decision t (i_state i)); [apply unreserved_ret| |apply unreserved_ret].
    apply (unreserved_choose (fun h => deadline <=? instant host (hs_server h)) (pass_back _)); [apply unreserved_ret|].
    apply unreserved_then; [done|]. intros _. apply IH. }
  intros h. unfold await_running. specialize (Hl AWAIT_FUEL (instant host (hs_server h) + BOOT_TIMEOUT) h).
  by destruct (await_loop _ _ _ _ _ _ h).
Qed.

Lemma unreserved_publish config node iid sandbox listener target :
  unreserved_by (publish host (h_client rt) config node iid sandbox listener target).
Proof.
  assert (Hc : unreserved_by (ingress_create host (h_client rt) config node iid sandbox listener target)).
  { apply unreserved_then; [apply unreserved_send|unreserved]. }
  apply unreserved_then; [apply unreserved_send|]. intros [existing|e]; [|by destruct (not_found e); [|apply unreserved_ret]].
  apply unreserved_try; [apply unreserved_ret|]. intros p. apply unreserved_if; [apply unreserved_ret|].
  apply unreserved_try; [|done]. apply unreserved_then; [apply unreserved_send_unit|unreserved].
Qed.

Lemma unreserved_create_with iid spec g name plan : unreserved_by (create_with host rt iid spec g name plan).
Proof.
  do 3 (apply unreserved_try; [apply unreserved_ret|intros ?]).
  apply unreserved_try.
  { apply unreserved_try; [apply unreserved_token_remove|]. intros _.
    apply unreserved_try; [apply unreserved_ret|]. intros bytes.
    apply unreserved_try; [|unreserved]. unfold create_volume_from_archive. unreserved. }
  intros _. apply unreserved_then; [apply unreserved_send|]. intros [i|e].
  - apply unreserved_then; [destruct a as [[[? ?] ?]|]; [apply unreserved_publish|apply unreserved_ret]|].
    intros published. apply unreserved_then; [destruct published; [apply unreserved_await|apply unreserved_ret]|].
    intros [|e]; [apply unreserved_ret|].
    apply unreserved_then; [apply unreserved_delete_instance|]. intros _.
    apply unreserved_then; [apply unreserved_token_remove|unreserved].
  - apply unreserved_then; [apply unreserved_token_remove|unreserved].
Qed.

(** What a planned port does to the reservations. *)
Definition one_more (before after : gset Z) (r : res RuntimeError Z) : Prop :=
  match r with Ok p => (p ∉ before) /\ after = {[p]} ∪ before | Err _ => after = before end.

Lemma try_take_alone p h h' mine :
  try_take host p h = (h', mine) ->
  if mine then (p ∉ hs_reserved h) /\ hs_reserved h' = {[p]} ∪ hs_reserved h
  else p ∈ hs_reserved h /\ hs_reserved h' = hs_reserved h.
Proof. unfold try_take, locked. rewrite alone. by case_bool_decide; intros [= <- <-]. Qed.

Lemma plan_loop_alone n config used refused h h' r :
  plan_loop host (Datatypes.S n) config used refused h = (h', r) ->
  match r with Some r => one_more (hs_reserved h) (hs_reserved h') r | None => False end.
Proof.
  cbn [plan_loop]. unfold then_ at 1. destruct (reserved_ports host h) as [h1 held] eqn:Er.
  unfold reserved_ports, locked in Er. rewrite alone in Er. injection Er as <- <-.
  destruct (pick_port _ _) as [p|] eqn:Ep; [|by intros [= <- <-]].
  apply pick_port_Some in Ep as [_ Hp]. unfold then_.
  destruct (try_take host p _) as [h2 mine] eqn:Et. apply try_take_alone in Et. cbn in Et.
  destruct mine; [by intros [= <- <-]|]. set_solver.
Qed.

Lemma planned_port_alone config sandbox h h' r :
  planned_port host (h_client rt) config sandbox h = (h', r) -> one_more (hs_reserved h) (hs_reserved h') r.
Proof.
  unfold planned_port, try_ at 1, then_ at 1. intros E.
  assert (Hs : unreserved_by (sticky_port host (h_client rt) sandbox))
    by (apply unreserved_then; [apply unreserved_send|unreserved]).
  specialize (Hs h). destruct (sticky_port host (h_client rt) sandbox h) as [h1 [[p|]|e]]; cbn [fst] in Hs.
  - unfold then_ in E. destruct (try_take host p h1) as [h2 mine] eqn:Et. apply try_take_alone in Et.
    rewrite Hs in Et. injection E as <- <-. destruct mine; [done|]. by destruct Et.
  - assert (Hu : unreserved_by (used_ports host (h_client rt)))
      by (apply unreserved_try; [apply unreserved_send|unreserved]).
    unfold try_ at 1, then_ at 1 in E. specialize (Hu h1).
    destruct (used_ports host (h_client rt) h1) as [h2 [used|e]]; cbn [fst] in Hu;
      [|injection E as <- <-; cbn; congruence].
    unfold then_ in E. destruct (plan_loop _ _ _ _ _ h2) as [h3 o] eqn:Ep. apply plan_loop_alone in Ep.
    rewrite Hu, Hs in Ep. injection E as <- <-. by destruct o.
  - injection E as <- <-. exact Hs.
Qed.

(** With no other task at work, an attempt ends with the reservations it began with: the
    one it took is given back on every way out. *)
Lemma attempt_returns_its_port iid spec g name h :
  hs_reserved (create_fresh_once host rt iid spec g name h).1 = hs_reserved h.
Proof.
  unfold create_fresh_once. destruct (h_ingress rt) as [config|]; [|apply unreserved_create_with].
  unfold try_, then_. destruct (planned_port _ _ _ _ h) as [h1 [p|e]] eqn:Ep;
    apply planned_port_alone in Ep; cbn [one_more] in Ep; [|done].
  pose proof (unreserved_create_with iid spec g name (Some (config, p)) h1) as Hc.
  destruct (create_with _ _ _ _ _ _ _ h1) as [h2 r]. cbn [fst] in Hc.
  unfold drop_reservation, locked. cbn. rewrite alone, Hc. destruct Ep as [Hn ->]. set_solver.
Qed.
End GivenBackBy.

(** * Duplicates *)

Section Duplicates.
Abbreviation rank i := (survivor_rank (i_state i)).

Lemma insert_by_rank_perm x l : insert_by_rank x l ≡ₚ x :: l.
Proof.
  induction l as [|y l IH]; [done|]. cbn [insert_by_rank]. destruct (_ <=? _); [done|].
  rewrite IH. apply Permutation_swap.
Qed.

Lemma sort_by_rank_perm l : sort_by_rank l ≡ₚ l.
Proof. induction l as [|x l IH]; [done|]. cbn [sort_by_rank foldr]. by rewrite insert_by_rank_perm, IH. Qed.

Lemma insert_by_rank_sorted x l :
  StronglySorted (fun a b => rank a <= rank b) l -> StronglySorted (fun a b => rank a <= rank b) (insert_by_rank x l).
Proof.
  induction 1 as [|y l Hs IH Hf]; cbn [insert_by_rank]; [by repeat constructor|].
  destruct (Z.leb_spec (rank x) (rank y)).
  - constructor; [by constructor|]. constructor; [done|]. eapply Forall_impl; [exact Hf|]. cbn. lia.
  - constructor; [done|]. rewrite insert_by_rank_perm. constructor; [cbn; lia|done].
Qed.

Lemma sort_by_rank_sorted l : StronglySorted (fun a b => rank a <= rank b) (sort_by_rank l).
Proof. induction l; [constructor|by apply insert_by_rank_sorted]. Qed.

Lemma sorted_last l i :
  StronglySorted (fun a b => rank a <= rank b) l -> last l = Some i -> forall j, j ∈ l -> rank j <= rank i.
Proof.
  induction 1 as [|y l Hs IH Hf]; [done|]. rewrite last_cons. intros E j [->|Hj]%elem_of_cons.
  - destruct (last l) as [k|] eqn:El; [|by injection E as ->]. injection E as ->.
    rewrite Forall_forall in Hf. by apply Hf, last_Some_elem_of.
  - apply IH; [|done]. destruct (last l) eqn:El; [done|]. apply last_None in El as ->. by apply not_elem_of_nil in Hj.
Qed.

Lemma pop_perm {A} (l : list A) i : last l = Some i -> l ≡ₚ i :: (pop l).2.
Proof.
  intros [l' ->]%last_Some. cbn [pop snd]. rewrite length_app. cbn [length].
  replace (length l' + 1 - 1)%nat with (length l') by lia. rewrite take_app_length.
  symmetry. apply Permutation_cons_append.
Qed.

Lemma dedup_decision_spec mine :
  match dedup_decision mine with
  | (None, extras) => mine = [] /\ extras = []
  | (Some i, extras) => mine ≡ₚ i :: extras /\ forall j, j ∈ mine -> rank j <= rank i
  end.
Proof.
  unfold dedup_decision. destruct mine as [|x [|y mine]]; [done|..]; cbn [length Nat.leb].
  - cbn. split; [done|]. by intros j ->%list_elem_of_singleton.
  - destruct (last (sort_by_rank (x :: y :: mine))) as [i|] eqn:El.
    + unfold pop at 1. rewrite El. pose proof (pop_perm _ _ El) as Hp. split.
      * rewrite <- Hp. by rewrite sort_by_rank_perm.
      * intros j Hj. eapply (sorted_last (sort_by_rank (x :: y :: mine)));
          [apply sort_by_rank_sorted|done|]. by rewrite sort_by_rank_perm.
    + apply last_None in El. pose proof (sort_by_rank_perm (x :: y :: mine)) as Hp. rewrite El in Hp.
      by apply Permutation_nil_cons in Hp.
Qed.
End Duplicates.

Section Deduplication.
Context {S : Type} (host : Host S) (rt : HypemanRuntime).

Definition removal (i : Instance) : HttpRequest :=
  request (h_client rt) DELETE ("/instances/" +:+ path_segment (i_id i)) NoBody.

Lemma delete_each_removes l : traced (delete_each host rt l) (fun new _ => new.*1 = removal <$> l).
Proof.
  induction l as [|i l IH]; cbn [delete_each]; [by apply traced_ret|].
  eapply traced_then; [apply absent_traced|]. intros new r (a & -> & _).
  eapply traced_weaken; [exact IH|]. intros new' u H'. cbn. by rewrite H'.
Qed.

Definition own_listing : string := tagged "/instances" (Some (NODE_TAG, h_node_id rt)).

Lemma dedup_instances_traced iid :
  traced (dedup_instances host rt iid) (fun new r =>
    match r with
    | Err _ => exists a, new = [(request (h_client rt) GET own_listing NoBody, a)]
    | Ok survivor =>
        exists a l extras rest,
          new = (request (h_client rt) GET own_listing NoBody, a) :: rest
          /\ got (json_reader host) (json_trouble host) (h_client rt) (de_vec de_instance) GET own_listing a = Ok l
          /\ dedup_decision (filter (fun i => i_tags i !! INSTANCE_TAG = Some iid) l) = (survivor, extras)
          /\ rest.*1 = removal <$> extras
    end).
Proof.
  eapply traced_try; [apply send_traced|intros new e (a & -> & _); by exists a|].
  intros new l (a & -> & Ea). destruct (dedup_decision _) as [survivor extras] eqn:Ed.
  eapply traced_then; [apply delete_each_removes|]. intros rest u Hr. apply traced_ret.
  rewrite app_nil_r. exists a, l, extras, rest. done.
Qed.
End Deduplication.

(** Before a start, at most one sandbox of the instance is kept. Of the sandboxes the
    substrate lists for this node, those tagged with the instance are the kept one and the
    removed ones, each removed by its own id and nothing else removed; the kept one is at
    least as alive as any of them, so a running sandbox is never removed in favour of one
    that is not. There is none to keep only when none is tagged. *)
Theorem dedup_keeps_the_most_alive {S} (host : Host S) (rt : HypemanRuntime) (iid : string) (h h' : HState S)
    (survivor : option Instance) :
  dedup_instances host rt iid h = (h', Ok survivor) ->
  exists a l rest extras,
    hs_log h' = hs_log h ++ (request (h_client rt) GET (own_listing rt) NoBody, a) :: rest
    /\ got (json_reader host) (json_trouble host) (h_client rt) (de_vec de_instance) GET (own_listing rt) a = Ok l
    /\ rest.*1 = removal rt <$> extras
    /\ let mine := filter (fun i => i_tags i !! INSTANCE_TAG = Some iid) l in
       match survivor with
       | None => mine = [] /\ extras = []
       | Some i => mine ≡ₚ i :: extras
                   /\ forall j, j ∈ mine -> survivor_rank (i_state j) <= survivor_rank (i_state i)
       end.
Proof.
  intros E. destruct (dedup_instances_traced host rt iid h) as (new & Hl & Hp). rewrite E in Hl, Hp. cbn [fst snd] in *.
  destruct Hp as (a & l & extras & rest & -> & Ea & Ed & Hr). exists a, l, rest, extras.
  pose proof (dedup_decision_spec (filter (fun i => i_tags i !! INSTANCE_TAG = Some iid) l)) as Hs.
  rewrite Ed in Hs. done.
Qed.

(** * Concrete plans *)

Definition script_ports : IngressConfig := {| advertise_host := "node.example"; ports_start := 30000; ports_end := 30003 |}.
(** The sandbox has no ingress yet, and there is no other. *)
Definition plan_script : HState Script :=
  mkHState (mkScript 0 [answer 404 "gone"; answer 200 "none"]) [] {[30000]} 0 0.

Lemma planned_ports_are_free_witness :
  exists h', planned_port script_host (h_client (script_runtime None)) script_ports "barista-01n-01i" plan_script = (h', Ok 30001)
  /\ just_taken 30001 h'.
Proof.
  eexists. split; [vm_compute; reflexivity|].
  eapply (planned_ports_are_free script_host (h_client (script_runtime None)) script_ports "barista-01n-01i" plan_script
    _ 30001 ∅).
  vm_compute. reflexivity.
Defined.

(** Three sandboxes of one instance, one of them running. *)
Definition dedup_script : HState Script :=
  script_state [answer 200 "vms"; answer 204 empty_str; answer 404 "gone"].

Lemma dedup_keeps_the_most_alive_witness :
  exists i h', dedup_instances script_host (script_runtime None) "01I" dedup_script = (h', Ok (Some i))
  /\ i_id i = "vm-b"
  /\ exists a l rest extras,
       hs_log h' = (request (h_client (script_runtime None)) GET (own_listing (script_runtime None)) NoBody, a) :: rest
       /\ rest.*1 = removal (script_runtime None) <$> extras
       /\ filter (fun j => i_tags j !! INSTANCE_TAG = Some "01I") l ≡ₚ i :: extras.
Proof.
  destruct (dedup_instances script_host (script_runtime None) "01I" dedup_script) as [h' [[i|]|e]] eqn:E;
    [|vm_compute in E; discriminate..].
  exists i, h'. split; [reflexivity|]. split; [vm_compute in E; by injection E as _ <-|].
  destruct (dedup_keeps_the_most_alive script_host (script_runtime None) "01I" dedup_script h' (Some i) E)
    as (a & l & rest & extras & Hl & _ & Hr & Hp & _).
  exists a, l, rest, extras. split; [exact Hl|]. split; [exact Hr|exact Hp].
Defined.
