(* ===== verification/Names.v ===== *)
(** The names the hypeman runtime gives to what it creates, and the paths its client asks
    for: the substrate sees names of its own grammar, those of different nodes and
    instances differ, and an id is one segment of a path. *)

From S2P Require Import Prelude Text HypemanClient Hypeman.
From Stdlib Require Import Ascii.

(** * Strings *)

Fixpoint all_chars (p : ascii -> bool) (s : string) : bool :=
  match s with EmptyString => true | String c s' => p c && all_chars p s' end.
Fixpoint map_chars (f : ascii -> ascii) (s : string) : string :=
  match s with EmptyString => EmptyString | String c s' => String (f c) (map_chars f s') end.

Section Strings.
Lemma append_nil b : EmptyString +:+ b = b.
Proof. reflexivity. Qed.

Lemma all_chars_app p a b : all_chars p (a +:+ b) = all_chars p a && all_chars p b.
Proof. induction a as [|c a IH]; [done|]. rewrite append_cons. cbn [all_chars]. by rewrite IH, andb_assoc. Qed.

Lemma all_chars_impl (p q : ascii -> bool) s :
  (forall c, p c = true -> q c = true) -> all_chars p s = true -> all_chars q s = true.
Proof.
  intros Hpq. induction s as [|c s IH]; [done|]. cbn [all_chars]. intros [? ?]%andb_true_iff.
  apply andb_true_iff. auto.
Qed.

Lemma map_chars_inv f g p s :
  (forall c, p c = true -> g (f c) = c) -> all_chars p s = true -> map_chars g (map_chars f s) = s.
Proof.
  intros Hgf. induction s as [|c s IH]; [done|]. cbn [all_chars map_chars]. intros [? ?]%andb_true_iff.
  rewrite Hgf by done. by rewrite IH.
Qed.


Lemma length_map_chars f s : String.length (map_chars f s) = String.length s.
Proof. induction s; cbn [map_chars String.length]; congruence. Qed.

Lemma append_cancel a b x y :
  String.length a = String.length b -> a +:+ x = b +:+ y -> a = b /\ x = y.
Proof.
  revert b. induction a as [|c a IH]; intros [|d b] Hl E; cbn [String.length] in *; try done.
  rewrite !append_cons in E. injection E as -> E. destruct (IH b) as [-> ->]; [lia|done|done].
Qed.

Lemma prefix_app a s : String.prefix a s = true -> exists t, s = a +:+ t.
Proof.
  revert s. induction a as [|c a IH]; intros [|d s]; cbn [String.prefix]; try done; [by eexists|by eexists|].
  destruct (ascii_dec c d) as [->|]; [|done]. intros [t ->]%IH. by exists t.
Qed.

Lemma prefix_of_app a t : String.prefix a (a +:+ t) = true.
Proof. induction a as [|c a IH]; [by destruct t|]. rewrite append_cons. cbn [String.prefix]. by destruct (ascii_dec c c). Qed.

Lemma substring_all s n : (String.length s <= n)%nat -> String.substring 0 n s = s.
Proof.
  revert n. induction s as [|c s IH]; intros [|n] ?; cbn [String.substring String.length] in *; try done; [lia|].
  rewrite IH by lia. done.
Qed.

Lemma substring_after a t :
  String.substring (String.length a) (String.length (a +:+ t) - String.length a) (a +:+ t) = t.
Proof.
  induction a as [|c a IH]; [rewrite append_nil|rewrite append_cons]; cbn [String.length String.substring].
  - rewrite Nat.sub_0_r. destruct t; [done|]. apply substring_all. done.
  - exact IH.
Qed.
End Strings.

(** * Paths *)

(** Percent-decoding, as RFC 3986 has it. *)
Definition hex_digit (c : ascii) : option nat :=
  let n := Ascii.nat_of_ascii c in
  if ((48 <=? n) && (n <=? 57))%nat then Some (n - 48)%nat
  else if ((65 <=? n) && (n <=? 70))%nat then Some (n - 55)%nat
  else if ((97 <=? n) && (n <=? 102))%nat then Some (n - 87)%nat
  else None.
Fixpoint urldecode (s : string) : option string :=
  match s with
  | EmptyString => Some EmptyString
  | String c s' =>
      if bool_decide (c = "%"%char) then
        match s' with
        | String a (String b r) =>
            x ← hex_digit a; y ← hex_digit b;
            String (Ascii.ascii_of_nat (16 * x + y)) <$> urldecode r
        | _ => None
        end
      else String c <$> urldecode s'
  end.

Section Paths.
Lemma urldecode_byte c t : urldecode (encode_byte c +:+ t) = String c <$> urldecode t.
Proof. by destruct c as [[] [] [] [] [] [] [] []]. Qed.

Lemma urldecode_urlencode s : urldecode (urlencode s) = Some s.
Proof. induction s as [|c s IH]; [done|]. cbn [urlencode]. by rewrite urldecode_byte, IH. Qed.

(** Neither a separator nor anything else with a meaning in a path or a query. *)
Definition segment_char (c : ascii) : bool := unreserved c || bool_decide (c = "%"%char).

Lemma encode_byte_segment c : all_chars segment_char (encode_byte c) = true.
Proof. by destruct c as [[] [] [] [] [] [] [] []]. Qed.

Lemma path_segment_chars s : all_chars segment_char (path_segment s) = true.
Proof.
  unfold path_segment. induction s as [|c s IH]; [done|]. cbn [urlencode].
  rewrite all_chars_app. by rewrite encode_byte_segment, IH.
Qed.

(** A dot is not escaped, so an id of two dots is a path to the parent. *)
Lemma dots_are_not_escaped : path_segment ".." = "..".
Proof. reflexivity. Qed.
End Paths.

(** * Names *)

(** The canonical spelling of a ULID: 26 digits and capital letters. *)
Definition ulid_char (c : ascii) : bool :=
  let n := Ascii.nat_of_ascii c in ((48 <=? n) && (n <=? 57) || (65 <=? n) && (n <=? 90))%nat.
Definition is_ulid (s : string) : Prop := String.length s = 26%nat /\ all_chars ulid_char s = true.

(** The substrate's grammar, [^[a-z0-9]([a-z0-9-]*[a-z0-9])?$], in at most 63 characters. *)
Definition name_char (c : ascii) : bool :=
  let n := Ascii.nat_of_ascii c in ((48 <=? n) && (n <=? 57) || (97 <=? n) && (n <=? 122))%nat.
Fixpoint ends_well (s : string) : bool :=
  match s with
  | EmptyString => false
  | String c EmptyString => name_char c
  | String _ s' => ends_well s'
  end.
Definition legal_name (s : string) : bool :=
  match s with
  | EmptyString => false
  | String c s' => name_char c && all_chars (fun c => name_char c || is_dash c) s && ends_well s
      && (String.length s <=? 63)%nat
  end.

Section SandboxNames.

Definition upper (c : ascii) : ascii :=
  let n := Ascii.nat_of_ascii c in
  if ((97 <=? n) && (n <=? 122))%nat then Ascii.ascii_of_nat (n - 32) else c.

Lemma upper_lower c : ulid_char c = true -> upper (lower c) = c.
Proof. by destruct c as [[] [] [] [] [] [] [] []]. Qed.
Lemma ulid_char_kept c : ulid_char c = true -> continuation c = false /\ is_alnum c = true.
Proof. by destruct c as [[] [] [] [] [] [] [] []]. Qed.
Lemma lower_name_char c : ulid_char c = true -> name_char (lower c) = true.
Proof. by destruct c as [[] [] [] [] [] [] [] []]. Qed.
Lemma name_char_no_dash c : name_char c = true -> is_dash c = false.
Proof. by destruct c as [[] [] [] [] [] [] [] []]. Qed.

Lemma map_name_ulid s : all_chars ulid_char s = true -> map_name s = map_chars lower s.
Proof.
  induction s as [|c s IH]; [done|]. cbn [all_chars map_name map_chars]. intros [Hc ?]%andb_true_iff.
  apply ulid_char_kept in Hc as [-> ->]. by rewrite IH.
Qed.

Lemma trim_kept p s : all_chars (fun c => negb (p c)) s = true -> trim_by p s = s.
Proof.
  intros H. assert (Hs : trim_start_by p s = s).
  { destruct s as [|c s]; [done|]. cbn [all_chars trim_start_by] in *. apply andb_true_iff in H as [Hc _].
    by destruct (p c). }
  unfold trim_by. rewrite Hs. clear Hs. induction s as [|c s IH]; [done|].
  cbn [all_chars trim_end_by] in *. apply andb_true_iff in H as [Hc Hs]. rewrite IH by done. by destruct (p c).
Qed.

Lemma sanitize_ulid s : all_chars ulid_char s = true -> sanitize s = map_chars lower s.
Proof.
  intros H. unfold sanitize. rewrite map_name_ulid by done. apply trim_kept.
  revert H. induction s as [|c s IH]; [done|]. cbn [all_chars map_chars]. intros [Hc Hs]%andb_true_iff.
  rewrite (name_char_no_dash (lower c)) by (by apply lower_name_char). by apply IH.
Qed.

Lemma lowered_name_chars s : all_chars ulid_char s = true -> all_chars name_char (map_chars lower s) = true.
Proof.
  induction s as [|c s IH]; [done|]. cbn [all_chars map_chars]. intros [Hc Hs]%andb_true_iff.
  apply andb_true_iff. split; [by apply lower_name_char|by apply IH].
Qed.

Lemma sandbox_name_ulid node iid :
  is_ulid node -> is_ulid iid ->
  sandbox_name node iid = "barista-" +:+ map_chars lower node +:+ "-" +:+ map_chars lower iid.
Proof. intros [_ Hn] [_ Hi]. unfold sandbox_name. by rewrite !sanitize_ulid. Qed.

Lemma lower_inj a b : is_ulid a -> is_ulid b -> map_chars lower a = map_chars lower b -> a = b.
Proof.
  intros [_ Ha] [_ Hb] E. apply (f_equal (map_chars upper)) in E.
  by rewrite !(map_chars_inv lower upper ulid_char) in E by (done || apply upper_lower).
Qed.

Lemma scoped_inj node iid node' iid' :
  is_ulid node -> is_ulid iid -> is_ulid node' -> is_ulid iid' ->
  map_chars lower node +:+ "-" +:+ map_chars lower iid = map_chars lower node' +:+ "-" +:+ map_chars lower iid' ->
  node = node' /\ iid = iid'.
Proof.
  intros Hn Hi Hn' Hi' E. apply append_cancel in E as [E1 E2].
  2:{ rewrite !length_map_chars. by rewrite (proj1 Hn), (proj1 Hn'). }
  injection E2 as E2. split; by apply lower_inj.
Qed.

Lemma trim_start_step n pat t : trim_start_matches (S n) pat (pat +:+ t) = trim_start_matches n pat t.
Proof. cbn [trim_start_matches]. by rewrite prefix_of_app, substring_after. Qed.
Lemma trim_start_stop n pat s : String.prefix pat s = false -> trim_start_matches n pat s = s.
Proof. intros H. destruct n; [done|]. cbn [trim_start_matches]. by rewrite H. Qed.

Lemma token_volume_id_ulid node iid :
  is_ulid node -> is_ulid iid ->
  token_volume_id node iid = "barista-token-" +:+ map_chars lower node +:+ "-" +:+ map_chars lower iid.
Proof.
  intros Hn Hi. unfold token_volume_id. rewrite sandbox_name_ulid by done.
  set (rest := map_chars lower node +:+ "-" +:+ map_chars lower iid).
  assert (Hp : String.prefix "barista-" rest = false).
  { destruct (String.prefix "barista-" rest) eqn:E; [|done]. apply prefix_app in E as [t E].
    destruct Hn as [Hl Hn]. apply lowered_name_chars in Hn. unfold rest in E.
    pose proof (length_map_chars lower node) as Hl'. rewrite Hl in Hl'.
    revert Hl' Hn E. generalize (map_chars lower node) as a. intros a.
    do 8 (destruct a as [|? a]; [done|]). intros _ Hn E.
    injection E as -> -> -> -> -> -> -> ->. done. }
  rewrite length_append. change (String.length "barista-" + String.length rest)%nat with (S (7 + String.length rest)).
  rewrite trim_start_step. by rewrite trim_start_stop.
Qed.

Lemma legal_app a b :
  all_chars (fun c => name_char c || is_dash c) a = true -> b <> EmptyString -> all_chars name_char b = true ->
  all_chars (fun c => name_char c || is_dash c) (a +:+ b) = true /\ ends_well (a +:+ b) = true.
Proof.
  intros Ha Hb Hn. rewrite all_chars_app, Ha. split.
  - revert Hn. apply all_chars_impl. intros c Hc. by rewrite Hc.
  - clear Ha. induction a as [|c a IH].
    + rewrite append_nil. induction b as [|c b IH]; [done|]. cbn [all_chars ends_well] in *.
      apply andb_true_iff in Hn as [? ?]. destruct b; [done|]. by apply IH.
    + rewrite append_cons. cbn [ends_well]. destruct (a +:+ b) eqn:E; [|done]. by destruct a, b.
Qed.
End SandboxNames.

(** For node and instance ids that are canonical ULIDs, the name of a sandbox is in
    the substrate's grammar and 61 characters long, and its credential volume is recognised
    as one; different nodes or instances have different names and different volumes. An id
    of any kind is one segment of a path and reads back as itself. *)
Theorem names_are_scoped (node iid node' iid' id : string) :
  is_ulid node -> is_ulid iid -> is_ulid node' -> is_ulid iid' ->
  legal_name (sandbox_name node iid) = true
  /\ String.length (sandbox_name node iid) = 61%nat
  /\ is_token_volume (token_volume_id node iid) = true
  /\ (sandbox_name node iid = sandbox_name node' iid' -> node = node' /\ iid = iid')
  /\ (token_volume_id node iid = token_volume_id node' iid' -> node = node' /\ iid = iid')
  /\ all_chars segment_char (path_segment id) = true
  /\ urldecode (path_segment id) = Some id.
Proof.
  intros Hn Hi Hn' Hi'. rewrite !token_volume_id_ulid, !sandbox_name_ulid by done.
  assert (Hl : String.length ("barista-" +:+ map_chars lower node +:+ "-" +:+ map_chars lower iid) = 61%nat).
  { rewrite !length_append, !length_map_chars. cbn [String.length]. rewrite (proj1 Hn), (proj1 Hi). done. }
  split_and!.
  - assert (Hg : all_chars (fun c => name_char c || is_dash c) ("barista-" +:+ map_chars lower node +:+ "-") = true).
    { rewrite !all_chars_app. rewrite (all_chars_impl name_char _ (map_chars lower node)); [done| |].
      - intros c Hc. by rewrite Hc.
      - by apply lowered_name_chars, Hn. }
    destruct (legal_app _ (map_chars lower iid) Hg) as [Ha He].
    { destruct Hi as [Hi _]. by destruct iid. }
    { by apply lowered_name_chars, Hi. }
    rewrite !append_assoc in Ha, He. unfold legal_name.
    change (match ?s with EmptyString => false | String c s' => name_char c && ?a && ?b && ?d end)
      with (a && b && d).
    by rewrite Ha, He, Hl.
  - exact Hl.
  - apply (prefix_of_app "barista-token-").
  - intros E. apply (inj (String.append "barista-")) in E. by apply scoped_inj.
  - intros E. apply (inj (String.append "barista-token-")) in E. by apply scoped_inj.
  - apply path_segment_chars.
  - apply urldecode_urlencode.
Qed.

Definition node_a : string := "01ARZ3NDEKTSV4RRFFQ69G5FAV".
Definition node_b : string := "01BX5ZZKBKACTAV9WEVGEMMVRZ".

Lemma names_are_scoped_witness :
  sandbox_name node_a node_b <> sandbox_name node_b node_a
  /\ legal_name (sandbox_name node_a node_b) = true.
Proof.
  assert (Ha : is_ulid node_a) by (split; vm_compute; reflexivity).
  assert (Hb : is_ulid node_b) by (split; vm_compute; reflexivity).
  destruct (names_are_scoped node_a node_b node_b node_a empty_str Ha Hb Hb Ha) as (Hl & _ & _ & Hi & _).
  split; [|exact Hl]. intros E. destruct (Hi E) as [E' _]. vm_compute in E'. discriminate.
Defined.

(** Two spellings of one ULID that differ in case name the same sandbox and the same
    credential volume, and a node id that repeats the prefix shares its volumes with the
    node named by the rest. *)
Lemma names_collide :
  sandbox_name node_a "01arz3ndektsv4rrffq69g5fav" = sandbox_name node_a node_a
  /\ token_volume_id node_a "01arz3ndektsv4rrffq69g5fav" = token_volume_id node_a node_a
  /\ token_volume_id "barista-east" node_a = token_volume_id "east" node_a.
Proof. split_and!; vm_compute; reflexivity. Qed.
