(* ===== verification/Guest.v ===== *)
(** The guest agent (src/crates/barista-guest-agent): its messages, what it reads at start,
    its state, the commands it runs, the restore duties, its handlers and its channel's
    gate.

    The guest's operating system is a state [Os] with the calls the agent makes of it as
    a class, [Machine]; its files are here, with a schedule of what each file call does. Bytes are
    lists of [Z]. *)

From S2P Require Import Prelude Text Proto Journal Codec Service.
From Stdlib Require Import Ascii.

(** * Messages ([barista.guest.v1alpha1]) *)

Module GuestPb.

Record HealthResponse := {
  alive : bool;
  ready : bool;
  ready_cmd_exit : Z;
  last_user_activity : option Timestamp;
  guest_time : option Timestamp;
  idle_declared : option Timestamp }.

Record TermSize := { rows : Z; cols : Z }.

Record ExecStart := {
  cmd : list string;
  start_env : gmap string string;
  start_workdir : string;
  pty : bool;
  term_size : option TermSize;
  user_activity : bool }.

Inductive Frame : Type :=
| Start (s : ExecStart)
| Stdin (b : list Z)
| Stdout (b : list Z)
| Stderr (b : list Z)
| Resize (s : TermSize)
| Exit (code : Z).

(** A frame of a kind this version does not know is [None]. *)
Definition ExecFrame : Type := option Frame.

Record ReadFileRequest := { rf_path : string; rf_offset : Z; rf_limit : Z }.
Record FileChunk := { data : list Z; eof : bool }.

Record WriteOpen := { wo_path : string; wo_mode : Z }.
Inductive WriteFrame : Type :=
| Open (o : WriteOpen)
| Chunk (b : list Z).
Definition WriteFileRequest : Type := option WriteFrame.

Record StatPathResponse := {
  exists_ : bool;
  is_dir : bool;
  size_bytes : Z;
  stat_mode : Z;
  modified_at : option Timestamp }.

Inductive HookKind : Type := Unspecified | PreSnapshot | PostRestore.
Definition hook_kind_of (n : Z) : option HookKind :=
  if n =? 0 then Some Unspecified else if n =? 1 then Some PreSnapshot else if n =? 2 then Some PostRestore else None.

Record RunHookRequest := { rh_kind : Z; rh_timeout_ms : Z }.
Record RunHookResponse := {
  ran : bool;
  rh_timed_out : bool;
  rh_exit_code : Z;
  rh_stdout_tail : list Z;
  rh_stderr_tail : list Z }.

Record RestoreDutiesRequest := {
  entropy : list Z;
  host_time : option Timestamp;
  execution_epoch : Z;
  grant_carrier : list Z }.
Record RestoreDutiesResponse := {
  entropy_bytes_mixed : Z;
  entropy_credited : bool;
  clock_drift_ms : Z;
  clock_stepped : bool;
  degraded : string;
  grant_rebound : bool;
  rebind_detail : string }.

End GuestPb.

(** * What the agent is started with: bootstrap.rs *)

Definition ENV_TOKEN : string := "BARISTA_INSTANCE_TOKEN".
Definition ENV_TOKEN_FILE : string := "BARISTA_INSTANCE_TOKEN_FILE".
Definition ENV_SOCKET : string := "BARISTA_GUEST_SOCKET".
Definition ENV_WORKLOAD_SOCKET : string := "BARISTA_WORKLOAD_SOCKET".
Definition ENV_TCP_PORT : string := "BARISTA_GUEST_TCP_PORT".
Definition ENV_TLS_KEY_FILE : string := "BARISTA_GUEST_TLS_KEY_FILE".
Definition ENV_TLS_CERT_FILE : string := "BARISTA_GUEST_TLS_CERT_FILE".
Definition ENV_TLS_ANCHOR_FILE : string := "BARISTA_GUEST_TLS_ANCHOR_FILE".
Definition ENV_PROCESS : string := "BARISTA_GUEST_PROCESS".
Definition ENV_HOOKS : string := "BARISTA_GUEST_HOOKS".

Definition BOOTSTRAP_ENV_VARS : list string :=
  [ENV_TOKEN; ENV_TOKEN_FILE; ENV_SOCKET; ENV_WORKLOAD_SOCKET; ENV_TCP_PORT; ENV_TLS_KEY_FILE;
   ENV_TLS_CERT_FILE; ENV_TLS_ANCHOR_FILE; ENV_PROCESS; ENV_HOOKS].

Definition TOKEN_METADATA_KEY : string := "barista-instance-token".
Definition DEFAULT_WORKLOAD_SOCKET : string := "/run/barista/workload.sock".
Definition DEFAULT_GRANT_CARRIER : string := "/run/barista/grant-carrier".

(** The guest's half of a channel identity. *)
Record ChannelIdentity := { ci_cert : list Z; ci_key : list Z; ci_anchor : list Z }.

Record Bootstrap := {
  bs_token : string;
  bs_process : Process;
  bs_hooks : Hooks;
  bs_identity : option ChannelIdentity }.

Definition default_process : Process := {| start_cmd := []; ready_cmd := []; env := ∅; workdir := empty_str |}.
Definition default_hooks : Hooks :=
  {| pre_snapshot_cmd := []; post_restore_cmd := []; pre_snapshot_timeout_ms := 0; post_restore_timeout_ms := 0 |}.

Definition trim : string -> string := trim_by ascii_space.

Section Bootstrap.
(** The agent's environment and the files it can read; base64 and the messages' wire form. *)
Context (vars : gmap string string) (read : string -> res string (list Z)).
Context (base64_decode : string -> res string (list Z)).
Context (decode_process : list Z -> res string Process) (decode_hooks : list Z -> res string Hooks).

Definition decode_value {T} (message : list Z -> res string T) (encoded : string) : res string T :=
  match base64_decode (trim encoded) with
  | Err e => Err ("not valid base64: " +:+ e)
  | Ok bytes => res_map_err (fun e => "not a valid contract message: " +:+ e) (message bytes)
  end.

Definition decode_var {T} (message : list Z -> res string T) (default : T) (var : string) : res string T :=
  match vars !! var with
  | Some v => if is_empty v then Ok default
              else res_map_err (fun e => var +:+ ": " +:+ e) (decode_value message v)
  | None => Ok default
  end.

(** [read_to_string] refuses what is not UTF-8. *)
Definition read_to_string (path : string) : res string string :=
  let? bytes := read path in
  if is_utf8 bytes then Ok (text_of bytes) else Err "stream did not contain valid UTF-8".

Definition read_token : res string string :=
  let fallback := Ok (default empty_str (vars !! ENV_TOKEN)) in
  match vars !! ENV_TOKEN_FILE with
  | Some path =>
      if is_empty (trim path) then fallback
      else match read_to_string (trim path) with
           | Err e => Err ("reading the instance token from " +:+ path +:+ ": " +:+ e)
           | Ok token => Ok (trim token)
           end
  | None => fallback
  end.

Definition named : list (string * string) :=
  omap (fun var => match vars !! var with
                   | Some path => if is_empty (trim path) then None else Some (var, trim path)
                   | None => None
                   end)
       [ENV_TLS_CERT_FILE; ENV_TLS_KEY_FILE; ENV_TLS_ANCHOR_FILE].

Definition read_part (var : string) : res string (list Z) :=
  let path := default empty_str (snd <$> head (filter (fun p => p.1 = var) named)) in
  match read path with
  | Err e => Err ("reading " +:+ var +:+ " from " +:+ path +:+ ": " +:+ e)
  | Ok [] => Err (var +:+ " names " +:+ path +:+ ", which is empty")
  | Ok bytes => Ok bytes
  end.

Definition read_identity : res string (option ChannelIdentity) :=
  match length named with
  | 0%nat => Ok None
  | 3%nat =>
      let? cert := read_part ENV_TLS_CERT_FILE in
      let? key := read_part ENV_TLS_KEY_FILE in
      let? anchor := read_part ENV_TLS_ANCHOR_FILE in
      Ok (Some {| ci_cert := cert; ci_key := key; ci_anchor := anchor |})
  | _ => Err ("the channel identity is incomplete: [" +:+ join ", " (quoted <$> named.*1) +:+ "] set, and all of " +:+
              join ", " [ENV_TLS_CERT_FILE; ENV_TLS_KEY_FILE; ENV_TLS_ANCHOR_FILE] +:+
              " are required. Each one is load-bearing — without the key there is no server, without the anchor the server accepts any client — so there is no safe way to honour a partial set")
  end.

Definition from_env : res string Bootstrap :=
  let? token := read_token in
  if is_empty token then
    Err (ENV_TOKEN_FILE +:+ " or " +:+ ENV_TOKEN +:+
         " is required: the guest agent never serves an unauthenticated channel")
  else
    let? process := decode_var decode_process default_process ENV_PROCESS in
    let? hooks := decode_var decode_hooks default_hooks ENV_HOOKS in
    let? identity := read_identity in
    Ok {| bs_token := token; bs_process := process; bs_hooks := hooks; bs_identity := identity |}.

(** serve.rs *)
Definition parse_tcp_port : res string (option Z) :=
  match vars !! ENV_TCP_PORT with
  | Some v =>
      if is_empty (trim v) then Ok None
      else match parse_u16 (trim v) with
           | None => Err (ENV_TCP_PORT +:+ " is not a port number: " +:+ quoted v)
           | Some port => Ok (if port =? 0 then None else Some port)
           end
  | None => Ok None
  end.
End Bootstrap.

(** * State: state.rs *)

Record State := mkState {
  token : string;
  process : Process;
  hooks : Hooks;
  ready : bool;
  ready_cmd_exit : Z;
  last_user_activity_ms : Z;
  idle_declared_at : Z }.
#[global] Instance rebuild_State : Rebuild State := fun s =>
  mkState (token s) (process s) (hooks s) (ready s) (ready_cmd_exit s) (last_user_activity_ms s) (idle_declared_at s).

Definition new_state (b : Bootstrap) (now : Z) : State :=
  mkState (bs_token b) (bs_process b) (bs_hooks b) false 0 now 0.

(** The comparison takes the same time whatever the bytes. *)
Definition token_matches (s : State) (presented : string) : bool :=
  let expected := bytes_of (token s) in
  let presented := bytes_of presented in
  if negb (length expected =? length presented)%nat then false
  else foldl (fun acc p => Z.lor acc (Z.lxor p.1 p.2)) 0 (zip expected presented) =? 0.

Definition idle_declared_ms (s : State) : option Z :=
  if idle_declared_at s =? 0 then None else Some (idle_declared_at s).

(** * Commands: cmd.rs *)

(** [Command]: the changes its environment makes to the agent's own, in particular. *)
Record Command := mkCommand {
  c_program : string;
  c_args : list string;
  c_env : gmap string (option string);
  c_dir : option string;
  c_own_group : bool }.
#[global] Instance rebuild_Command : Rebuild Command := fun c =>
  mkCommand (c_program c) (c_args c) (c_env c) (c_dir c) (c_own_group c).

Definition command_new (program : string) (args : list string) : Command := mkCommand program args ∅ None false.
Definition env_remove (c : Command) (var : string) : Command := c <| c_env := <[var := None]> (c_env c) |>.
Definition set_env (var value : string) (c : Command) : Command := c <| c_env := <[var := Some value]> (c_env c) |>.
Definition envs (m : gmap string string) (c : Command) : Command := c <| c_env := (Some <$> m) ∪ c_env c |>.
Definition current_dir (dir : string) (c : Command) : Command :=
  if is_empty dir then c else c <| c_dir := Some dir |>.
(** Each process the agent starts is rid of what the agent was started with. *)
Definition scrubbed (c : Command) : Command := foldl env_remove c BOOTSTRAP_ENV_VARS.

(** The environment the process gets. *)
Definition child_env (inherited : gmap string string) (c : Command) : gmap string string :=
  omap id (c_env c ∪ (Some <$> inherited)).

Definition TAIL_LIMIT : nat := 4096.

Record Tail := { kept : list Z; dropped : Z }.
Definition tail_new : Tail := {| kept := []; dropped := 0 |}.

Fixpoint pop_excess (l : list Z) (n : Z) : Tail :=
  match l with
  | [] => {| kept := []; dropped := n |}
  | _ :: l' => if (TAIL_LIMIT <? length l)%nat then pop_excess l' (n + 1) else {| kept := l; dropped := n |}
  end.

Definition push (t : Tail) (bytes : list Z) : Tail :=
  let keep := Nat.min (length bytes) TAIL_LIMIT in
  let skipped := (length bytes - keep)%nat in
  pop_excess (kept t ++ drop skipped bytes) (dropped t + Z.of_nat skipped).

(** [String::from_utf8_lossy]: each longest ill-formed part becomes U+FFFD. *)
Definition REPLACEMENT : list Z := [239; 191; 189].
Fixpoint utf8_lossy (l : list Z) : list Z :=
  match l with
  | [] => []
  | a :: l1 =>
      if within 0 127 a then a :: utf8_lossy l1
      else if negb (within 194 244 a) then REPLACEMENT ++ utf8_lossy l1
      else match l1 with
      | [] => REPLACEMENT
      | b :: l2 =>
          let lo := if a =? 224 then 160 else if a =? 240 then 144 else 128 in
          let hi := if a =? 237 then 159 else if a =? 244 then 143 else 191 in
          if negb (within lo hi b) then REPLACEMENT ++ utf8_lossy l1
          else if within 194 223 a then a :: b :: utf8_lossy l2
          else match l2 with
          | [] => REPLACEMENT
          | c :: l3 =>
              if negb (within 128 191 c) then REPLACEMENT ++ utf8_lossy l2
              else if within 224 239 a then a :: b :: c :: utf8_lossy l3
              else match l3 with
              | [] => REPLACEMENT
              | d :: l4 =>
                  if negb (within 128 191 d) then REPLACEMENT ++ utf8_lossy l3
                  else a :: b :: c :: d :: utf8_lossy l4
              end
          end
      end
  end.

Definition newline : string := String (ascii_of_nat 10) empty_str.

Definition into_string (t : Tail) : list Z :=
  if dropped t =? 0 then utf8_lossy (kept t)
  else bytes_of ("[" +:+ pretty (dropped t) +:+ " earlier bytes dropped; keeping the last " +:+
                 pretty (Z.of_nat TAIL_LIMIT) +:+ "]" +:+ newline) ++ utf8_lossy (kept t).

(** What each read of a pipe gives, in order; an empty read and the end of the list are
    its end. *)
Fixpoint drain (t : Tail) (reads : list (res string (list Z))) : Tail :=
  match reads with
  | [] | Ok [] :: _ | Err _ :: _ => t
  | Ok bytes :: reads => drain (push t bytes) reads
  end.

(** A pipe that does not end within the grace is given up. *)
Definition collect (ends : bool) (reads : list (res string (list Z))) : list Z :=
  if ends then into_string (drain tail_new reads) else [].

(** A started process, as the agent will see it: its pipes, whether each ends within the
    grace once the process has, how long it runs, if it ends by itself, and what waiting
    for it gives (its code, unless a signal ended it). Without a timeout the agent waits
    as long as the process runs. *)
Record Child := {
  ch_id : option Z;
  ch_stdout : list (res string (list Z));
  ch_stderr : list (res string (list Z));
  ch_stdout_ends : bool;
  ch_stderr_ends : bool;
  ch_lasts_ms : option Z;
  ch_wait : res string (option Z) }.

Record Outcome := {
  exit_code : Z;
  timed_out : bool;
  stdout_tail : list Z;
  stderr_tail : list Z }.
Definition succeeded (o : Outcome) : bool := negb (timed_out o) && (exit_code o =? 0).

(** * Files *)

Inductive IoKind : Type := IoNotFound | IoPermissionDenied | IoOther.
Record IoError := { io_kind : IoKind; io_text : string }.

Record File := mkFile { f_data : list Z; f_dir : bool; f_mode : Z; f_mtime : option Z }.
#[global] Instance rebuild_File : Rebuild File := fun f => mkFile (f_data f) (f_dir f) (f_mode f) (f_mtime f).

Definition no_such_file : IoError := {| io_kind := IoNotFound; io_text := "No such file or directory (os error 2)" |}.
Definition is_a_directory : IoError := {| io_kind := IoOther; io_text := "Is a directory (os error 21)" |}.
Definition invalid_argument : IoError := {| io_kind := IoOther; io_text := "Invalid argument (os error 22)" |}.

Definition io_status (path : string) (e : IoError) : Status :=
  let text := path +:+ ": " +:+ io_text e in
  match io_kind e with
  | IoNotFound => plain NotFound text
  | IoPermissionDenied => plain PermissionDenied text
  | IoOther => plain Internal text
  end.

(** The guest: the agent's state, the files, the operating system beside them, and how
    many file calls and clock readings have been made. *)
Record Guest (Os : Type) := mkGuest {
  g_state : State;
  g_files : gmap string File;
  g_os : Os;
  g_calls : nat;
  g_ticks : nat }.
Arguments mkGuest {Os}. Arguments g_state {Os}. Arguments g_files {Os}. Arguments g_os {Os}.
Arguments g_calls {Os}. Arguments g_ticks {Os}.
#[global] Instance rebuild_Guest Os : Rebuild (Guest Os) := fun g =>
  mkGuest (g_state g) (g_files g) (g_os g) (g_calls g) (g_ticks g).

Definition FILE_CHUNK : Z := 65536.
Definition DEFAULT_HOOK_TIMEOUT : Z := 30000.
Definition WRITE_FILE_IDLE_TIMEOUT_SECS : Z := 60.

Definition hook_timeout (requested_ms configured_ms : Z) : Z :=
  if requested_ms =? 0 then (if configured_ms =? 0 then DEFAULT_HOOK_TIMEOUT else configured_ms)
  else requested_ms.

(** What the agent's end of a client's stream gives next: an item, or nothing for as long
    as the agent waits. The end of the list is the end of the stream. *)
Inductive Arrival (T : Type) : Type :=
| Arrived (r : res Status T)
| Quiet.
Arguments Arrived {T}. Arguments Quiet {T}.

Record Reseed := { bytes_mixed : Z; credited : bool; reseed_degraded : option string }.
Record CarrierOutcome := { present : bool; detail : string; carrier_degraded : option string }.

(** The machine the agent runs on: the guest's clock at its n-th reading; what the n-th file
    call does: its error, with how much of a write had been done, how much a read gives and
    the time a write leaves; the mask of modes for new files; processes; [/dev/urandom]
    (opening it, [RNDADDENTROPY], [RNDRESEEDCRNG], a plain write) and the system clock;
    listeners. *)
Class Machine (Os : Type) := {
  clock : nat -> Z;
  io_fault : nat -> option (IoError * nat);
  short : nat -> nat;
  mtime : nat -> option Z;
  umask : Z;
  spawn : Os -> Command -> Os * res string Child;
  killpg : Os -> Z -> Os;
  open_urandom : Os -> Os * res string unit;
  add_entropy : Os -> list Z -> Os * bool;
  rekey : Os -> Os * res string unit;
  write_urandom : Os -> list Z -> Os * res string unit;
  clock_settime : Os -> Z -> Z -> Os * res string unit;
  bind_socket : Os -> string -> Os * res string unit;
  bind_port : Os -> Z -> Os * res string unit }.

Section Agent.
Context {Os : Type} `{M : Machine Os}.

Abbreviation G := (Guest Os).

Definition now_ms : Call G Z := fun g => (g <| g_ticks := S (g_ticks g) |>, clock (g_ticks g)).
Definition os_call {A} (f : Os -> Os * A) : Call G A := fun g => let '(o, a) := f (g_os g) in (g <| g_os := o |>, a).
Definition upd_state (f : State -> State) : Call G unit := fun g => (g <| g_state := f (g_state g) |>, tt).
Definition get_state {A} (f : State -> A) : Call G A := fun g => (g, f (g_state g)).

Definition mark_activity : Call G unit :=
  let@ now := now_ms in
  upd_state (fun s => s <| last_user_activity_ms := now |>).
Definition declare_idle : Call G unit :=
  let@ now := now_ms in
  upd_state (fun s => s <| idle_declared_at := now |>).

(** ** Files *)

(** One file call: it fails as scheduled, having done [partly] of its work, or is done. *)
Definition io {A} (partly : nat -> G -> G) (f : G -> G * res IoError A) : Call G (res IoError A) := fun g =>
  let g' := g <| g_calls := S (g_calls g) |> in
  match io_fault (g_calls g) with
  | Some (e, n) => (partly n g', Err e)
  | None => f g'
  end.
Definition nothing (_ : nat) (g : G) : G := g.

Definition open_read (path : string) : Call G (res IoError File) :=
  io nothing (fun g => (g, match g_files g !! path with None => Err no_such_file | Some f => Ok f end)).

Definition seek (offset : Z) : Call G (res IoError unit) :=
  io nothing (fun g => (g, if i64_max <? offset then Err invalid_argument else Ok tt)).

(** Opened to be written from its start, and created when it is not there. *)
Definition open_write (path : string) (mode : Z) : Call G (res IoError unit) :=
  io nothing (fun g =>
    match g_files g !! path with
    | Some f =>
        if f_dir f then (g, Err is_a_directory)
        else (g <| g_files := <[path := f <| f_data := [] |> <| f_mtime := mtime (g_calls g) |>]> (g_files g) |>, Ok tt)
    | None =>
        (g <| g_files := <[path := mkFile [] false (Z.land (Z.land mode 4095) (Z.lnot umask)) (mtime (g_calls g))]> (g_files g) |>, Ok tt)
    end).

Definition append_data (path : string) (bytes : list Z) (g : G) : G :=
  g <| g_files := alter (fun f => f <| f_data := f_data f ++ bytes |> <| f_mtime := mtime (g_calls g) |>) path (g_files g) |>.
Definition write_all (path : string) (bytes : list Z) : Call G (res IoError unit) :=
  io (fun n => append_data path (take n bytes)) (fun g => (append_data path bytes g, Ok tt)).

Definition flush : Call G (res IoError unit) := io nothing (fun g => (g, Ok tt)).

Definition set_permissions (path : string) (mode : Z) : Call G (res IoError unit) :=
  io nothing (fun g =>
    match g_files g !! path with
    | None => (g, Err no_such_file)
    | Some f => (g <| g_files := <[path := f <| f_mode := Z.land mode 4095 |>]> (g_files g) |>, Ok tt)
    end).

Definition remove_file (path : string) : Call G (res IoError unit) :=
  io nothing (fun g =>
    match g_files g !! path with
    | None => (g, Err no_such_file)
    | Some f => if f_dir f then (g, Err is_a_directory) else (g <| g_files := delete path (g_files g) |>, Ok tt)
    end).

Definition metadata (path : string) : Call G (res IoError File) := open_read path.

(** ** Running a command *)

Definition run_command_line (program : string) (args : list string) (env : gmap string string) (workdir : string) : Command :=
  (current_dir workdir (envs env (scrubbed (command_new program args)))) <| c_own_group := true |>.

Definition run_command (argv : list string) (env : gmap string string) (workdir : string)
    (timeout : option Z) : Call G (res string Outcome) :=
  match argv with
  | [] => pass_back (Err "empty command")
  | program :: args =>
      let@? child := os_call (fun o => spawn o (run_command_line program args env workdir)) or (fun e => e) in
      let finish :=
        pass_back (let? code := ch_wait child in
                   Ok {| exit_code := default (-1) code; timed_out := false;
                         stdout_tail := collect (ch_stdout_ends child) (ch_stdout child);
                         stderr_tail := collect (ch_stderr_ends child) (ch_stderr child) |}) in
      let in_time := fun t => match ch_lasts_ms child with Some ms => ms <=? t | None => false end in
      match timeout with
      | None => finish
      | Some t =>
          if in_time t then finish
          else
            let@ _ := os_call (fun o => (match ch_id child with Some group => killpg o group | None => o end, tt)) in
            let note := bytes_of ("killed after " +:+ pretty t +:+ " ms") in
            pass_back (Ok {| exit_code := -1; timed_out := true;
                             stdout_tail := collect (ch_stdout_ends child) (ch_stdout child);
                             stderr_tail := match collect (ch_stderr_ends child) (ch_stderr child) with
                                            | [] => note
                                            | t => note ++ bytes_of newline ++ t
                                            end |})
      end
  end.

Definition evaluate_ready : Call G bool :=
  let@ p := get_state process in
  let@ verdict :=
    match ready_cmd p with
    | [] => pass_back (true, 0)
    | cmd =>
        let@ r := run_command cmd (env p) (workdir p) None in
        pass_back (match r with Ok outcome => (succeeded outcome, exit_code outcome) | Err _ => (false, -1) end)
    end in
  let@ _ := upd_state (fun s => s <| ready := verdict.1 |> <| ready_cmd_exit := verdict.2 |>) in
  pass_back verdict.1.

(** ** Restore duties: duties.rs *)

(** [struct rand_pool_info]: the entropy's bits, its length, and the bytes (little-endian). *)
Definition rand_pool (entropy : list Z) : list Z :=
  to_le_bytes 4 (Z.of_nat (length entropy) * 8) ++ to_le_bytes 4 (Z.of_nat (length entropy)) ++ entropy.

Definition reseed_by_write (entropy : list Z) : Call G Reseed :=
  let@ opened := os_call open_urandom in
  let@ written := match opened with
                  | Ok _ => os_call (fun o => write_urandom o entropy)
                  | Err e => pass_back (Err e)
                  end in
  pass_back
    match written with
    | Ok _ => {| bytes_mixed := wrap_u32 (Z.of_nat (length entropy)); credited := false;
                 reseed_degraded := Some "entropy mixed into /dev/urandom but not credited (RNDADDENTROPY unavailable) and the CRNG was not re-keyed immediately; draws made before the kernel's own reseed may repeat across restores of one snapshot" |}
    | Err e => {| bytes_mixed := 0; credited := false;
                  reseed_degraded := Some ("could not reseed the guest CRNG: " +:+ e) |}
    end.

Definition reseed (entropy : list Z) : Call G Reseed :=
  let@ opened := os_call open_urandom in
  match opened with
  | Err _ => reseed_by_write entropy
  | Ok _ =>
      let@ added := os_call (fun o => add_entropy o (rand_pool entropy)) in
      if added then
        let@ rekeyed := os_call rekey in
        pass_back {| bytes_mixed := wrap_u32 (Z.of_nat (length entropy)); credited := true;
                     reseed_degraded :=
                       match rekeyed with
                       | Ok _ => None
                       | Err e => Some ("host entropy was mixed and credited but the CRNG refused to re-key immediately (" +:+ e +:+
                                        "); draws made before the kernel's own reseed may repeat across restores of one snapshot")
                       end |}
      else reseed_by_write entropy
  end.

Definition step_clock (target_ms : Z) : Call G (bool * option string) :=
  let@ r := os_call (fun o => clock_settime o (Z.quot target_ms 1000) (Z.rem target_ms 1000 * 1000000)) in
  pass_back match r with
            | Ok _ => (true, None)
            | Err e => (false, Some ("could not step the guest clock (" +:+ e +:+
                                     "); a restored workload will see snapshot-era time"))
            end.

(** The file is opened with mode [0600], written and synced; the first failure ends it. *)
Definition write_carrier (path : string) (carrier : list Z) : Call G (res IoError unit) :=
  let@? _ := open_write path 384 or (fun e => e) in
  let@? _ := write_all path carrier or (fun e => e) in
  flush.

Definition place_grant_carrier (path : string) (epoch : Z) (carrier : list Z) : Call G CarrierOutcome :=
  match carrier with
  | [] =>
      let@ r := remove_file path in
      let absent := {| present := false;
                       detail := "no platform-mediated grant carrier delivered for epoch " +:+ pretty epoch;
                       carrier_degraded := None |} in
      pass_back
        match r with
        | Ok _ => absent
        | Err e =>
            match io_kind e with
            | IoNotFound => absent
            | _ => {| present := false; detail := empty_str;
                      carrier_degraded := Some ("could not remove a stale grant carrier for epoch " +:+ pretty epoch +:+ " (" +:+
                                                io_text e +:+ "); a revoked epoch's grant may remain readable") |}
            end
        end
  | _ =>
      let@ r := write_carrier path carrier in
      pass_back
        match r with
        | Ok _ => {| present := true;
                     detail := "grant carrier for epoch " +:+ pretty epoch +:+ " placed (" +:+ pretty (Z.of_nat (length carrier)) +:+ " bytes)";
                     carrier_degraded := None |}
        | Err e => {| present := false; detail := empty_str;
                      carrier_degraded := Some ("could not place the grant carrier for epoch " +:+ pretty epoch +:+ " (" +:+
                                                io_text e +:+ "); the workload's rebind hook will not find a fresh grant") |}
        end
  end.

Definition duties (request : GuestPb.RestoreDutiesRequest) (guest_now_ms : Z) (carrier_path : string)
    : Call G GuestPb.RestoreDutiesResponse :=
  let@ rs := reseed (GuestPb.entropy request) in
  let@ clk :=
    match GuestPb.host_time request with
    | Some host =>
        let host_ms := wrap_i64 (wrap_i64 (seconds host * 1000) + Z.quot (nanos host) 1000000) in
        let@ st := step_clock host_ms in
        pass_back (wrap_i64 (guest_now_ms - host_ms), st)
    | None => pass_back (0, (false, None))
    end in
  let@ carrier := place_grant_carrier carrier_path (GuestPb.execution_epoch request) (GuestPb.grant_carrier request) in
  pass_back {| GuestPb.entropy_bytes_mixed := bytes_mixed rs;
               GuestPb.entropy_credited := credited rs;
               GuestPb.clock_drift_ms := clk.1;
               GuestPb.clock_stepped := clk.2.1;
               GuestPb.degraded := join "; " (omap id [reseed_degraded rs; clk.2.2; carrier_degraded carrier]);
               GuestPb.grant_rebound := present carrier;
               GuestPb.rebind_detail := detail carrier |}.

(** ** The handlers: service.rs *)

Definition health (run_ready_cmd : bool) : Call G (res Status GuestPb.HealthResponse) :=
  let@ rdy := (if run_ready_cmd then evaluate_ready else get_state ready) in
  let@ code := get_state ready_cmd_exit in
  let@ active := get_state last_user_activity_ms in
  let@ now := now_ms in
  let@ idle := get_state idle_declared_ms in
  pass_back (Ok {| GuestPb.alive := true; GuestPb.ready := rdy; GuestPb.ready_cmd_exit := code;
                   GuestPb.last_user_activity := Some (ts active); GuestPb.guest_time := Some (ts now);
                   GuestPb.idle_declared := ts <$> idle |}).

Definition chunk_of (l : list Z) : GuestPb.FileChunk := {| GuestPb.data := l; GuestPb.eof := false |}.
Definition eof_chunk : GuestPb.FileChunk := {| GuestPb.data := []; GuestPb.eof := true |}.

(** The task that reads an opened file: [rest] is what lies after its position. *)
Fixpoint read_loop (fuel : nat) (path : string) (f : File) (limit sent : Z) (rest : list Z)
    : Call G (list (res Status GuestPb.FileChunk)) :=
  match fuel with
  | O => pass_back []
  | S fuel =>
      let want := if limit =? 0 then FILE_CHUNK else Z.min (limit - sent) FILE_CHUNK in
      if want =? 0 then pass_back [Ok eof_chunk]
      else
        let@ r := io nothing (fun g =>
                    (g, if f_dir f then Err is_a_directory
                        else Ok (take (Nat.min (Nat.max 1 (short (g_calls g))) (Z.to_nat want)) rest))) in
        match r with
        | Err e => pass_back [Err (io_status path e)]
        | Ok [] => pass_back [Ok eof_chunk]
        | Ok bytes =>
            let@ more := read_loop fuel path f limit (sent + Z.of_nat (length bytes)) (drop (length bytes) rest) in
            pass_back (Ok (chunk_of bytes) :: more)
        end
  end.

Definition read_file (r : GuestPb.ReadFileRequest) : Call G (res Status (list (res Status GuestPb.FileChunk))) :=
  let path := GuestPb.rf_path r in
  let@ _ := mark_activity in
  let@? f := open_read path or io_status path in
  let@? _ := (if 0 <? GuestPb.rf_offset r then seek (GuestPb.rf_offset r) else pass_back (Ok tt)) or io_status path in
  let rest := drop (Z.to_nat (GuestPb.rf_offset r)) (f_data f) in
  let@ items := read_loop (S (length rest)) path f (GuestPb.rf_limit r) 0 rest in
  pass_back (Ok items).

Definition quiet_status : Status :=
  plain DeadlineExceeded ("WriteFile stream went quiet: no frame arrived for " +:+ pretty WRITE_FILE_IDLE_TIMEOUT_SECS +:+
    "s. The bound is the gap between frames, never the upload's size or total time, so a stream that keeps sending chunks cannot meet it. Bytes received before the silence were written; the partial file is the same contract a mid-stream transport failure leaves.").

Definition next_write_frame (inbound : list (Arrival GuestPb.WriteFileRequest))
    : res Status (option GuestPb.WriteFileRequest) * list (Arrival GuestPb.WriteFileRequest) :=
  match inbound with
  | [] => (Ok None, [])
  | Arrived (Ok frame) :: rest => (Ok (Some frame), rest)
  | Arrived (Err status) :: rest => (Err status, rest)
  | Quiet :: rest => (Err quiet_status, rest)
  end.

(** The loop over the frames after the first. *)
Fixpoint write_loop (path : string) (written : Z) (inbound : list (Arrival GuestPb.WriteFileRequest))
    : Call G (res Status Z) :=
  match inbound with
  | [] => pass_back (Ok written)
  | Arrived (Err status) :: _ => pass_back (Err status)
  | Quiet :: _ => pass_back (Err quiet_status)
  | Arrived (Ok frame) :: rest =>
      match frame with
      | Some (GuestPb.Chunk chunk) =>
          let@? _ := write_all path chunk or io_status path in
          write_loop path (wrap_u64 (written + Z.of_nat (length chunk))) rest
      | Some (GuestPb.Open _) => pass_back (Err (plain InvalidArgument "`open` may only be the first frame"))
      | None => write_loop path written rest
      end
  end.

Definition write_file_bounded (inbound : list (Arrival GuestPb.WriteFileRequest)) : Call G (res Status Z) :=
  let '(first, rest) := next_write_frame inbound in
  match first with
  | Err status => pass_back (Err status)
  | Ok None => pass_back (Err (plain InvalidArgument "WriteFile stream closed before `open`"))
  | Ok (Some (Some (GuestPb.Open open))) =>
      let path := GuestPb.wo_path open in
      let mode := GuestPb.wo_mode open in
      let@? _ := open_write path (if mode =? 0 then 438 else mode) or io_status path in
      let@? written := write_loop path 0 rest or id in
      let@? _ := flush or io_status path in
      let@? _ := (if mode =? 0 then pass_back (Ok tt) else set_permissions path mode) or io_status path in
      pass_back (Ok written)
  | Ok (Some _) => pass_back (Err (plain InvalidArgument "the first WriteFile frame must be `open`"))
  end.

Definition write_file (inbound : list (Arrival GuestPb.WriteFileRequest)) : Call G (res Status Z) :=
  let@ _ := mark_activity in
  write_file_bounded inbound.

Definition stat_path (path : string) : Call G (res Status GuestPb.StatPathResponse) :=
  let@ _ := mark_activity in
  let@ r := metadata path in
  pass_back
    match r with
    | Ok f => Ok {| GuestPb.exists_ := true; GuestPb.is_dir := f_dir f;
                    GuestPb.size_bytes := Z.of_nat (length (f_data f));
                    GuestPb.stat_mode := Z.lor (if f_dir f then 16384 else 32768) (f_mode f);
                    GuestPb.modified_at := ts <$> f_mtime f |}
    | Err e =>
        match io_kind e with
        | IoNotFound => Ok {| GuestPb.exists_ := false; GuestPb.is_dir := false; GuestPb.size_bytes := 0;
                              GuestPb.stat_mode := 0; GuestPb.modified_at := None |}
        | _ => Err (io_status path e)
        end
    end.

Definition run_hook (r : GuestPb.RunHookRequest) : Call G (res Status GuestPb.RunHookResponse) :=
  let@ h := get_state hooks in
  let@ p := get_state process in
  let configured :=
    match GuestPb.hook_kind_of (GuestPb.rh_kind r) with
    | Some GuestPb.PreSnapshot => Some (pre_snapshot_cmd h, pre_snapshot_timeout_ms h)
    | Some GuestPb.PostRestore => Some (post_restore_cmd h, post_restore_timeout_ms h)
    | _ => None
    end in
  match configured with
  | None => pass_back (Err (plain InvalidArgument "hook kind is required"))
  | Some ([], _) => pass_back (Ok {| GuestPb.ran := false; GuestPb.rh_timed_out := false; GuestPb.rh_exit_code := 0;
                                     GuestPb.rh_stdout_tail := []; GuestPb.rh_stderr_tail := [] |})
  | Some (argv, configured_ms) =>
      let@? outcome := run_command argv (env p) (workdir p) (Some (hook_timeout (GuestPb.rh_timeout_ms r) configured_ms))
        or (fun e => plain Internal ("running hook: " +:+ e)) in
      pass_back (Ok {| GuestPb.ran := true; GuestPb.rh_timed_out := timed_out outcome;
                       GuestPb.rh_exit_code := exit_code outcome; GuestPb.rh_stdout_tail := stdout_tail outcome;
                       GuestPb.rh_stderr_tail := stderr_tail outcome |})
  end.

Definition run_restore_duties (r : GuestPb.RestoreDutiesRequest) : Call G (res Status GuestPb.RestoreDutiesResponse) :=
  match GuestPb.entropy r with
  | [] => pass_back (Err (plain InvalidArgument "restore duties require host entropy: reseeding from the guest's own (snapshotted, duplicated) pool would not make two resumes differ"))
  | _ =>
      let@ now := now_ms in
      let@ response := duties r now DEFAULT_GRANT_CARRIER in
      pass_back (Ok response)
  end.

(** ** The channel's gate and the start: serve.rs *)

(** [metadata key] is the entry as text, if it is there and is text. *)
Definition token_interceptor (metadata : string -> option string) : Call G (res Status unit) :=
  let@ matches := get_state (fun s => token_matches s (default empty_str (metadata TOKEN_METADATA_KEY))) in
  pass_back (if matches then Ok tt else Err (plain Unauthenticated "invalid or missing barista-instance-token")).

(** Every method of the guest's service is behind the interceptor. *)
Definition intercepted {A} (metadata : string -> option string) (handler : Call G (res Status A)) : Call G (res Status A) :=
  let@? _ := token_interceptor metadata or id in
  handler.

Definition network_port (configured : option Z) (has_identity : bool) : option Z :=
  match configured, has_identity with
  | Some port, true => Some port
  | Some _, false => None
  | None, _ => None
  end.

Definition workload_command (p : Process) (workload_socket : option string) : option Command :=
  match start_cmd p with
  | [] => None
  | program :: args =>
      let command := env_remove (envs (env p) (scrubbed (command_new program args))) ENV_WORKLOAD_SOCKET in
      let command := match workload_socket with Some path => set_env ENV_WORKLOAD_SOCKET path command | None => command end in
      Some (current_dir (workdir p) command)
  end.

Definition spawn_workload (workload_socket : option string) : Call G (res string (option Child)) :=
  let@ p := get_state process in
  match workload_command p workload_socket with
  | None => pass_back (Ok None)
  | Some command =>
      let@? child := os_call (fun o => spawn o command)
        or (fun e => "starting the workload: " +:+ default empty_str (head (start_cmd p)) +:+ ": " +:+ e) in
      pass_back (Ok (Some child))
  end.

(** What the agent ends up listening on, and its workload. *)
Record Served := { sv_port : option Z; sv_workload_socket : option string; sv_child : option Child }.

Section Start.
Context (vars : gmap string string) (read : string -> res string (list Z)).
Context (base64_decode : string -> res string (list Z)).
Context (decode_process : list Z -> res string Process) (decode_hooks : list Z -> res string Hooks).
(** The TLS acceptor an identity gives. *)
Context (tls_acceptor : ChannelIdentity -> res string unit).

(** [run], up to where it serves. *)
Definition serve_run (socket : string) : Call G (res string Served) :=
  let@? b := pass_back (from_env vars read base64_decode decode_process decode_hooks) or id in
  let@? acceptor := pass_back match bs_identity b with
                              | Some identity => let? _ := tls_acceptor identity in Ok true
                              | None => Ok false
                              end
    or (fun e => "building the guest channel's TLS acceptor: " +:+ e) in
  let@ now := now_ms in
  let@ _ := upd_state (fun _ => new_state b now) in
  let@? _ := os_call (fun o => bind_socket o socket) or id in
  let@? configured_port := pass_back (parse_tcp_port vars) or id in
  let@? tcp := match network_port configured_port acceptor with
               | Some port =>
                   let@? _ := os_call (fun o => bind_port o port)
                     or (fun e => "binding the guest agent on port " +:+ pretty port +:+ ": " +:+ e) in
                   pass_back (Ok (Some port))
               | None => pass_back (Ok None)
               end
    or id in
  let path := default DEFAULT_WORKLOAD_SOCKET (vars !! ENV_WORKLOAD_SOCKET) in
  let@ workload := os_call (fun o => bind_socket o path) in
  let workload_socket := match workload with Ok _ => Some path | Err _ => None end in
  let@ _ := evaluate_ready in
  let@? child := spawn_workload workload_socket or id in
  pass_back (Ok {| sv_port := tcp; sv_workload_socket := workload_socket; sv_child := child |}).
End Start.
End Agent.
