(* ===== verification/GuestSafety.v ===== *)
(** What the guest agent guarantees: the tails of a command's output, the gate of its
    channel, the environment of what it starts, the restore duties and file transfers. *)

From S2P Require Import Prelude Text Proto Journal Codec Service Pages Guest.

(** * Tails *)

(** The bytes a pipe gives before its end. *)
Fixpoint pipe_bytes (reads : list (res string (list Z))) : list Z :=
  match reads with
  | [] | Ok [] :: _ | Err _ :: _ => []
  | Ok bytes :: reads => bytes ++ pipe_bytes reads
  end.

(** The tail of [all] bytes. *)
Definition tail_of (all : list Z) : Tail :=
  {| kept := drop (length all - TAIL_LIMIT) all; dropped := Z.of_nat (length all - TAIL_LIMIT) |}.

#[local] Opaque TAIL_LIMIT.

Lemma pop_excess_spec l n :
  pop_excess l n = {| kept := drop (length l - TAIL_LIMIT) l; dropped := n + Z.of_nat (length l - TAIL_LIMIT) |}.
Proof.
  revert n. induction l as [|a l IH]; intros n; cbn [pop_excess].
  - simpl. f_equal. lia.
  - destruct (TAIL_LIMIT <? length (a :: l))%nat eqn:E.
    + apply Nat.ltb_lt in E. rewrite IH. simpl length in *.
      replace (S (length l) - TAIL_LIMIT)%nat with (S (length l - TAIL_LIMIT)) by lia.
      simpl. f_equal. lia.
    + apply Nat.ltb_ge in E. replace (length (a :: l) - TAIL_LIMIT)%nat with 0%nat by lia.
      simpl. f_equal. lia.
Qed.

Lemma push_spec all bytes : push (tail_of all) bytes = tail_of (all ++ bytes).
Proof.
  unfold push, tail_of. cbn [kept dropped]. rewrite pop_excess_spec.
  rewrite !length_app, !length_drop.
  destruct (le_lt_dec (length bytes) TAIL_LIMIT) as [Hb|Hb].
  - rewrite Nat.min_l by lia. rewrite Nat.sub_diag, drop_0. f_equal; [|lia].
    rewrite !drop_app, !drop_drop, !length_drop. f_equal; f_equal; lia.
  - rewrite Nat.min_r by lia. f_equal; [|lia].
    rewrite !drop_app, !drop_drop, !length_drop.
    rewrite !(drop_ge all) by lia. f_equal. f_equal. lia.
Qed.

Lemma drain_spec all reads : drain (tail_of all) reads = tail_of (all ++ pipe_bytes reads).
Proof.
  revert all. induction reads as [|[[|a l]|e] reads IH]; intros all; cbn [drain pipe_bytes];
    rewrite ?app_nil_r; try done.
  rewrite push_spec, IH. by rewrite <- app_assoc.
Qed.

(** ** Text *)

Lemma is_utf8_replacement l : is_utf8 (REPLACEMENT ++ l) = is_utf8 l.
Proof. reflexivity. Qed.

Ltac utf8_cases :=
  repeat match goal with
  | |- context [if ?b then _ else _] =>
      lazymatch b with context [if _ then _ else _] => fail | _ => destruct b eqn:? end
  end;
  unfold within in *; try lia.

(** Whatever the bytes, the text is well formed. *)
Lemma lossy_is_utf8 l : is_utf8 (utf8_lossy l) = true.
Proof.
  induction l as [l IH] using (induction_ltof1 _ (@length Z)); unfold ltof in IH.
  destruct l as [|a l1]; [done|]. cbn [utf8_lossy].
  destruct (within 0 127 a) eqn:Ea.
  { cbn [is_utf8]. rewrite Ea. apply IH. simpl. lia. }
  destruct (within 194 244 a) eqn:Eb; cbn [negb]; [|rewrite is_utf8_replacement; apply IH; simpl; lia].
  destruct l1 as [|b l2]; [done|]. cbv zeta.
  destruct (within _ _ b) eqn:Ec; cbn [negb]; [|rewrite is_utf8_replacement; apply IH; simpl; lia].
  destruct (within 194 223 a) eqn:Ed.
  { cbn [is_utf8]. rewrite Ea, Ed, IH by (simpl; lia). rewrite andb_true_r. revert Ec. utf8_cases. }
  destruct l2 as [|c l3]; [done|].
  destruct (within 128 191 c) eqn:Ee; cbn [negb]; [|rewrite is_utf8_replacement; apply IH; simpl; lia].
  destruct (within 224 239 a) eqn:Ef.
  { cbn [is_utf8]. rewrite Ea, Ed, Ef, Ee, IH by (simpl; lia). rewrite !andb_true_r. revert Ec. utf8_cases. }
  destruct l3 as [|d l4]; [done|].
  destruct (within 128 191 d) eqn:Eg; cbn [negb]; [|rewrite is_utf8_replacement; apply IH; simpl; lia].
  cbn [is_utf8]. rewrite Ea, Ed, Ef, Ee, Eg, IH by (simpl; lia). rewrite !andb_true_r. revert Ec. utf8_cases.
Qed.

Lemma lossy_keeps_text l : is_utf8 l = true -> utf8_lossy l = l.
Proof.
  induction l as [l IH] using (induction_ltof1 _ (@length Z)); unfold ltof in IH.
  destruct l as [|a l1]; [done|]. cbn [is_utf8 utf8_lossy].
  destruct (within 0 127 a) eqn:Ea.
  { intros H. rewrite (IH l1) by (simpl; auto; lia). done. }
  destruct l1 as [|b l2]; [done|].
  destruct (within 194 223 a) eqn:Ed.
  { intros [Hb Hl]%andb_true_iff. rewrite (IH l2) by (simpl; auto; lia).
    revert Hb. cbn [negb]. utf8_cases; done. }
  destruct l2 as [|c l3]; [done|].
  destruct (within 224 239 a) eqn:Ef.
  { intros [[Hb Hc]%andb_true_iff Hl]%andb_true_iff. rewrite Hc. cbn [negb]. rewrite (IH l3) by (simpl; auto; lia).
    revert Hb. utf8_cases; done. }
  destruct l3 as [|d l4]; [done|].
  intros [[[[Ha Hb]%andb_true_iff Hc]%andb_true_iff Hd]%andb_true_iff Hl]%andb_true_iff.
  rewrite Hc, Hd. cbn [negb]. rewrite (IH l4) by (simpl; auto; lia). revert Hb. utf8_cases; done.
Qed.

Lemma pretty_nat_ascii n : Forall (fun c => within 0 127 c = true) (bytes_of (pretty (Z.of_nat n))).
Proof.
  assert (Forall digit (bytes_of (pretty (Z.of_nat n)))) as Hd.
  { destruct (Z.of_nat n) as [|p|p] eqn:E; [| |lia].
    - change (Forall digit [48]). apply Forall_singleton. unfold digit. lia.
    - apply (parse_pretty_N (Npos p)). }
  eapply Forall_impl; [exact Hd|]. intros c [? ?]. unfold within. lia.
Qed.

Lemma into_string_is_text all : is_utf8 (into_string (tail_of all)) = true.
Proof.
  unfold into_string, tail_of. cbn [kept dropped]. destruct (_ =? 0); [apply lossy_is_utf8|].
  rewrite is_utf8_ascii; [apply lossy_is_utf8|].
  rewrite !bytes_of_app. rewrite !Forall_app. split_and!; try apply pretty_nat_ascii;
    repeat (apply Forall_cons; split; [reflexivity|]); constructor.
Qed.

(** The line that goes before a tail from which some bytes are missing. *)
Definition dropped_notice (lost : nat) : list Z :=
  if (lost =? 0)%nat then []
  else bytes_of ("[" +:+ pretty (Z.of_nat lost) +:+ " earlier bytes dropped; keeping the last 4096]" +:+ newline).

Lemma into_string_spec all :
  let lost := (length all - 4096)%nat in into_string (tail_of all) = dropped_notice lost ++ utf8_lossy (drop lost all).
Proof.
  intros lost. unfold into_string, tail_of, dropped_notice. cbn [kept dropped]. change TAIL_LIMIT with 4096%nat. fold lost.
  destruct (Nat.eqb_spec lost 0) as [->|Hn]; [done|]. destruct (Z.eqb_spec (Z.of_nat lost) 0); [lia|done].
Qed.

(** C34: the output of a command is reported by its end, if its pipe closes in time. Of all the
    bytes a pipe gave before it closed, exactly the last 4096 are kept and the others
    counted, however the bytes were cut into reads. The report is a line that names the
    count, when some were dropped, followed by the kept bytes as text, ill-formed sequences
    replaced; so it is well-formed text whatever the bytes, the notice and the kept bytes
    themselves when those are text, and the output itself when that was short enough and
    was text. A pipe that a process still holds open when the grace is over reports
    nothing at all. *)
Theorem tails_keep_the_end (reads : list (res string (list Z))) :
  let all := pipe_bytes reads in
  let lost := (length all - 4096)%nat in
  let t := drain tail_new reads in
  kept t = drop lost all /\ (length (kept t) <= 4096)%nat /\ dropped t = Z.of_nat lost /\
  collect true reads = dropped_notice lost ++ utf8_lossy (drop lost all) /\
  is_utf8 (collect true reads) = true /\
  (is_utf8 (drop lost all) = true -> collect true reads = dropped_notice lost ++ drop lost all) /\
  (is_utf8 all = true -> (length all <= 4096)%nat -> collect true reads = all) /\
  collect false reads = [].
Proof.
  intros all lost t. assert (t = tail_of all) as Et by exact (drain_spec [] reads).
  assert (collect true reads = dropped_notice lost ++ utf8_lossy (drop lost all)) as Ec.
  { unfold collect. fold t. rewrite Et. apply into_string_spec. }
  rewrite Et. split_and!; [reflexivity| |reflexivity|exact Ec| | | |reflexivity].
  - cbn [tail_of kept]. rewrite length_drop. change TAIL_LIMIT with 4096%nat. lia.
  - unfold collect. fold t. rewrite Et. apply into_string_is_text.
  - intros Hu. by rewrite Ec, lossy_keeps_text.
  - intros Hu Hl. rewrite Ec. replace lost with 0%nat by (unfold lost; lia). rewrite drop_0. by apply lossy_keeps_text.
Qed.

(** A short output, and one a byte too long. *)
Lemma tails_keep_the_end_witness :
  collect true [Ok [104]; Ok [105; 10]; Err "reset"; Ok [1]] = [104; 105; 10] /\
  collect true [Ok (repeat 97 4000); Ok (repeat 98 97)] =
    bytes_of ("[1 earlier bytes dropped; keeping the last 4096]" +:+ newline) ++ repeat 97 3999 ++ repeat 98 97.
Proof.
  split.
  - destruct (tails_keep_the_end [Ok [104]; Ok [105; 10]; Err "reset"; Ok [1]]) as (_ & _ & _ & _ & _ & _ & H & _).
    apply H; [vm_compute; reflexivity|simpl; lia].
  - destruct (tails_keep_the_end [Ok (repeat 97 4000); Ok (repeat 98 97)]) as (_ & _ & _ & _ & _ & H & _).
    rewrite H by (vm_compute; reflexivity). vm_compute. reflexivity.
Defined.

(** * The channel's gate *)

Lemma fold_differences (l : list (Z * Z)) acc :
  foldl (fun acc p => Z.lor acc (Z.lxor p.1 p.2)) acc l = 0 <-> acc = 0 /\ Forall (fun p => p.1 = p.2) l.
Proof.
  revert acc. induction l as [|[a b] l IH]; intros acc; simpl.
  - split; [intros ->; split; [done|constructor]|by intros [? _]].
  - rewrite IH, Z.lor_eq_0_iff, Z.lxor_eq_0_iff, Forall_cons. simpl. tauto.
Qed.

Lemma zip_equal (l k : list Z) : length l = length k -> Forall (fun p => p.1 = p.2) (zip l k) <-> l = k.
Proof.
  revert k. induction l as [|a l IH]; intros [|b k] H; simpl in H; try lia.
  - split; [done|constructor].
  - simpl. rewrite Forall_cons, IH by lia. simpl. split; [by intros [-> ->]|by intros [= -> ->]].
Qed.

Lemma token_matches_spec s p : token_matches s p = true <-> p = token s.
Proof.
  unfold token_matches. destruct (_ =? _)%nat eqn:E; cbn [negb].
  - apply Nat.eqb_eq in E. rewrite Z.eqb_eq, fold_differences, zip_equal by done.
    split; [intros [_ H]; symmetry; by apply bytes_of_inj|by intros ->].
  - apply Nat.eqb_neq in E. split; [done|]. intros ->. done.
Qed.

(** What every operation of the agent leaves as it was. *)
Definition keeps_token {Os A} (m : Call (Guest Os) A) : Prop :=
  forall g, token (g_state (fst (m g))) = token (g_state g).

Create HintDb guest.

Section KeepsToken.
Context {Os : Type} `{M : Machine Os}.
Abbreviation G := (Guest Os).

Lemma keeps_pass {A} (a : A) : keeps_token (Os:=Os) (pass_back a).
Proof. done. Qed.
Lemma keeps_then {A B} (m : Call G A) (k : A -> Call G B) :
  keeps_token m -> (forall a, keeps_token (k a)) -> keeps_token (then_ m k).
Proof. intros Hm Hk g. unfold then_. specialize (Hm g). destruct (m g) as [g' a]. by rewrite Hk. Qed.
Lemma keeps_try {E F A B} (m : Call G (res E A)) (f : E -> F) (k : A -> Call G (res F B)) :
  keeps_token m -> (forall a, keeps_token (k a)) -> keeps_token (try_ m f k).
Proof. intros Hm Hk. apply keeps_then; [done|]. intros [a|e]; [apply Hk|apply keeps_pass]. Qed.
Lemma keeps_clock : keeps_token (now_ms (Os:=Os)).
Proof. done. Qed.
Lemma keeps_os {A} (f : Os -> Os * A) : keeps_token (os_call f).
Proof. intros g. unfold os_call. by destruct (f (g_os g)). Qed.
Lemma keeps_get {A} (f : State -> A) : keeps_token (Os:=Os) (get_state f).
Proof. done. Qed.
Lemma keeps_upd (f : State -> State) : (forall s, token (f s) = token s) -> keeps_token (Os:=Os) (upd_state f).
Proof. intros H g. apply H. Qed.
Lemma keeps_io {A} (partly : nat -> G -> G) (f : G -> G * res IoError A) :
  (forall n g, g_state (partly n g) = g_state g) -> (forall g, g_state (fst (f g)) = g_state g) ->
  keeps_token (io partly f).
Proof. intros Hp Hf g. unfold io. destruct (io_fault _) as [[e n]|]; cbn [fst]; [by rewrite Hp|by rewrite Hf]. Qed.
End KeepsToken.

#[export] Hint Resolve keeps_pass keeps_then keeps_try keeps_clock keeps_os keeps_get keeps_upd keeps_io : guest.

Ltac keeps :=
  repeat (intros; cbv zeta; match goal with
  | |- keeps_token (then_ _ _) => apply keeps_then
  | |- keeps_token (try_ _ _ _) => apply keeps_try
  | |- keeps_token (io _ _) => apply keeps_io
  | |- keeps_token (match ?x with _ => _ end) => destruct x
  | |- g_state (fst (match ?x with _ => _ end)) = _ => destruct x
  | |- _ => solve [eauto with guest]
  end).

(** The requests of the guest's service, the idle declaration of its workload included. *)
Inductive GuestRequest : Type :=
| RHealth (run_ready_cmd : bool)
| RReadFile (r : GuestPb.ReadFileRequest)
| RWriteFile (inbound : list (Arrival GuestPb.WriteFileRequest))
| RStatPath (path : string)
| RRunHook (r : GuestPb.RunHookRequest)
| RRestoreDuties (r : GuestPb.RestoreDutiesRequest)
| RDeclareIdle.

Section Gate.
Context {Os : Type} `{M : Machine Os}.
Abbreviation G := (Guest Os).

Definition handle (r : GuestRequest) : Call G unit :=
  match r with
  | RHealth b => let@ _ := health b in pass_back tt
  | RReadFile r => let@ _ := read_file r in pass_back tt
  | RWriteFile inbound => let@ _ := write_file inbound in pass_back tt
  | RStatPath path => let@ _ := stat_path path in pass_back tt
  | RRunHook r => let@ _ := run_hook r in pass_back tt
  | RRestoreDuties r => let@ _ := run_restore_duties r in pass_back tt
  | RDeclareIdle => declare_idle
  end.
Fixpoint handle_all (l : list GuestRequest) : Call G unit :=
  match l with
  | [] => pass_back tt
  | r :: l => let@ _ := handle r in handle_all l
  end.

Lemma keeps_run_command argv env workdir timeout : keeps_token (run_command (Os:=Os) argv env workdir timeout).
Proof. unfold run_command. keeps. Qed.
Lemma keeps_evaluate_ready : keeps_token (evaluate_ready (Os:=Os)).
Proof. unfold evaluate_ready. pose proof keeps_run_command. keeps. Qed.
Lemma keeps_spawn_workload path : keeps_token (spawn_workload (Os:=Os) path).
Proof. unfold spawn_workload. keeps. Qed.
Lemma keeps_mark_activity : keeps_token (mark_activity (Os:=Os)).
Proof. unfold mark_activity. keeps. Qed.

Lemma keeps_read_loop fuel path f limit sent rest : keeps_token (read_loop (Os:=Os) fuel path f limit sent rest).
Proof. revert sent rest. induction fuel; intros; cbn [read_loop]; keeps. Qed.

Lemma keeps_write_loop path written inbound : keeps_token (write_loop (Os:=Os) path written inbound).
Proof.
  revert written. induction inbound as [|[[[[]|]|]|] l IH]; intros; cbn [write_loop]; unfold write_all; keeps.
Qed.
#[local] Hint Resolve keeps_run_command keeps_evaluate_ready keeps_mark_activity keeps_read_loop keeps_write_loop : guest.

Lemma keeps_handle r : keeps_token (handle r).
Proof.
  destruct r; unfold handle, health, read_file, write_file, write_file_bounded, stat_path, run_hook, run_restore_duties,
    duties, reseed, reseed_by_write, step_clock, place_grant_carrier, write_carrier, declare_idle, metadata, open_read, seek,
    open_write, write_all, flush, set_permissions, remove_file; keeps.
Qed.

Lemma keeps_handle_all l : keeps_token (handle_all l).
Proof. induction l; cbn [handle_all]; [keeps|]. apply keeps_then; [apply keeps_handle|done]. Qed.
End Gate.

Lemma then_inv {W A B} (m : Call W A) (k : A -> Call W B) w w' b :
  then_ m k w = (w', b) -> exists w1 a, m w = (w1, a) /\ k a w1 = (w', b).
Proof. unfold then_. destruct (m w) as [w1 a]. eauto. Qed.
Lemma try_inv {W E F A B} (m : Call W (res E A)) (f : E -> F) (k : A -> Call W (res F B)) w w' b :
  try_ m f k w = (w', Ok b) -> exists w1 a, m w = (w1, Ok a) /\ k a w1 = (w', Ok b).
Proof. unfold try_, then_, pass_back. destruct (m w) as [w1 [a|e]]; [eauto|done]. Qed.

Lemma pass_inv {W A} (a b : A) (w w' : W) : pass_back a w = (w', b) -> w' = w /\ b = a.
Proof. by intros [= -> ->]. Qed.
Lemma keeps_run {Os A} (m : Call (Guest Os) A) g g' a :
  keeps_token m -> m g = (g', a) -> token (g_state g') = token (g_state g).
Proof. intros Hm E. specialize (Hm g). by rewrite E in Hm. Qed.

(** Steps through the calls of an operation that succeeded. *)
Ltac step_in H :=
  cbv zeta in H;
  lazymatch type of H with
  | try_ _ _ _ _ = (_, Ok _) => apply try_inv in H; destruct H as (? & ? & ? & H); step_in H
  | then_ _ _ _ = _ => apply then_inv in H; destruct H as (? & ? & ? & H); step_in H
  | _ => idtac
  end.

Section Started.
Context {Os : Type} `{M : Machine Os}.
Context (vars : gmap string string) (read : string -> res string (list Z)).
Context (base64_decode : string -> res string (list Z)).
Context (decode_process : list Z -> res string Process) (decode_hooks : list Z -> res string Hooks).
Context (tls_acceptor : ChannelIdentity -> res string unit).
Abbreviation G := (Guest Os).
Abbreviation bootstrap := (from_env vars read base64_decode decode_process decode_hooks).
Abbreviation start := (serve_run vars read base64_decode decode_process decode_hooks tls_acceptor).

Lemma read_part_nonempty var bytes : read_part vars read var = Ok bytes -> bytes <> [].
Proof. unfold read_part. by destruct (read _) as [[|a l]|]; intros [= <-]. Qed.

Lemma read_identity_whole i :
  read_identity vars read = Ok (Some i) -> ci_cert i <> [] /\ ci_key i <> [] /\ ci_anchor i <> [].
Proof.
  unfold read_identity. destruct (length (named vars)) as [|[|[|[|n]]]]; try done.
  destruct (read_part vars read ENV_TLS_CERT_FILE) as [c|] eqn:Ec; [|done].
  destruct (read_part vars read ENV_TLS_KEY_FILE) as [k|] eqn:Ek; [|done].
  destruct (read_part vars read ENV_TLS_ANCHOR_FILE) as [a|] eqn:Ea; [|done].
  simpl. intros [= <-]. simpl. split_and!; by eapply read_part_nonempty.
Qed.

Lemma from_env_facts b :
  bootstrap = Ok b -> bs_token b <> empty_str /\ read_identity vars read = Ok (bs_identity b).
Proof.
  unfold from_env. destruct (read_token vars read) as [t|]; [|done]. simpl.
  destruct (is_empty t) eqn:Et; [done|].
  destruct (decode_var _ _ _ default_process _) as [p|]; [|done]. simpl.
  destruct (decode_var _ _ _ default_hooks _) as [h|]; [|done]. simpl.
  destruct (read_identity vars read) as [i|]; [|done]. simpl. intros [= <-]. simpl. split; [|done].
  intros ->. by apply is_empty_true in Et || discriminate.
Qed.

Lemma parse_tcp_port_bounds p : parse_tcp_port vars = Ok (Some p) -> 1 <= p <= 65535.
Proof.
  unfold parse_tcp_port. destruct (vars !! ENV_TCP_PORT) as [v|]; [|done].
  destruct (is_empty (trim v)); [done|].
  destruct (parse_u16 (trim v)) as [q|] eqn:E; [|done].
  destruct (q =? 0) eqn:Eq; [done|]. intros [= <-].
  apply parse_u16_bounds in E. lia.
Qed.

(** What a start that succeeds has established. *)
Lemma serve_run_facts socket (g g' : G) sv :
  start socket g = (g', Ok sv) ->
  exists b, bootstrap = Ok b /\ token (g_state g') = bs_token b /\
    (forall port, sv_port sv = Some port ->
       parse_tcp_port vars = Ok (Some port) /\
       exists i, bs_identity b = Some i /\ tls_acceptor i = Ok tt).
Proof.
  unfold serve_run. intros H. step_in H.
  repeat match goal with Hx : pass_back _ _ = (_, _) |- _ => apply pass_inv in Hx as [-> Hx] end.
  rename x0 into b. injection H as ->. exists b. split; [by symmetry|]. split.
  - transitivity (token (g_state x5)); [|injection H3 as <- _; done].
    rewrite (keeps_run _ _ _ _ (keeps_spawn_workload _) H9), (keeps_run _ _ _ _ keeps_evaluate_ready H8).
    rewrite (keeps_run _ _ _ _ (keeps_os _) H7).
    transitivity (token (g_state x7)); [|exact (keeps_run _ _ _ _ (keeps_os _) H4)].
    refine (keeps_run _ _ _ _ _ H6). keeps.
  - cbn [sv_port]. intros port ->. destruct x10 as [p|], x2; cbn [network_port] in H6; try done.
    step_in H6. injection H6 as _ ->. split; [done|].
    destruct (bs_identity b) as [i|]; [|done]. exists i. split; [done|].
    by destruct (tls_acceptor i) as [[]|].
Qed.

(** C33: once started, the agent answers on its channel only to the instance's token, which
    is never empty: after any requests, a call that presents it runs and a call that
    presents anything else, or nothing, is refused and changes nothing. The network is
    listened on only with a whole identity that gives a TLS acceptor, never in cleartext. *)
Theorem channel_is_closed_to_others socket (g g' : G) sv (reqs : list GuestRequest) {A}
    (metadata : string -> option string) (handler : Call G (res Status A)) :
  start socket g = (g', Ok sv) ->
  let g2 := fst (handle_all reqs g') in
  token (g_state g') <> empty_str /\
  intercepted metadata handler g2 =
    (if decide (metadata TOKEN_METADATA_KEY = Some (token (g_state g'))) then handler g2
     else (g2, Err (plain Unauthenticated "invalid or missing barista-instance-token"))) /\
  (forall port, sv_port sv = Some port ->
     1 <= port <= 65535 /\
     exists i, read_identity vars read = Ok (Some i) /\ tls_acceptor i = Ok tt /\
       ci_cert i <> [] /\ ci_key i <> [] /\ ci_anchor i <> []).
Proof.
  intros H g2. destruct (serve_run_facts _ _ _ _ H) as (b & Hb & Ht & Hp).
  destruct (from_env_facts _ Hb) as [Hne Hi].
  assert (token (g_state g2) = token (g_state g')) as Hk by apply keeps_handle_all.
  split_and!; [by rewrite Ht| |].
  - unfold intercepted, token_interceptor, try_, then_, get_state, pass_back.
    destruct (token_matches (g_state g2) (default empty_str (metadata TOKEN_METADATA_KEY))) eqn:Em.
    + apply token_matches_spec in Em. rewrite Hk in Em. rewrite decide_True; [done|].
      destruct (metadata TOKEN_METADATA_KEY); simpl in Em; [by subst|]. by rewrite <- Em in Ht; rewrite <- Ht in Hne.
    + rewrite decide_False; [done|]. intros E. rewrite E in Em. simpl in Em.
      rewrite <- Hk in Em. by rewrite (proj2 (token_matches_spec _ _) eq_refl) in Em.
  - intros port Hport. destruct (Hp _ Hport) as (Hparse & i & Ei & Hacc). split; [by eapply parse_tcp_port_bounds|].
    exists i. rewrite Ei in Hi. split_and!; [done|done|..]; by apply read_identity_whole in Hi as (? & ? & ?).
Qed.
End Started.

(** A machine on which everything works: whole reads, no faults, commands that exit at once. *)
#[export] Instance plain_machine : Machine unit := {
  clock := fun n => 1000 + Z.of_nat n;
  io_fault := fun _ => None;
  short := fun _ => 3%nat;
  mtime := fun _ => Some 5000;
  umask := 18;
  spawn := fun o _ => (o, Ok {| ch_id := Some 7; ch_stdout := [Ok [104; 105]]; ch_stderr := []; ch_stdout_ends := true;
                                ch_stderr_ends := true; ch_lasts_ms := Some 10; ch_wait := Ok (Some 0) |});
  killpg := fun o _ => o;
  open_urandom := fun o => (o, Ok tt);
  add_entropy := fun o _ => (o, true);
  rekey := fun o => (o, Ok tt);
  write_urandom := fun o _ => (o, Ok tt);
  clock_settime := fun o _ _ => (o, Ok tt);
  bind_socket := fun o _ => (o, Ok tt);
  bind_port := fun o _ => (o, Ok tt) }.

Definition plain_vars : gmap string string :=
  <[ENV_TOKEN := "secret"]> (<[ENV_TCP_PORT := "7000"]> (<[ENV_TLS_CERT_FILE := "/c"]>
    (<[ENV_TLS_KEY_FILE := "/k"]> (<[ENV_TLS_ANCHOR_FILE := "/a"]> ∅)))).
Definition blank_state : State := mkState empty_str default_process default_hooks false 0 0 0.
Definition plain_guest : Guest unit := mkGuest blank_state ∅ tt 0 0.
Definition plain_start (g : Guest unit) : Guest unit * res string Served :=
  serve_run plain_vars (fun _ => Ok [1]) (fun _ => Ok []) (fun _ => Ok default_process) (fun _ => Ok default_hooks)
    (fun _ => Ok tt) "/run/barista/guest.sock" g.

Lemma channel_is_closed_to_others_witness :
  let '(g', r) := plain_start plain_guest in
  match r with
  | Ok sv => sv_port sv = Some 7000 /\ token (g_state g') = "secret" /\
      intercepted (fun _ => None) (health false) (fst (handle_all [RDeclareIdle] g')) =
        (fst (handle_all [RDeclareIdle] g'), Err (plain Unauthenticated "invalid or missing barista-instance-token"))
  | Err _ => False
  end.
Proof.
  destruct (plain_start plain_guest) as [g' [sv|e]] eqn:E; [|by vm_compute in E].
  pose proof (channel_is_closed_to_others _ _ _ _ _ _ _ _ _ _ [RDeclareIdle] (fun _ => None) (health false) E) as (_ & H & _).
  split_and!; [by vm_compute in E; injection E as _ <-|by vm_compute in E; injection E as <- _|].
  rewrite H. by rewrite decide_False.
Defined.

(** * Restore duties *)

Lemma join_nonempty sep x l : x <> empty_str -> join sep (x :: l) <> empty_str.
Proof. destruct x; [done|]. intros _. by destruct l. Qed.

(** A report that is empty had no note in it. *)
Lemma no_notes (a b c : option string) :
  a <> Some empty_str -> b <> Some empty_str -> c <> Some empty_str ->
  join "; " (omap id [a; b; c]) = empty_str -> a = None /\ b = None /\ c = None.
Proof.
  intros Ha Hb Hc. destruct a as [a|]; simpl; [intros H; by apply join_nonempty in H; [|congruence]|].
  destruct b as [b|]; simpl; [intros H; by apply join_nonempty in H; [|congruence]|].
  destruct c as [c|]; simpl; [intros H; exfalso; apply Hc; by rewrite H|done].
Qed.

Section Duties.
Context {Os : Type} `{M : Machine Os}.
Abbreviation G := (Guest Os).
(** A file call that fails as if there were no such file means it. *)
Definition absences_are_real : Prop := forall k e n, io_fault (Os:=Os) k = Some (e, n) -> io_kind e <> IoNotFound.

Lemma reseed_facts entropy (g g' : G) r :
  reseed entropy g = (g', r) ->
  g_files g' = g_files g /\ reseed_degraded r <> Some empty_str /\
  (reseed_degraded r = None -> credited r = true /\ bytes_mixed r = wrap_u32 (Z.of_nat (length entropy))).
Proof.
  unfold reseed, reseed_by_write, os_call, then_, pass_back.
  destruct (open_urandom (g_os g)) as [o1 [[]|e1]]; cbn [g_os set_field rebuild_Guest].
  - destruct (add_entropy o1 _) as [o2 []].
    + destruct (rekey _) as [o3 [[]|e3]]; intros [= <- <-]; done.
    + destruct (open_urandom _) as [o3 [[]|e3]]; [destruct (write_urandom _ _) as [o4 [[]|e4]]|];
        intros [= <- <-]; done.
  - destruct (open_urandom _) as [o3 [[]|e3]]; [destruct (write_urandom _ _) as [o4 [[]|e4]]|];
      intros [= <- <-]; done.
Qed.

(** ** Files *)

(** A file call that succeeds does what it is for. *)
Lemma io_ok {A} (partly : nat -> G -> G) (f : G -> G * res IoError A) g g' a :
  io partly f g = (g', Ok a) -> f (g <| g_calls := S (g_calls g) |>) = (g', Ok a).
Proof. unfold io. by destruct (io_fault _) as [[e n]|]. Qed.

Lemma open_write_ok path mode (g g' : G) u :
  open_write path mode g = (g', Ok u) -> exists f, g_files g' = <[path := f]> (g_files g) /\ f_data f = [] /\ f_dir f = false.
Proof.
  intros H%io_ok. revert H. cbn [g_files set_field rebuild_Guest].
  destruct (g_files g !! path) as [f|]; [destruct (f_dir f) eqn:E; [done|]|]; intros [= <- <-]; eexists; split_and!; done.
Qed.

Lemma write_all_ok path bytes (g g' : G) u f :
  write_all path bytes g = (g', Ok u) -> g_files g !! path = Some f ->
  exists f', g_files g' = <[path := f']> (g_files g) /\ f_data f' = f_data f ++ bytes /\ f_dir f' = f_dir f.
Proof.
  intros H%io_ok Hf. injection H as <- _. unfold append_data. cbn [g_files set_field rebuild_Guest].
  eexists (f <| f_data := f_data f ++ bytes |> <| f_mtime := _ |>). split_and!; [|done|done].
  apply map_eq. intros q. destruct (decide (q = path)) as [->|Hq].
  - by rewrite lookup_alter_eq, Hf, lookup_insert_eq.
  - by rewrite lookup_alter_ne, lookup_insert_ne.
Qed.

Lemma flush_ok (g g' : G) u : flush g = (g', Ok u) -> g_files g' = g_files g.
Proof. intros H%io_ok. by injection H as <- _. Qed.

Lemma place_grant_carrier_facts path epoch carrier (g g' : G) c :
  absences_are_real -> place_grant_carrier path epoch carrier g = (g', c) ->
  carrier_degraded c <> Some empty_str /\
  (present c = true -> exists f, g_files g' !! path = Some f /\ f_data f = carrier) /\
  (carrier_degraded c = None ->
     if decide (carrier = []) then g_files g' !! path = None /\ present c = false else present c = true).
Proof.
  intros Hreal. unfold place_grant_carrier, then_, pass_back. destruct carrier as [|b l].
  - destruct (remove_file path g) as [g1 r] eqn:E.
    assert (match r with Ok _ => True | Err e => io_kind e = IoNotFound end -> g_files g1 !! path = None) as Habs.
    { revert E. unfold remove_file, io. destruct (io_fault _) as [[e n]|] eqn:Ef.
      - intros [= <- <-] Hk. by apply Hreal in Ef.
      - cbn [g_files set_field rebuild_Guest]. destruct (g_files g !! path) as [f|] eqn:El.
        + destruct (f_dir f); intros [= <- <-]; [done|]. intros _. cbn. by apply lookup_delete_eq.
        + intros [= <- <-] _. cbn. done. }
    destruct r as [u|e]; [|destruct (io_kind e) eqn:Ek]; intros [= <- <-]; cbn [carrier_degraded present detail];
      rewrite ?decide_True by done; split_and!; try done; intros; split; auto.
  - destruct (write_carrier path (b :: l) g) as [g1 [u|e]] eqn:E; intros [= <- <-];
      cbn [carrier_degraded present]; rewrite ?decide_False by done; split_and!; try done.
    intros _. unfold write_carrier in E. step_in E.
    apply open_write_ok in H as (f & Hf & Hd & _).
    eapply write_all_ok in H0 as (f' & Hf' & Hd' & _); [|by rewrite Hf, lookup_insert_eq].
    apply flush_ok in E. exists f'. rewrite E, Hf', lookup_insert_eq. split; [done|]. by rewrite Hd', Hd.
Qed.

Lemma step_clock_facts t (g g' : G) st :
  step_clock t g = (g', st) -> g_files g' = g_files g /\ snd st <> Some empty_str /\ (snd st = None -> fst st = true).
Proof.
  unfold step_clock, os_call, then_, pass_back.
  destruct (clock_settime _ _ _) as [o [[]|e]]; intros [= <- <-]; done.
Qed.

(** the restore duties report what they did. Without host entropy they are refused and
    nothing is touched; a report that the grant was rebound means that the carrier's file
    holds exactly the delivered carrier; and a report without degradation means that the
    host's entropy was credited in full, that the clock was set if a time was given, and
    that the carrier's file holds this epoch's carrier or, when none was delivered, is gone. *)
Theorem duties_report_what_they_did r (g g' : G) answer :
  absences_are_real -> run_restore_duties r g = (g', answer) ->
  match answer with
  | Err _ => GuestPb.entropy r = [] /\ g' = g
  | Ok rsp =>
      let file := g_files g' !! DEFAULT_GRANT_CARRIER in
      let holds := exists f, file = Some f /\ f_data f = GuestPb.grant_carrier r in
      GuestPb.entropy r <> [] /\
      (GuestPb.grant_rebound rsp = true -> holds) /\
      (GuestPb.degraded rsp = empty_str ->
         GuestPb.entropy_credited rsp = true /\
         GuestPb.entropy_bytes_mixed rsp = wrap_u32 (Z.of_nat (length (GuestPb.entropy r))) /\
         (GuestPb.host_time r <> None -> GuestPb.clock_stepped rsp = true) /\
         (if decide (GuestPb.grant_carrier r = []) then file = None /\ GuestPb.grant_rebound rsp = false
          else GuestPb.grant_rebound rsp = true /\ holds))
  end.
Proof.
  intros Hreal. unfold run_restore_duties. destruct (GuestPb.entropy r) as [|b l] eqn:Ee; [by intros [= <- <-]|].
  intros H. step_in H. apply pass_inv in H as [-> ->]. unfold duties in H1. step_in H1. apply pass_inv in H1 as [-> ->].
  apply reseed_facts in H as (_ & Hn1 & Hr). eapply place_grant_carrier_facts in H3 as (Hn3 & Hp & Hc); [|done].
  rename x6 into clk.
  assert (snd (snd clk) <> Some empty_str /\ (snd (snd clk) = None -> GuestPb.host_time r <> None -> fst (snd clk) = true))
    as [Hn2 Hs].
  { destruct (GuestPb.host_time r) as [h|].
    - step_in H2. apply pass_inv in H2 as [-> ->]. apply step_clock_facts in H as (_ & ? & ?). split; auto.
    - apply pass_inv in H2 as [-> ->]. done. }
  cbn [GuestPb.grant_rebound GuestPb.degraded GuestPb.entropy_credited GuestPb.entropy_bytes_mixed GuestPb.clock_stepped].
  split_and!; [done|exact Hp|]. intros Hd. apply no_notes in Hd as (E1 & E2 & E3); [|done..].
  destruct (Hr E1) as [? ?]. specialize (Hc E3). rewrite Ee in *. split_and!; auto.
  destruct (decide _); [done|]. auto.
Qed.
End Duties.

Definition plain_duties : GuestPb.RestoreDutiesRequest :=
  {| GuestPb.entropy := [1; 2; 3]; GuestPb.host_time := Some {| seconds := 5; nanos := 0 |};
     GuestPb.execution_epoch := 2; GuestPb.grant_carrier := [9; 9] |}.

Lemma duties_report_what_they_did_witness :
  exists rsp, snd (run_restore_duties plain_duties plain_guest) = Ok rsp /\ GuestPb.degraded rsp = empty_str /\
    GuestPb.clock_stepped rsp = true /\ GuestPb.grant_rebound rsp = true.
Proof.
  destruct (run_restore_duties plain_duties plain_guest) as [g' answer] eqn:E.
  assert (absences_are_real (M:=plain_machine)) as Hreal by done.
  pose proof (duties_report_what_they_did _ _ _ _ Hreal E) as H.
  vm_compute in E. injection E as _ <-. eexists. split; [reflexivity|].
  destruct H as (_ & _ & H). destruct (H eq_refl) as (_ & _ & Hs & Hc). by rewrite decide_False in Hc by done.
Defined.

(** * File transfers *)

(** The bytes asked for: from the offset, up to the limit if there is one. *)
Definition slice (limit : Z) (rest : list Z) : list Z := if limit =? 0 then rest else take (Z.to_nat limit) rest.

(** A stream of chunks with its end: whole, or cut short by an error. *)
Inductive chunked {S : Type} (whole : list Z) (failing : Prop) : list (res S GuestPb.FileChunk) -> Prop :=
| chunked_whole cs :
    Forall (fun c => 1 <= Z.of_nat (length c) <= FILE_CHUNK) cs -> mjoin cs = whole ->
    chunked whole failing ((Ok ∘ chunk_of <$> cs) ++ [Ok eof_chunk])
| chunked_cut cs e :
    Forall (fun c => 1 <= Z.of_nat (length c) <= FILE_CHUNK) cs -> mjoin cs `prefix_of` whole -> failing ->
    chunked whole failing ((Ok ∘ chunk_of <$> cs) ++ [Err e]).

Lemma chunked_cons {S} c whole failing (items : list (res S GuestPb.FileChunk)) :
  1 <= Z.of_nat (length c) <= FILE_CHUNK -> chunked whole failing items ->
  chunked (c ++ whole) failing (Ok (chunk_of c) :: items).
Proof.
  intros Hc H. destruct H as [cs Hcs Hw|cs e Hcs Hp Hf].
  - apply (chunked_whole _ _ (c :: cs)); [by constructor|]. simpl. by rewrite Hw.
  - apply (chunked_cut _ _ (c :: cs) e); [by constructor| |done]. simpl. by apply prefix_app.
Qed.

Section Transfers.
Context {Os : Type} `{M : Machine Os}.
Abbreviation G := (Guest Os).

(** Some file call can fail. *)
Definition faulty : Prop := exists k, io_fault (Os:=Os) k <> None.

Lemma read_loop_spec fuel path f limit sent rest (g g' : G) items :
  (length rest < fuel)%nat -> 0 <= sent -> (limit = 0 \/ sent <= limit) ->
  read_loop fuel path f limit sent rest g = (g', items) ->
  chunked (if limit =? 0 then rest else take (Z.to_nat (limit - sent)) rest) (faulty \/ f_dir f = true) items /\
  g_files g' = g_files g.
Proof.
  revert sent rest g g' items. induction fuel as [|fuel IH]; intros sent rest g g' items Hf Hs Hl; [lia|].
  cbn [read_loop]. cbv zeta. set (want := if limit =? 0 then FILE_CHUNK else Z.min (limit - sent) FILE_CHUNK).
  destruct (want =? 0) eqn:Ew.
  { intros [= <- <-]. split; [|done]. apply (chunked_whole _ _ []); [constructor|]. simpl.
    unfold want, FILE_CHUNK in Ew. destruct (limit =? 0); [lia|].
    by replace (Z.to_nat (limit - sent)) with 0%nat by lia. }
  intros H. apply then_inv in H as (g1 & r & Hr & H). unfold io in Hr.
  destruct (io_fault (g_calls g)) as [[e n]|] eqn:Ef.
  { injection Hr as <- <-. injection H as <- <-. split; [|done].
    apply (chunked_cut _ _ [] (io_status path e)); [constructor|apply prefix_nil|].
    left. exists (g_calls g). by rewrite Ef. }
  cbn [g_calls set_field rebuild_Guest] in Hr. destruct (f_dir f) eqn:Ed.
  { injection Hr as <- <-. injection H as <- <-. split; [|done].
    apply (chunked_cut _ _ [] (io_status path is_a_directory)); [constructor|apply prefix_nil|by right]. }
  set (n := Nat.min (Nat.max 1 (short (S (g_calls g)))) (Z.to_nat want)) in Hr.
  assert (1 <= Z.of_nat n <= FILE_CHUNK /\ Z.of_nat n <= want) as [Hn Hnw].
  { unfold n. clear -Ew Hl Hs. revert Ew. unfold want, FILE_CHUNK. destruct (limit =? 0) eqn:?; lia. }
  injection Hr as <- <-. destruct (take n rest) as [|a l] eqn:Et.
  { injection H as <- <-. split; [|done]. apply (chunked_whole _ _ []); [constructor|].
    assert (rest = []) as -> by (destruct rest; [done|destruct n; [lia|done]]). by destruct (limit =? 0); rewrite ?take_nil. }
  apply then_inv in H as (g2 & more & Hm & H). injection H as <- <-. rewrite <- Et in *.
  assert (length (take n rest) = Nat.min n (length rest)) as El by apply length_take.
  assert (1 <= length (take n rest))%nat as El1 by (rewrite Et; simpl; lia).
  apply IH in Hm as [Hm Hg]; [|rewrite length_drop; lia|lia|clear -Hnw Hl El; revert Hnw; unfold want; destruct (limit =? 0) eqn:E0; lia].
  split; [|by rewrite Hg].
  replace (if limit =? 0 then rest else take (Z.to_nat (limit - sent)) rest) with
    (take n rest ++ (if limit =? 0 then drop (length (take n rest)) rest
                     else take (Z.to_nat (limit - (sent + Z.of_nat (length (take n rest))))) (drop (length (take n rest)) rest))).
  { apply chunked_cons; [lia|done]. }
  rewrite El. replace (drop (n `min` length rest) rest) with (drop n rest)
    by (destruct (le_lt_dec n (length rest)); [by rewrite Nat.min_l|rewrite Nat.min_r by lia; rewrite !drop_ge by lia; done]).
  revert Hnw. unfold want. destruct (limit =? 0) eqn:E0; intros Hnw; [apply take_drop|].
  rewrite <- (take_drop n (take (Z.to_nat (limit - sent)) rest)), take_take, skipn_firstn_comm.
  f_equal; [f_equal; lia|]. 
  destruct (le_lt_dec n (length rest)) as [Hc|Hc]; [f_equal; lia|]. rewrite !drop_ge by lia. by rewrite !take_nil.
Qed.

(** The bytes of an upload whose stream ended as it should; a frame of an unknown kind is
    passed over. *)
Fixpoint payload (inbound : list (Arrival GuestPb.WriteFileRequest)) : option (list Z) :=
  match inbound with
  | [] => Some []
  | Arrived (Ok (Some (GuestPb.Chunk b))) :: l => app b <$> payload l
  | Arrived (Ok None) :: l => payload l
  | _ => None
  end.

Lemma wrap_u64_idem z : wrap_u64 (wrap_u64 z) = wrap_u64 z.
Proof. unfold wrap_u64. by rewrite Z.mod_mod. Qed.
Lemma wrap_u64_plus z n : wrap_u64 (wrap_u64 z + n) = wrap_u64 (z + n).
Proof. unfold wrap_u64. by rewrite Zplus_mod_idemp_l. Qed.

Lemma write_loop_ok path written inbound (g g' : G) f n :
  wrap_u64 written = written -> g_files g !! path = Some f -> write_loop path written inbound g = (g', Ok n) ->
  exists bytes f', payload inbound = Some bytes /\ n = wrap_u64 (written + Z.of_nat (length bytes)) /\
    g_files g' = <[path := f']> (g_files g) /\ f_data f' = f_data f ++ bytes.
Proof.
  revert written g f. induction inbound as [|[[[[o|b]|]|st]|] l IH]; intros written g f Hw Hf; cbn [write_loop payload]; try done.
  - intros [= <- <-]. exists [], f. rewrite insert_id, app_nil_r, Z.add_0_r by done. done.
  - intros H. step_in H. destruct (write_all_ok _ _ _ _ _ _ H0 Hf) as (f1 & E1 & D1 & _).
    assert (g_files x !! path = Some f1) as Hf1 by by rewrite E1, lookup_insert_eq.
    destruct (IH _ _ _ (wrap_u64_idem _) Hf1 H) as (bytes & f2 & Hp & -> & E2 & D2).
    exists (b ++ bytes), f2. rewrite Hp, E2, E1, D2, D1, insert_insert_eq, <- app_assoc, wrap_u64_plus.
    split_and!; [done| |done|done]. f_equal. rewrite length_app. lia.
  - intros H. by eapply IH.
Qed.

Lemma write_file_ok inbound (g g' : G) n :
  write_file inbound g = (g', Ok n) ->
  exists o rest bytes f, inbound = Arrived (Ok (Some (GuestPb.Open o))) :: rest /\ payload rest = Some bytes /\
    n = wrap_u64 (Z.of_nat (length bytes)) /\ g_files g' = <[GuestPb.wo_path o := f]> (g_files g) /\ f_data f = bytes.
Proof.
  intros H. unfold write_file in H. step_in H. injection H0 as <- <-.
  unfold write_file_bounded in H. destruct inbound as [|[[[[o|b]|]|st]|] rest]; try done.
  cbn [next_write_frame] in H. step_in H. apply pass_inv in H as [-> [= <-]].
  apply open_write_ok in H0 as (f & Ef & Df & _).
  assert (g_files x !! GuestPb.wo_path o = Some f) as Hf by by rewrite Ef, lookup_insert_eq.
  destruct (write_loop_ok _ 0 _ _ _ _ _ eq_refl Hf H1) as (bytes & f' & Hp & -> & Ef' & Df').
  apply flush_ok in H2. cbn in Ef.
  assert (exists f'', g_files x5 = <[GuestPb.wo_path o := f'']> (g_files g) /\ f_data f'' = bytes) as (f'' & E'' & D'').
  { rewrite Ef, insert_insert_eq in Ef'. rewrite Df in Df'. simpl in Df'.
    destruct (GuestPb.wo_mode o =? 0).
    - injection H3 as <- _. rewrite H2. eauto.
    - apply io_ok in H3. cbn [g_files set_field rebuild_Guest] in H3. rewrite H2, Ef', lookup_insert_eq in H3.
      injection H3 as <- _. cbn [g_files set_field rebuild_Guest]. rewrite insert_insert_eq. eauto. }
  exists o, rest, bytes, f''. by rewrite E''.
Qed.

Lemma read_file_ok r (g g' : G) items :
  0 <= GuestPb.rf_limit r -> read_file r g = (g', Ok items) ->
  exists f, g_files g !! GuestPb.rf_path r = Some f /\ g_files g' = g_files g /\
    chunked (slice (GuestPb.rf_limit r) (drop (Z.to_nat (GuestPb.rf_offset r)) (f_data f))) (faulty \/ f_dir f = true) items.
Proof.
  intros Hl H. unfold read_file in H. step_in H. apply pass_inv in H as [-> [= <-]]. injection H0 as <- _.
  apply io_ok in H1. cbn in H1. injection H1 as <- Hf.
  destruct (g_files g !! GuestPb.rf_path r) as [f|] eqn:Ef; [injection Hf as <-|done].
  apply read_loop_spec in H3 as [Hc Hg]; [|lia|lia|lia]. rewrite Z.sub_0_r in Hc.
  exists f. split_and!; [done| |exact Hc]. rewrite Hg. destruct (0 <? GuestPb.rf_offset r).
  - apply io_ok in H2. destruct (i64_max <? _); by injection H2 as <- _.
  - by injection H2 as <- _.
Qed.
End Transfers.
