(* ===== verification/GuestExec.v ===== *)
(** A command run in the guest for a client: exec.rs of the guest agent.

    An exec is four tasks over shared channels: one carries the client's frames to the
    process, two carry its output to the client, and the handler waits for the process or
    for the client's stream to break. A step of [xstep] is what one of them, or the process,
    does between two points where another may run. *)

From S2P Require Import Prelude Text Proto Journal Codec Service Guest GuestSafety.

(** How the client's half of the stream ended. *)
Inductive InputEnd : Type :=
| PeerFinished
| Broken (s : Status).

Definition first_frame (inbound : list (res Status GuestPb.ExecFrame))
    : res Status GuestPb.ExecStart * list (res Status GuestPb.ExecFrame) :=
  match inbound with
  | Ok (Some (GuestPb.Start start)) :: rest => (Ok start, rest)
  | Ok _ :: rest => (Err (plain InvalidArgument "the first Exec frame must be `start`"), rest)
  | Err status :: rest => (Err status, rest)
  | [] => (Err (plain InvalidArgument "Exec stream closed before `start`"), [])
  end.

(** The process's environment is the workload's, then the request's. *)
Definition exec_command (p : Process) (start : GuestPb.ExecStart) : res Status Command :=
  match GuestPb.cmd start with
  | [] => Err (plain InvalidArgument "exec `cmd` is empty")
  | program :: args =>
      Ok (current_dir (GuestPb.start_workdir start)
            (envs (GuestPb.start_env start) (envs (env p) (scrubbed (command_new program args)))))
  end.

Definition CHUNK : nat := Z.to_nat 8192.

(** The task that reads the client's frames: reading, having seen the stream's end, having
    reported a break but still holding the process's input, and gone. *)
Inductive InputTask : Type :=
| Reading
| Ending (e : InputEnd)
| Reported
| Gone.

Inductive Proc : Type :=
| Running
| Exited (status : res string (option Z))
| Killed.

(** The handler, in its [select!]: about to look for a break; having found none and about to
    look at the process; then draining the output, and done. *)
Inductive Handler : Type :=
| AtBreak
| AtWait
| Draining (code : Z)
| Done.

(** [x_out] and [x_err] are all that was written to the process's outputs, [x_out_at] and
    [x_err_at] how much of it has been read. *)
Record Exec := mkExec {
  x_inbound : list (res Status GuestPb.ExecFrame);
  x_input : InputTask;
  x_aborted : bool;
  x_slot : option Status;
  x_stdin : list Z;
  x_stdin_open : bool;
  x_sizes : list GuestPb.TermSize;
  x_proc : Proc;
  x_out : list Z;
  x_out_at : nat;
  x_err : list Z;
  x_err_at : nat;
  x_pump_out : bool;
  x_pump_err : bool;
  x_handler : Handler;
  x_sent : list (res Status GuestPb.Frame) }.
#[global] Instance rebuild_Exec : Rebuild Exec := fun x =>
  mkExec (x_inbound x) (x_input x) (x_aborted x) (x_slot x) (x_stdin x) (x_stdin_open x) (x_sizes x) (x_proc x)
    (x_out x) (x_out_at x) (x_err x) (x_err_at x) (x_pump_out x) (x_pump_err x) (x_handler x) (x_sent x).

(** As the tasks start; a terminal has one output. *)
Definition exec_init (tty : bool) (inbound : list (res Status GuestPb.ExecFrame)) : Exec :=
  mkExec inbound Reading false None [] true [] Running [] 0 [] 0 true (negb tty) AtBreak [].

Definition sends (x : Exec) (item : res Status GuestPb.Frame) : Exec := x <| x_sent := x_sent x ++ [item] |>.

Definition io_err (what e : string) : Status := plain Internal (what +:+ ": " +:+ e).

(** The code a process left: [-1] when a signal ended it. *)
Definition exit_of (code : option Z) : Z := default (-1) code.

(** Dropping the write end closes a pipe; a terminal stays open. *)
Definition drop_stdin (tty : bool) (x : Exec) : Exec := if tty then x else x <| x_stdin_open := false |>.

(** [rows as u16] and [cols as u16] *)
Definition clipped (s : GuestPb.TermSize) : GuestPb.TermSize :=
  {| GuestPb.rows := GuestPb.rows s mod 65536; GuestPb.cols := GuestPb.cols s mod 65536 |}.

Section Exec.
(** With a terminal or with pipes; whether the process may stop taking input; when it may end
    by itself, given what it was sent on its input and whether that is still open. *)
Context (tty : bool) (refuses : bool) (may_exit : list Z -> bool -> res string (option Z) -> Prop).

Inductive xstep : Exec -> Exec -> Prop :=
(** The input task. *)
| input_stdin x b l :
    x_input x = Reading -> x_inbound x = Ok (Some (GuestPb.Stdin b)) :: l ->
    xstep x (x <| x_inbound := l |> <| x_stdin := x_stdin x ++ b |>)
| input_refused x b l n :
    refuses = true -> x_input x = Reading -> x_inbound x = Ok (Some (GuestPb.Stdin b)) :: l ->
    xstep x (x <| x_inbound := l |> <| x_stdin := x_stdin x ++ take n b |> <| x_input := Ending PeerFinished |>)
| input_resize x s l :
    x_input x = Reading -> x_inbound x = Ok (Some (GuestPb.Resize s)) :: l ->
    xstep x (x <| x_inbound := l |> <| x_sizes := if tty then x_sizes x ++ [clipped s] else x_sizes x |>)
| input_skip x f l :
    x_input x = Reading -> x_inbound x = Ok f :: l ->
    (forall b, f <> Some (GuestPb.Stdin b)) -> (forall s, f <> Some (GuestPb.Resize s)) ->
    xstep x (x <| x_inbound := l |>)
| input_finished x :
    x_input x = Reading -> x_inbound x = [] ->
    xstep x (x <| x_input := Ending PeerFinished |>)
| input_broken x s l :
    x_input x = Reading -> x_inbound x = Err s :: l ->
    xstep x (x <| x_inbound := l |> <| x_input := Ending (Broken s) |>)
| input_shutdown x :
    x_input x = Ending PeerFinished ->
    xstep x (drop_stdin tty (x <| x_input := Gone |>))
| input_reports x s :
    x_input x = Ending (Broken s) ->
    xstep x (x <| x_slot := Some s |> <| x_input := Reported |>)
| input_drops x :
    x_input x = Reported ->
    xstep x (drop_stdin tty (x <| x_input := Gone |>))
| input_aborted x :
    x_aborted x = true -> x_input x <> Gone ->
    xstep x (drop_stdin tty (x <| x_input := Gone |>))
(** The process, or one that it started and that holds its outputs open. *)
| proc_out x b :
    xstep x (x <| x_out := x_out x ++ b |>)
| proc_err x b :
    tty = false -> xstep x (x <| x_err := x_err x ++ b |>)
| proc_exit x r :
    x_proc x = Running -> may_exit (x_stdin x) (x_stdin_open x) r ->
    xstep x (x <| x_proc := Exited r |>)
(** The output tasks: a read gives some of what is there, is the end, or fails. *)
| pump_out x n :
    x_pump_out x = true -> (1 <= n <= CHUNK)%nat -> (x_out_at x + n <= length (x_out x))%nat ->
    xstep x (sends (x <| x_out_at := (x_out_at x + n)%nat |>) (Ok (GuestPb.Stdout (take n (drop (x_out_at x) (x_out x))))))
| pump_out_ends x :
    x_pump_out x = true -> xstep x (x <| x_pump_out := false |>)
| pump_err x n :
    x_pump_err x = true -> (1 <= n <= CHUNK)%nat -> (x_err_at x + n <= length (x_err x))%nat ->
    xstep x (sends (x <| x_err_at := (x_err_at x + n)%nat |>) (Ok (GuestPb.Stderr (take n (drop (x_err_at x) (x_err x))))))
| pump_err_ends x :
    x_pump_err x = true -> xstep x (x <| x_pump_err := false |>)
(** The handler: the break is looked for first; the child of a call that broke is killed
    as it is dropped; the output is drained until its tasks end or the grace is over. *)
| handler_broken x s :
    x_handler x = AtBreak -> x_slot x = Some s ->
    xstep x (sends (x <| x_handler := Done |> <| x_slot := None |> <| x_aborted := true |>
                      <| x_proc := match x_proc x with Running => Killed | p => p end |>) (Err s))
| handler_unbroken x :
    x_handler x = AtBreak -> x_slot x = None -> xstep x (x <| x_handler := AtWait |>)
| handler_pending x :
    x_handler x = AtWait -> x_proc x = Running -> xstep x (x <| x_handler := AtBreak |>)
| handler_exited x code :
    x_handler x = AtWait -> x_proc x = Exited (Ok code) ->
    xstep x (x <| x_handler := Draining (exit_of code) |> <| x_aborted := true |>)
| handler_lost x e :
    x_handler x = AtWait -> x_proc x = Exited (Err e) ->
    xstep x (sends (x <| x_handler := Done |>) (Err (io_err "waiting on the exec process" e)))
| handler_drained x code :
    x_handler x = Draining code ->
    xstep x (sends (x <| x_handler := Done |>) (Ok (GuestPb.Exit code))).

Definition reaches (inbound : list (res Status GuestPb.ExecFrame)) (x : Exec) : Prop :=
  rtc xstep (exec_init tty inbound) x.
End Exec.

(** * What an exec guarantees *)

(** What a client's stream says to the process before it ends, and the error it ends with. *)
Fixpoint stdin_of (l : list (res Status GuestPb.ExecFrame)) : list Z :=
  match l with
  | Ok (Some (GuestPb.Stdin b)) :: l => b ++ stdin_of l
  | Ok _ :: l => stdin_of l
  | Err _ :: _ | [] => []
  end.
Fixpoint breaks_with (l : list (res Status GuestPb.ExecFrame)) : option Status :=
  match l with
  | Ok _ :: l => breaks_with l
  | Err s :: _ => Some s
  | [] => None
  end.

(** What the client was sent of each output, and the answers that end an exec. *)
Definition stdout_part (i : res Status GuestPb.Frame) : list Z :=
  match i with Ok (GuestPb.Stdout b) => b | _ => [] end.
Definition stderr_part (i : res Status GuestPb.Frame) : list Z :=
  match i with Ok (GuestPb.Stderr b) => b | _ => [] end.
Definition is_ending (i : res Status GuestPb.Frame) : bool :=
  match i with Ok (GuestPb.Exit _) | Err _ => true | _ => false end.
Definition stdout_of (sent : list (res Status GuestPb.Frame)) : list Z := mjoin (stdout_part <$> sent).
Definition stderr_of (sent : list (res Status GuestPb.Frame)) : list Z := mjoin (stderr_part <$> sent).
Definition endings (sent : list (res Status GuestPb.Frame)) : list (res Status GuestPb.Frame) := List.filter is_ending sent.

(** An answer that ends an exec is true of the process or of the client's stream. *)
Definition true_answer (inbound : list (res Status GuestPb.ExecFrame)) (p : Proc) (i : res Status GuestPb.Frame) : Prop :=
  match i with
  | Ok (GuestPb.Exit c) => exists code, p = Exited (Ok code) /\ c = exit_of code
  | Err s => breaks_with inbound = Some s \/ (exists e, p = Exited (Err e) /\ s = io_err "waiting on the exec process" e)
  | _ => False
  end.

(** The input: what the process was sent is the beginning of what the client said; the task
    knows how the stream ended; the process's input is closed only once the client has said
    all, has been found broken, or the exec is over. *)
Record input_ok (refuses : bool) (inbound : list (res Status GuestPb.ExecFrame)) (x : Exec) : Prop := {
  ok_stdin : x_stdin x `prefix_of` stdin_of inbound;
  ok_reading : x_input x = Reading ->
    x_stdin x ++ stdin_of (x_inbound x) = stdin_of inbound /\ breaks_with (x_inbound x) = breaks_with inbound;
  ok_finished : x_input x = Ending PeerFinished -> refuses = false ->
    x_stdin x = stdin_of inbound /\ breaks_with inbound = None;
  ok_broken : forall s, x_input x = Ending (Broken s) -> breaks_with inbound = Some s;
  ok_slot : forall s, x_slot x = Some s -> breaks_with inbound = Some s;
  ok_reported : x_input x = Reported -> x_aborted x = true \/ x_slot x <> None;
  ok_open : x_input x <> Gone -> x_stdin_open x = true;
  ok_closed : x_stdin_open x = false -> refuses = false ->
    x_aborted x = true \/ x_slot x <> None \/ (x_stdin x = stdin_of inbound /\ breaks_with inbound = None) }.

(** The output: what the client was sent of each output is the beginning of it, in order. *)
Definition output_ok (x : Exec) : Prop :=
  (stdout_of (x_sent x) = take (x_out_at x) (x_out x) /\ (x_out_at x <= length (x_out x))%nat) /\
  (stderr_of (x_sent x) = take (x_err_at x) (x_err x) /\ (x_err_at x <= length (x_err x))%nat).

(** The answer: none before the handler is done and one after, and it is true. *)
Definition answer_ok (inbound : list (res Status GuestPb.ExecFrame)) (x : Exec) : Prop :=
  match x_handler x with
  | AtBreak | AtWait => endings (x_sent x) = [] /\ x_proc x <> Killed
  | Draining c => endings (x_sent x) = [] /\ true_answer inbound (x_proc x) (Ok (GuestPb.Exit c))
  | Done => exists i, endings (x_sent x) = [i] /\ true_answer inbound (x_proc x) i
  end.

Lemma stdout_of_app a b : stdout_of (a ++ b) = stdout_of a ++ stdout_of b.
Proof. unfold stdout_of. by rewrite fmap_app, join_app. Qed.
Lemma stderr_of_app a b : stderr_of (a ++ b) = stderr_of a ++ stderr_of b.
Proof. unfold stderr_of. by rewrite fmap_app, join_app. Qed.
Lemma endings_app a b : endings (a ++ b) = endings a ++ endings b.
Proof. apply List.filter_app. Qed.

(** Reading on from where the output was left. *)
Lemma take_more {A} (l : list A) at_ n : take at_ l ++ take n (drop at_ l) = take (at_ + n) l.
Proof. by rewrite <- take_take_drop. Qed.
Lemma take_written {A} (l k : list A) n : (n <= length l)%nat -> take n (l ++ k) = take n l.
Proof. intros. by rewrite take_app_le. Qed.

Ltac exec_simpl :=
  unfold sends, drop_stdin in *;
  cbn [x_inbound x_input x_aborted x_slot x_stdin x_stdin_open x_sizes x_proc x_out x_out_at x_err x_err_at x_pump_out
       x_pump_err x_handler x_sent set_field rebuild_Exec] in *;
  rewrite ?stdout_of_app, ?stderr_of_app, ?endings_app.

Lemma stdin_of_skip f l : (forall b, f <> Some (GuestPb.Stdin b)) -> stdin_of (Ok f :: l) = stdin_of l.
Proof. intros Hf. destruct f as [[]|]; try done. by destruct (Hf b). Qed.

Ltac exec_input :=
  match goal with
  | H : x_input _ <> Gone -> x_stdin_open _ = true |- x_stdin_open _ = true => apply H; congruence
  | |- (_ ++ _) ++ _ = _ /\ _ => by rewrite <- app_assoc
  | E : _ ++ stdin_of (Ok _ :: _) = _ |- _ => by rewrite stdin_of_skip in E
  | Hb : forall s, x_input ?x = Ending (Broken s) -> _, H : x_input ?x = Ending (Broken ?s), E : Some ?s = Some _ |- _ =>
      injection E as <-; exact (Hb _ H)
  | H : x_input _ = Reported -> _ |- _ \/ _ => destruct H; tauto
  | H : x_input _ <> Gone -> x_stdin_open _ = true, H' : x_stdin_open _ = false |- _ =>
      exfalso; rewrite H in H' by congruence; discriminate
  | E : _ = stdin_of ?l |- _ `prefix_of` stdin_of ?l => rewrite <- E; apply prefix_app; eauto using prefix_app_r, prefix_take
  | |- _ => congruence
  end.

Lemma xstep_input tty refuses may_exit inbound x y :
  input_ok refuses inbound x -> xstep tty refuses may_exit x y -> input_ok refuses inbound y.
Proof.
  intros Hx Hs. destruct Hs; destruct Hx; destruct tty; constructor; exec_simpl; try done; intros;
    try (destruct (ok_reading0 ltac:(done)) as [Er Eb]; rewrite ?H, ?H0, ?H1 in Er, Eb; try (rewrite stdin_of_skip in Er by done); cbn [stdin_of breaks_with] in Er, Eb).
  all: try (rewrite ?app_nil_r in *; by auto).
  all: exec_input.
Qed.

Lemma xstep_output tty refuses may_exit x y : output_ok x -> xstep tty refuses may_exit x y -> output_ok y.
Proof.
  intros [[Ho Hol] [He Hel]] Hs. destruct Hs; destruct tty; unfold output_ok; exec_simpl; try done;
    rewrite ?Ho, ?He; unfold stdout_of, stderr_of; simpl; rewrite ?app_nil_r, ?take_more, ?length_app;
    rewrite ?(take_written _ b) by done; split_and!; done || lia.
Qed.

Lemma endings_stdout b : endings [Ok (GuestPb.Stdout b)] = [].
Proof. done. Qed.
Lemma endings_stderr b : endings [Ok (GuestPb.Stderr b)] = [].
Proof. done. Qed.

(** The answer of an exec whose process still runs is about the client's stream. *)
Lemma true_answer_later inbound i r : true_answer inbound Running i -> true_answer inbound (Exited r) i.
Proof. destruct i as [[]|]; try done; [by intros (? & ? & _)|]. intros [?|(? & ? & _)]; [by left|done]. Qed.

Lemma xstep_answer tty refuses may_exit inbound x y :
  input_ok refuses inbound x -> answer_ok inbound x -> xstep tty refuses may_exit x y -> answer_ok inbound y.
Proof.
  intros Hi Ha Hs. unfold answer_ok in *.
  destruct Hs; destruct tty; exec_simpl; try done; rewrite ?endings_stdout, ?endings_stderr, ?app_nil_r; try done.
  all: match goal with
       | H : x_handler _ = _ |- _ => rewrite H in Ha; destruct Ha as [Ee Hp]; rewrite ?Ee
       | H : x_proc _ = Running |- _ => rewrite H in Ha
       end.
  1-2: destruct (x_handler x); [by destruct Ha|by destruct Ha|by destruct Ha as [? (? & ? & _)]|];
       destruct Ha as (i & ? & ?); exists i; auto using true_answer_later.
  all: try (split; [done|]; try done; unfold true_answer; by eauto).
  all: eexists; split; [reflexivity|]; try done; unfold true_answer; eauto using ok_slot.
Qed.

Lemma exec_reachable tty refuses may_exit inbound x :
  reaches tty refuses may_exit inbound x -> input_ok refuses inbound x /\ output_ok x /\ answer_ok inbound x.
Proof.
  unfold reaches. revert x.
  refine (rtc_ind_r (fun x => input_ok refuses inbound x /\ output_ok x /\ answer_ok inbound x) _ _ _).
  - split_and!; [|done|done]. constructor; try done. apply prefix_nil.
  - intros y z _ Hs (Hi & Ho & Ha). split_and!; eauto using xstep_input, xstep_output, xstep_answer.
Qed.

(** An exit frame that was sent is the answer. *)
Lemma exit_is_true inbound x c :
  answer_ok inbound x -> Ok (GuestPb.Exit c) ∈ x_sent x -> exists code, x_proc x = Exited (Ok code) /\ c = exit_of code.
Proof.
  intros Ha Hc. assert (Ok (GuestPb.Exit c) ∈ endings (x_sent x)) as Hin.
  { apply list_elem_of_In, filter_In. split; [by apply list_elem_of_In|done]. }
  unfold answer_ok in Ha.
  destruct (x_handler x); [destruct Ha as [E _]; rewrite E in Hin; by apply not_elem_of_nil in Hin..|].
  destruct Ha as (i & E & Ht). rewrite E in Hin. apply list_elem_of_singleton in Hin as <-. exact Ht.
Qed.

(** Whatever the interleaving of an exec's tasks with its process, what the process was
    sent is the beginning of what the client said; what the client was sent of each output
    is the beginning of it, in order; and the client gets at most one answer, which is the
    process's own exit code, or the error its own stream ended with, or a failure to wait
    for the process. While the exec goes on, the process sees the end of its input only
    after all the client said, or after the break of the client's stream was reported. *)
Theorem exec_is_truthful tty refuses may_exit inbound x :
  reaches tty refuses may_exit inbound x ->
  x_stdin x `prefix_of` stdin_of inbound /\
  stdout_of (x_sent x) `prefix_of` x_out x /\ stderr_of (x_sent x) `prefix_of` x_err x /\
  (endings (x_sent x) = [] \/ exists i, endings (x_sent x) = [i] /\ true_answer inbound (x_proc x) i) /\
  (refuses = false -> x_stdin_open x = false -> x_aborted x = false -> x_slot x = None ->
     x_stdin x = stdin_of inbound /\ breaks_with inbound = None).
Proof.
  intros H. destruct (exec_reachable _ _ _ _ _ H) as (Hi & ((Ho & _) & (He & _)) & Ha). split_and!.
  - apply (ok_stdin _ _ _ Hi).
  - rewrite Ho. apply prefix_take.
  - rewrite He. apply prefix_take.
  - unfold answer_ok in Ha. destruct (x_handler x); [left; apply Ha..|right; exact Ha].
  - intros Hr Hc Hab Hs. destruct (ok_closed _ _ _ Hi Hc Hr) as [?|[?|?]]; [congruence|congruence|done].
Qed.

(** Runs of one exec, step by step. *)
Ltac xgo step :=
  eapply rtc_l; [eapply step; cbn; solve [reflexivity | eauto | lia]|];
  unfold sends, drop_stdin; cbn [x_inbound x_input x_aborted x_slot x_stdin x_stdin_open x_sizes x_proc x_out x_out_at
    x_err x_err_at x_pump_out x_pump_err x_handler x_sent set_field rebuild_Exec app].

(** A process that ends, with success, only at the end of its input. *)
Definition at_eof (_ : list Z) (stdin_open : bool) (r : res string (option Z)) : Prop := stdin_open = false /\ r = Ok (Some 0).
Definition reset : Status := plain Unavailable "connection reset".
Definition cut_stream : list (res Status GuestPb.ExecFrame) := [Ok (Some (GuestPb.Stdin [1; 2])); Err reset].

(** The break of a stream is the answer to it. *)
Lemma exec_is_truthful_witness :
  exists x, reaches false false at_eof cut_stream x /\ x_sent x = [Err reset] /\
    (endings (x_sent x) = [] \/ exists i, endings (x_sent x) = [i] /\ true_answer cut_stream (x_proc x) i).
Proof.
  assert (exists x, reaches false false at_eof cut_stream x /\ x_sent x = [Err reset]) as (x & Hr & Hs).
  { eexists. split; [|shelve]. unfold reaches, exec_init, cut_stream.
    xgo input_stdin. xgo input_broken. xgo input_reports. xgo handler_broken. apply rtc_refl.
    Unshelve. reflexivity. }
  exists x. split_and!; [done|done|]. apply (exec_is_truthful _ _ _ _ _ Hr).
Defined.

(** The order of the handler's two looks does not by itself keep a broken stream from being
    answered as a success: the break can be reported, the process end on its closed input,
    between the look at the one and the look at the other. *)
Lemma break_can_race_the_exit :
  exists x, reaches false false at_eof cut_stream x /\ x_sent x = [Ok (GuestPb.Exit 0)] /\ breaks_with cut_stream = Some reset.
Proof.
  eexists. split_and!; [|shelve|reflexivity]. unfold reaches, exec_init, cut_stream.
  xgo handler_unbroken. xgo input_stdin. xgo input_broken. xgo input_reports. xgo input_drops.
  eapply rtc_l; [eapply (proc_exit _ _ _ _ (Ok (Some 0))); [reflexivity|split; reflexivity]|].
  xgo handler_exited. xgo handler_drained. apply rtc_refl.
  Unshelve. reflexivity.
Qed.

(** The exit frame is not always the last: what a process left behind writes can follow it. *)
Lemma output_can_follow_the_exit :
  exists x, reaches false false at_eof [] x /\ x_sent x = [Ok (GuestPb.Exit 0); Ok (GuestPb.Stdout [7])].
Proof.
  eexists. split; [|shelve]. unfold reaches, exec_init.
  xgo input_finished. xgo input_shutdown.
  eapply rtc_l; [eapply (proc_exit _ _ _ _ (Ok (Some 0))); [reflexivity|split; reflexivity]|].
  xgo handler_unbroken. xgo handler_exited. xgo handler_drained.
  eapply rtc_l; [apply (proc_out _ _ _ _ [7])|].
  eapply rtc_l; [apply (pump_out _ _ _ _ 1); [reflexivity|unfold CHUNK; lia|reflexivity]|]. apply rtc_refl.
  Unshelve. reflexivity.
Qed.

(** * The environment of what the agent starts *)

(** What a process gets of a variable: what its own settings say, or else the agent's, unless
    it is one the agent was started with. *)
Definition given (inherited settings : gmap string string) (var : string) : option string :=
  match settings !! var with
  | Some v => Some v
  | None => if decide (var ∈ BOOTSTRAP_ENV_VARS) then None else inherited !! var
  end.

Lemma fold_env_remove l c var :
  c_env (foldl env_remove c l) !! var = if decide (var ∈ l) then Some None else c_env c !! var.
Proof.
  revert c. induction l as [|v l IH]; intros c; [done|]. cbn [foldl]. rewrite IH.
  unfold env_remove. cbn [c_env set_field rebuild_Command].
  destruct (decide (var ∈ l)); [by rewrite decide_True by set_solver|].
  destruct (decide (var = v)) as [->|Hn].
  - by rewrite lookup_insert_eq, decide_True by set_solver.
  - by rewrite lookup_insert_ne, decide_False by set_solver.
Qed.

Lemma child_env_lookup inherited c var :
  child_env inherited c !! var = match c_env c !! var with Some v => v | None => inherited !! var end.
Proof.
  unfold child_env. rewrite lookup_omap, lookup_union, lookup_fmap.
  destruct (c_env c !! var) as [[v|]|]; simpl; destruct (inherited !! var); done.
Qed.

Lemma envs_lookup m c var : c_env (envs m c) !! var = match m !! var with Some v => Some (Some v) | None => c_env c !! var end.
Proof.
  unfold envs. cbn [c_env set_field rebuild_Command]. rewrite lookup_union, lookup_fmap.
  destruct (m !! var); simpl; by destruct (c_env c !! var).
Qed.

Lemma current_dir_env dir c : c_env (current_dir dir c) = c_env c.
Proof. unfold current_dir. by destruct (is_empty dir). Qed.

Lemma given_settings inherited m program args var :
  child_env inherited (envs m (scrubbed (command_new program args))) !! var = given inherited m var.
Proof.
  rewrite child_env_lookup, envs_lookup. unfold given, scrubbed. rewrite fold_env_remove.
  destruct (m !! var); [done|]. destruct (decide _); [done|]. cbn [c_env command_new]. by rewrite lookup_empty.
Qed.

(** no process the agent starts is given what the agent itself was started with, its
    token and the places of its keys among it: of a variable of that list a hook or a
    readiness check gets what the workload's settings say, a command run for a client what
    the request or else those settings say, and the workload gets the socket it may use, if
    it is served, and its settings for the others. All other variables are inherited. *)
Theorem agent_variables_stay (inherited : gmap string string) (var : string) :
  (forall program args settings dir,
     child_env inherited (run_command_line program args settings dir) !! var = given inherited settings var) /\
  (forall p start c, exec_command p start = Ok c ->
     child_env inherited c !! var = given inherited (GuestPb.start_env start ∪ env p) var) /\
  (forall p socket c, workload_command p socket = Some c ->
     child_env inherited c !! var = if decide (var = ENV_WORKLOAD_SOCKET) then socket else given inherited (env p) var).
Proof.
  split_and!.
  - intros program args settings dir. unfold run_command_line. rewrite child_env_lookup.
    cbn [c_env set_field rebuild_Command]. rewrite current_dir_env, <- child_env_lookup. apply given_settings.
  - intros p start c. unfold exec_command. destruct (GuestPb.cmd start) as [|program args]; [done|]. intros [= <-].
    rewrite child_env_lookup, current_dir_env, envs_lookup, <- (given_settings inherited _ program args), child_env_lookup, !envs_lookup.
    rewrite lookup_union. destruct (GuestPb.start_env start !! var); simpl; [by destruct (env p !! var)|].
    by destruct (env p !! var).
  - intros p socket c. unfold workload_command. destruct (start_cmd p) as [|program args]; [done|]. intros [= <-].
    rewrite child_env_lookup, current_dir_env. destruct (decide (var = ENV_WORKLOAD_SOCKET)) as [->|Hn].
    + destruct socket as [path|]; cbn [set_env env_remove c_env set_field rebuild_Command]; by rewrite lookup_insert_eq.
    + rewrite <- (given_settings inherited _ program args), child_env_lookup.
      destruct socket as [path|]; cbn [set_env env_remove c_env set_field rebuild_Command]; by rewrite !lookup_insert_ne.
Qed.

Lemma agent_variables_stay_witness :
  child_env (<[ENV_TOKEN := "secret"]> (<["PATH" := "/bin"]> ∅)) (run_command_line "sh" [] ∅ empty_str) !! ENV_TOKEN = None /\
  child_env (<[ENV_TOKEN := "secret"]> (<["PATH" := "/bin"]> ∅)) (run_command_line "sh" [] ∅ empty_str) !! "PATH" = Some "/bin".
Proof. split; rewrite (proj1 (agent_variables_stay _ _)); vm_compute; reflexivity. Defined.
