(* ===== verification/Passthrough.v ===== *)
(** The way through the node to a guest: passthrough.rs and guest.rs of
    src/crates/barista-node-agent. A client's exec and file transfers are carried to the
    guest agent of its instance and back.

    What the guest answers a call is a parameter of the handlers; [Transfer] below puts the
    guest agent itself there, behind a connection that may break. *)

From S2P Require Import Prelude Text Proto Journal Events Codec Objects Runtime Ops Executor Reconcile Reconciler Fleet Service Guest GuestSafety GuestExec.

(** * Messages ([barista.node.v1alpha1]) *)

Module NodePb.

Record TermSize := { rows : Z; cols : Z }.

Record ExecStart := {
  instance_id : string;
  cmd : list string;
  env : gmap string string;
  workdir : string;
  pty : bool;
  term_size : option TermSize;
  user_activity : bool }.

Inductive Frame : Type :=
| Start (s : ExecStart)
| Stdin (b : list Z)
| Stdout (b : list Z)
| Stderr (b : list Z)
| Resize (s : TermSize)
| Exit (code : Z).
Definition ExecFrame : Type := option Frame.

Record ReadFileRequest := { rf_instance_id : string; rf_path : string; rf_offset : Z; rf_limit : Z }.
Record FileChunk := { data : list Z; eof : bool }.

Record WriteOpen := { wo_instance_id : string; wo_path : string; wo_mode : Z }.
Inductive WriteFrame : Type :=
| Open (o : WriteOpen)
| Chunk (b : list Z).
Definition WriteFileRequest : Type := option WriteFrame.

End NodePb.

(** * Frames *)

Definition to_guest_term_size (s : NodePb.TermSize) : GuestPb.TermSize :=
  {| GuestPb.rows := NodePb.rows s; GuestPb.cols := NodePb.cols s |}.

Definition to_guest_start (s : NodePb.ExecStart) : GuestPb.ExecStart :=
  {| GuestPb.cmd := NodePb.cmd s; GuestPb.start_env := NodePb.env s; GuestPb.start_workdir := NodePb.workdir s;
     GuestPb.pty := NodePb.pty s; GuestPb.term_size := to_guest_term_size <$> NodePb.term_size s;
     GuestPb.user_activity := NodePb.user_activity s |}.

Definition to_guest_frame (frame : NodePb.ExecFrame) : option GuestPb.ExecFrame :=
  match frame with
  | None => None
  | Some (NodePb.Stdin bytes) => Some (Some (GuestPb.Stdin bytes))
  | Some (NodePb.Resize size) => Some (Some (GuestPb.Resize (to_guest_term_size size)))
  | Some (NodePb.Start _ | NodePb.Stdout _ | NodePb.Stderr _ | NodePb.Exit _) => None
  end.

Definition to_node_frame (frame : GuestPb.ExecFrame) : option NodePb.Frame :=
  match frame with
  | None => None
  | Some (GuestPb.Stdout bytes) => Some (NodePb.Stdout bytes)
  | Some (GuestPb.Stderr bytes) => Some (NodePb.Stderr bytes)
  | Some (GuestPb.Exit code) => Some (NodePb.Exit code)
  | Some (GuestPb.Start _ | GuestPb.Stdin _ | GuestPb.Resize _) => None
  end.

(** The client's frames as the guest is sent them, and the break reported beside them. *)
Fixpoint exec_frames (inbound : list (res Status NodePb.ExecFrame)) : list GuestPb.ExecFrame * option Status :=
  match inbound with
  | [] => ([], None)
  | Err status :: _ => ([], Some status)
  | Ok frame :: rest =>
      let '(frames, broke) := exec_frames rest in
      (match to_guest_frame frame with Some f => f :: frames | None => frames end, broke)
  end.

(** The task that answers the client: of the guest's items and the break, whichever it takes
    first when both are there. *)
Inductive relays (broke : option Status) : list (res Status GuestPb.ExecFrame) -> list (res Status NodePb.Frame) -> Prop :=
| relay_broke s items : broke = Some s -> relays broke items [Err s]
| relay_end : relays broke [] []
| relay_frame f g items out :
    to_node_frame f = Some g -> relays broke items out -> relays broke (Ok f :: items) (Ok g :: out)
| relay_skip f items out :
    to_node_frame f = None -> relays broke items out -> relays broke (Ok f :: items) out
| relay_error s items out :
    relays broke items out -> relays broke (Err s :: items) (Err s :: out).

Definition to_node_chunk (c : GuestPb.FileChunk) : NodePb.FileChunk :=
  {| NodePb.data := GuestPb.data c; NodePb.eof := GuestPb.eof c |}.

(** The chunks of a file, up to the first failure. *)
Fixpoint forward_chunks (items : list (res Status GuestPb.FileChunk)) : list (res Status NodePb.FileChunk) :=
  match items with
  | [] => []
  | Ok c :: items => Ok (to_node_chunk c) :: forward_chunks items
  | Err s :: _ => [Err s]
  end.

(** The chunks of an upload as the guest is sent them, and the failure recorded beside them. *)
Fixpoint write_chunks (inbound : list (res Status NodePb.WriteFileRequest)) : list GuestPb.WriteFileRequest * option Status :=
  match inbound with
  | [] => ([], None)
  | Err status :: _ => ([], Some status)
  | Ok (Some (NodePb.Chunk bytes)) :: rest =>
      let '(frames, failure) := write_chunks rest in (Some (GuestPb.Chunk bytes) :: frames, failure)
  | Ok (Some (NodePb.Open _)) :: _ => ([], Some (plain InvalidArgument "`open` may only be the first frame"))
  | Ok None :: rest => write_chunks rest
  end.

(** * The handlers *)

Inductive GuestError : Type :=
| Unsupported (runtime : string)
| Unreachable (text : string).

Section Passthrough.
Context {W R : Type} (rt : Runtime W).
Context (clock : nat -> Z) (faults : nat -> option string).
(** Whether the runtime has a guest channel, and what a connected guest answers. *)
Context (guest_channel : bool).
Context (guest_exec : W -> string -> list GuestPb.ExecFrame -> W * res Status (list (res Status GuestPb.ExecFrame))).
Context (guest_read_file : W -> string -> GuestPb.ReadFileRequest -> W * res Status (list (res Status GuestPb.FileChunk))).
Context (guest_write_file : W -> string -> list GuestPb.WriteFileRequest -> W * res Status Z).
(** The [Display] form of a status. *)
Context (status_text : Status -> string).
(** Whether, of a guest's refusal and a failure further on in the client's stream, the
    failure was read first. *)
Context (failure_first : bool).

#[local] Abbreviation M := (M W R).
#[local] Abbreviation reading := (@reading W R faults).
#[local] Abbreviation emit_event := (@emit_event W R clock faults).

(** [guest::connect] *)
Definition connect (row : InstanceRow) : M (res GuestError unit) :=
  if guest_channel then
    let! r := ask (fun s => g_connect rt s row) in
    ret (res_map_err Unreachable r)
  else ret (Err (Unsupported (rt_name rt))).

Definition open_guest (iid : string) : M (res Status unit) :=
  let! r := reading (Journal.get_instance iid) in
  match r with
  | Err e => ret (Err (internal e))
  | Ok None => ret (Err (no_instance_found iid))
  | Ok (Some row) =>
      if negb (bool_decide (ir_state row = InstanceState.Running)) then
        ret (Err (status_with_reason FailedPrecondition ErrorReason.GuestUnreachable
                    ("instance " +:+ iid +:+ " is " +:+ InstanceState.debug (ir_state row) +:+ ", not RUNNING")))
      else
        let! c := connect row in
        match c with
        | Ok _ => ret (Ok tt)
        | Err (Unsupported runtime) =>
            ret (Err (status_with_reason FailedPrecondition ErrorReason.CapabilityMissing
                        ("runtime '" +:+ runtime +:+ "' provides no guest channel")))
        | Err (Unreachable e) =>
            let! _ := emit_event (degradation iid empty_str ("GUEST_UNREACHABLE: " +:+ e)) in
            ret (Err (status_with_reason Unavailable ErrorReason.GuestUnreachable e))
        end
  end.

(** The guest is opened and the use of it noted. *)
Definition with_guest {A} (iid : string) (k : M (res Status A)) : M (res Status A) :=
  let! opened := open_guest iid in
  match opened with
  | Err s => ret (Err s)
  | Ok _ =>
      let! _ := note_activity clock faults iid in
      k
  end.

(** The guest's items and the break of the client's stream, which [relays] answers from. *)
Definition exec (inbound : list (res Status NodePb.ExecFrame)) : M (res Status (list (res Status GuestPb.ExecFrame) * option Status)) :=
  match inbound with
  | Ok (Some (NodePb.Start start)) :: rest =>
      if is_empty (NodePb.instance_id start) then ret (Err (plain InvalidArgument "start.instance_id is required"))
      else
        with_guest (NodePb.instance_id start)
          (let '(frames, broke) := exec_frames rest in
           let! r := substrate (fun w => guest_exec w (NodePb.instance_id start) (Some (GuestPb.Start (to_guest_start start)) :: frames)) in
           ret match r with
               | Ok items => Ok (items, broke)
               | Err e => Err (status_with_reason Unavailable ErrorReason.GuestUnreachable ("guest exec: " +:+ status_text e))
               end)
  | Ok _ :: _ => ret (Err (plain InvalidArgument "the first Exec frame must be `start`"))
  | Err status :: _ => ret (Err status)
  | [] => ret (Err (plain InvalidArgument "Exec stream closed before `start`"))
  end.

Definition read_file (r : NodePb.ReadFileRequest) : M (res Status (list (res Status NodePb.FileChunk))) :=
  with_guest (NodePb.rf_instance_id r)
    (let! a := substrate (fun w => guest_read_file w (NodePb.rf_instance_id r)
                 {| GuestPb.rf_path := NodePb.rf_path r; GuestPb.rf_offset := NodePb.rf_offset r; GuestPb.rf_limit := NodePb.rf_limit r |}) in
     ret (let? items := a in Ok (forward_chunks items))).

(** [failure] is read after the guest's answer: a guest that accepts the upload has read
    the stream to its end, and so has whoever writes [failure]. *)
Definition write_file (inbound : list (res Status NodePb.WriteFileRequest)) : M (res Status Z) :=
  match inbound with
  | Ok (Some (NodePb.Open open)) :: rest =>
      with_guest (NodePb.wo_instance_id open)
        (let '(frames, failure) := write_chunks rest in
         let first := {| GuestPb.wo_path := NodePb.wo_path open; GuestPb.wo_mode := NodePb.wo_mode open |} in
         let! written := substrate (fun w => guest_write_file w (NodePb.wo_instance_id open) (Some (GuestPb.Open first) :: frames)) in
         let failed := match written with Ok _ => failure | Err _ => if failure_first then failure else None end in
         ret match failed with
             | Some status => Err (plain (status_code status)
                                ("the client's WriteFile stream ended early, so " +:+ NodePb.wo_path open +:+
                                 " is incomplete: " +:+ status_message status))
             | None => written
             end)
  | Ok _ :: _ => ret (Err (plain InvalidArgument "the first WriteFile frame must be `open`"))
  | Err status :: _ => ret (Err status)
  | [] => ret (Err (plain InvalidArgument "WriteFile stream closed before `open`"))
  end.
End Passthrough.

(** * What passes through *)

(** The bytes of a client's upload whose stream ended as it should. *)
Fixpoint upload_payload (inbound : list (res Status NodePb.WriteFileRequest)) : option (list Z) :=
  match inbound with
  | [] => Some []
  | Ok (Some (NodePb.Chunk b)) :: l => app b <$> upload_payload l
  | Ok None :: l => upload_payload l
  | _ => None
  end.

(** Frames on their way: all of them and the end of the stream, or some of them and a break
    or a silence. *)
Definition arrives {T} (frame : T) : Arrival T := Arrived (Ok frame).
Inductive carried {T} (frames : list T) : list (Arrival T) -> Prop :=
| carried_whole : carried frames (arrives <$> frames)
| carried_cut k a : (forall f, a <> arrives f) -> carried frames ((arrives <$> take k frames) ++ [a]).

Lemma payload_cut l a : (forall f, a <> arrives f) -> payload (l ++ [a]) = None.
Proof.
  intros Ha. induction l as [|[[[[o|b]|]|s]|] l IH]; cbn [app payload]; try done; [|by rewrite IH].
  destruct a as [[f|s]|]; [by destruct (Ha f)|done|done].
Qed.

Lemma write_chunks_payload inbound frames failure :
  write_chunks inbound = (frames, failure) ->
  exists bytes, payload (arrives <$> frames) = Some bytes /\
    upload_payload inbound = match failure with None => Some bytes | Some _ => None end.
Proof.
  revert frames. induction inbound as [|[[[o|b]|]|s] l IH]; intros frames; cbn [write_chunks upload_payload].
  - intros [= <- <-]. by exists [].
  - intros [= <- <-]. by exists [].
  - destruct (write_chunks l) as [fs f] eqn:E. intros [= <- <-]. destruct (IH _ eq_refl) as (bytes & Hp & Hu).
    exists (b ++ bytes). rewrite fmap_cons. unfold arrives at 1. cbn [payload]. rewrite Hp, Hu. by destruct f.
  - apply IH.
  - intros [= <- <-]. by exists [].
Qed.

Section Opened.
Context {W R : Type} (rt : Runtime W) (clock : nat -> Z) (faults : nat -> option string) (guest_channel : bool).
#[local] Abbreviation World := (World W R).

Lemma emit_event_sub ev (w w' : World) u : emit_event clock faults ev w = (w', u) -> w_sub w' = w_sub w.
Proof.
  unfold emit_event, bind, Runtime.now_ms, journal, ret. cbn. destruct (faults _); by intros [= <- _].
Qed.

Lemma note_activity_sub iid (w w' : World) u : note_activity clock faults iid w = (w', u) -> w_sub w' = w_sub w.
Proof.
  unfold note_activity, bind, Runtime.reading, journal, Runtime.now_ms, ret.
  destruct (faults (w_calls w)); [by intros [= <- _]|]. cbn.
  destruct (Journal.get_instance iid (w_db w)) as [row|]; [|by intros [= <- _]].
  destruct (_ =? 0); [by intros [= <- _]|]. cbn. destruct (faults _); by intros [= <- _].
Qed.

(** A guest that was opened is that of a running instance. *)
Lemma with_guest_ok {A} iid (k : M W R (res Status A)) (w w' : World) a :
  with_guest rt clock faults guest_channel iid k w = (w', Ok a) ->
  exists w1 row, w_sub w1 = w_sub w /\ k w1 = (w', Ok a) /\
    Journal.get_instance iid (w_db w) = Some row /\ ir_state row = InstanceState.Running.
Proof.
  unfold with_guest, open_guest, bind at 1 2. intros H.
  unfold Runtime.reading, journal in H. destruct (faults (w_calls w)); [done|]. cbn in H.
  destruct (Journal.get_instance iid (w_db w)) as [row|] eqn:Er; [|done].
  destruct (bool_decide (ir_state row = InstanceState.Running)) eqn:Es; [|done]. cbn [negb] in H.
  apply bool_decide_eq_true in Es. unfold bind in H.
  destruct (connect rt guest_channel row _) as [w2 c] eqn:Ec.
  assert (w_sub w2 = w_sub w) as Ew2.
  { revert Ec. unfold connect, bind, ask, substrate, ret. destruct guest_channel; cbn; by intros [= <- _]. }
  destruct c as [u|[rn|e]]; cbv beta iota in H; [|done|].
  - unfold ret in H. cbv beta iota in H. destruct (note_activity clock faults iid w2) as [w3 u'] eqn:En.
    apply note_activity_sub in En.
    exists w3, row. by rewrite En, Ew2.
  - destruct (emit_event clock faults (degradation iid empty_str ("GUEST_UNREACHABLE: " +:+ e)) w2) as [w3 u']. done.
Qed.
End Opened.

(** ** The node, a connection and the guest agent *)

Section Transfer.
Context {W R Os : Type} `{Mc : Machine Os} (rt : Runtime (W * Guest Os)).
Context (clock : nat -> Z) (faults : nat -> option string) (guest_channel failure_first : bool).
(** What the connection carries each way. *)
Context (up : list GuestPb.WriteFileRequest -> list (Arrival GuestPb.WriteFileRequest)).
Context (down : list (res Status GuestPb.FileChunk) -> list (res Status GuestPb.FileChunk)).
Context (reply : forall A, res Status A -> res Status A).
Hypothesis up_carries : forall frames, carried frames (up frames).
Hypothesis down_carries : forall items, down items = items \/ exists k s, (k < length items)%nat /\ down items = take k items ++ [Err s].
Hypothesis reply_or_error : forall A (r : res Status A), reply A r = r \/ exists s, reply A r = Err s.

(** The guest agent at the other end. *)
Definition agent_write_file (w : W * Guest Os) (_ : string) (frames : list GuestPb.WriteFileRequest) : (W * Guest Os) * res Status Z :=
  let '(g, r) := Guest.write_file (up frames) (snd w) in ((fst w, g), reply Z r).
Definition agent_read_file (w : W * Guest Os) (_ : string) (r : GuestPb.ReadFileRequest)
    : (W * Guest Os) * res Status (list (res Status GuestPb.FileChunk)) :=
  let '(g, a) := Guest.read_file r (snd w) in ((fst w, g), reply _ (let? items := a in Ok (down items))).

#[local] Abbreviation World := (World (W * Guest Os) R).
#[local] Abbreviation files w := (g_files (snd (w_sub w))).

Lemma agent_write_file_ok w iid o frames w' n :
  agent_write_file w iid (Some (GuestPb.Open o) :: frames) = (w', Ok n) ->
  exists bytes f, payload (arrives <$> frames) = Some bytes /\ n = wrap_u64 (Z.of_nat (length bytes)) /\
    g_files (snd w') = <[GuestPb.wo_path o := f]> (g_files (snd w)) /\ f_data f = bytes.
Proof.
  unfold agent_write_file. destruct (Guest.write_file _ (snd w)) as [g r] eqn:E. intros [= <- Hr].
  destruct (reply_or_error Z r) as [Ea|[s Ea]]; [|by rewrite Ea in Hr]. rewrite Ea in Hr. subst r.
  apply write_file_ok in E as (o' & rest & bytes & f & El & Hp & -> & Hf & Hd).
  destruct (up_carries (Some (GuestPb.Open o) :: frames)) as [|k a Ha].
  - injection El as <- <-. exists bytes, f. done.
  - destruct k as [|k]; [injection El as -> _; by destruct (Ha (Some (GuestPb.Open o')))|].
    cbn [take fmap list_fmap app] in El. injection El as _ <-. by rewrite payload_cut in Hp.
Qed.

(** An upload that is reported as written. *)
Lemma write_file_whole inbound (w w' : World) n :
  write_file rt clock faults guest_channel agent_write_file failure_first inbound w = (w', Ok n) ->
  exists o rest bytes f row,
    inbound = Ok (Some (NodePb.Open o)) :: rest /\ upload_payload rest = Some bytes /\
    n = wrap_u64 (Z.of_nat (length bytes)) /\
    files w' = <[NodePb.wo_path o := f]> (files w) /\ f_data f = bytes /\
    Journal.get_instance (NodePb.wo_instance_id o) (w_db w) = Some row /\ ir_state row = InstanceState.Running.
Proof.
  unfold write_file. destruct inbound as [|[[[o|b]|]|s] rest]; try done.
  intros H. apply with_guest_ok in H as (w1 & row & Ew & H & Hrow & Hst).
  destruct (write_chunks rest) as [frames failure] eqn:Ec. unfold bind, substrate in H.
  destruct (agent_write_file (w_sub w1) _ _) as [s1 written] eqn:Ea.
  destruct (write_chunks_payload _ _ _ Ec) as (bytes & Hp & Hu). unfold ret in H.
  destruct written as [m|e]; [|destruct failure_first, failure; done].
  destruct failure; [done|]. injection H as <- ->.
  apply agent_write_file_ok in Ea as (bytes' & f & Hp' & -> & Hf & Hd). rewrite Hp in Hp'. injection Hp' as <-.
  exists o, rest, bytes, f, row. cbn [w_sub set_field rebuild_World]. rewrite Hf, Ew. done.
Qed.

(** C28: an upload the node reports as written is whole: the client's stream opened the file
    of a running instance and ended as it should, the file in the guest then holds exactly
    the bytes of its chunks, in order, and the count is theirs. A stream that breaks or says
    something else, a connection that breaks and a guest that fails are all answered with an
    error. *)
Theorem uploads_are_whole_or_refused inbound (w w' : World) n :
  write_file rt clock faults guest_channel agent_write_file failure_first inbound w = (w', Ok n) ->
  exists o rest bytes f row,
    inbound = Ok (Some (NodePb.Open o)) :: rest /\ upload_payload rest = Some bytes /\
    n = wrap_u64 (Z.of_nat (length bytes)) /\
    files w' = <[NodePb.wo_path o := f]> (files w) /\ f_data f = bytes /\
    Journal.get_instance (NodePb.wo_instance_id o) (w_db w) = Some row /\ ir_state row = InstanceState.Running.
Proof. apply write_file_whole. Qed.

Lemma forward_chunked cs last :
  forward_chunks ((Ok ∘ chunk_of <$> cs) ++ [last]) =
  (Ok ∘ to_node_chunk ∘ chunk_of <$> cs) ++ [match last with Ok c => Ok (to_node_chunk c) | Err s => Err s end].
Proof. induction cs as [|c cs IH]; [by destruct last|]. cbn. f_equal. exact IH. Qed.

Lemma chunked_down whole failing items : chunked whole failing items -> chunked whole True (down items).
Proof.
  intros H. destruct (down_carries items) as [->|(k & s & Hk & ->)].
  - destruct H; [by apply chunked_whole|by apply chunked_cut].
  - assert (exists cs last, items = (Ok ∘ chunk_of <$> cs) ++ [last] /\
        Forall (fun c => 1 <= Z.of_nat (length c) <= FILE_CHUNK) cs /\ mjoin cs `prefix_of` whole) as (cs & last & -> & Hcs & Hp).
    { destruct H; eauto 6. eexists _, _. split_and!; [done|done|]. by subst. }
    rewrite length_app, length_fmap in Hk. simpl in Hk.
    rewrite take_app_le by (rewrite length_fmap; lia). rewrite <- fmap_take.
    apply chunked_cut; [by apply Forall_take| |done]. etransitivity; [|exact Hp].
    rewrite <- (take_drop k cs) at 2. rewrite join_app. by apply prefix_app_r.
Qed.

(** A download that is answered. *)
Lemma read_file_slice r (w w' : World) items :
  0 <= NodePb.rf_limit r ->
  read_file rt clock faults guest_channel agent_read_file r w = (w', Ok items) ->
  exists f cs, files w !! NodePb.rf_path r = Some f /\ files w' = files w /\
    Forall (fun c => 1 <= Z.of_nat (length c) <= FILE_CHUNK) cs /\
    let whole := slice (NodePb.rf_limit r) (drop (Z.to_nat (NodePb.rf_offset r)) (f_data f)) in
    (mjoin cs = whole /\ items = (Ok ∘ to_node_chunk ∘ chunk_of <$> cs) ++ [Ok (to_node_chunk eof_chunk)]) \/
    (mjoin cs `prefix_of` whole /\ exists s, items = (Ok ∘ to_node_chunk ∘ chunk_of <$> cs) ++ [Err s]).
Proof.
  intros Hl H. unfold read_file in H. apply with_guest_ok in H as (w1 & row & Ew & H & _).
  unfold bind, substrate in H. destruct (agent_read_file (w_sub w1) _ _) as [s1 a] eqn:Ea. unfold ret in H.
  destruct a as [l|e]; [|done]. injection H as <- <-. rewrite Ew in Ea. unfold agent_read_file in Ea.
  destruct (Guest.read_file _ (snd (w_sub w))) as [g b] eqn:Eg. injection Ea as <- Eb.
  destruct (reply_or_error _ (let? items := b in Ok (down items))) as [Er|[s Er]]; rewrite Er in Eb; [|done].
  destruct b as [its|]; [|done]. injection Eb as <-.
  apply read_file_ok in Eg as (f & Hf & Hg & Hc); [|done]. cbn [GuestPb.rf_path GuestPb.rf_offset GuestPb.rf_limit] in *.
  exists f. apply chunked_down in Hc. destruct Hc as [cs Hcs Hw|cs s Hcs Hp _]; exists cs; (split_and!; [done|exact Hg|done|]);
    [left|right]; rewrite forward_chunked; eauto.
Qed.
(** C29: a download is exactly the part of the guest's file that was asked for, from the offset
    up to the limit, in order, in chunks of at most 64 KiB and closed by the end mark; or it
    is the beginning of that part, closed by an error. It is never cut short in silence, and
    it changes no file. *)
Theorem downloads_are_the_slice r (w w' : World) items :
  0 <= NodePb.rf_limit r ->
  read_file rt clock faults guest_channel agent_read_file r w = (w', Ok items) ->
  exists f cs, files w !! NodePb.rf_path r = Some f /\ files w' = files w /\
    Forall (fun c => 1 <= Z.of_nat (length c) <= FILE_CHUNK) cs /\
    let whole := slice (NodePb.rf_limit r) (drop (Z.to_nat (NodePb.rf_offset r)) (f_data f)) in
    (mjoin cs = whole /\ items = (Ok ∘ to_node_chunk ∘ chunk_of <$> cs) ++ [Ok (to_node_chunk eof_chunk)]) \/
    (mjoin cs `prefix_of` whole /\ exists s, items = (Ok ∘ to_node_chunk ∘ chunk_of <$> cs) ++ [Err s]).
Proof. apply read_file_slice. Qed.
End Transfer.

(** ** An exec through the node *)

(** What a client says to a process before its stream ends. *)
Fixpoint node_stdin (inbound : list (res Status NodePb.ExecFrame)) : list Z :=
  match inbound with
  | Ok (Some (NodePb.Stdin b)) :: l => b ++ node_stdin l
  | Ok _ :: l => node_stdin l
  | Err _ :: _ | [] => []
  end.
Definition node_stdout_part (i : res Status NodePb.Frame) : list Z :=
  match i with Ok (NodePb.Stdout b) => b | _ => [] end.
Definition node_stderr_part (i : res Status NodePb.Frame) : list Z :=
  match i with Ok (NodePb.Stderr b) => b | _ => [] end.

(** The guest's frames as items of its stream. *)
Definition as_item (i : res Status GuestPb.Frame) : res Status GuestPb.ExecFrame :=
  match i with Ok f => Ok (Some f) | Err s => Err s end.

(** The node's frames as the guest's stream gets them: with their end, or cut by an error. *)
Inductive delivered (frames : list GuestPb.ExecFrame) : list (res Status GuestPb.ExecFrame) -> Prop :=
| delivered_whole : delivered frames (Ok <$> frames)
| delivered_cut k s : delivered frames ((Ok <$> take k frames) ++ [Err s]).

Lemma stdin_of_app a b : stdin_of ((Ok <$> a) ++ b) = stdin_of (Ok <$> a) ++ stdin_of b.
Proof.
  induction a as [|f a IH]; [done|]. cbn. destruct f as [[]|]; rewrite ?IH; try done. by rewrite <- app_assoc.
Qed.

Lemma exec_frames_stdin inbound frames broke :
  exec_frames inbound = (frames, broke) -> stdin_of (Ok <$> frames) = node_stdin inbound.
Proof.
  revert frames. induction inbound as [|[f|s] l IH]; intros frames; cbn [exec_frames]; [by intros [= <- <-]| |by intros [= <- <-]].
  destruct (exec_frames l) as [fs b]. intros [= <- <-]. specialize (IH _ eq_refl).
  destruct f as [[]|]; cbn [to_guest_frame node_stdin]; try done. cbn. by rewrite IH.
Qed.

Lemma delivered_stdin frames inbound : delivered frames inbound -> stdin_of inbound `prefix_of` stdin_of (Ok <$> frames).
Proof.
  intros [|k s]; [done|]. rewrite stdin_of_app. cbn [stdin_of]. rewrite app_nil_r.
  rewrite <- (take_drop k frames) at 2. rewrite fmap_app, stdin_of_app. by apply prefix_app_r.
Qed.

Lemma first_item item items sent :
  (item :: items) `prefix_of` (as_item <$> sent) ->
  exists i sent', sent = i :: sent' /\ item = as_item i /\ items `prefix_of` (as_item <$> sent').
Proof.
  destruct sent as [|i sent]; [by intros ?%prefix_nil_not|]. cbn. intros Hp. exists i, sent.
  split_and!; [done|by eapply prefix_cons_inv_1|by eapply prefix_cons_inv_2].
Qed.

(** What the client is sent of an output is the beginning of what the guest sent of it. *)
Lemma relays_output broke items out sent :
  relays broke items out -> items `prefix_of` (as_item <$> sent) ->
  mjoin (node_stdout_part <$> out) `prefix_of` stdout_of sent /\
  mjoin (node_stderr_part <$> out) `prefix_of` stderr_of sent /\
  (forall c, Ok (NodePb.Exit c) ∈ out -> Ok (GuestPb.Exit c) ∈ sent).
Proof.
  intros H. revert sent. induction H as [s items Hb| |f g items out Hf H IH|f items out Hf H IH|s items out H IH]; intros sent Hp.
  - split_and!; [apply prefix_nil..|]. intros c [?|?]%elem_of_cons; [done|by apply not_elem_of_nil in H].
  - split_and!; [apply prefix_nil..|]. intros c Hc. by apply not_elem_of_nil in Hc.
  - apply first_item in Hp as (i & sent' & -> & E & Hp). destruct (IH _ Hp) as (H1 & H2 & H3).
    destruct i as [fr|]; [|done]. injection E as ->.
    destruct fr; try done; injection Hf as <-; (split_and!; [try by apply prefix_app|try by apply prefix_app|]);
      intros c' [Hc|Hc]%elem_of_cons; try done; try (right; by apply H3). injection Hc as ->. by left.
  - apply first_item in Hp as (i & sent' & -> & E & Hp). destruct (IH _ Hp) as (H1 & H2 & H3).
    destruct i as [fr|]; [|done]. injection E as ->.
    destruct fr; try done; (split_and!; [done|done|]); intros c' Hc; right; by apply H3.
  - apply first_item in Hp as (i & sent' & -> & E & Hp). destruct (IH _ Hp) as (H1 & H2 & H3).
    destruct i as [fr|]; [done|]. split_and!; [done|done|]. intros c' [Hc|Hc]%elem_of_cons; [done|]. right. by apply H3.
Qed.

(** C30: an exec through the node is the guest's exec: whatever the interleaving in the guest,
    wherever either connection breaks and whichever of a break and an item the node takes
    first, the process is sent the beginning of what the client said, the client is sent the
    beginning of what each output said, in order, and an exit code it is told is the
    process's own. *)
Theorem exec_passes_through tty refuses may_exit client frames broke inbound x items out :
  exec_frames client = (frames, broke) -> delivered frames inbound ->
  reaches tty refuses may_exit inbound x ->
  items `prefix_of` (as_item <$> x_sent x) -> relays broke items out ->
  x_stdin x `prefix_of` node_stdin client /\
  mjoin (node_stdout_part <$> out) `prefix_of` x_out x /\
  mjoin (node_stderr_part <$> out) `prefix_of` x_err x /\
  (forall c, Ok (NodePb.Exit c) ∈ out -> exists code, x_proc x = Exited (Ok code) /\ c = exit_of code).
Proof.
  intros Hf Hd Hr Hi Ho. destruct (exec_reachable _ _ _ _ _ Hr) as (Hin & ((Eo & _) & (Ee & _)) & Ha).
  destruct (relays_output _ _ _ _ Ho Hi) as (H1 & H2 & H3). split_and!.
  - etransitivity; [apply (ok_stdin _ _ _ Hin)|]. rewrite <- (exec_frames_stdin _ _ _ Hf). by apply delivered_stdin.
  - etransitivity; [exact H1|]. rewrite Eo. apply prefix_take.
  - etransitivity; [exact H2|]. rewrite Ee. apply prefix_take.
  - intros c Hc. apply (exit_is_true _ _ _ Ha). by apply H3.
Qed.

(** The node's task may take the guest's exit, and the end of its stream, before a break of
    the client's stream that was reported first: the break is then never answered. *)
Lemma relay_can_lose_the_break s :
  relays (Some s) [Ok (Some (GuestPb.Exit 0))] [Ok (NodePb.Exit 0)].
Proof. by apply relay_frame, relay_end. Qed.

(** * Concrete transfers *)

(** A running instance with its guest. *)
Definition guest_with_file : Guest unit := plain_guest <| g_files := <["/in" := mkFile [1; 2; 3; 4; 5; 6; 7] false 420 None]> ∅ |>.
Definition transfer_world : World (list string * Guest unit) unit :=
  mkWorld (set_instance_state "i" InstanceState.Running 0 (w_db toy_created)) (w_store toy_created) (["i"], guest_with_file) 0 0 0 [].
Definition as_sent (frames : list GuestPb.WriteFileRequest) : list (Arrival GuestPb.WriteFileRequest) := arrives <$> frames.
Definition unchanged (items : list (res Status GuestPb.FileChunk)) : list (res Status GuestPb.FileChunk) := items.
Definition as_answered (A : Type) (r : res Status A) : res Status A := r.

Definition plain_upload : list (res Status NodePb.WriteFileRequest) :=
  [Ok (Some (NodePb.Open {| NodePb.wo_instance_id := "i"; NodePb.wo_path := "/out"; NodePb.wo_mode := 0 |}));
   Ok (Some (NodePb.Chunk [1; 2])); Ok None; Ok (Some (NodePb.Chunk [3]))].
Definition plain_written_world : World (list string * Guest unit) unit :=
  fst (write_file (R := unit) (with_fleet (Guest unit) toy_runtime) toy_clock no_faults true (agent_write_file as_sent as_answered) false
         plain_upload transfer_world).
Lemma plain_written_eq :
  write_file (R := unit) (with_fleet (Guest unit) toy_runtime) toy_clock no_faults true (agent_write_file as_sent as_answered) false
    plain_upload transfer_world = (plain_written_world, Ok 3).
Proof. vm_compute. reflexivity. Qed.

Lemma uploads_are_whole_or_refused_witness :
  exists path bytes f, upload_payload (tail plain_upload) = Some bytes /\
    g_files (snd (w_sub plain_written_world)) = <[path := f]> (g_files (snd (w_sub transfer_world))) /\ f_data f = bytes.
Proof.
  destruct (uploads_are_whole_or_refused (with_fleet (Guest unit) toy_runtime) toy_clock no_faults true false as_sent
              as_answered (fun fs => carried_whole fs) (fun _ _ => or_introl eq_refl) _ _ _ _ plain_written_eq)
    as (o & rest & bytes & f & row & Ei & Hp & _ & Hf & Hd & _).
  exists (NodePb.wo_path o), bytes, f. rewrite Ei. split_and!; [exact Hp|exact Hf|exact Hd].
Defined.

Definition plain_read : NodePb.ReadFileRequest :=
  {| NodePb.rf_instance_id := "i"; NodePb.rf_path := "/in"; NodePb.rf_offset := 1; NodePb.rf_limit := 5 |}.
Definition plain_read_world : World (list string * Guest unit) unit :=
  fst (read_file (R := unit) (with_fleet (Guest unit) toy_runtime) toy_clock no_faults true (agent_read_file unchanged as_answered)
         plain_read transfer_world).
Definition plain_items : list (res Status NodePb.FileChunk) :=
  Ok ∘ to_node_chunk <$> [chunk_of [2; 3; 4]; chunk_of [5; 6]; eof_chunk].
Lemma plain_read_eq :
  read_file (R := unit) (with_fleet (Guest unit) toy_runtime) toy_clock no_faults true (agent_read_file unchanged as_answered)
    plain_read transfer_world = (plain_read_world, Ok plain_items).
Proof. vm_compute. reflexivity. Qed.

Lemma downloads_are_the_slice_witness :
  g_files (snd (w_sub plain_read_world)) = g_files (snd (w_sub transfer_world)).
Proof.
  destruct (downloads_are_the_slice (with_fleet (Guest unit) toy_runtime) toy_clock no_faults true unchanged as_answered
              (fun _ => or_introl eq_refl) (fun _ _ => or_introl eq_refl) plain_read _ _ _ (Z.lt_le_incl 0 5 eq_refl) plain_read_eq)
    as (f & cs & _ & Hf & _). exact Hf.
Defined.

Definition typed : list (res Status NodePb.ExecFrame) := [Ok (Some (NodePb.Stdin [1; 2])); Ok (Some (NodePb.Exit 9)); Err reset].

Lemma exec_passes_through_witness :
  exists x, reaches false false at_eof [Ok (Some (GuestPb.Stdin [1; 2]))] x /\ x_stdin x = [1; 2] /\
    x_stdin x `prefix_of` node_stdin typed.
Proof.
  assert (exists x, reaches false false at_eof [Ok (Some (GuestPb.Stdin [1; 2]))] x /\ x_stdin x = [1; 2] /\ x_sent x = [])
    as (x & Hr & Hs & He).
  { eexists. split_and!; [|shelve|shelve]. unfold reaches, exec_init. xgo input_stdin. apply rtc_refl.
    Unshelve. all: reflexivity. }
  exists x. split_and!; [done|done|].
  apply (exec_passes_through false false at_eof typed [Some (GuestPb.Stdin [1; 2])] (Some reset) _ x [] [Err reset]
           eq_refl (delivered_whole _) Hr).
  - apply prefix_nil.
  - by apply relay_broke.
Defined.
