(* ===== verification/Docker.v ===== *)
(** The Docker implementation of the runtime trait, [FakeRuntime] of
    src/crates/barista-node-agent/src/runtime/fake.rs: what it asks of the daemon, the
    container it describes, and how it cuts a log into lines.

    The Docker daemon, through the bollard crate, is a parameter. *)

From S2P Require Import Prelude Text Proto Journal Codec Runtime HypemanClient Hypeman.
From Stdlib Require Import Ascii.

(** * The daemon *)

(** [DockerResponseServerError] and the other errors of the client; their texts. *)
Inductive DockerError : Type :=
| ServerError (status_code : Z) (text : string)
| ClientError (text : string).
Definition docker_error_text (e : DockerError) : string := match e with ServerError _ t | ClientError t => t end.
Definition is_absent (e : DockerError) : bool := match e with ServerError s _ => s =? 404 | ClientError _ => false end.

Record ContainerCreateBody := mkBody {
  cb_image : option string;
  cb_cmd : option (list string);
  cb_entrypoint : option (list string);
  cb_working_dir : option string;
  cb_labels : gmap string string;
  cb_env : list string;
  cb_binds : list string;
  cb_tmpfs : gmap string string }.
#[global] Instance rebuild_ContainerCreateBody : Rebuild ContainerCreateBody := fun b =>
  mkBody (cb_image b) (cb_cmd b) (cb_entrypoint b) (cb_working_dir b) (cb_labels b) (cb_env b) (cb_binds b) (cb_tmpfs b).

Inductive ContainerStatus : Type := EXITED | DEAD | OtherStatus.
Record ContainerState := {
  cs_status : option ContainerStatus;
  cs_oom_killed : option bool;
  cs_error : option string;
  cs_exit_code : option Z }.

Record Docker (D : Type) := {
  inspect_image : D -> string -> res DockerError unit;
  create_image : D -> string -> D * res DockerError unit;
  create_container : D -> string -> ContainerCreateBody -> D * res DockerError unit;
  start_container : D -> string -> D * res DockerError unit;
  stop_container : D -> string -> Z -> D * res DockerError unit;
  inspect_container : D -> string -> res DockerError (option ContainerState);
  remove_container : D -> string -> D * res DockerError unit;
  (** The labels of the containers that carry all the given ones. *)
  list_containers : D -> list string -> res DockerError (list (option (gmap string string)));
  (** The frames of a container's log, until they end or the daemon fails. *)
  container_logs : D -> string -> string -> bool -> list (res DockerError (list Z)) }.
Arguments inspect_image {D}. Arguments create_image {D}. Arguments create_container {D}. Arguments start_container {D}.
Arguments stop_container {D}. Arguments inspect_container {D}. Arguments remove_container {D}. Arguments list_containers {D}.
Arguments container_logs {D}.

(** * The runtime *)

Definition LABEL : string := "barista.instance_id".
Definition NODE_LABEL : string := "barista.node_id".
Definition GUEST_BIN_IN_SANDBOX : string := "/barista/barista-guest-agent".
Definition DEFAULT_SOCKET : string := "/run/barista/guest.sock".
Definition PAUSE_GRACE_SECONDS : Z := 10.
Definition LOG_FRAME_LIMIT : nat := Z.to_nat (256 * 1024).

Record FakeRuntime := { fr_node_id : string; fr_guest_bin : option string }.

Definition container_name (node_id instance_id : string) : string := "barista-" +:+ node_id +:+ "-" +:+ instance_id.

(** [FakeRuntime::image_of]: by digest when there is one. *)
Definition fake_image_of (spec : InstanceSpec) : res RuntimeError string :=
  match template spec with
  | None => Err (TemplateNotFound "spec.template missing")
  | Some t => match oci t with
              | Some o => Ok (if is_empty (digest o) then image o else image o +:+ "@" +:+ digest o)
              | None => Err (TemplateNotFound "template.oci missing")
              end
  end.

Section Inject.
(** [bootstrap::encode]: base64 of the message. *)
Context (encode_process : Process -> string) (encode_hooks : Hooks -> string).

Definition inject_guest_agent (config : ContainerCreateBody) (env : list string) (guest_bin : string) (spec : InstanceSpec)
    (guest : GuestBootstrap) : ContainerCreateBody * list string :=
  let env := env ++
    ["BARISTA_INSTANCE_TOKEN=" +:+ gb_token guest;
     "BARISTA_GUEST_SOCKET=" +:+ DEFAULT_SOCKET;
     "BARISTA_GUEST_PROCESS=" +:+ encode_process (default default_process (process spec));
     "BARISTA_GUEST_HOOKS=" +:+ encode_hooks (default default_hooks (hooks spec))] in
  (config <| cb_entrypoint := Some [GUEST_BIN_IN_SANDBOX; "serve"] |>
          <| cb_cmd := None |>
          <| cb_binds := cb_binds config ++ [guest_bin +:+ ":" +:+ GUEST_BIN_IN_SANDBOX +:+ ":ro"] |>
          <| cb_tmpfs := {["/run/barista" := "rw,mode=0700"]} |>, env).

(** The body [create] sends once the image is there; the environment's order is the map's. *)
Definition container_body (rt : FakeRuntime) (spec : InstanceSpec) (guest : GuestBootstrap) (img : string) : ContainerCreateBody :=
  let p := default default_process (process spec) in
  let env := match fr_guest_bin rt with
             | Some _ => []
             | None => (fun '(k, v) => k +:+ "=" +:+ v) <$> map_to_list (env p)
             end in
  let config := {|
    cb_image := Some img;
    cb_cmd := Some (start_cmd p);
    cb_entrypoint := None;
    cb_working_dir := if is_empty (workdir p) then None else Some (workdir p);
    cb_labels := <[LABEL := instance_id spec]> {[NODE_LABEL := fr_node_id rt]};
    cb_env := [];
    cb_binds := [];
    cb_tmpfs := ∅ |} in
  let '(config, env) := match fr_guest_bin rt with
                        | Some bin => inject_guest_agent config env bin spec guest
                        | None => (config, env)
                        end in
  config <| cb_env := env |>.
End Inject.

(** [x as i32] *)
Definition wrap_i32 (z : Z) : Z := (z + 2 ^ 31) mod 2 ^ 32 - 2 ^ 31.

(** ** Log lines *)

(** The lines a buffer holds, each without its end, and what follows the last. *)
Definition pop_cr (line : list Z) : list Z :=
  match last line with Some 13 => take (length line - 1) line | _ => line end.
Fixpoint cut_lines (line pending : list Z) : list (list Z) * list Z :=
  match pending with
  | [] => ([], line)
  | b :: rest =>
      if b =? 10 then let '(lines, tail) := cut_lines [] rest in (pop_cr line :: lines, tail)
      else cut_lines (line ++ [b]) rest
  end.

Definition frame_too_long : RuntimeError := Other "application log frame exceeded 256 KiB".

(** The task that reads the frames: the lines and the error, if any, that it sends. *)
Fixpoint log_task (frames : list (res DockerError (list Z))) (pending : list Z) : list (res RuntimeError (list Z)) :=
  match frames with
  | [] => match pending with [] => [] | _ => [Ok pending] end
  | Err e :: _ => [Err (Other (docker_error_text e))]
  | Ok frame :: frames =>
      let '(lines, tail) := cut_lines [] (pending ++ frame) in
      (Ok <$> lines) ++
      (if (LOG_FRAME_LIMIT <? length tail)%nat then [Err frame_too_long] else log_task frames tail)
  end.

Section Runtime.
Context {D : Type} (docker : Docker D).
Context (encode_process : Process -> string) (encode_hooks : Hooks -> string).
Context (ulids : nat -> string).
Context (rt : FakeRuntime).

(** The daemon's state, and how many names have been generated. *)
Definition FakeState : Type := D * nat.
#[local] Abbreviation F A := (Call FakeState A).
Definition daemon {A} (f : D -> D * A) : F A := fun s => let '(d, a) := f (fst s) in ((d, snd s), a).
Definition looking {A} (f : D -> A) : F A := fun s => (s, f (fst s)).
Definition container_of (iid : string) : string := container_name (fr_node_id rt) iid.
Definition failing (doing : string) (e : DockerError) : RuntimeError := Other (doing +:+ docker_error_text e).

Definition fake_create (spec : InstanceSpec) (guest : GuestBootstrap) : F (res RuntimeError unit) :=
  let@? img := pass_back (fake_image_of spec) or (fun e => e) in
  let@? absent := looking (fun d => match inspect_image docker d img with
                           | Ok _ => Ok false
                           | Err e => if is_absent e then Ok true else Err (failing ("inspecting image " +:+ img +:+ ": ") e)
                           end) or (fun e => e) in
  let@? _ := (if absent : bool then daemon (fun d => create_image docker d img) else pass_back (Ok tt))
             or (fun e => TemplateNotFound (img +:+ ": " +:+ docker_error_text e)) in
  if bool_decide (start_cmd (default default_process (process spec)) = []) then
    pass_back (Err (Other "spec.process.start_cmd is required"))
  else
    let body := container_body encode_process encode_hooks rt spec guest img in
    let@? _ := daemon (fun d => create_container docker d (container_of (instance_id spec)) body) or failing "create container: " in
    pass_back (Ok tt).

Definition fake_start (iid : string) : F (res RuntimeError unit) :=
  let@? _ := daemon (fun d => start_container docker d (container_of iid)) or failing "start container: " in
  pass_back (Ok tt).

Definition fake_stop (iid : string) (grace_seconds : Z) : F (res RuntimeError unit) :=
  let@? _ := daemon (fun d => stop_container docker d (container_of iid) (wrap_i32 grace_seconds)) or failing "stop container: " in
  pass_back (Ok tt).

Definition fake_stop_status (iid : string) (d : D) : res RuntimeError (option StopStatus) :=
  match inspect_container docker d (container_of iid) with
  | Err e => if is_absent e then Ok None else Err (failing ("inspecting " +:+ iid +:+ " for its stop reason: ") e)
  | Ok None => Ok None
  | Ok (Some state) =>
      match cs_status state with
      | Some EXITED | Some DEAD =>
          let detail := match cs_oom_killed state, cs_error state with
                        | Some true, _ => "the workload was killed for exceeding its memory limit"
                        | _, Some error => error
                        | _, None => empty_str
                        end in
          Ok (Some {| ss_exit_code := wrap_i32 <$> cs_exit_code state; ss_detail := detail |})
      | _ => Ok None
      end
  end.

Definition fake_pause (iid : string) : F (res RuntimeError SnapshotRef) :=
  let@? _ := fake_stop iid PAUSE_GRACE_SECONDS or (fun e => e) in
  fun s => ((fst s, S (snd s)),
            Ok {| ref_snapshot_id := "disk-" +:+ ulids (snd s); ref_kind := SnapshotKind.DiskOnly; ref_size_bytes := 0 |}).

Definition fake_destroy (iid : string) : F (res RuntimeError unit) :=
  let@ r := daemon (fun d => remove_container docker d (container_of iid)) in
  pass_back match r with
            | Ok _ => Ok tt
            | Err e => if is_absent e then Ok tt else Err (failing "remove container: " e)
            end.

Definition fake_list_labeled (d : D) : res RuntimeError (list string) :=
  match list_containers docker d [LABEL; NODE_LABEL +:+ "=" +:+ fr_node_id rt] with
  | Err e => Err (failing "list containers: " e)
  | Ok containers => Ok (omap (fun labels => labels ≫= (fun l : gmap string string => l !! LABEL)) containers)
  end.

Definition fake_application_logs (iid : string) (tail : Z) (follow : bool) (d : D) : list (res RuntimeError (list Z)) :=
  log_task (container_logs docker d (container_of iid) (pretty tail) follow) [].

Definition fake_capabilities : RuntimeCapabilities :=
  {| memory_snapshot := false; disk_snapshot := true; live_checkpoint := false;
     guest_agent := match fr_guest_bin rt with Some _ => true | None => false end; hardware_isolation := false; lazy_restore := false;
     cow_fork := false; egress_control := false; full_copy_fork := false; object_store_snapshots := false;
     capsule_export := false; capsule_import := false; safe_grant_rebind := false |}.

(** The bridge to a guest's agent and what it answers over it, and the host's entropy. *)
Context (bridge : FakeState -> InstanceRow -> res string unit).
Context (run_hook : FakeState -> string -> HookKind -> FakeState * res string HookResponse)
        (duties : FakeState -> string -> list Z -> Z -> FakeState * res string RestoreReport)
        (guest_health : FakeState -> string -> bool -> FakeState * res string HealthResponse)
        (urandom : FakeState -> FakeState * res string (list Z)).

(** The implementation of the trait; a method the source does not define is the trait's own. *)
Definition fake_runtime : Runtime FakeState := {|
  rt_name := "fake";
  rt_version := "docker";
  rt_caps := fake_capabilities;
  rt_create := fun s spec g => fake_create spec g s;
  rt_start := fun s iid _ _ => fake_start iid s;
  rt_stop := fun s iid grace => fake_stop iid grace s;
  rt_stop_status := fun s iid => fake_stop_status iid (fst s);
  rt_pause := fun s iid => fake_pause iid s;
  rt_resume := fun s _ _ => (s, unsupported "this runtime cannot resume an instance");
  rt_fork := fun s _ _ _ _ _ => (s, unsupported "this runtime cannot fork an instance");
  rt_restore_from_objects := fun s _ _ _ => (s, unsupported "this runtime cannot restore an instance from capsule objects");
  rt_export_snapshot := fun _ _ => unsupported "this runtime cannot export a snapshot";
  rt_create_snapshot := fun s _ _ => (s, unsupported "this runtime cannot create explicit snapshots");
  rt_delete_snapshot := fun s _ => (s, Ok tt);
  rt_destroy := fun s iid => fake_destroy iid s;
  rt_list_labeled := fun s => fake_list_labeled (fst s);
  rt_remove_orphan := fun s iid => fake_destroy iid s;
  rt_list_credentials := fun _ => Ok [];
  rt_remove_credential := fun s _ => (s, unsupported "this runtime holds no credentials outside its sandboxes");
  rt_list_sandboxes := fun _ => Ok [];
  rt_remove_sandbox := fun s _ => (s, unsupported "this runtime does not enumerate sandboxes for the instance sweep");
  rt_enumerates_sandboxes := false;
  rt_network_reachable := false;
  rt_workload_address := fun _ _ => Ok None;
  rt_application_logs := fun s iid tail follow => Ok (fake_application_logs iid tail follow (fst s));
  rt_substrate_health := fun _ => (SubstrateHealth.Healthy, empty_str);
  g_connect := bridge;
  g_run_hook := run_hook;
  g_restore_duties := duties;
  g_health := guest_health;
  read_urandom := urandom |}.
End Runtime.

(** * Log lines do not depend on the frames *)

(** The lines of a whole log. *)
Definition log_lines (s : list Z) : list (list Z) :=
  let '(lines, tail) := cut_lines [] s in lines ++ match tail with [] => [] | _ => [tail] end.

(** No line is ever longer, unfinished, than the reader keeps. *)
Definition no_long_line (s : list Z) : Prop := forall k, (length (snd (cut_lines [] (take k s))) <= LOG_FRAME_LIMIT)%nat.

Lemma cut_lines_app line a b :
  cut_lines line (a ++ b) =
  let '(l1, t1) := cut_lines line a in let '(l2, t2) := cut_lines t1 b in (l1 ++ l2, t2).
Proof.
  revert line. induction a as [|c a IH]; intros line; cbn [app cut_lines]; [by destruct (cut_lines line b)|].
  destruct (c =? 10).
  - rewrite IH. destruct (cut_lines [] a) as [l1 t1]. by destruct (cut_lines t1 b).
  - apply IH.
Qed.

(** What is left has no line end, so it is its own remainder. *)
Lemma cut_lines_tail line a : cut_lines [] line = ([], line) -> cut_lines [] (snd (cut_lines line a)) = ([], snd (cut_lines line a)).
Proof.
  revert line. induction a as [|c a IH]; intros line Hl; cbn [cut_lines]; [done|].
  destruct (c =? 10) eqn:E.
  - specialize (IH [] eq_refl). by destruct (cut_lines [] a).
  - apply IH. rewrite cut_lines_app, Hl. cbn [cut_lines]. by rewrite E.
Qed.

Lemma log_task_frames frames read :
  no_long_line (read ++ mjoin frames) ->
  (Ok <$> (cut_lines [] read).1) ++ log_task (Ok <$> frames) (cut_lines [] read).2 = Ok <$> log_lines (read ++ mjoin frames).
Proof.
  revert read. induction frames as [|f frames IH]; intros read Hl.
  - cbn [fmap list_fmap log_task]. unfold log_lines. change (mjoin []) with (@nil Z). rewrite app_nil_r.
    destruct (cut_lines [] read) as [l t]. cbn [fst snd]. rewrite fmap_app. by destruct t.
  - change (mjoin (f :: frames)) with (f ++ mjoin frames) in *. rewrite app_assoc in *. specialize (IH _ Hl). rewrite <- IH.
    cbn [fmap list_fmap log_task]. pose proof (cut_lines_tail [] read eq_refl) as Ht. rewrite (cut_lines_app [] read f).
    destruct (cut_lines [] read) as [l t] eqn:E. cbn [fst snd] in *. rewrite (cut_lines_app [] t f), Ht.
    destruct (cut_lines t f) as [l2 t2] eqn:E2. cbn [fst snd app]. rewrite fmap_app, <- app_assoc. do 2 f_equal.
    replace (LOG_FRAME_LIMIT <? length t2)%nat with false; [done|]. symmetry. apply Nat.ltb_ge.
    specialize (Hl (length (read ++ f))). rewrite take_app_length, cut_lines_app, E, E2 in Hl. exact Hl.
Qed.

(** A log's lines are those of its bytes, however the daemon cut them into frames, as long as
    no line outgrows what the reader keeps. *)
Theorem docker_logs_ignore_frames (frames : list (list Z)) :
  no_long_line (mjoin frames) -> log_task (Ok <$> frames) [] = Ok <$> log_lines (mjoin frames).
Proof. exact (log_task_frames frames []). Qed.

(** A grace of the largest 32-bit number is sent to the daemon as -1. *)
Lemma long_grace_is_negative : wrap_i32 (2 ^ 32 - 1) = -1.
Proof. reflexivity. Qed.
