(* ===== verification/Delivery.v ===== *)
(** What a node gives a guest is what the guest's agent reads: the environments and files of
    [Hypeman] and [Docker] against the start of the agent in [Guest]. *)

From S2P Require Import Prelude Text Proto Journal Codec Service Pages Runtime HypemanClient Hypeman Docker Guest.
From Stdlib Require Import Ascii.

(** A volume's files at its mount. *)
Definition mounted (mount : string) (entries : list TarEntry) (path : string) : res string (list Z) :=
  match list_find (fun e => mount +:+ "/" +:+ te_path e = path) entries with
  | Some (_, e) => Ok (te_bytes e)
  | None => Err "No such file or directory (os error 2)"
  end.

(** The variables of a container, from its [KEY=value] list. *)
Definition variables (env : list string) : gmap string string := list_to_map (omap (split_once "=") env).

(** The guest's half of an identity. *)
Definition guest_half (id : Identity) : ChannelIdentity :=
  {| ci_cert := guest_cert id; ci_key := guest_key id; ci_anchor := anchor id |}.
Definition whole_identity (id : Identity) : Prop := guest_cert id <> [] /\ guest_key id <> [] /\ anchor id <> [].
Definition plain_token (token : string) : Prop := token <> empty_str /\ trim token = token /\ is_utf8 (bytes_of token) = true.

Section Delivery.
(** The encodings of the node (base64 of the message) and their readers in the guest. *)
Context (encode_process : Process -> string) (encode_hooks : Hooks -> string).
Context (base64_decode : string -> res string (list Z)).
Context (decode_process : list Z -> res string Process) (decode_hooks : list Z -> res string Hooks).
(** What base64 and prost promise: a message is read back, and only the default one is empty. *)
Hypothesis process_back : forall p, decode_value base64_decode decode_process (encode_process p) = Ok p.
Hypothesis hooks_back : forall hk, decode_value base64_decode decode_hooks (encode_hooks hk) = Ok hk.
Hypothesis process_empty : forall p, encode_process p = empty_str -> p = Guest.default_process.
Hypothesis hooks_empty : forall hk, encode_hooks hk = empty_str -> hk = Guest.default_hooks.

#[local] Abbreviation from_env vars read := (from_env vars read base64_decode decode_process decode_hooks).

Lemma decode_process_var vars p : vars !! ENV_PROCESS = Some (encode_process p) ->
  decode_var vars base64_decode decode_process Guest.default_process ENV_PROCESS = Ok p.
Proof.
  intros E. unfold decode_var. rewrite E. destruct (is_empty _) eqn:Ee.
  - apply is_empty_true in Ee. by rewrite (process_empty _ Ee).
  - by rewrite process_back.
Qed.
Lemma decode_hooks_var vars hk : vars !! ENV_HOOKS = Some (encode_hooks hk) ->
  decode_var vars base64_decode decode_hooks Guest.default_hooks ENV_HOOKS = Ok hk.
Proof.
  intros E. unfold decode_var. rewrite E. destruct (is_empty _) eqn:Ee.
  - apply is_empty_true in Ee. by rewrite (hooks_empty _ Ee).
  - by rewrite hooks_back.
Qed.

(** An agent with its token, its process and hooks in the environment starts with them. *)
Lemma from_env_delivered vars read token p hk id :
  read_token vars read = Ok token -> token <> empty_str ->
  vars !! ENV_PROCESS = Some (encode_process p) -> vars !! ENV_HOOKS = Some (encode_hooks hk) ->
  read_identity vars read = Ok id ->
  from_env vars read = Ok {| bs_token := token; bs_process := p; bs_hooks := hk; bs_identity := id |}.
Proof.
  intros Ht Hne Hp Hh Hi. unfold Guest.from_env. rewrite Ht. cbn [res_bind]. rewrite (proj2 (is_empty_false token) Hne).
  by rewrite (decode_process_var _ _ Hp), (decode_hooks_var _ _ Hh), Hi.
Qed.

(** ** hypeman: the token and the identity are files of a volume *)

Definition credential_reader (token : string) (identity : option Identity) : string -> res string (list Z) :=
  mounted TOKEN_MOUNT_PATH (token_entries token identity).

Lemma hypeman_token p hk identity token :
  plain_token token ->
  read_token (guest_environment encode_process encode_hooks p hk (is_some identity)) (credential_reader token identity) = Ok token.
Proof.
  intros (Hne & Ht & Hu). unfold read_token, read_to_string.
  replace (guest_environment _ _ p hk _ !! ENV_TOKEN_FILE) with (Some TOKEN_PATH) by (by destruct identity).
  change (is_empty (trim TOKEN_PATH)) with false. cbv iota. change (trim TOKEN_PATH) with TOKEN_PATH.
  replace (credential_reader token identity TOKEN_PATH) with (@Ok string _ (bytes_of token)) by (by destruct identity).
  cbn [res_bind]. by rewrite Hu, text_of_bytes_of, Ht.
Qed.

Lemma hypeman_identity p hk identity token :
  (forall id, identity = Some id -> whole_identity id) ->
  read_identity (guest_environment encode_process encode_hooks p hk (is_some identity)) (credential_reader token identity) =
  Ok (guest_half <$> identity).
Proof.
  destruct identity as [id|]; intros Hw; [|done]. destruct (Hw id eq_refl) as (Hc & Hk & Ha).
  unfold read_identity, read_part. set (vars := guest_environment _ _ p hk _).
  assert (named vars = [(ENV_TLS_CERT_FILE, TLS_CERT_PATH); (ENV_TLS_KEY_FILE, TLS_KEY_PATH); (ENV_TLS_ANCHOR_FILE, TLS_ANCHOR_PATH)]) as ->
    by reflexivity.
  cbn -[credential_reader]. change (credential_reader token (Some id) TLS_CERT_PATH) with (@Ok string _ (guest_cert id)).
  change (credential_reader token (Some id) TLS_KEY_PATH) with (@Ok string _ (guest_key id)).
  change (credential_reader token (Some id) TLS_ANCHOR_PATH) with (@Ok string _ (anchor id)).
  destruct id as [a c k hc hk']. cbn in *. by destruct c, k, a.
Qed.

(** ** Docker: the token is in the environment *)

Lemma docker_variables rt spec guest img bin :
  fr_guest_bin rt = Some bin ->
  let vars := variables (cb_env (container_body encode_process encode_hooks rt spec guest img)) in
  vars !! ENV_TOKEN = Some (gb_token guest) /\ vars !! ENV_TOKEN_FILE = None /\
  vars !! ENV_PROCESS = Some (encode_process (default Hypeman.default_process (Proto.process spec))) /\
  vars !! ENV_HOOKS = Some (encode_hooks (default Hypeman.default_hooks (Proto.hooks spec))) /\
  named vars = [] /\ vars !! ENV_TCP_PORT = None.
Proof. intros E. unfold container_body. rewrite E. split_and!; reflexivity. Qed.

(** C23: what the node hands to a sandbox is what the guest agent starts with. On hypeman the
    request that creates a sandbox mounts the instance's credential volume, and an agent
    with its environment and that volume's files reads the instance's token, its process
    (with the port chosen for it), its hooks and its half of the channel's identity, and
    listens where the node dials. In Docker an agent with the container's environment reads
    the same, without an identity, and listens on no port. *)
Theorem bootstrap_is_delivered (spec : InstanceSpec) :
  (forall rt identity port token req,
     plain_token token -> (forall id, identity = Some id -> whole_identity id) ->
     create_request encode_process encode_hooks rt spec (is_some identity) port = Ok req ->
     exists vars volumes, cr_env req = Some vars /\ cr_volumes req = Some volumes /\
       {| vm_volume_id := token_volume_id (h_node_id rt) (instance_id spec); vm_mount_path := TOKEN_MOUNT_PATH; vm_readonly := true |}
         ∈ volumes /\
       from_env vars (credential_reader token identity) =
         Ok {| bs_token := token; bs_process := with_port port (default Hypeman.default_process (Proto.process spec));
               bs_hooks := default Hypeman.default_hooks (Proto.hooks spec); bs_identity := guest_half <$> identity |} /\
       parse_tcp_port vars = Ok (Some GUEST_PORT)) /\
  (forall rt guest img bin read,
     fr_guest_bin rt = Some bin -> gb_token guest <> empty_str ->
     let vars := variables (cb_env (container_body encode_process encode_hooks rt spec guest img)) in
     from_env vars read =
       Ok {| bs_token := gb_token guest; bs_process := default Hypeman.default_process (Proto.process spec);
             bs_hooks := default Hypeman.default_hooks (Proto.hooks spec); bs_identity := None |} /\
     parse_tcp_port vars = Ok None).
Proof.
  split.
  - intros rt identity port token req Ht Hw. unfold create_request. case_bool_decide; [done|].
    destruct (image_of spec); [|done]. intros [= <-]. eexists _, _. split; [reflexivity|]. split; [reflexivity|].
    split; [apply list_elem_of_further, list_elem_of_here|]. split; [|by destruct identity].
    apply from_env_delivered; [by apply hypeman_token|by destruct Ht|by destruct identity..|by apply hypeman_identity].
  - intros rt guest img bin read Hb Hne vars. destruct (docker_variables rt spec guest img bin Hb) as (E1 & E2 & E3 & E4 & E5 & E6).
    fold vars in E1, E2, E3, E4, E5, E6. split.
    + apply from_env_delivered; [|done|done|done|].
      * unfold read_token. by rewrite E1, E2.
      * unfold read_identity. by rewrite E5.
    + unfold parse_tcp_port. by rewrite E6.
Qed.
End Delivery.

(** * A concrete delivery *)

(** Any countable message as a text of digits, and back. *)
Fixpoint pos_text (p : positive) : string :=
  match p with xI p => String "1" (pos_text p) | xO p => String "0" (pos_text p) | xH => "x" end.
Fixpoint text_pos (s : string) : option positive :=
  match s with
  | String "1"%char s' => xI <$> text_pos s'
  | String "0"%char s' => xO <$> text_pos s'
  | String "x"%char EmptyString => Some xH
  | _ => None
  end.
Lemma text_pos_text p : text_pos (pos_text p) = Some p.
Proof. induction p as [p IH|p IH|]; cbn [pos_text text_pos]; rewrite ?IH; done. Qed.
Lemma trim_pos_text p : trim (pos_text p) = pos_text p.
Proof.
  unfold trim, trim_by. replace (trim_start_by ascii_space (pos_text p)) with (pos_text p) by (by destruct p).
  assert (trim_end_by ascii_space (pos_text p) = pos_text p /\ pos_text p <> empty_str) as [H _]; [|done].
  induction p as [p [IH Hn]|p [IH Hn]|]; [..|done]; cbn [pos_text trim_end_by]; rewrite IH; (split; [|done]);
    rewrite (proj2 (is_empty_false _) Hn); done.
Qed.

Section Toy.
Context {A B : Type} `{Countable B} (into : A -> B) (back : B -> A) (Hback : forall a, back (into a) = a).
Definition toy_encode (a : A) : string := pos_text (countable.encode (into a)).
Definition toy_decode (bytes : list Z) : res string A :=
  match text_pos (text_of bytes) ≫= countable.decode with Some b => Ok (back b) | None => Err "not a message" end.
Lemma toy_back a : decode_value (fun s => Ok (bytes_of s)) toy_decode (toy_encode a) = Ok a.
Proof.
  unfold decode_value, toy_decode, toy_encode. rewrite trim_pos_text, text_of_bytes_of, text_pos_text.
  cbn [mbind option_bind]. rewrite countable.decode_encode. cbn. by rewrite Hback.
Qed.
Lemma toy_encode_nonempty a : toy_encode a <> empty_str.
Proof. unfold toy_encode. by destruct (countable.encode (into a)). Qed.
End Toy.

Definition process_parts (p : Process) := (start_cmd p, ready_cmd p, Proto.env p, workdir p).
Definition process_of (t : list string * list string * gmap string string * string) : Process :=
  let '(s, r, e, w) := t in {| start_cmd := s; ready_cmd := r; Proto.env := e; workdir := w |}.
Definition hooks_parts (h : Hooks) := (pre_snapshot_cmd h, post_restore_cmd h, pre_snapshot_timeout_ms h, post_restore_timeout_ms h).
Definition hooks_of (t : list string * list string * Z * Z) : Hooks :=
  let '(a, b, c, d) := t in {| pre_snapshot_cmd := a; post_restore_cmd := b; pre_snapshot_timeout_ms := c; post_restore_timeout_ms := d |}.
Lemma process_parts_back p : process_of (process_parts p) = p.
Proof. by destruct p. Qed.
Lemma hooks_parts_back h : hooks_of (hooks_parts h) = h.
Proof. by destruct h. Qed.

Definition served_spec : InstanceSpec :=
  mkInstanceSpec "i" (Some {| oci := Some {| image := "img"; digest := "sha256:0" |}; Proto.runtime_bundle_ref := empty_str;
                              template_hash_field := empty_str; arch := empty_str |}) None
    (Some {| start_cmd := ["app"]; ready_cmd := []; Proto.env := {["A" := "b"]}; workdir := "/" |}) None 0 0 ∅ None None.
Definition docker_node : FakeRuntime := {| fr_node_id := "n"; fr_guest_bin := Some "/bin/guest" |}.

Definition hypeman_node : HypemanRuntime :=
  {| h_client := {| hc_base_url := "http://127.0.0.1:4973"; hc_token := None |}; h_node_id := "n"; h_hypervisor := "qemu";
     h_agent := {| av_volume_id := "agent"; agent_hash := "h" |}; h_egress_control := false; h_ingress := None |}.
Definition small_identity : Identity :=
  {| anchor := [1]; guest_cert := [2]; guest_key := [3]; host_cert := [4]; host_key := [5] |}.

Lemma bootstrap_is_delivered_witness :
  (exists req vars,
     create_request (toy_encode process_parts) (toy_encode hooks_parts) hypeman_node served_spec true (Some 8080) = Ok req /\
     cr_env req = Some vars /\
     Guest.from_env vars (credential_reader "secret" (Some small_identity)) (fun s => Ok (bytes_of s)) (toy_decode process_of)
       (toy_decode hooks_of) =
     Ok {| bs_token := "secret";
           bs_process := {| start_cmd := ["app"]; ready_cmd := []; Proto.env := {["A" := "b"; "PORT" := "8080"]}; workdir := "/" |};
           bs_hooks := Hypeman.default_hooks; bs_identity := Some {| ci_cert := [2]; ci_key := [3]; ci_anchor := [1] |} |}) /\
  let vars := variables (cb_env (container_body (toy_encode process_parts) (toy_encode hooks_parts) docker_node served_spec
                {| gb_token := "secret"; gb_identity := None |} "img")) in
  Guest.from_env vars (fun _ => Err "no file") (fun s => Ok (bytes_of s)) (toy_decode process_of) (toy_decode hooks_of) =
    Ok {| bs_token := "secret"; bs_process := {| start_cmd := ["app"]; ready_cmd := []; Proto.env := {["A" := "b"]}; workdir := "/" |};
          bs_hooks := Hypeman.default_hooks; bs_identity := None |}.
Proof.
  destruct (bootstrap_is_delivered (toy_encode process_parts) (toy_encode hooks_parts) (fun s => Ok (bytes_of s))
    (toy_decode process_of) (toy_decode hooks_of) (toy_back _ _ process_parts_back) (toy_back _ _ hooks_parts_back)
    (fun p E => False_ind _ (toy_encode_nonempty _ p E)) (fun h E => False_ind _ (toy_encode_nonempty _ h E)) served_spec) as [Hh Hd].
  split.
  - assert (plain_token "secret") as Ht by (split_and!; [done|vm_compute; reflexivity|vm_compute; reflexivity]).
    edestruct (Hh hypeman_node (Some small_identity) (Some 8080) "secret" _ Ht ltac:(by intros ? [= <-]) eq_refl)
      as (vars & _ & Ev & _ & _ & Hv & _).
    eexists _, vars. split; [reflexivity|]. split; [exact Ev|]. rewrite Hv. vm_compute. reflexivity.
  - exact (proj1 (Hd docker_node {| gb_token := "secret"; gb_identity := None |} "img" "/bin/guest" (fun _ => Err "no file") eq_refl
      ltac:(done))).
Defined.
