(* ===== verification/Channel.v ===== *)
(** The guest channel's credentials, from their minting to the handshake:
    src/crates/barista-node-agent/src/identity.rs, the client's half of the channel in
    [runtime/hypeman/channel.rs] and the server's half in
    src/crates/barista-guest-agent/src/serve.rs. Certificates (rcgen) and the handshake
    (rustls) are an interface with laws. *)

From S2P Require Import Prelude Text Journal Codec Pages Hypeman Guest Delivery.

(** * Certificates *)

Inductive KeyUsage : Type := KeyCertSign | DigitalSignature.
Inductive ExtendedKeyUsage : Type := ServerAuth | ClientAuth.
#[global] Instance ExtendedKeyUsage_eq_dec : EqDecision ExtendedKeyUsage.
Proof. solve_decision. Defined.

(** [rcgen::CertificateParams], as far as it is set; times are in milliseconds. [cp_ca] is
    the path length of an authority. *)
Record CertificateParams := mkParams {
  cp_names : list string;
  cp_ca : option Z;
  cp_common_name : string;
  cp_key_usages : list KeyUsage;
  cp_extended : list ExtendedKeyUsage;
  cp_authority_key_id : bool;
  cp_not_before : Z;
  cp_not_after : Z }.
#[global] Instance rebuild_CertificateParams : Rebuild CertificateParams := fun p =>
  mkParams (cp_names p) (cp_ca p) (cp_common_name p) (cp_key_usages p) (cp_extended p) (cp_authority_key_id p)
    (cp_not_before p) (cp_not_after p).

(** What each end of a channel is configured with. *)
Record ClientConfig := { cc_roots : list (list Z); cc_cert : list Z; cc_key : list Z; cc_alpn : list string }.
Record ServerConfig := { sc_client_roots : list (list Z); sc_cert : list Z; sc_key : list Z; sc_alpn : list string }.

(** The libraries: the n-th generated key, the check of names, a certificate for a subject
    signed by an issuer, a key's bytes; the parsing of an anchor and of a key, whether a
    certificate and a key belong together; and whether a handshake to a name, at the clocks
    of its two ends, succeeds. *)
Class Pki (Key : Type) := {
  generate : nat -> res string Key;
  names_ok : list string -> res string unit;
  certify : CertificateParams -> Key -> CertificateParams * Key -> res string (list Z);
  key_der : Key -> list Z;
  parse_anchor : list Z -> res string unit;
  parse_key : list Z -> res string unit;
  usable_pair : list Z -> list Z -> res string unit;
  handshake : ClientConfig -> string -> Z -> ServerConfig -> Z -> bool }.

(** A certificate as its reader sees it. *)
Record Certificate (Key : Type) := { ce_params : CertificateParams; ce_subject : Key; ce_issuer : Key }.
Arguments ce_params {Key}. Arguments ce_subject {Key}. Arguments ce_issuer {Key}.

(** A certificate is taken for a use at a time when it was signed by the anchor's key, is no
    authority itself, is not limited to other uses, and the time is, in whole seconds, in
    its range. *)
Definition trusted {Key} (a c : Certificate Key) (u : ExtendedKeyUsage) (t : Z) : Prop :=
  ce_issuer c = ce_subject a /\ cp_ca (ce_params c) = None /\
  (cp_extended (ce_params c) = [] \/ u ∈ cp_extended (ce_params c)) /\
  cp_not_before (ce_params c) / 1000 <= t / 1000 <= cp_not_after (ce_params c) / 1000.

(** What the code relies on: generated keys are new; a certificate says what it was made
    with; and a handshake succeeds exactly when each end takes the other's certificate, under
    one of its own anchors, for the name dialled at the client's end, each end holds the key
    of the certificate it shows, and both speak one protocol. *)
Class PkiLaws (Key : Type) {P : Pki Key} := {
  view : list Z -> option (Certificate Key);
  generate_fresh n m k : generate n = Ok k -> generate m = Ok k -> n = m;
  key_der_inj k k' : key_der k = key_der k' -> k = k';
  view_certify p k ca b : certify p k ca = Ok b -> view b = Some {| ce_params := p; ce_subject := k; ce_issuer := snd ca |};
  handshake_iff c name tc s ts :
    handshake c name tc s ts = true <->
    exists client server ra rb a b,
      view (cc_cert c) = Some client /\ view (sc_cert s) = Some server /\
      ra ∈ cc_roots c /\ view ra = Some a /\ trusted a server ServerAuth tc /\ name ∈ cp_names (ce_params server) /\
      rb ∈ sc_client_roots s /\ view rb = Some b /\ trusted b client ClientAuth ts /\
      cc_key c = key_der (ce_subject client) /\ sc_key s = key_der (ce_subject server) /\
      exists p, p ∈ cc_alpn c /\ p ∈ sc_alpn s }.

(** * Minting: identity.rs *)

Definition host_san (iid : string) : string := "host." +:+ iid +:+ ".barista.invalid".
Definition BACKDATE : Z := 300 * 1000.
Definition LIFETIME : Z := 10 * 365 * 24 * 60 * 60 * 1000.

(** [Identity]'s [Debug] *)
Definition identity_debug (id : Identity) : string :=
  let bytes (l : list Z) := pretty (Z.of_nat (length l)) +:+ " bytes" in
  let quoted (s : string) := String (Ascii.ascii_of_nat 34) s +:+ String (Ascii.ascii_of_nat 34) EmptyString in
  "Identity { anchor: " +:+ quoted (bytes (anchor id)) +:+ ", guest_cert: " +:+ quoted (bytes (guest_cert id)) +:+
  ", guest_key: " +:+ quoted "[redacted]" +:+ ", host_cert: " +:+ quoted (bytes (host_cert id)) +:+
  ", host_key: " +:+ quoted "[redacted]" +:+ " }".

(** How many keys were generated and how often the clock was read, and the certificates
    issued, newest first. *)
Record Vault := mkVault { v_keys : nat; v_reads : nat; v_issued : list (list Z) }.
#[global] Instance rebuild_Vault : Rebuild Vault := fun v => mkVault (v_keys v) (v_reads v) (v_issued v).

Section Mint.
Context {Key : Type} {P : Pki Key} (clock : nat -> Z).

Definition generate_key : Call Vault (res string Key) := fun v => (v <| v_keys := S (v_keys v) |>, generate (v_keys v)).
Definition issue (p : CertificateParams) (k : Key) (ca : CertificateParams * Key) : Call Vault (res string (list Z)) := fun v =>
  match certify p k ca with Ok b => (v <| v_issued := b :: v_issued v |>, Ok b) | Err e => (v, Err e) end.
Definition apply_validity (p : CertificateParams) : Call Vault CertificateParams := fun v =>
  (v <| v_reads := S (v_reads v) |>,
   p <| cp_not_before := clock (v_reads v) - BACKDATE |> <| cp_not_after := clock (v_reads v) + LIFETIME |>).

Definition ca_params (iid : string) : CertificateParams :=
  mkParams [] (Some 0) ("barista instance " +:+ iid) [KeyCertSign; DigitalSignature] [] false 0 0.
Definition leaf_params (san : string) (server : bool) : CertificateParams :=
  mkParams [san] None san [DigitalSignature] [if server then ServerAuth else ClientAuth] true 0 0.

Definition leaf (san : string) (ca : CertificateParams * Key) (server : bool) : Call Vault (res string (list Z * list Z)) :=
  let@? _ := pass_back (names_ok [san]) or id in
  let@ p := apply_validity (leaf_params san server) in
  let@? key := generate_key or id in
  let@? cert := issue p key ca or id in
  pass_back (Ok (cert, key_der key)).

Definition mint (iid : string) : Call Vault (res string Identity) :=
  let@? _ := pass_back (names_ok []) or id in
  let@ p := apply_validity (ca_params iid) in
  let@? key := generate_key or id in
  let@? anchor := issue p key (p, key) or id in
  let@? guest := leaf (guest_san iid) (p, key) true or id in
  let@? host := leaf (host_san iid) (p, key) false or id in
  pass_back (Ok {| Journal.anchor := anchor; guest_cert := fst guest; guest_key := snd guest;
                   host_cert := fst host; host_key := snd host |}).

(** A sequence of creates, and the identities it gave. *)
Fixpoint mint_each (l : list string) : Call Vault (list (string * Identity)) :=
  match l with
  | [] => pass_back []
  | iid :: l =>
      let@ r := mint iid in
      let@ ids := mint_each l in
      pass_back (match r with Ok id => (iid, id) :: ids | Err _ => ids end)
  end.

(** * The two ends *)

(** channel.rs *)
Definition tls_config (id : Identity) : res string ClientConfig :=
  let? _ := match parse_anchor (anchor id) with Ok _ => Ok tt | Err e => Err ("this instance's anchor does not parse: " +:+ e) end in
  let? _ := match parse_key (host_key id) with Ok _ => Ok tt | Err e => Err ("this host's channel key does not parse: " +:+ e) end in
  let? _ := match usable_pair (host_cert id) (host_key id) with
            | Ok _ => Ok tt
            | Err e => Err ("this host's channel identity is unusable: " +:+ e)
            end in
  Ok {| cc_roots := [anchor id]; cc_cert := host_cert id; cc_key := host_key id; cc_alpn := ["h2"] |}.

(** serve.rs *)
Definition tls_acceptor (id : ChannelIdentity) : res string ServerConfig :=
  let? _ := match parse_anchor (ci_anchor id) with
            | Ok _ => Ok tt
            | Err e => Err ("the delivered anchor does not parse as a certificate: " +:+ e)
            end in
  let? _ := match parse_key (ci_key id) with Ok _ => Ok tt | Err e => Err ("the delivered private key does not parse: " +:+ e) end in
  let? _ := match usable_pair (ci_cert id) (ci_key id) with
            | Ok _ => Ok tt
            | Err e => Err ("the delivered certificate and key do not form a usable server identity: " +:+ e)
            end in
  Ok {| sc_client_roots := [ci_anchor id]; sc_cert := ci_cert id; sc_key := ci_key id; sc_alpn := ["h2"] |}.
End Mint.

(** * Accepting connections: serve.rs *)

(** What the accepting task does: a handshake on a task of its own, a line of the log, a pause. *)
Inductive Acted (C : Type) : Type :=
| Shake (c : C)
| Complain (e : string)
| Rest (ms : Z).
Arguments Shake {C}. Arguments Complain {C}. Arguments Rest {C}.

Definition u32_max : Z := 2 ^ 32 - 1.
Fixpoint accept_loop {C} (errs : Z) (arrivals : list (res string C)) : list (Acted C) :=
  match arrivals with
  | [] => []
  | Ok c :: l => Shake c :: accept_loop 0 l
  | Err e :: l =>
      let errs := Z.min (errs + 1) u32_max in
      Complain e :: (if 1 <? errs then [Rest (Z.min 1000 ((10 * errs) mod 2 ^ 32))] else []) ++ accept_loop errs l
  end.

(** The transports a network listener yields: none without an identity, and only those whose
    handshake, with [done], succeeded. *)
Inductive Transport (C : Type) : Type := Unix (c : C) | PlainTcp (c : C) | Tls (c : C).
Arguments Unix {C}. Arguments PlainTcp {C}. Arguments Tls {C}.
Definition network_incoming {C} (listener : option (list (res string C))) (acceptor : option ServerConfig)
    (accepts : ServerConfig -> C -> bool) : list (Transport C) :=
  match acceptor, listener with
  | Some s, Some arrivals =>
      omap (fun a => match a with Shake c => if accepts s c then Some (Tls c) else None | _ => None end) (accept_loop 0 arrivals)
  | _, _ => []
  end.

(** The agent's exit code from the end of its workload: [None] when waiting for it failed or a signal ended it. *)
Definition workload_exit (status : res string (option Z)) : Z :=
  match status with Ok (Some code) => code | _ => -1 end.

(** * One minting *)

Section Safety.
Context {Key : Type} {P : Pki Key} {L : PkiLaws Key} (clock : nat -> Z).

Definition ca_of (v : Vault) (k : Key) : Prop := generate (v_keys v) = Ok k.
Definition dated (p : CertificateParams) (n : nat) : CertificateParams :=
  p <| cp_not_before := clock n - BACKDATE |> <| cp_not_after := clock n + LIFETIME |>.
Definition signed (b : list Z) (p : CertificateParams) (k ca : Key) : Prop :=
  view b = Some {| ce_params := p; ce_subject := k; ce_issuer := ca |}.

Lemma issue_inv p k ca v v' r :
  issue p k ca v = (v', r) ->
  v_keys v' = v_keys v /\ v_reads v' = v_reads v /\
  ((v_issued v' = v_issued v /\ exists e, r = Err e) \/
   exists b, r = Ok b /\ v_issued v' = b :: v_issued v /\ signed b p k (snd ca)).
Proof.
  unfold issue. destruct (certify p k ca) as [b|e] eqn:E; intros [= <- <-]; cbn; split_and!; eauto.
  right. exists b. split_and!; [done..|]. by apply view_certify.
Qed.

Lemma leaf_inv san ca server v v' r :
  leaf clock san ca server v = (v', r) ->
  (v_keys v <= v_keys v')%nat /\ (v_reads v <= v_reads v' <= S (v_reads v))%nat /\
  ((v_issued v' = v_issued v /\ exists e, r = Err e) \/
   exists b k, r = Ok (b, key_der k) /\ generate (v_keys v) = Ok k /\ v_keys v' = S (v_keys v) /\ v_reads v' = S (v_reads v) /\
     v_issued v' = b :: v_issued v /\ signed b (dated (leaf_params san server) (v_reads v)) k (snd ca)).
Proof.
  unfold leaf, try_, then_, pass_back. destruct (names_ok [san]) as [[]|e]; [|intros [= <- <-]; split_and!; by eauto].
  cbn. destruct (generate (v_keys v)) as [k|e] eqn:Eg; [|intros [= <- <-]; cbn; split_and!; eauto; lia].
  destruct (issue _ _ _ _) as [v1 r1] eqn:Ei. apply issue_inv in Ei as (E1 & E2 & Ei). cbn in E1, E2, Ei.
  destruct Ei as [[Hi [e ->]]|(b & -> & Hi & Hs)]; intros [= <- <-]; rewrite ?E1, ?E2, ?Hi; (split_and!; [lia..|]); [by eauto|].
  right. by exists b, k.
Qed.

(** What a minting that began at [v] made for an instance. *)
Record minted (v : Vault) (iid : string) (id : Identity) (k : Key) : Prop := {
  mi_ca : generate (v_keys v) = Ok k;
  mi_anchor : signed (anchor id) (dated (ca_params iid) (v_reads v)) k k;
  mi_guest : exists gk, guest_key id = key_der gk /\ signed (guest_cert id) (dated (leaf_params (guest_san iid) true) (S (v_reads v))) gk k;
  mi_host : exists hk, host_key id = key_der hk /\ signed (host_cert id) (dated (leaf_params (host_san iid) false) (S (S (v_reads v)))) hk k }.

#[local] Arguments leaf : simpl never.
#[local] Arguments issue : simpl never.
Definition by_ca (k : Key) (b : list Z) : Prop := exists p s, signed b p s k.

Lemma mint_inv iid v v' r :
  mint clock iid v = (v', r) ->
  (v_keys v <= v_keys v')%nat /\ exists new, v_issued v' = new ++ v_issued v /\
    (new <> [] -> (v_keys v < v_keys v')%nat /\ exists k, generate (v_keys v) = Ok k /\ Forall (by_ca k) new) /\
    (forall id, r = Ok id -> new = [host_cert id; guest_cert id; anchor id] /\ exists k, minted v iid id k).
Proof.
  unfold mint, try_, then_, pass_back. destruct (names_ok []) as [[]|e]; [|intros [= <- <-]; split; [lia|]; by exists []].
  cbn. destruct (generate (v_keys v)) as [k|e] eqn:Eg; [|intros [= <- <-]; split; [cbn; lia|]; by exists []].
  destruct (issue _ _ _ _) as [v1 r1] eqn:E1. apply issue_inv in E1 as (K1 & R1 & E1). cbn in K1, R1, E1.
  destruct E1 as [[I1 [e ->]]|(an & -> & I1 & S1)]; [intros [= <- <-]; split; [lia|]; by exists []|].
  assert (by_ca k an) as B1 by (red; eauto).
  destruct (leaf _ _ _ true v1) as [v2 r2] eqn:E2. apply leaf_inv in E2 as (K2 & _ & E2).
  destruct E2 as [[I2 [e ->]]|(gc & gk & -> & _ & _ & R2 & I2 & S2)].
  { intros [= <- <-]. split; [lia|]. exists [an]. rewrite I2, I1. split_and!; [done| |done]. intros _. split; [lia|]. by exists k; auto. }
  cbn in S2. assert (by_ca k gc) as B2 by (red; eauto).
  destruct (leaf _ _ _ false v2) as [v3 r3] eqn:E3. apply leaf_inv in E3 as (K3 & _ & E3).
  destruct E3 as [[I3 [e ->]]|(hc & hk & -> & _ & _ & R3 & I3 & S3)]; intros [= <- <-]; (split; [lia|]).
  { exists [gc; an]. rewrite I3, I2, I1. split_and!; [done| |done]. intros _. split; [lia|]. exists k; auto. }
  cbn in S3. assert (by_ca k hc) as B3 by (red; eauto). exists [hc; gc; an]. rewrite I3, I2, I1. split_and!; [done|..].
  { intros _. split; [lia|]. exists k; auto. }
  intros id [= <-]. split; [done|]. exists k. rewrite ?R1, ?R2 in *. split; cbn; eauto.
Qed.

(** * A sequence of mintings *)

Definition from_key (lo hi : nat) (b : list Z) : Prop :=
  exists n k, (lo <= n < hi)%nat /\ generate n = Ok k /\ by_ca k b.
Definition vault_ok (v : Vault) : Prop := Forall (from_key 0 (v_keys v)) (v_issued v).
(** Of all certificates issued, these are the ones under this authority. *)
Definition only_three (v : Vault) (id : Identity) (k : Key) : Prop :=
  forall b, b ∈ v_issued v -> by_ca k b <-> b = host_cert id \/ b = guest_cert id \/ b = anchor id.

Lemma by_ca_unique k k' b : by_ca k b -> by_ca k' b -> k = k'.
Proof. intros (p & s & H) (p' & s' & H'). unfold signed in *. by simplify_eq. Qed.
Lemma from_key_le lo lo' hi hi' b : (lo' <= lo)%nat -> (hi <= hi')%nat -> from_key lo hi b -> from_key lo' hi' b.
Proof. intros ? ? (n & k & ? & ? & ?). exists n, k. split_and!; [lia..|done|done]. Qed.

Lemma mint_issues iid v v' r :
  mint clock iid v = (v', r) -> exists new, v_issued v' = new ++ v_issued v /\ Forall (from_key (v_keys v) (v_keys v')) new.
Proof.
  intros (Hk & new & Hi & Hn & _)%mint_inv. exists new. split; [done|]. destruct (decide (new = [])) as [->|Hne]; [done|].
  destruct (Hn Hne) as (Hlt & k & Hg & Hf). eapply Forall_impl; [exact Hf|]. intros b Hb. exists (v_keys v), k. split_and!; [lia|lia|done..].
Qed.

Lemma mint_each_grows l v v' ids :
  mint_each clock l v = (v', ids) ->
  (v_keys v <= v_keys v')%nat /\ exists new, v_issued v' = new ++ v_issued v /\ Forall (from_key (v_keys v) (v_keys v')) new.
Proof.
  revert v v' ids. induction l as [|iid l IH]; intros v v' ids; cbn [mint_each]; [intros [= <- <-]; split; [lia|]; by exists []|].
  unfold then_, pass_back. destruct (mint clock iid v) as [v1 r] eqn:E1. destruct (mint_each clock l v1) as [v2 ids'] eqn:E2.
  intros [= <- _]. pose proof (mint_inv _ _ _ _ E1) as [Hk1 _]. apply mint_issues in E1 as (n1 & I1 & F1).
  apply IH in E2 as (Hk2 & n2 & I2 & F2). split; [lia|]. exists (n2 ++ n1). split; [by rewrite I2, I1, app_assoc|].
  apply Forall_app. split; eapply Forall_impl; try exact F1; try exact F2; intros b; apply from_key_le; lia.
Qed.

(** The keys of other mintings are others. *)
Lemma by_ca_outside n k b lo hi : generate n = Ok k -> by_ca k b -> from_key lo hi b -> (lo <= n < hi)%nat.
Proof. intros Hg Hb (m & k' & Hm & Hg' & Hb'). rewrite (by_ca_unique _ _ _ Hb Hb') in Hg. by rewrite (generate_fresh _ _ _ Hg Hg'). Qed.

Lemma minted_by_ca u iid id k : minted u iid id k -> by_ca k (host_cert id) /\ by_ca k (guest_cert id) /\ by_ca k (anchor id).
Proof. intros [_ Ha (gk & _ & Hg) (hk & _ & Hh)]. unfold by_ca. eauto 10. Qed.

Lemma mint_each_minted l v v' ids iid id :
  vault_ok v -> mint_each clock l v = (v', ids) -> (iid, id) ∈ ids ->
  exists u k, minted u iid id k /\ only_three v' id k /\ [host_cert id; guest_cert id; anchor id] ⊆ v_issued v'.
Proof.
  revert v v' ids. induction l as [|i l IH]; intros v v' ids Hv; cbn [mint_each]; [by intros [= <- <-] []%not_elem_of_nil|].
  unfold then_, pass_back. destruct (mint clock i v) as [v1 r] eqn:E1. destruct (mint_each clock l v1) as [v2 ids'] eqn:E2.
  intros [= <- <-] Hin. pose proof (mint_issues _ _ _ _ E1) as (n1 & I1 & F1). apply mint_inv in E1 as (Hk1 & new & I1' & Hne & Hr).
  assert (vault_ok v1) as Hv1.
  { unfold vault_ok. rewrite I1. apply Forall_app. split; eapply Forall_impl; try exact F1; try exact Hv; intros b; apply from_key_le; lia. }
  destruct r as [id'|e]; [|by eapply IH]. apply elem_of_cons in Hin as [[= -> ->]|Hin]; [|by eapply IH].
  destruct (Hr _ eq_refl) as (-> & k & Hm). apply mint_each_grows in E2 as (Hk2 & n2 & I2 & F2). exists v, k.
  rewrite I1' in I2. split_and!; [done| |rewrite I2; intros x Hx; rewrite !elem_of_app; by right; left]. pose proof (minted_by_ca _ _ _ _ Hm) as (H1 & H2 & H3).
  intros b Hb. split; [|by intros [->|[->| ->]]]. intros Hca. rewrite I2, !elem_of_app in Hb. destruct Hm as [Hg _ _ _].
  destruct (Hne ltac:(done)) as [Hlt _]. destruct Hb as [Hb|[Hb|Hb]]; [|rewrite !elem_of_cons, elem_of_nil in Hb; tauto|].
  - rewrite Forall_forall in F2. pose proof (by_ca_outside _ _ _ _ _ Hg Hca (F2 _ Hb)). lia.
  - unfold vault_ok in Hv. rewrite Forall_forall in Hv. pose proof (by_ca_outside _ _ _ _ _ Hg Hca (Hv _ Hb)). lia.
Qed.

(** * Who is let in *)

(** Whether an end with this anchor takes a certificate. *)
Definition admits (id : Identity) (cert : list Z) (u : ExtendedKeyUsage) (t : Z) : Prop :=
  exists a c, view (anchor id) = Some a /\ view cert = Some c /\ trusted a c u t.
Definition alive (born t : Z) : Prop := (born - BACKDATE) / 1000 <= t / 1000 <= (born + LIFETIME) / 1000.

Lemma admits_by_ca u iid id k cert use t : minted u iid id k -> admits id cert use t -> by_ca k cert.
Proof.
  intros [_ Ha _ _] (a & c & Va & Vc & Hi & _). unfold signed in Ha. simplify_eq. cbn in Hi. destruct c as [p s k']. cbn in Hi. subst.
  by exists p, s.
Qed.
Lemma admits_leaf id san server n k s cert use t :
  (exists p, signed (anchor id) p k k) -> signed cert (dated (leaf_params san server) n) s k ->
  admits id cert use t <-> use = (if server then ServerAuth else ClientAuth) /\ alive (clock n) t.
Proof.
  intros [p Ha] Hc. unfold admits, signed, trusted in *. rewrite Ha, Hc. split.
  - intros (a & c & [= <-] & [= <-] & _ & _ & [?|Hu] & Ht); [done|]. cbn in Hu, Ht. apply list_elem_of_singleton in Hu. split; [done|exact Ht].
  - intros [-> Ht]. do 2 eexists. split_and!; [done|done|done|done| |apply Ht|apply Ht]. right. cbn. by left.
Qed.
Lemma admits_anchor u iid id k use t : minted u iid id k -> ~ admits id (anchor id) use t.
Proof. intros [_ Ha _ _] (a & c & Va & Vc & _ & Hca & _). unfold signed in Ha. by simplify_eq. Qed.

Section Admission.
Context (v : Vault) (u : Vault) (iid : string) (id : Identity) (k : Key).
Context (Hm : minted u iid id k) (Ho : only_three v id k).

Lemma admits_issued cert use t :
  cert ∈ v_issued v ->
  admits id cert use t <->
    match use with
    | ServerAuth => cert = guest_cert id /\ alive (clock (S (v_reads u))) t
    | ClientAuth => cert = host_cert id /\ alive (clock (S (S (v_reads u)))) t
    end.
Proof.
  intros Hin. pose proof Hm as [_ Ha (gk & _ & Hg) (hk & _ & Hh)]. assert (exists p, signed (anchor id) p k k) as Hp by eauto.
  pose proof (admits_leaf _ _ _ _ _ _ _ use t Hp Hg) as HG. pose proof (admits_leaf _ _ _ _ _ _ _ use t Hp Hh) as HH.
  split.
  - intros Had. pose proof (admits_by_ca _ _ _ _ _ _ _ Hm Had) as Hc. apply (Ho _ Hin) in Hc as [->|[->| ->]].
    + apply HH in Had as [-> ?]. done.
    + apply HG in Had as [-> ?]. done.
    + by apply (admits_anchor _ _ _ _ _ _ Hm) in Had.
  - destruct use; intros [-> Ht]; [by apply HG|by apply HH].
Qed.
End Admission.

Lemma params_apart b i j n m server : ~ (exists s s' k k', signed b (dated (leaf_params i server) n) s k /\ signed b (dated (leaf_params j (negb server)) m) s' k').
Proof. intros (s & s' & k & k' & H & H'). unfold signed in *. destruct server; by simplify_eq. Qed.
Lemma leaf_not_ca b i j n m server : ~ (exists s s' k k', signed b (dated (leaf_params i server) n) s k /\ signed b (dated (ca_params j) m) s' k').
Proof. intros (s & s' & k & k' & H & H'). unfold signed in *. by simplify_eq. Qed.

Lemma same_identity v u i a k u' j b k' :
  minted u i a k -> only_three v a k -> minted u' j b k' -> [host_cert b; guest_cert b; anchor b] ⊆ v_issued v ->
  guest_cert b = guest_cert a -> a = b.
Proof.
  intros Ha Ho Hb Hin Eg. pose proof (minted_by_ca _ _ _ _ Ha) as (_ & Hga & _). pose proof (minted_by_ca _ _ _ _ Hb) as (Hhb & Hgb & Hab).
  rewrite Eg in Hgb. pose proof (by_ca_unique _ _ _ Hga Hgb) as <-.
  destruct Ha as [_ Aa (ga & Kga & Ga) (ha & Kha & Ha)], Hb as [_ Ab (gb & Kgb & Gb) (hb & Khb & Hb)].
  assert (host_cert b = host_cert a) as Eh.
  { destruct (proj1 (Ho _ (Hin _ ltac:(left))) Hhb) as [?|[E|E]]; [done|..]; rewrite E in Hb; exfalso.
    - by eapply (params_apart (guest_cert a) _ _ _ _ true); do 4 eexists.
    - by eapply (leaf_not_ca (anchor a)); do 4 eexists. }
  assert (anchor b = anchor a) as Ea.
  { destruct (proj1 (Ho _ (Hin _ ltac:(right; right; left))) Hab) as [E|[E|?]]; [..|done]; rewrite E in Ab; exfalso.
    - by eapply (leaf_not_ca (host_cert a)); do 4 eexists.
    - by eapply (leaf_not_ca (guest_cert a)); do 4 eexists. }
  rewrite Eh in Hb. rewrite Eg in Gb. unfold signed in *.
  assert (gb = ga) as -> by congruence. assert (hb = ha) as -> by congruence.
  destruct a, b; cbn in *. congruence.
Qed.

Lemma tls_config_ok id c : tls_config id = Ok c ->
  c = {| cc_roots := [anchor id]; cc_cert := host_cert id; cc_key := host_key id; cc_alpn := ["h2"] |}.
Proof.
  unfold tls_config. destruct (parse_anchor _); [|done]. cbn. destruct (parse_key _); [|done]. cbn.
  destruct (usable_pair _ _); [|done]. by intros [= <-].
Qed.
Lemma tls_acceptor_ok id s : tls_acceptor (guest_half id) = Ok s ->
  s = {| sc_client_roots := [anchor id]; sc_cert := guest_cert id; sc_key := guest_key id; sc_alpn := ["h2"] |}.
Proof.
  unfold tls_acceptor. cbn. destruct (parse_anchor _); [|done]. cbn. destruct (parse_key _); [|done]. cbn.
  destruct (usable_pair _ _); [|done]. by intros [= <-].
Qed.

(** What a handshake with an instance's guest shows of the two certificates. *)
Lemma handshake_admits c id s name tc ts :
  tls_acceptor (guest_half id) = Ok s -> handshake c name tc s ts = true ->
  admits id (cc_cert c) ClientAuth ts /\ exists client, view (cc_cert c) = Some client /\ cc_key c = key_der (ce_subject client).
Proof.
  intros ->%tls_acceptor_ok (client & server & ra & rb & x & y & Vc & _ & _ & _ & _ & _ & Hrb & Vy & Ht & Kc & _)%handshake_iff.
  cbn in Hrb. apply list_elem_of_singleton in Hrb as ->. split; [by exists y, client|by exists client].
Qed.

(** The two ends of one minting open a channel. *)
Lemma minted_handshake u i a k c s tc ts :
  minted u i a k -> tls_config a = Ok c -> tls_acceptor (guest_half a) = Ok s ->
  alive (clock (S (v_reads u))) tc -> alive (clock (S (S (v_reads u)))) ts ->
  handshake c (guest_san i) tc s ts = true.
Proof.
  intros [_ Aa (ga & Kga & Ga) (ha & Kha & Ha)] ->%tls_config_ok ->%tls_acceptor_ok Htc Hts. apply handshake_iff. unfold signed in *. cbn.
  do 2 eexists. exists (anchor a), (anchor a). do 2 eexists. split; [exact Ha|]. split; [exact Ga|].
  assert (forall x : list Z, x ∈ [x]) as Hl by (intros; left). split_and!; [apply Hl|exact Aa| |cbn; left|apply Hl|exact Aa| |done|done|by exists "h2"; split; left].
  - unfold trusted. cbn. split_and!; [done|done|right; left|apply Htc|apply Htc].
  - unfold trusted. cbn. split_and!; [done|done|right; left|apply Hts|apply Hts].
Qed.

(** C24: however many identities a node mints, of all certificates ever issued the holder of an
    instance's anchor takes exactly the instance's guest certificate as a server's and its
    host certificate as a client's, from five minutes before their minting on and for ten
    years. So the guest lets in only who holds the instance's own host certificate and key;
    and the host that dials an instance reaches that instance's guest and no other's, as long
    as both clocks are in that range. *)
Theorem channel_opens_between_its_ends l v v' ids i a :
  vault_ok v -> mint_each clock l v = (v', ids) -> (i, a) ∈ ids ->
  exists g h,
    (forall cert t, cert ∈ v_issued v' ->
       (admits a cert ServerAuth t <-> cert = guest_cert a /\ alive (clock g) t) /\
       (admits a cert ClientAuth t <-> cert = host_cert a /\ alive (clock h) t)) /\
    (forall c name tc s ts, tls_acceptor (guest_half a) = Ok s -> cc_cert c ∈ v_issued v' ->
       handshake c name tc s ts = true -> cc_cert c = host_cert a /\ cc_key c = host_key a) /\
    (forall j b c s tc ts, (j, b) ∈ ids -> tls_config a = Ok c -> tls_acceptor (guest_half b) = Ok s ->
       handshake c (guest_san i) tc s ts = true <-> b = a /\ alive (clock g) tc /\ alive (clock h) ts).
Proof.
  intros Hv Hrun Hin. destruct (mint_each_minted _ _ _ _ _ _ Hv Hrun Hin) as (u & k & Hm & Ho & Hiss).
  pose proof (admits_issued _ _ _ _ _ Hm Ho) as Had. exists (S (v_reads u)), (S (S (v_reads u))). split_and!.
  - intros cert t Hc. split; [exact (Had cert ServerAuth t Hc)|exact (Had cert ClientAuth t Hc)].
  - intros c name tc s ts Hs Hc Hh. destruct (handshake_admits _ _ _ _ _ _ Hs Hh) as (Ha & client & Vc & Hk).
    apply (Had _ ClientAuth _ Hc) in Ha as [E _]. split; [done|]. destruct Hm as [_ _ _ (hk & Khk & Sh)]. unfold signed in Sh.
    rewrite E, Sh in Vc. injection Vc as <-. by rewrite Hk, Khk.
  - intros j b c s tc ts Hb Hc Hs. destruct (mint_each_minted _ _ _ _ _ _ Hv Hrun Hb) as (u' & k' & Hm' & _ & Hiss').
    split.
    + intros Hh. pose proof (handshake_admits _ _ _ _ _ _ Hs Hh) as [Hcl _]. apply tls_config_ok in Hc as ->. apply tls_acceptor_ok in Hs as ->.
      apply handshake_iff in Hh as (client & server & ra & rb & x & y & _ & Vs & Hra & Vx & Ht & _).
      apply list_elem_of_singleton in Hra as ->. cbn in Vs.
      assert (admits a (guest_cert b) ServerAuth tc) as Hsv by by exists x, server.
      apply (Had _ ServerAuth) in Hsv as [Eg Htc]; [|apply Hiss'; right; left].
      pose proof (same_identity _ _ _ _ _ _ _ _ _ Hm Ho Hm' Hiss' Eg) as <-. split_and!; [done|done|].
      by apply (Had _ ClientAuth) in Hcl as [_ ?]; [|apply Hiss; left].
    + intros (-> & Htc & Hts). by apply (minted_handshake u i a k).
Qed.
End Safety.

(** * A concrete authority *)

Definition usage_bit (u : KeyUsage) : bool := match u with KeyCertSign => true | DigitalSignature => false end.
Definition bit_usage (b : bool) : KeyUsage := if b then KeyCertSign else DigitalSignature.
Definition eku_bit (u : ExtendedKeyUsage) : bool := match u with ServerAuth => true | ClientAuth => false end.
Definition bit_eku (b : bool) : ExtendedKeyUsage := if b then ServerAuth else ClientAuth.
(** A field as one number, and back. *)
Definition mark {A} `{Countable A} (a : A) : Z := Z.pos (countable.encode a).
Definition unmark {A} `{Countable A} (z : Z) : option A := match z with Z.pos p => countable.decode p | _ => None end.
Lemma unmark_mark {A} `{Countable A} (a : A) : unmark (mark a) = Some a.
Proof. apply countable.decode_encode. Qed.

Definition paper (c : Certificate nat) : list Z :=
  let p := ce_params c in
  [mark (cp_names p); mark (cp_ca p); mark (cp_common_name p); mark (usage_bit <$> cp_key_usages p); mark (eku_bit <$> cp_extended p);
   mark (cp_authority_key_id p); mark (cp_not_before p); mark (cp_not_after p); mark (ce_subject c); mark (ce_issuer c)].
Definition read_paper (b : list Z) : option (Certificate nat) :=
  match b with
  | [n; ca; cn; ku; eku; aki; nb; na; s; i] =>
      n ← unmark n; ca ← unmark ca; cn ← unmark cn; ku ← unmark ku; eku ← unmark eku; aki ← unmark aki;
      nb ← unmark nb; na ← unmark na; s ← unmark s; i ← unmark i;
      Some {| ce_params := mkParams n ca cn (bit_usage <$> ku) (bit_eku <$> eku) aki nb na; ce_subject := s; ce_issuer := i |}
  | _ => None
  end.
Lemma bits_back {A} (to_bit : A -> bool) of_bit (l : list A) : (forall a, of_bit (to_bit a) = a) -> of_bit <$> (to_bit <$> l) = l.
Proof. intros H. induction l as [|a l IH]; [done|]. cbn. by rewrite H, IH. Qed.
Lemma read_paper_back c : read_paper (paper c) = Some c.
Proof.
  destruct c as [[] ? ?]. unfold read_paper, paper. repeat (rewrite unmark_mark; cbn [mbind option_bind]).
  cbn. by rewrite !bits_back by (by intros []).
Qed.

#[local] Instance trusted_dec (a c : Certificate nat) u t : Decision (trusted a c u t).
Proof. unfold trusted. apply _. Defined.
Definition shake (c : ClientConfig) (name : string) (tc : Z) (s : ServerConfig) (ts : Z) : bool :=
  match read_paper (cc_cert c), read_paper (sc_cert s) with
  | Some client, Some server =>
      let under roots x u t := existsb (fun r => match read_paper r with Some a => bool_decide (trusted a x u t) | None => false end) roots in
      under (cc_roots c) server ServerAuth tc && bool_decide (name ∈ cp_names (ce_params server)) &&
      under (sc_client_roots s) client ClientAuth ts &&
      bool_decide (cc_key c = [Z.of_nat (ce_subject client)]) && bool_decide (sc_key s = [Z.of_nat (ce_subject server)]) &&
      existsb (fun p => bool_decide (p ∈ sc_alpn s)) (cc_alpn c)
  | _, _ => false
  end.

#[local] Instance paper_pki : Pki nat := {|
  generate := fun n => Ok n;
  names_ok := fun _ => Ok tt;
  certify := fun p k ca => Ok (paper {| ce_params := p; ce_subject := k; ce_issuer := snd ca |});
  key_der := fun k => [Z.of_nat k];
  parse_anchor := fun _ => Ok tt; parse_key := fun _ => Ok tt; usable_pair := fun _ _ => Ok tt;
  handshake := shake |}.

Lemma under_iff roots x u t :
  existsb (fun r => match read_paper r with Some a => bool_decide (trusted a x u t) | None => false end) roots = true <->
  exists r a, r ∈ roots /\ read_paper r = Some a /\ trusted a x u t.
Proof.
  rewrite existsb_exists. split.
  - intros (r & Hr & H). destruct (read_paper r) as [a|] eqn:E; [|done]. apply bool_decide_eq_true in H. exists r, a.
    by rewrite list_elem_of_In.
  - intros (r & a & Hr & Ha & H). exists r. rewrite Ha, bool_decide_eq_true, <- list_elem_of_In. done.
Qed.

#[local] Program Instance paper_laws : PkiLaws nat := {| view := read_paper |}.
Next Obligation. cbn. by intros n m k [= ->] [= ->]. Qed.
Next Obligation. cbn. intros k k' [= E]. lia. Qed.
Next Obligation. cbn. intros p k ca b [= <-]. apply read_paper_back. Qed.
Next Obligation.
  cbn. intros c name tc s ts. unfold shake. destruct (read_paper (cc_cert c)) as [client|] eqn:Ec; [|split; [done|naive_solver]].
  destruct (read_paper (sc_cert s)) as [server|] eqn:Es; [|split; [done|naive_solver]].
  rewrite !andb_true_iff, !under_iff, !bool_decide_eq_true, existsb_exists. setoid_rewrite <- list_elem_of_In.
  setoid_rewrite bool_decide_eq_true. split.
  - intros [[[[[(ra & a & ? & ? & ?) ?] (rb & b & ? & ? & ?)] ?] ?] (p & ? & ?)]. exists client, server, ra, rb, a, b. by split_and!; eauto.
  - intros (cl & se & ra & rb & a & b & [= <-] & [= <-] & ? & ? & ? & ? & ? & ? & ? & ? & ? & p & ? & ?). split_and!; eauto 10.
Qed.

Definition noon (_ : nat) : Z := 1000000000.
Definition two_instances := mint_each noon ["i"; "j"] (mkVault 0 0 []).
Definition identity_at (n : nat) : Identity := default small_identity (snd <$> snd two_instances !! n).
Lemma two_minted : two_instances = (fst two_instances, [("i", identity_at 0); ("j", identity_at 1)]).
Proof. vm_compute. reflexivity. Qed.
Lemma empty_vault_ok : vault_ok (mkVault 0 0 []).
Proof. by constructor. Qed.

Lemma channel_opens_between_its_ends_witness :
  exists c s s',
    tls_config (identity_at 0) = Ok c /\ tls_acceptor (guest_half (identity_at 0)) = Ok s /\
    tls_acceptor (guest_half (identity_at 1)) = Ok s' /\
    handshake c (guest_san "i") (noon 0) s (noon 0) = true /\
    (handshake c (guest_san "i") (noon 0) s' (noon 0) = true <-> identity_at 1 = identity_at 0 /\ alive (noon 0) (noon 0) /\ alive (noon 0) (noon 0)).
Proof.
  destruct (channel_opens_between_its_ends noon _ _ _ _ "i" (identity_at 0) empty_vault_ok two_minted ltac:(left)) as (g & h & _ & _ & H).
  do 3 eexists. split; [reflexivity|]. split; [reflexivity|]. split; [reflexivity|]. split.
  - refine (proj2 (H "i" (identity_at 0) _ _ _ _ ltac:(left) eq_refl eq_refl) _). by vm_compute.
  - exact (H "j" (identity_at 1) _ _ _ _ ltac:(right; left) eq_refl eq_refl).
Defined.
(** The other instance's identity is another. *)
Lemma identities_differ : identity_at 0 <> identity_at 1.
Proof. by vm_compute. Qed.

(** * What the listener lets through *)

Lemma accept_loop_shakes {C} errs (arrivals : list (res string C)) :
  omap (fun a => match a with Shake c => Some c | _ => None end) (accept_loop errs arrivals) = omap res_ok arrivals.
Proof.
  revert errs. induction arrivals as [|[c|e] l IH]; intros errs; [done|by cbn; rewrite IH|]. cbn.
  destruct (1 <? _); cbn; apply IH.
Qed.

(** Whatever goes wrong in accepting, the listener goes on: every connection that arrives has
    its handshake tried, a pause is at most a second, and a connection is served only when
    its handshake succeeded; without an identity none is. *)
Theorem listener_goes_on {C} errs (arrivals : list (res string C)) listener acceptor accepts :
  omap (fun a => match a with Shake c => Some c | _ => None end) (accept_loop errs arrivals) = omap res_ok arrivals /\
  (forall ms, Rest ms ∈ accept_loop errs arrivals -> 0 <= ms <= 1000) /\
  (forall t, t ∈ network_incoming (C := C) listener acceptor accepts <->
     exists s l c, acceptor = Some s /\ listener = Some l /\ Ok c ∈ l /\ accepts s c = true /\ t = Tls c).
Proof.
  split_and!; [apply accept_loop_shakes| |].
  - revert errs. induction arrivals as [|[c|e] l IH]; intros errs ms; cbn [accept_loop]; [by intros ?%not_elem_of_nil|..].
    + intros [?|?]%elem_of_cons; [done|by eapply IH].
    + rewrite elem_of_cons, elem_of_app. intros [?|[Hr|?]]; [done| |by eapply IH]. destruct (1 <? _); [|by apply not_elem_of_nil in Hr].
      apply list_elem_of_singleton in Hr as [= ->]. pose proof (Z.mod_pos_bound (10 * Z.min (errs + 1) u32_max) (2 ^ 32)). lia.
  - intros t. unfold network_incoming. destruct acceptor as [s|]; [|split; [by intros ?%not_elem_of_nil|naive_solver]].
    destruct listener as [l|]; [|split; [by intros ?%not_elem_of_nil|naive_solver]].
    rewrite list_elem_of_omap. split.
    + intros ([c|e|ms] & Ha & E); [|done..]. destruct (accepts s c) eqn:Es; [|done]. injection E as <-. exists s, l, c.
      split_and!; [done..| |done|done].
      assert (c ∈ omap (fun a : Acted C => match a with Shake c => Some c | _ => None end) (accept_loop 0 l)) as Hc by (apply list_elem_of_omap; by eexists).
      rewrite accept_loop_shakes in Hc. apply list_elem_of_omap in Hc as ([c'|] & Hc & E); [|done]. by injection E as ->.
    + intros (s' & l' & c & [= <-] & [= <-] & Hc & Hs & ->).
      assert (c ∈ omap res_ok l) as Ho by (apply list_elem_of_omap; by exists (Ok c)).
      rewrite <- (accept_loop_shakes 0), list_elem_of_omap in Ho. destruct Ho as ([c'| |] & Ha & E); [|done..]. injection E as ->.
      exists (Shake c). by rewrite Hs.
Qed.

(** The log never shows a key: it depends on the lengths of the certificates alone. *)
Lemma debug_hides_keys id id' :
  length (anchor id) = length (anchor id') -> length (guest_cert id) = length (guest_cert id') ->
  length (host_cert id) = length (host_cert id') -> identity_debug id = identity_debug id'.
Proof. intros H1 H2 H3. unfold identity_debug. by rewrite H1, H2, H3. Qed.
