(* ===== verification/Bridge.v ===== *)
(** The channel into a container: src/crates/barista-guest-agent/src/bridge.rs, which relays
    between its standard streams and the agent's socket, with main.rs that starts it, and the
    Docker exec of [runtime/fake.rs] that runs it for the node.

    The bridge is two loops in one [select!]; a step of [bstep] is what one of them, the
    host or the agent does between two points where another may run. *)

From S2P Require Import Prelude Text Codec Guest Docker.

(** * The agent's entry points: main.rs *)

Definition socket_path (vars : gmap string string) (socket : option string) : string :=
  default (default DEFAULT_SOCKET (vars !! ENV_SOCKET)) socket.
Definition workload_socket_path (vars : gmap string string) (socket : option string) : string :=
  default (default DEFAULT_WORKLOAD_SOCKET (vars !! ENV_WORKLOAD_SOCKET)) socket.

(** * The relay: bridge.rs *)

Definition RELAY_CHUNK : nat := Z.to_nat (32 * 1024).

(** The loop from the host to the guest: reading, holding a chunk, and over. *)
Inductive Upstream : Type :=
| UpReading
| UpHolding (buf : list Z)
| UpDone (r : res string unit).
(** The loop from the guest to the host: a chunk is written, then flushed; at the end of the
    guest's half there is a flush of its own. *)
Inductive Downstream : Type :=
| DownReading
| DownHolding (buf : list Z)
| DownWritten
| DownEnding
| DownDone (r : res string unit).

(** [b_sent] is all the host has written, [b_read] how much of it was read, [b_socket] what
    the agent's socket was given; [b_said] is all the agent has written, [b_heard] how much of
    it was read, [b_buffer] what waits in standard output and [b_out] what has left it. *)
Record Bridge := mkBridge {
  b_sent : list Z; b_closed : bool; b_read : nat; b_up : Upstream; b_socket : list Z; b_shut : bool;
  b_said : list Z; b_said_all : bool; b_heard : nat; b_down : Downstream; b_buffer : list Z; b_out : list Z;
  b_end : option (res string unit) }.
#[global] Instance rebuild_Bridge : Rebuild Bridge := fun b =>
  mkBridge (b_sent b) (b_closed b) (b_read b) (b_up b) (b_socket b) (b_shut b) (b_said b) (b_said_all b) (b_heard b) (b_down b)
    (b_buffer b) (b_out b) (b_end b).

Definition bridge_init : Bridge := mkBridge [] false 0 UpReading [] false [] false 0 DownReading [] [] None.

Definition in_context (what : string) (r : res string unit) : res string unit :=
  match r with Ok _ => Ok tt | Err e => Err (what +:+ ": " +:+ e) end.

Inductive bstep : Bridge -> Bridge -> Prop :=
(** The host and the agent write and close, whenever they like. *)
| host_writes b l : b_closed b = false -> bstep b (b <| b_sent := b_sent b ++ l |>)
| host_closes b : bstep b (b <| b_closed := true |>)
| agent_writes b l : b_said_all b = false -> bstep b (b <| b_said := b_said b ++ l |>)
| agent_closes b : bstep b (b <| b_said_all := true |>)
(** Standard output passes on what it holds in its own time. *)
| output_leaves b n : bstep b (b <| b_out := b_out b ++ take n (b_buffer b) |> <| b_buffer := drop n (b_buffer b) |>)
(** From the host to the guest. *)
| up_reads b n :
    b_end b = None -> b_up b = UpReading -> (0 < n <= RELAY_CHUNK)%nat -> (b_read b + n <= length (b_sent b))%nat ->
    bstep b (b <| b_up := UpHolding (take n (drop (b_read b) (b_sent b))) |> <| b_read := (b_read b + n)%nat |>)
| up_read_fails b e : b_end b = None -> b_up b = UpReading -> bstep b (b <| b_up := UpDone (Err e) |>)
| up_writes b buf : b_end b = None -> b_up b = UpHolding buf -> bstep b (b <| b_socket := b_socket b ++ buf |> <| b_up := UpReading |>)
| up_write_fails b buf n e :
    b_end b = None -> b_up b = UpHolding buf ->
    bstep b (b <| b_socket := b_socket b ++ take n buf |> <| b_up := UpDone (Err e) |>)
| up_ends b :
    b_end b = None -> b_up b = UpReading -> b_closed b = true -> b_read b = length (b_sent b) ->
    bstep b (b <| b_shut := true |> <| b_up := UpDone (Ok tt) |>)
| up_shutdown_fails b e :
    b_end b = None -> b_up b = UpReading -> b_closed b = true -> b_read b = length (b_sent b) ->
    bstep b (b <| b_up := UpDone (Err e) |>)
(** From the guest to the host. *)
| down_reads b n :
    b_end b = None -> b_down b = DownReading -> (0 < n <= RELAY_CHUNK)%nat -> (b_heard b + n <= length (b_said b))%nat ->
    bstep b (b <| b_down := DownHolding (take n (drop (b_heard b) (b_said b))) |> <| b_heard := (b_heard b + n)%nat |>)
| down_read_fails b e : b_end b = None -> b_down b = DownReading -> bstep b (b <| b_down := DownDone (Err e) |>)
| down_writes b buf :
    b_end b = None -> b_down b = DownHolding buf -> bstep b (b <| b_buffer := b_buffer b ++ buf |> <| b_down := DownWritten |>)
| down_write_fails b buf n e :
    b_end b = None -> b_down b = DownHolding buf ->
    bstep b (b <| b_buffer := b_buffer b ++ take n buf |> <| b_down := DownDone (Err e) |>)
| down_flushes b :
    b_end b = None -> b_down b = DownWritten ->
    bstep b (b <| b_out := b_out b ++ b_buffer b |> <| b_buffer := [] |> <| b_down := DownReading |>)
| down_flush_fails b e : b_end b = None -> b_down b = DownWritten \/ b_down b = DownEnding -> bstep b (b <| b_down := DownDone (Err e) |>)
| down_eof b :
    b_end b = None -> b_down b = DownReading -> b_said_all b = true -> b_heard b = length (b_said b) ->
    bstep b (b <| b_down := DownEnding |>)
| down_ends b :
    b_end b = None -> b_down b = DownEnding ->
    bstep b (b <| b_out := b_out b ++ b_buffer b |> <| b_buffer := [] |> <| b_down := DownDone (Ok tt) |>)
(** The first loop to be over ends the bridge. *)
| up_selected b r : b_end b = None -> b_up b = UpDone r -> bstep b (b <| b_end := Some (in_context "relaying host → guest" r) |>)
| down_selected b r : b_end b = None -> b_down b = DownDone r -> bstep b (b <| b_end := Some (in_context "relaying guest → host" r) |>).

(** [log_relay]: the first chunks of a direction are noted. *)
Definition noted (n total : Z) : bool * Z :=
  let total := total + n in (total <=? Z.of_nat RELAY_CHUNK * 4, total).

(** * The exec: fake.rs *)

Inductive LogOutput : Type :=
| StdErr (message : list Z)
| StdOut (message : list Z)
| StdIn (message : list Z)
| Console (message : list Z).
Inductive StartExecResults : Type := Attached (output : list (res DockerError LogOutput)) | Detached.
Record CreateExecOptions := { eo_cmd : list string; eo_attach_stdin : bool; eo_attach_stdout : bool; eo_attach_stderr : bool; eo_tty : bool }.

Definition EXEC_OUTPUT_CAPACITY : Z := 64 * 1024.
(** The bytes an exec's output carries, frame by frame. *)
Definition exec_frame (frame : res DockerError LogOutput) : option (res string (list Z)) :=
  match frame with
  | Ok (StdOut m) | Ok (Console m) => Some (Ok m)
  | Ok _ => None
  | Err e => Some (Err (docker_error_text e))
  end.

Section Exec.
Context {D : Type}.
Context (create_exec : D -> string -> CreateExecOptions -> D * res DockerError string).
Context (start_exec : D -> string -> bool -> bool -> Z -> D * res DockerError StartExecResults).
(** The gRPC library's connection over the stream; whether a token is valid metadata. *)
Context (connected : list (res string (list Z)) -> res string unit) (metadata_ok : string -> bool).

Definition open_bridge (container : string) : Call D (res string (list (res string (list Z)))) :=
  let@? exec_id := (fun d => create_exec d container
      {| eo_cmd := [GUEST_BIN_IN_SANDBOX; "bridge"]; eo_attach_stdin := true; eo_attach_stdout := true; eo_attach_stderr := false; eo_tty := false |})
    or docker_error_text in
  let@? started := (fun d => start_exec d exec_id false false EXEC_OUTPUT_CAPACITY) or docker_error_text in
  pass_back (match started with
             | Attached output => Ok (omap exec_frame output)
             | Detached => Err "docker returned a detached exec for the guest bridge"
             end).

Definition docker_connect (node_id iid token : string) : Call D (res string unit) :=
  let unreachable (source : string) := "guest agent unreachable for " +:+ iid +:+ ": " +:+ source in
  let@? stream := open_bridge (container_name node_id iid) or (fun e => unreachable ("opening the docker exec bridge: " +:+ e)) in
  let@? _ := pass_back (connected stream) or (fun e => unreachable ("opening the docker exec bridge: " +:+ e)) in
  pass_back (if metadata_ok token then Ok tt else Err (unreachable "instance token is not valid gRPC metadata")).
End Exec.

(** * What passes *)

(** Each loop between its two ends. *)
Definition up_inv (b : Bridge) : Prop :=
  (b_read b <= length (b_sent b))%nat /\
  match b_up b with
  | UpReading => b_socket b = take (b_read b) (b_sent b)
  | UpHolding buf => b_socket b ++ buf = take (b_read b) (b_sent b)
  | UpDone (Ok _) => b_closed b = true /\ b_shut b = true /\ b_socket b = b_sent b
  | UpDone (Err _) => b_socket b `prefix_of` b_sent b
  end.
Definition down_inv (b : Bridge) : Prop :=
  (b_heard b <= length (b_said b))%nat /\
  match b_down b with
  | DownReading => b_buffer b = [] /\ b_out b = take (b_heard b) (b_said b)
  | DownHolding buf => b_buffer b = [] /\ b_out b ++ buf = take (b_heard b) (b_said b)
  | DownWritten => b_out b ++ b_buffer b = take (b_heard b) (b_said b)
  | DownEnding | DownDone (Ok _) => b_buffer b = [] /\ b_said_all b = true /\ b_out b = b_said b
  | DownDone (Err _) => b_out b ++ b_buffer b `prefix_of` b_said b
  end.
Definition end_inv (b : Bridge) : Prop := b_end b = Some (Ok tt) -> b_up b = UpDone (Ok tt) \/ b_down b = DownDone (Ok tt).

Lemma take_grown (l l' : list Z) n : (n <= length l)%nat -> take n (l ++ l') = take n l.
Proof. intros. by rewrite take_app_le. Qed.
Lemma prefix_part (a buf l : list Z) n : a ++ buf `prefix_of` l -> a ++ take n buf `prefix_of` l.
Proof. intros H. etrans; [|exact H]. apply prefix_app, prefix_take. Qed.

Lemma up_inv_step b b' : bstep b b' -> up_inv b -> up_inv b'.
Proof.
  unfold up_inv. intros Hs [Hl Hi]. destruct Hs; cbn; try (split; [exact Hl|exact Hi]);
    try match goal with E : b_up b = _ |- _ => rewrite E in Hi end; try (split; [done|rewrite Hi; apply prefix_take]).
  - rewrite length_app, take_grown by done. split; [lia|]. destruct (b_up b) as [| |[]]; [done|done|naive_solver congruence|by apply prefix_app_r].
  - split; [done|]. destruct (b_up b) as [| |[]]; naive_solver.
  - split; [done|]. by rewrite Hi, take_take_drop.
  - split; [done|exact Hi].
  - split; [done|]. apply prefix_part. rewrite Hi. apply prefix_take.
  - rewrite H2, firstn_all in Hi. split; [lia|done].
Qed.

Lemma down_inv_step b b' : bstep b b' -> down_inv b -> down_inv b'.
Proof.
  unfold down_inv. intros Hs [Hl Hi]. destruct Hs; cbn; try (split; [exact Hl|exact Hi]);
    try match goal with E : b_down b = _ |- _ => rewrite E in Hi end.
  - rewrite length_app, take_grown by done. split; [lia|]. destruct (b_down b) as [| | | |[]]; try done; [naive_solver congruence..|by apply prefix_app_r].
  - split; [done|]. destruct (b_down b) as [| | | |[]]; naive_solver.
  - split; [done|]. destruct (b_down b) as [| | | |[]];
      try (destruct Hi as [-> Hi]; rewrite ?take_nil, ?drop_nil, ?app_nil_r; done); rewrite <- app_assoc, take_drop; done.
  - destruct Hi as [-> Hi]. split; [done|]. split; [done|]. by rewrite Hi, take_take_drop.
  - destruct Hi as [-> Hi]. split; [done|]. rewrite app_nil_r, Hi. apply prefix_take.
  - destruct Hi as [-> Hi]. by split.
  - destruct Hi as [-> Hi]. split; [done|]. cbn. apply prefix_part. rewrite Hi. apply prefix_take.
  - by split.
  - split; [done|]. destruct H0 as [E|E]; rewrite E in Hi; [rewrite Hi; apply prefix_take|]. destruct Hi as (-> & _ & ->). by rewrite app_nil_r.
  - destruct Hi as [-> Hi]. split; [done|]. rewrite H2, firstn_all in Hi. done.
  - destruct Hi as (-> & ? & ?). rewrite app_nil_r. done.
Qed.

Lemma end_inv_step b b' : bstep b b' -> end_inv b -> end_inv b'.
Proof.
  unfold end_inv. intros Hs Hi. destruct Hs; cbn; try exact Hi; try (intros E; congruence).
  - destruct r as [[]|]; [|done]. intros _. by left.
  - destruct r as [[]|]; [|done]. intros _. by right.
Qed.
Lemma bridge_invs b : rtc bstep bridge_init b -> up_inv b /\ down_inv b /\ end_inv b.
Proof.
  revert b. refine (rtc_ind_r (fun b => up_inv b /\ down_inv b /\ end_inv b) _ _ _); [|intros y z _ Hs (? & ? & ?)].
  - split_and!; [by split|by split|done].
  - split_and!; [by eapply up_inv_step|by eapply down_inv_step|by eapply end_inv_step].
Qed.

(** From a state in which nothing is held, all that the agent has written can leave. *)
Lemma drained b :
  b_end b = None -> b_down b = DownReading -> b_buffer b = [] -> b_out b = take (b_heard b) (b_said b) ->
  (b_heard b <= length (b_said b))%nat ->
  exists b', rtc bstep b b' /\ b_out b' = b_said b /\ b_end b' = None /\ b_down b' = DownReading.
Proof.
  remember (length (b_said b) - b_heard b)%nat as m eqn:Em. revert b Em. induction (lt_wf m) as [m _ IH]. intros b -> He Hd Hb Ho Hl.
  destruct (decide (b_heard b = length (b_said b))) as [E|Hne]; [exists b; rewrite Ho, E, firstn_all; by split|].
  set (n := Nat.min RELAY_CHUNK (length (b_said b) - b_heard b)).
  assert (0 < n <= RELAY_CHUNK)%nat as Hn by (unfold n; pose proof (eq_refl : RELAY_CHUNK = Z.to_nat (32 * 1024)); lia).
  pose proof (down_reads b n He Hd Hn ltac:(lia)) as S1. set (b1 := b <| b_down := _ |> <| b_heard := _ |>) in S1.
  pose proof (down_writes b1 _ He eq_refl) as S2. set (b2 := b1 <| b_buffer := _ |> <| b_down := _ |>) in S2.
  pose proof (down_flushes b2 He eq_refl) as S3. set (b3 := b2 <| b_out := _ |> <| b_buffer := _ |> <| b_down := _ |>) in S3.
  destruct (IH (length (b_said b3) - b_heard b3)%nat) with (b := b3) as (b' & Hr & Hout & ? & ?); [cbn; lia|done..|done| |cbn; lia|].
  { cbn. rewrite Hb, Ho. cbn. apply take_take_drop. }
  exists b'. split_and!; [|done..]. by eapply rtc_l, rtc_l, rtc_l.
Qed.

(** C31: whatever the interleaving of the two directions, and wherever one of them fails, the
    agent's socket was given a beginning of what the host wrote, in order and unchanged, and
    the host a beginning of what the agent wrote; between two reads nothing the agent wrote is held
    back. A bridge that ends well passed on one direction to its end; and while it runs,
    everything the agent has written can still leave. *)
Theorem bridge_relays_in_order b :
  rtc bstep bridge_init b ->
  b_socket b `prefix_of` b_sent b /\ b_out b `prefix_of` b_said b /\
  (b_up b = UpReading -> b_socket b = take (b_read b) (b_sent b)) /\
  (b_down b = DownReading -> b_buffer b = [] /\ b_out b = take (b_heard b) (b_said b)) /\
  (b_end b = Some (Ok tt) ->
     b_closed b = true /\ b_shut b = true /\ b_socket b = b_sent b \/ b_said_all b = true /\ b_out b = b_said b) /\
  (b_end b = None -> (forall r, b_down b <> DownDone r) -> exists b', rtc bstep b b' /\ b_out b' = b_said b).
Proof.
  intros ([Hl Hu] & [Hh Hd] & He)%bridge_invs. split_and!.
  - destruct (b_up b) as [|buf|[]]; [rewrite Hu; apply prefix_take|eapply prefix_app_l; rewrite Hu; apply prefix_take|by destruct Hu as (_ & _ & ->)|done].
  - pose proof (prefix_take (b_said b) (b_heard b)) as Ht. destruct (b_down b) as [|buf| | |[]].
    + by destruct Hd as [_ ->].
    + destruct Hd as [_ Hd]. rewrite <- Hd in Ht. by eapply prefix_app_l.
    + rewrite <- Hd in Ht. by eapply prefix_app_l.
    + by destruct Hd as (_ & _ & ->).
    + by destruct Hd as (_ & _ & ->).
    + by eapply prefix_app_l.
  - intros E. by rewrite E in Hu.
  - intros E. by rewrite E in Hd.
  - intros E. destruct (He E) as [E'|E']; [rewrite E' in Hu; by left|rewrite E' in Hd; right; tauto].
  - intros Hn Hd'. destruct (b_down b) as [|buf| | |r] eqn:E; [| | | |by destruct (Hd' r)].
    + destruct Hd as [? ?]. destruct (drained b) as (b' & ? & ? & _); try done. by exists b'.
    + destruct Hd as [Hb Hd]. pose proof (down_writes b _ Hn E) as S1. set (b1 := b <| b_buffer := _ |> <| b_down := _ |>) in S1.
      pose proof (down_flushes b1 Hn eq_refl) as S2. set (b2 := b1 <| b_out := _ |> <| b_buffer := _ |> <| b_down := _ |>) in S2.
      destruct (drained b2) as (b' & Hr & Ho & _); try done; [cbn; by rewrite Hb|]. exists b'. split; [by eapply rtc_l, rtc_l|done].
    + pose proof (down_flushes b Hn E) as S1. set (b1 := b <| b_out := _ |> <| b_buffer := _ |> <| b_down := _ |>) in S1.
      destruct (drained b1) as (b' & Hr & Ho & _); try done. exists b'. split; [by eapply rtc_l|done].
    + exists b. split; [done|tauto].
Qed.

(** One exchange: two bytes to the agent, one of which was answered. *)
Definition exchanged : Bridge :=
  mkBridge [1; 2] false 2 UpReading [1; 2] false [9] false 1 DownWritten [9] [] None.
Lemma exchanged_reachable : rtc bstep bridge_init exchanged.
Proof.
  eapply rtc_l; [by apply (host_writes _ [1; 2])|]. eapply rtc_l; [apply (up_reads _ 2); [done|done|unfold RELAY_CHUNK; lia|done]|].
  eapply rtc_l; [by apply (up_writes _ [1; 2])|]. eapply rtc_l; [by apply (agent_writes _ [9])|].
  eapply rtc_l; [apply (down_reads _ 1); [done|done|unfold RELAY_CHUNK; lia|done]|]. eapply rtc_l; [by apply (down_writes _ [9])|]. apply rtc_refl.
Qed.
Lemma bridge_relays_in_order_witness :
  b_socket exchanged `prefix_of` b_sent exchanged /\ b_socket exchanged = [1; 2] /\ exists b', rtc bstep exchanged b' /\ b_out b' = [9].
Proof.
  destruct (bridge_relays_in_order exchanged exchanged_reachable) as (H1 & _ & H2 & _ & _ & H3).
  split_and!; [exact H1|exact (H2 eq_refl)|]. exact (H3 eq_refl ltac:(done)).
Defined.

(** Through the exec, what is read is the messages of standard output, in order, up to the
    daemon's first error; nothing of standard error is among them. *)
Fixpoint readable (frames : list (res string (list Z))) : list Z :=
  match frames with Ok m :: l => m ++ readable l | _ => [] end.
Definition stdout_only (frames : list LogOutput) : list Z :=
  mjoin (omap (fun f => match f with StdOut m | Console m => Some m | _ => None end) frames).
Lemma exec_reads_stdout (frames : list LogOutput) e rest :
  readable (omap exec_frame (Ok <$> frames)) = stdout_only frames /\
  readable (omap exec_frame ((Ok <$> frames) ++ Err e :: rest)) = stdout_only frames.
Proof.
  unfold stdout_only. induction frames as [|f l [IH1 IH2]]; [done|]. destruct f; cbn in IH1, IH2 |- *; rewrite ?IH1, ?IH2; done.
Qed.
