(* ===== verification/Net.v ===== *)
(** Addresses: the texts [std::net] reads as addresses, and the two places that take only a
    loopback one: [check_listen_addr] of src/crates/barista-node-agent/src/lib.rs and
    src/crates/barista-node-agent/src/runtime/hypeman/config.rs. *)

From S2P Require Import Prelude Text Operations Codec Service Pages HypemanClient.
From Stdlib Require Import Ascii.

(** * Reading addresses ([core::net]) *)

Definition Reader (A : Type) : Type := list Z -> option (A * list Z).

(** [char::to_digit] *)
Definition to_digit (radix c : Z) : option Z :=
  let d := if within 48 57 c then c - 48 else if within 97 122 c then c - 87 else if within 65 90 c then c - 55 else 36 in
  if d <? radix then Some d else None.

Fixpoint take_digits (radix : Z) (l : list Z) : list Z * list Z :=
  match l with
  | [] => ([], [])
  | c :: l' => match to_digit radix c with
               | Some d => let '(ds, rest) := take_digits radix l' in (d :: ds, rest)
               | None => ([], l)
               end
  end.

Definition number_of (radix : Z) (ds : list Z) : Z := foldl (fun acc d => acc * radix + d) 0 ds.

(** [read_number], for a type whose largest value is [max]. *)
Definition read_number (radix : Z) (max_digits : option nat) (allow_zero_prefix : bool) (max : Z) : Reader Z := fun l =>
  let '(ds, rest) := take_digits radix l in
  if bool_decide (ds = []) then None
  else if match max_digits with Some n => (n <? length ds)%nat | None => false end then None
  else if negb allow_zero_prefix && bool_decide (head l = Some 48) && (1 <? length ds)%nat then None
  else if number_of radix ds <=? max then Some (number_of radix ds, rest) else None.

Definition read_given (c : Z) : Reader unit := fun l =>
  match l with d :: l' => if d =? c then Some (tt, l') else None | [] => None end.
Definition andThen {A B} (m : Reader A) (k : A -> Reader B) : Reader B := fun l =>
  match m l with Some (a, l') => k a l' | None => None end.
Definition orElse {A} (m m' : Reader A) : Reader A := fun l => match m l with Some r => Some r | None => m' l end.
Definition give {A} (a : A) : Reader A := fun l => Some (a, l).
#[local] Notation "'read' x := m 'in' k" := (andThen m (fun x => k)) (at level 10, x pattern, m at level 100, k at level 200).

Inductive IpAddr : Type :=
| V4 (a b c d : Z)
| V6 (groups : list Z).

Definition read_u8 : Reader Z := read_number 10 (Some 3%nat) false 255.

Definition read_ipv4 : Reader (Z * Z * Z * Z) :=
  read a := read_u8 in read _ := read_given 46 in
  read b := read_u8 in read _ := read_given 46 in
  read c := read_u8 in read _ := read_given 46 in
  read d := read_u8 in give (a, b, c, d).

(** [read_separator(':', i, ..)] *)
Definition after_colon {A} (first : bool) (m : Reader A) : Reader A :=
  if first then m else read _ := read_given 58 in m.

(** [read_groups] with room for [k] groups; an IPv4 address may fill the last two. *)
Fixpoint read_groups (first : bool) (k : nat) (l : list Z) : list Z * bool * list Z :=
  match k with
  | O => ([], false, l)
  | S k' =>
      match (if (2 <=? k)%nat then after_colon first read_ipv4 l else None) with
      | Some ((a, b, c, d), rest) => ([a * 256 + b; c * 256 + d], true, rest)
      | None =>
          match after_colon first (read_number 16 (Some 4%nat) true 65535) l with
          | Some (g, rest) => let '(gs, v4, rest') := read_groups false k' rest in (g :: gs, v4, rest')
          | None => ([], false, l)
          end
      end
  end.

Definition read_ipv6 : Reader (list Z) := fun l =>
  let '(head, head_ipv4, rest) := read_groups true 8 l in
  if (length head =? 8)%nat then Some (head, rest)
  else if head_ipv4 then None
  else (read _ := read_given 58 in read _ := read_given 58 in
        fun l => let '(tail, _, rest) := read_groups true (7 - length head) l in
                 Some (head ++ repeat 0 (8 - length head - length tail) ++ tail, rest)) rest.

Definition read_v4_ip : Reader IpAddr := read p := read_ipv4 in let '(a, b, c, d) := p in give (V4 a b c d).
Definition read_v6_ip : Reader IpAddr := read g := read_ipv6 in give (V6 g).
Definition read_ip : Reader IpAddr := orElse read_v4_ip read_v6_ip.
Definition read_port : Reader Z := read _ := read_given 58 in read_number 10 None true 65535.
Definition read_scope : Reader Z := read _ := read_given 37 in read_number 10 None true (2 ^ 32 - 1).

Definition read_v4_socket : Reader (IpAddr * Z) :=
  read p := read_ipv4 in let '(a, b, c, d) := p in read port := read_port in give (V4 a b c d, port).
Definition read_v6_socket : Reader (IpAddr * Z) :=
  read _ := read_given 91 in read g := read_ipv6 in read _ := orElse read_scope (give 0) in
  read _ := read_given 93 in read port := read_port in give (V6 g, port).
Definition read_socket_addr : Reader (IpAddr * Z) := orElse read_v4_socket read_v6_socket.

(** [parse_with]: the whole text. *)
Definition whole {A} (m : Reader A) (s : string) : option A :=
  match m (bytes_of s) with Some (a, []) => Some a | _ => None end.

(** [IpAddr::is_loopback] *)
Definition is_loopback (ip : IpAddr) : bool :=
  match ip with V4 a _ _ _ => a =? 127 | V6 g => bool_decide (g = [0; 0; 0; 0; 0; 0; 0; 1]) end.

(** * The node's own address *)

Definition check_listen_addr (show_addr : IpAddr * Z -> string) (listen : string) : res string (IpAddr * Z) :=
  match whole read_socket_addr listen with
  | None => Err ("--listen must be an ip:port, not a hostname (" +:+ listen +:+ "): a name may resolve to a " +:+
                 "routable address, and Contract A has no authentication to survive that")
  | Some addr =>
      if is_loopback (fst addr) then Ok addr
      else Err ("refusing to serve the node API on " +:+ show_addr addr +:+ ": Contract A can create and destroy instances, " +:+
                "exec commands, and read and write files in every guest, and it carries no " +:+
                "authentication in Phase 1 — so it is served on loopback only. Use --uds for another " +:+
                "process, or 127.0.0.1 behind an authenticating proxy")
  end.

(** * The substrate's address: config.rs *)

Definition ENV_URL : string := "BARISTA_HYPEMAN_URL".
Definition ENV_TOKEN : string := "BARISTA_HYPEMAN_TOKEN".
Definition ENV_TOKEN_FILE : string := "BARISTA_HYPEMAN_TOKEN_FILE".
Definition DEFAULT_BASE_URL : string := "http://127.0.0.1:4973".

Record Config := mkConfig { base_url : string; cf_token : option string }.

Definition config_new (url : string) (token : option string) : Config :=
  mkConfig url (option_filter (fun t => negb (is_empty (trim_by ascii_space t))) token).

Definition has_token (c : Config) : bool := match cf_token c with Some _ => true | None => false end.
Definition config_client (c : Config) : HypemanClient := new_client (base_url c) (cf_token c).

(** [rest.split(['/', '?', '#']).next()] *)
Definition is_delimiter (c : ascii) : bool := bool_decide (c = "/"%char) || bool_decide (c = "?"%char) || bool_decide (c = "#"%char).
Fixpoint authority_of (s : string) : string :=
  match s with
  | EmptyString => EmptyString
  | String c s' => if is_delimiter c then EmptyString else String c (authority_of s')
  end.

Definition authority_ip (authority : string) : option IpAddr :=
  match whole read_socket_addr authority with
  | Some (ip, _) => Some ip
  | None => whole read_ip authority
  end.

Definition check_base_url (url : string) : res string unit :=
  match strip_prefix "http://" url with
  | None => Err (ENV_URL +:+ " must be an http://<loopback-ip>[:port] URL, not " +:+ url +:+ ": this build " +:+
                 "carries no TLS (the substrate is expected to be local), so no other scheme " +:+
                 "can be spoken")
  | Some rest =>
      match authority_ip (authority_of rest) with
      | None => Err (ENV_URL +:+ " must name a loopback IP, not a hostname (" +:+ url +:+ "): a name may " +:+
                     "resolve to a routable address, and the bearer token travels in cleartext " +:+
                     "on this connection")
      | Some ip =>
          if is_loopback ip then Ok tt
          else Err ("refusing " +:+ ENV_URL +:+ "=" +:+ url +:+ ": the connection is plaintext http and carries the " +:+
                    "substrate bearer token, so a non-loopback address sends the credential across " +:+
                    "the network in the clear. Reach a remote substrate through a loopback tunnel " +:+
                    "(e.g. ssh -L 4973:127.0.0.1:4973) instead")
      end
  end.

Section FromEnv.
(** The process's environment, and the files it reads. *)
Context (var : string -> option string) (read_to_string : string -> res string string).

Definition read_token_file (path : string) : res string string :=
  match read_to_string path with
  | Err e => Err ("reading " +:+ ENV_TOKEN_FILE +:+ " (" +:+ path +:+ "): " +:+ e)
  | Ok raw =>
      let token := trim_by ascii_space raw in
      if is_empty token then Err (ENV_TOKEN_FILE +:+ " at " +:+ path +:+ " is empty") else Ok token
  end.

Definition config_from_env : res string Config :=
  let url := default DEFAULT_BASE_URL (var ENV_URL) in
  let? _ := check_base_url url in
  let? token := match var ENV_TOKEN_FILE with
                | Some path => if negb (is_empty (trim_by ascii_space path)) then (let? t := read_token_file path in Ok (Some t))
                               else Ok (var ENV_TOKEN)
                | None => Ok (var ENV_TOKEN)
                end in
  Ok (config_new url token).
End FromEnv.

(** * Which addresses are taken *)

Definition octet (n : Z) : Prop := 0 <= n <= 255.
Definition not_digit (l : list Z) : Prop := match l with c :: _ => to_digit 10 c = None | [] => True end.
Definition digit_of (d : Z) : Z := 48 + d.

Lemma to_digit_inv c d : to_digit 10 c = Some d -> c = digit_of d /\ 0 <= d < 10.
Proof.
  unfold to_digit, within, digit_of. intros H. repeat case_match; simplify_eq; split; lia.
Qed.
Lemma to_digit_of d : 0 <= d < 10 -> to_digit 10 (digit_of d) = Some d.
Proof. unfold to_digit, within, digit_of. intros H. repeat case_match; try lia; f_equal; lia. Qed.

Lemma take_digits_inv l ds rest :
  take_digits 10 l = (ds, rest) -> l = (digit_of <$> ds) ++ rest /\ Forall (fun d => 0 <= d < 10) ds /\ not_digit rest.
Proof.
  revert ds rest. induction l as [|c l IH]; intros ds rest; cbn [take_digits]; [intros [= <- <-]; done|].
  destruct (to_digit 10 c) as [d|] eqn:E; [|intros [= <- <-]; done].
  destruct (take_digits 10 l) as [ds' rest'] eqn:E'. intros [= <- <-].
  destruct (IH _ _ eq_refl) as (-> & Hd & Hn). apply to_digit_inv in E as [-> Hr]. split_and!; [done|by constructor|done].
Qed.
Lemma take_digits_app ds rest :
  Forall (fun d => 0 <= d < 10) ds -> not_digit rest -> take_digits 10 ((digit_of <$> ds) ++ rest) = (ds, rest).
Proof.
  intros H Hn. induction H as [|d ds Hd _ IH]; cbn [fmap list_fmap app take_digits].
  - destruct rest as [|c rest]; cbn [take_digits]; [done|]. cbn [not_digit] in Hn. by rewrite Hn.
  - by rewrite (to_digit_of _ Hd), IH.
Qed.

(** The decimal text of each octet, and that no other text without a leading zero is one. *)
Definition octet_digits (n : Z) : list Z :=
  if n <? 10 then [n] else if n <? 100 then [n / 10; n mod 10] else [n / 100; (n / 10) mod 10; n mod 10].
Lemma octet_text n : octet n -> bytes_of (pretty n) = digit_of <$> octet_digits n.
Proof.
  intros Hn. assert (forallb (fun i => bool_decide (bytes_of (pretty (Z.of_nat i)) = digit_of <$> octet_digits (Z.of_nat i))) (seq 0 256) = true)
    as Hall by (vm_compute; reflexivity).
  rewrite forallb_forall in Hall. specialize (Hall (Z.to_nat n)). rewrite Z2Nat.id in Hall by (unfold octet in Hn; lia).
  apply (proj1 (bool_decide_eq_true _)), Hall, in_seq. unfold octet in Hn. lia.
Qed.
Ltac divs := Z.div_mod_to_equations; lia.
Lemma octet_digits_ok n : octet n ->
  Forall (fun d => 0 <= d < 10) (octet_digits n) /\ number_of 10 (octet_digits n) = n /\ octet_digits n <> [] /\
  (length (octet_digits n) <= 3)%nat /\ (head (octet_digits n) = Some 0 -> length (octet_digits n) = 1%nat).
Proof.
  unfold octet, octet_digits, number_of. intros Hn.
  repeat case_match; cbn [foldl length head]; split_and!; try done; try divs;
    try (intros [= E]; divs); repeat (apply Forall_cons_2; [divs|]); apply Forall_nil_2.
Qed.
Lemma octet_digits_unique ds :
  Forall (fun d => 0 <= d < 10) ds -> ds <> [] -> (length ds <= 3)%nat ->
  (head ds = Some 0 -> length ds = 1%nat) -> octet_digits (number_of 10 ds) = ds.
Proof.
  unfold octet_digits, number_of. intros Hd Hne Hl Hz.
  destruct ds as [|a [|b [|c [|? ?]]]]; try done; cbn [length head foldl] in *; try lia;
    repeat (apply Forall_cons in Hd as [? Hd]);
    try (assert (a <> 0) by (intros ->; specialize (Hz eq_refl); lia));
    repeat case_match; try lia; repeat f_equal; divs.
Qed.

Lemma read_u8_iff l n rest :
  read_u8 l = Some (n, rest) <-> octet n /\ l = bytes_of (pretty n) ++ rest /\ not_digit rest.
Proof.
  unfold read_u8, read_number. split.
  - destruct (take_digits 10 l) as [ds r] eqn:E. apply take_digits_inv in E as (-> & Hd & Hn). case_bool_decide as Hne; [done|].
    destruct (3 <? length ds)%nat eqn:E3; [done|]. destruct (_ && _) eqn:Ez; [done|].
    destruct (number_of 10 ds <=? 255) eqn:E255; [|done]. intros [= <- <-].
    assert (octet (number_of 10 ds)) as Ho.
    { split; [|lia]. clear -Hd. unfold number_of. cut (forall a, 0 <= a -> 0 <= foldl (fun acc d => acc * 10 + d) a ds); [intros H; by apply H|].
      induction Hd as [|d ds ? _ IH]; intros a Ha; cbn [foldl]; [done|]. apply IH. lia. }
    split; [done|]. rewrite octet_text by done. rewrite octet_digits_unique; try done; [apply Nat.ltb_ge in E3; lia|].
    intros Hh. destruct ds as [|d ds]; [done|]. injection Hh as ->. cbn [negb andb fmap list_fmap app head] in Ez.
    cbn [length] in *. rewrite bool_decide_eq_true_2 in Ez by done. apply Nat.ltb_ge in Ez. lia.
  - intros (Ho & -> & Hn). rewrite octet_text by done. destruct (octet_digits_ok _ Ho) as (Hd & Hv & Hne & Hl & Hz).
    rewrite take_digits_app by done. rewrite bool_decide_eq_false_2 by done.
    replace (3 <? _)%nat with false by (symmetry; apply Nat.ltb_ge; lia). cbn [negb andb]. rewrite Hv.
    replace (n <=? 255) with true by (unfold octet in Ho; lia).
    destruct (bool_decide _ && _) eqn:E; [|done]. apply andb_true_iff in E as [E1%bool_decide_eq_true E2%Nat.ltb_lt].
    destruct (octet_digits n) as [|d ds] eqn:Ed; [done|]. cbn [fmap list_fmap app head] in E1. injection E1 as E1.
    unfold digit_of in E1. rewrite Hz in E2; [lia|]. cbn [head]. f_equal. lia.
Qed.

Lemma not_digit_dot l : not_digit (46 :: l).
Proof. done. Qed.

Definition dotted (a b c d : Z) : list Z :=
  bytes_of (pretty a +:+ "." +:+ pretty b +:+ "." +:+ pretty c +:+ "." +:+ pretty d).

Lemma andThen_iff {A B} (m : Reader A) (k : A -> Reader B) l r :
  andThen m k l = Some r <-> exists a l', m l = Some (a, l') /\ k a l' = Some r.
Proof. unfold andThen. destruct (m l) as [[a l']|]; [|naive_solver]. split; [eauto|]. by intros (? & ? & [= <- <-] & Hk). Qed.
Lemma read_given_iff c l l' : read_given c l = Some (tt, l') <-> l = c :: l'.
Proof.
  unfold read_given. destruct l as [|d l]; [done|]. destruct (Z.eqb_spec d c) as [->|]; [|naive_solver].
  split; [by intros [= ->]|by intros [= ->]].
Qed.

Lemma read_ipv4_iff l a b c d rest :
  read_ipv4 l = Some ((a, b, c, d), rest) <->
  octet a /\ octet b /\ octet c /\ octet d /\ l = dotted a b c d ++ rest /\ not_digit rest.
Proof.
  unfold read_ipv4, dotted. rewrite !bytes_of_app. change (bytes_of ".") with [46]. split.
  - intros H. repeat (let v := fresh "v" in apply andThen_iff in H as (v & ? & Hr & H);
      first [apply read_u8_iff in Hr as (? & -> & ?) | destruct v; apply read_given_iff in Hr as ->]).
    unfold give in H. simplify_eq. by rewrite <- !app_assoc.
  - intros (Ha & Hb & Hc & Hd & -> & Hn). rewrite <- !app_assoc. cbn [app].
    do 3 (apply andThen_iff; eexists _, _; split; [apply read_u8_iff; split_and!; [|reflexivity|apply not_digit_dot]; assumption|];
      apply andThen_iff; exists tt; eexists; split; [by apply read_given_iff|]).
    apply andThen_iff; eexists _, _; split; [|reflexivity]. apply read_u8_iff. split_and!; [|reflexivity|]; assumption.
Qed.

(** A port, as a text. *)
Definition port_text (l : list Z) (port : Z) : Prop :=
  exists ds, ds <> [] /\ Forall (fun d => 0 <= d < 10) ds /\ number_of 10 ds = port /\ port <= 65535 /\ l = 58 :: (digit_of <$> ds).

Lemma read_port_iff l port : read_port l = Some (port, []) <-> port_text l port.
Proof.
  unfold read_port, port_text. rewrite andThen_iff. split.
  - intros ([] & l' & ->%read_given_iff & H). unfold read_number in H.
    destruct (take_digits 10 l') as [ds r] eqn:E. apply take_digits_inv in E as (-> & Hd & Hn).
    case_bool_decide; [done|]. cbn [negb andb] in H. destruct (number_of 10 ds <=? 65535) eqn:E; [|done].
    injection H as <- ->. rewrite app_nil_r. exists ds. split_and!; try done. lia.
  - intros (ds & Hne & Hd & Hp & Hm & ->). exists tt. eexists. split; [by apply read_given_iff|].
    unfold read_number. rewrite <- (app_nil_r (digit_of <$> ds)), take_digits_app by done.
    rewrite bool_decide_eq_false_2 by done. cbn [negb andb]. rewrite Hp. by replace (port <=? 65535) with true by lia.
Qed.

(** An IPv4 address begins with a digit, so it is neither bracketed nor a colon. *)
Lemma dotted_head a b c d : octet a -> exists x l, 0 <= x < 10 /\ dotted a b c d = digit_of x :: l.
Proof.
  intros Ha. unfold dotted. rewrite bytes_of_app, octet_text by done.
  destruct (octet_digits_ok _ Ha) as (Hd & _ & Hne & _). destruct (octet_digits a) as [|x ds]; [done|].
  apply Forall_cons in Hd as [? _]. cbn [fmap list_fmap app]. eauto.
Qed.

Lemma read_ipv6_no_ipv4 l p rest : read_ipv4 l = Some (p, rest) -> read_ipv6 l = None.
Proof.
  intros H. unfold read_ipv6. cbn [read_groups Nat.leb after_colon]. rewrite H. destruct p as [[[a b] c] d]. done.
Qed.
Lemma read_v6_socket_no_ipv4 l p rest : read_ipv4 l = Some (p, rest) -> read_v6_socket l = None.
Proof.
  destruct p as [[[a b] c] d]. intros (Ha & _ & _ & _ & -> & _)%read_ipv4_iff.
  destruct (dotted_head a b c d Ha) as (x & t & Hx & ->). unfold read_v6_socket, andThen, read_given. cbn [app].
  replace (digit_of x =? 91) with false by (unfold digit_of; lia). done.
Qed.

(** The texts of loopback hosts: [127.b.c.d] in plain decimal, with or without a port, and
    the texts [std] reads as [::1], in brackets when there is a port. *)
Definition v4_loopback (host : string) : Prop :=
  exists b c d port, octet b /\ octet c /\ octet d /\ bytes_of host = dotted 127 b c d ++ port /\
    (port = [] \/ exists p, port_text port p).
Definition v6_loopback (host : string) : Prop :=
  let one := [0; 0; 0; 0; 0; 0; 0; 1] in
  read_ipv6 (bytes_of host) = Some (one, []) \/ exists p, read_v6_socket (bytes_of host) = Some ((V6 one, p), []).

Lemma read_v4_ip_iff l ip rest :
  read_v4_ip l = Some (ip, rest) <-> exists a b c d, ip = V4 a b c d /\ read_ipv4 l = Some ((a, b, c, d), rest).
Proof.
  unfold read_v4_ip. rewrite andThen_iff. split.
  - intros ([[[a b] c] d] & l' & H & Hg). injection Hg as <- <-. eauto 6.
  - intros (a & b & c & d & -> & H). eauto.
Qed.
Lemma read_v4_socket_iff l ip port rest :
  read_v4_socket l = Some ((ip, port), rest) <->
  exists a b c d l', ip = V4 a b c d /\ read_ipv4 l = Some ((a, b, c, d), l') /\ read_port l' = Some (port, rest).
Proof.
  unfold read_v4_socket. rewrite andThen_iff. split.
  - intros ([[[a b] c] d] & l' & H & (p & l'' & Hp & Hg)%andThen_iff). injection Hg as <- <- <-. eauto 10.
  - intros (a & b & c & d & l' & -> & H & Hp). exists (a, b, c, d), l'. split; [done|]. apply andThen_iff. eauto.
Qed.
Lemma read_v6_socket_ip l r rest : read_v6_socket l = Some (r, rest) -> exists g p, r = (V6 g, p).
Proof.
  unfold read_v6_socket. intros (? & ? & _ & (g & ? & _ & H)%andThen_iff)%andThen_iff.
  do 3 (apply andThen_iff in H as (? & ? & _ & H)). injection H as <- _. eauto.
Qed.

(** What the host of an accepted URL was read as. *)
Lemma authority_ip_cases host ip :
  authority_ip host = Some ip ->
  (exists a b c d rest, ip = V4 a b c d /\ read_ipv4 (bytes_of host) = Some ((a, b, c, d), rest) /\
     (rest = [] \/ exists p, read_port rest = Some (p, []))) \/
  (exists g, ip = V6 g /\ (read_ipv6 (bytes_of host) = Some (g, []) \/
     exists p, read_v6_socket (bytes_of host) = Some ((V6 g, p), []))).
Proof.
  unfold authority_ip, whole. destruct (read_socket_addr (bytes_of host)) as [[[ip' p] [|]]|] eqn:Es.
  { intros [= ->]. unfold read_socket_addr, orElse in Es. destruct (read_v4_socket _) as [r|] eqn:E4.
    - simplify_eq. apply read_v4_socket_iff in E4 as (a & b & c & d & l' & -> & H & Hp). left. eauto 12.
    - right. destruct (read_v6_socket_ip _ _ _ Es) as (g & q & [= -> ->]). eauto. }
  all: destruct (read_ip (bytes_of host)) as [[ip'' [|]]|] eqn:Ei; [intros [= ->]|done..];
    unfold read_ip, orElse in Ei; destruct (read_v4_ip _) as [r|] eqn:E4;
    [simplify_eq; apply read_v4_ip_iff in E4 as (a & b & c & d & -> & H); left; eauto 12
    |apply andThen_iff in Ei as (g & l' & H & Hg); injection Hg as <- ->; right; eauto].
Qed.

Lemma authority_ip_v4 host a b c d rest :
  read_ipv4 (bytes_of host) = Some ((a, b, c, d), rest) -> rest = [] \/ (exists p, read_port rest = Some (p, [])) ->
  authority_ip host = Some (V4 a b c d).
Proof.
  intros H. assert (read_v4_ip (bytes_of host) = Some (V4 a b c d, rest)) as Hi by (apply read_v4_ip_iff; eauto 6).
  unfold authority_ip, whole, read_socket_addr, read_ip, orElse. rewrite Hi, (read_v6_socket_no_ipv4 _ _ _ H). intros [->|[p Hp]].
  - destruct (read_v4_socket _) as [[[ip' p] r]|] eqn:E; [|done].
    apply read_v4_socket_iff in E as (? & ? & ? & ? & l' & _ & H' & Hp). rewrite H in H'. simplify_eq.
  - assert (read_v4_socket (bytes_of host) = Some ((V4 a b c d, p), [])) as -> by (apply read_v4_socket_iff; eauto 12). done.
Qed.

Lemma authority_ip_v6 host g :
  (read_ipv6 (bytes_of host) = Some (g, []) \/ exists p, read_v6_socket (bytes_of host) = Some ((V6 g, p), [])) ->
  authority_ip host = Some (V6 g).
Proof.
  intros H. assert (read_ipv4 (bytes_of host) = None) as H4.
  { destruct (read_ipv4 (bytes_of host)) as [[q r]|] eqn:E; [|done].
    rewrite (read_ipv6_no_ipv4 _ _ _ E), (read_v6_socket_no_ipv4 _ _ _ E) in H. by destruct H as [|[]]. }
  assert (read_v4_socket (bytes_of host) = None) as Hs by (unfold read_v4_socket, andThen; by rewrite H4).
  assert (read_v4_ip (bytes_of host) = None) as Hi by (unfold read_v4_ip, andThen; by rewrite H4).
  unfold authority_ip, whole, read_socket_addr, read_ip, orElse. rewrite Hs, Hi.
  destruct H as [H|[p ->]]; [|done]. assert (read_v6_ip (bytes_of host) = Some (V6 g, [])) as -> by (apply andThen_iff; eauto).
  destruct (read_v6_socket (bytes_of host)) as [[r rest]|] eqn:Es; [|done]. exfalso.
  unfold read_v6_socket in Es. apply andThen_iff in Es as ([] & l' & Hl%read_given_iff & _). by rewrite Hl in H.
Qed.

Lemma authority_split rest :
  exists tail, rest = authority_of rest +:+ tail /\ any_char is_delimiter (authority_of rest) = false /\
    (tail = empty_str \/ exists c t, tail = String c t /\ is_delimiter c = true).
Proof.
  induction rest as [|c rest (tail & E & Ha & Ht)]; [exists empty_str; split_and!; by auto|]. cbn [authority_of].
  destruct (is_delimiter c) eqn:Ec; [exists (String c rest); split_and!; [done|done|by eauto]|]. exists tail. split_and!; [|by simpl; rewrite Ec|done].
  change (String c (authority_of rest) +:+ tail) with (String c (authority_of rest +:+ tail)). by rewrite <- E.
Qed.
Lemma authority_of_app host tail :
  any_char is_delimiter host = false -> tail = empty_str \/ (exists c t, tail = String c t /\ is_delimiter c = true) ->
  authority_of (host +:+ tail) = host.
Proof.
  intros Ha Ht. induction host as [|c host IH].
  - destruct Ht as [->|(c & t & -> & Hc)]; [done|]. simpl. by rewrite Hc.
  - cbn [any_char] in Ha. apply orb_false_iff in Ha as [Hc Ha].
    change (String c host +:+ tail) with (String c (host +:+ tail)). cbn [authority_of]. by rewrite Hc, IH.
Qed.
Lemma strip_prefix_inv p s rest : Operations.strip_prefix p s = Some rest -> s = p +:+ rest.
Proof.
  revert s. induction p as [|a p IH]; intros s; cbn [Operations.strip_prefix]; [by intros [= ->]|].
  destruct s as [|b s]; [done|]. case_decide; [|done]. subst b. intros H%IH. by subst s.
Qed.
Lemma strip_prefix_app p rest : Operations.strip_prefix p (p +:+ rest) = Some rest.
Proof.
  induction p as [|a p IH]; [done|]. change (String a p +:+ rest) with (String a (p +:+ rest)). cbn [Operations.strip_prefix].
  by rewrite decide_True.
Qed.

(** A substrate URL is taken exactly when it is plain http to a loopback host written as an
    address: [127.b.c.d] in plain decimal or a text of [::1], with or without a port; no name
    and no other address, whatever follows the host. *)
Theorem base_url_is_loopback (url : string) :
  check_base_url url = Ok tt <->
  exists host tail, url = "http://" +:+ host +:+ tail /\ any_char is_delimiter host = false /\
    (tail = empty_str \/ exists c t, tail = String c t /\ is_delimiter c = true) /\
    (v4_loopback host \/ v6_loopback host).
Proof.
  unfold check_base_url. split.
  - destruct (Operations.strip_prefix "http://" url) as [rest|] eqn:E; [|done]. apply strip_prefix_inv in E.
    destruct (authority_ip (authority_of rest)) as [ip|] eqn:Ei; [|done]. destruct (is_loopback ip) eqn:El; [|done]. intros _.
    destruct (authority_split rest) as (tail & Er & Ha & Ht). exists (authority_of rest), tail. rewrite <- Er. split_and!; try done.
    destruct (authority_ip_cases _ _ Ei) as [(a & b & c & d & port & -> & Hr & Hp)|(g & -> & Hg)]; cbn [is_loopback] in El.
    + left. apply Z.eqb_eq in El as ->. apply read_ipv4_iff in Hr as (_ & Hb & Hc & Hd & Hr & _). exists b, c, d, port.
      split_and!; try done. destruct Hp as [|[p Hp%read_port_iff]]; eauto.
    + right. by apply bool_decide_eq_true in El as ->.
  - intros (host & tail & -> & Ha & Ht & H). rewrite strip_prefix_app, authority_of_app by done. destruct H as [H|H].
    + destruct H as (b & c & d & port & Hb & Hc & Hd & E & Hp).
      erewrite (authority_ip_v4 host 127 b c d port); [done| |].
      * apply read_ipv4_iff. split_and!; try done; try (unfold octet; lia).
        destruct Hp as [->|(p & ds & _ & _ & _ & _ & ->)]; done.
      * destruct Hp as [|[p Hp%read_port_iff]]; eauto.
    + by rewrite (authority_ip_v6 host [0; 0; 0; 0; 0; 0; 0; 1]).
Qed.
