(* ===== verification/Preflight.v ===== *)
(** What a node checks before it uses the substrate:
    src/crates/barista-node-agent/src/runtime/hypeman/preflight.rs.

    An archive is a list of bytes and positions in it are integers; a slice out of range is
    a panic. The file system, the environment and the platform are parameters. *)

From S2P Require Import Prelude Text Codec Service Pages HypemanClient Net.
From Stdlib Require Import Ascii.

Record Problem := { what : string; why_it_matters : string; remedy : string }.

(** The [Display] form. *)
Definition problem_text (p : Problem) : string := what p +:+ " — " +:+ why_it_matters p +:+ " Fix: " +:+ remedy p.

Definition describe (problems : list Problem) : string :=
  join (String (ascii_of_nat 10) empty_str) ((fun p => "  - " +:+ problem_text p) <$> problems).

(** * The archive of a guest's first files *)

(** [w] hexadecimal digits of [n], with the letters at [letter]. *)
Definition hex_char (letter d : Z) : Z := if d <? 10 then 48 + d else letter + (d - 10).
Fixpoint hex_digits (letter : Z) (w : nat) (n : Z) : list Z :=
  match w with O => [] | S w' => hex_digits letter w' (n / 16) ++ [hex_char letter (n mod 16)] end.
Definition hex_length (n : Z) : Z := Z.log2 n / 4 + 1.
(** [{:08X}] and [{:#x}] *)
Definition fmt_08X (n : Z) : list Z := hex_digits 65 (Z.to_nat (Z.max 8 (hex_length n))) n.
Definition fmt_hash_x (n : Z) : string := "0x" +:+ text_of (hex_digits 97 (Z.to_nat (hex_length n)) n).

(** [usize::from_str_radix(s, 16)] of eight bytes. *)
Definition from_hex (l : list Z) : option Z :=
  let l := match l with c :: l' => if c =? 43 then l' else l | [] => [] end in
  match l with [] => None | _ => foldl (fun acc c => v ← acc; d ← to_digit 16 c; Some (v * 16 + d)) (Some 0) l end.

Definition len (l : list Z) : Z := Z.of_nat (length l).
(** [&l[a..b]]; [None] is a panic. *)
Definition slice (l : list Z) (a b : Z) : option (list Z) :=
  if (0 <=? a) && (a <=? b) && (b <=? len l) then Some (take (Z.to_nat (b - a)) (drop (Z.to_nat a) l)) else None.
(** [(n + 3) & !3] *)
Definition align4 (n : Z) : Z := Z.land (n + 3) (Z.lnot 3).

Inductive Walk : Type :=
| Entries (members : list (list Z * list Z))
| NotNewc
| Panicked.

Definition HEADER : Z := 110.
Definition TRAILER : list Z := bytes_of "TRAILER!!!".
Definition is_newc (header : list Z) : bool :=
  bool_decide (take 6 header = bytes_of "070701") || bool_decide (take 6 header = bytes_of "070702").

(** The i-th field of a header. *)
Definition field (header : list Z) (i : nat) : option Z :=
  let s := take 8 (drop (6 + 8 * i) header) in
  if is_utf8 s then from_hex s else None.

(** One round of the loop: the end of the walk, or a member and where the next one begins. *)
Definition cpio_entry (bytes : list Z) (at_ : Z) : Walk + (list Z * list Z * Z) :=
  if len bytes <? at_ + HEADER then inl NotNewc
  else match slice bytes at_ (at_ + HEADER) with
  | None => inl Panicked
  | Some header =>
      if negb (is_newc header) then inl NotNewc
      else match field header 11, field header 6 with
      | Some namesize, Some filesize =>
          let name_start := at_ + HEADER in
          let name_end := name_start + namesize in
          if len bytes <? name_end then inl NotNewc
          else match slice bytes name_start (Z.max 0 (name_end - 1)) with
          | None => inl Panicked
          | Some name =>
              if negb (is_utf8 name) then inl NotNewc
              else
                let data_start := align4 name_end in
                let data_end := data_start + filesize in
                if len bytes <? data_end then inl NotNewc
                else if bool_decide (name = TRAILER) then inl (Entries [])
                else match slice bytes data_start data_end with
                | None => inl Panicked
                | Some data => inr (name, data, align4 data_end)
                end
          end
      | _, _ => inl NotNewc
      end
  end.

(** The loop; [None] is out of fuel. *)
Fixpoint cpio_walk (fuel : nat) (bytes : list Z) (at_ : Z) : option Walk :=
  match fuel with
  | O => None
  | S fuel =>
      match cpio_entry bytes at_ with
      | inl w => Some w
      | inr (name, data, next) =>
          w ← cpio_walk fuel bytes next;
          Some match w with Entries l => Entries ((name, data) :: l) | other => other end
      end
  end.

Definition cpio_entries (bytes : list Z) : option Walk := cpio_walk (S (length bytes)) bytes 0.

(** * The machine an image is for *)

Definition elf_machine (data : list Z) : option Z :=
  if (len data <? 20) || negb (bool_decide (take 4 data = 127 :: bytes_of "ELF")) then None
  else lo ← data !! 18%nat; hi ← data !! 19%nat; Some (lo + 256 * hi).

Definition elf_machine_for (arch : string) : Z :=
  if bool_decide (arch = "x86_64") then 62 else if bool_decide (arch = "aarch64") then 183 else 0.

Definition GUEST_BINARIES : list string := ["init.bin"; "usr/local/bin/guest-agent"].

Definition could_not_inspect : Problem := {|
  what := "the substrate's initrd could not be inspected";
  why_it_matters := "the guest-binary architecture check (findings §1) could not " +:+
    "run, so a wrong-arch release would still present as a kernel " +:+
    "panic. This is 'could not ask', not 'asked and fine'.";
  remedy := "the initrd format likely changed upstream (compression?); update " +:+
    "the preflight inspector" |}.
Definition wrong_architecture (name : string) (machine host : Z) : Problem := {|
  what := "the substrate's initrd embeds a wrong-architecture `" +:+ name +:+ "` " +:+
    "(ELF e_machine " +:+ fmt_hash_x machine +:+ ", host expects " +:+ fmt_hash_x host +:+ ")";
  why_it_matters := "no guest can boot: execve returns ENOEXEC, the shell wrapper " +:+
    "parses the ELF as a script, and the kernel panics with an " +:+
    "error three layers from this cause (findings §1).";
  remedy := "known upstream defect in the linux/arm64 release — see " +:+
    "docs/upstream-hypeman-findings.md §1 for the graft workaround" |}.

(** The problem, if any, with one of the guest's binaries. *)
Definition binary_problem (host : Z) (entries : list (list Z * list Z)) (name : string) : option Problem :=
  '(_, (_, data)) ← list_find (fun e => e.1 = bytes_of name) entries;
  machine ← elf_machine data;
  if negb (machine =? host) then Some (wrong_architecture name machine host) else None.

(** [None] is a panic. *)
Definition inspect_initrd (arch : string) (bytes : list Z) : option (list Problem) :=
  w ← cpio_entries bytes;
  match w with
  | Panicked => None
  | NotNewc => Some [could_not_inspect]
  | Entries entries => Some (omap (binary_problem (elf_machine_for arch) entries) GUEST_BINARIES)
  end.

(** * The host's prerequisites *)

Inductive Platform : Type := Linux | Macos | OtherPlatform.

Section Local.
Context (platform : Platform) (arch : string).
Context (var : string -> option string).
(** [std::fs::metadata]: whether it is a file, and its mode; and [std::fs::read]. *)
Context (metadata : string -> option (bool * Z)) (read_bytes : string -> option (list Z)).

Definition is_executable (path : string) : bool :=
  match metadata path with Some (is_file, mode) => is_file && negb (Z.land mode 73 =? 0) | None => false end.

(** [std::env::split_paths], and [Path::join] of a relative name. *)
Fixpoint split_paths (s : string) : list string :=
  match s with
  | EmptyString => [EmptyString]
  | String c s' => if bool_decide (c = ":"%char) then EmptyString :: split_paths s'
                   else match split_paths s' with d :: ds => String c d :: ds | [] => [] end
  end.
Definition path_join (dir name : string) : string :=
  if is_empty dir then name
  else if bool_decide (String.get (String.length dir - 1) dir = Some "/"%char) then dir +:+ name else dir +:+ "/" +:+ name.

Definition find_executable (name : string) (extra_paths : list string) : option string :=
  let on_path := match var "PATH" with
                 | Some path => list_find is_executable ((fun dir => path_join dir name) <$> split_paths path)
                 | None => None
                 end in
  match on_path with
  | Some (_, p) => Some p
  | None => snd <$> list_find is_executable extra_paths
  end.

(** The panic of [inspect_initrd] is [None] here too. *)
Definition initrd_guest_binary_problems : option (list Problem) :=
  let candidates := ["/var/lib/hypeman/system/initrd/" +:+ arch +:+ "/latest/initrd";
                     default empty_str (var "HOME") +:+ "/Library/Application Support/hypeman/system/initrd/" +:+ arch +:+ "/latest/initrd"] in
  match omap read_bytes candidates with
  | [] => Some []
  | bytes :: _ => inspect_initrd arch bytes
  end.

Definition missing (o : option string) (p : Problem) : list Problem := match o with None => [p] | Some _ => [] end.

Definition local_prerequisites : option (list Problem) :=
  initrd ← initrd_guest_binary_problems;
  let problems := initrd ++
    match platform with
    | Linux => missing (find_executable "mkfs.erofs" []) {|
        what := "`mkfs.erofs` is not installed";
        why_it_matters := "on Linux hypeman converts each image to erofs; without it every " +:+
          "image reaches `status: failed` and the reason appears only in the " +:+
          "daemon's journal, never in the API response.";
        remedy := "apt install erofs-utils (Debian/Ubuntu) or dnf install erofs-utils" |}
    | _ => []
    end in
  Some match platform with
  | Macos =>
      problems ++
      missing (find_executable "caddy" []) {|
        what := "`caddy` is not installed";
        why_it_matters := "hypeman-api initialises its ingress unconditionally on macOS and " +:+
          "crash-loops without it, even though Barista never uses ingress.";
        remedy := "brew install caddy" |} ++
      missing (find_executable "mkfs.ext4" ["/opt/homebrew/opt/e2fsprogs/sbin/mkfs.ext4";
                                            "/usr/local/opt/e2fsprogs/sbin/mkfs.ext4"]) {|
        what := "`mkfs.ext4` is not installed";
        why_it_matters := "on macOS hypeman converts each image to ext4 (the VZ kernel has no " +:+
          "erofs support); without it images fail with a bare status of " +:+
          "`failed` and no diagnosable cause.";
        remedy := "brew install e2fsprogs (keg-only, so it stays off PATH — that is expected)" |}
  | _ => problems
  end.
End Local.

(** * The substrate *)

Record Report := mkReport { problems : list Problem; open_substrate : option Problem }.

Definition report_all (r : Report) : list Problem :=
  problems r ++ match open_substrate r with Some p => [p] | None => [] end.
Definition report_is_empty (r : Report) : bool :=
  bool_decide (problems r = []) && match open_substrate r with None => true | Some _ => false end.

(** [Error::Api { status: 401 | 403, .. }] *)
Definition is_refusal (e : Error) : bool := has_status 401 e || has_status 403 e.

Section Substrate.
Context {W : Type} (http : W -> HttpRequest -> W * res string HttpResponse).
Context (parse_json : list Z -> option Json) (undecodable : HttpResponse -> string).
#[local] Abbreviation list_instances c := (list_instances http parse_json undecodable c None).

Definition check_api_requires_auth (config : Config) : Call W (option Problem * list Problem) :=
  let anonymous := config_client (config_new (base_url config) None) in
  let@ r := list_instances anonymous in
  pass_back match r with
  | Ok _ => (Some {|
      what := "hypeman-api at " +:+ base_url config +:+ " serves instance data to an unauthenticated caller";
      why_it_matters := "hypeman-api listens on all interfaces, not loopback, so anything that can " +:+
        "route to this host can create and destroy instances and run arbitrary code " +:+
        "in any running guest through the substrate's own exec.";
      remedy := "configure the substrate to require a bearer token, and point " +:+ ENV_TOKEN_FILE +:+ " or " +:+
        ENV_TOKEN +:+ " at it" |}, [])
  | Err e =>
      if is_refusal e then (None, [])
      else if is_unreachable e then (None, [])
      else (None, [{|
        what := "hypeman-api at " +:+ base_url config +:+ " did not clearly refuse an unauthenticated request";
        why_it_matters := "only a 401/403 shows that authentication is enforced, and this was " +:+ error_text e +:+ ". " +:+
          "Until that is established, the node cannot claim the API is closed — and " +:+
          "an open API is readable by anything that can route to the host.";
        remedy := "check the hypeman-api logs, then re-run preflight" |}])
  end.

Definition check_authorized (c : HypemanClient) (url : string) : Call W (list Problem) :=
  let@ r := list_instances c in
  pass_back match r with
  | Ok _ => []
  | Err e =>
      if is_unreachable e then []
      else if is_refusal e then [{|
        what := "hypeman-api at " +:+ url +:+ " rejected an authenticated request";
        why_it_matters := "only /health is unauthenticated, so every lifecycle operation                              would fail even though the health check passes.";
        remedy := "point " +:+ ENV_TOKEN_FILE +:+ " at a token file, or set " +:+ ENV_TOKEN |}]
      else [{|
        what := "hypeman-api at " +:+ url +:+ " could not list instances";
        why_it_matters := "the substrate is reachable but not usable: " +:+ error_text e;
        remedy := "check the hypeman-api logs" |}]
  end.

Definition check_reachable (c : HypemanClient) (url : string) : Call W (list Problem) :=
  let@ r := health http parse_json undecodable c in
  pass_back match r with
  | Ok h =>
      if bool_decide (he_status h = "ok") then []
      else [{|
        what := "hypeman-api at " +:+ url +:+ " reports status `" +:+ he_status h +:+ "`";
        why_it_matters := "the substrate answers but does not consider itself healthy; " +:+ "lifecycle operations may fail.";
        remedy := "check the hypeman-api logs" |}]
  | Err e =>
      if is_unreachable e then [{|
        what := "hypeman-api is not reachable at " +:+ url;
        why_it_matters := "no instance can be created, started, paused or resumed until it is; " +:+
          "instances already running are unaffected.";
        remedy := "start the service, or set " +:+ ENV_URL +:+ " if it listens elsewhere" |}]
      else [{|
        what := "hypeman-api at " +:+ url +:+ " rejected the health check";
        why_it_matters := "the substrate is reachable but refused: " +:+ error_text e;
        remedy := "if it requires authentication, set " +:+ ENV_TOKEN_FILE +:+ " or " +:+ ENV_TOKEN |}]
  end.

(** [local] is [local_prerequisites]. *)
Definition preflight (local : list Problem) (config : Config) : Call W Report :=
  let client := config_client config in
  let@ reachable := check_reachable client (base_url config) in
  let@ authorized := check_authorized client (base_url config) in
  let@ auth := check_api_requires_auth config in
  let '(opened, unproven) := auth in
  pass_back (mkReport (local ++ reachable ++ authorized ++ unproven) opened).
End Substrate.

(** * The walk ends *)

Lemma align4_eq n : align4 n = 4 * ((n + 3) / 4).
Proof.
  unfold align4. rewrite <- Z.ldiff_land. change 3 with (Z.ones 2) at 2. rewrite Z.ldiff_ones_r by lia.
  rewrite Z.shiftr_div_pow2, Z.shiftl_mul_pow2 by lia. change (2 ^ 2) with 4. lia.
Qed.
Lemma align4_bounds n : n <= align4 n < n + 4.
Proof. rewrite align4_eq. pose proof (Z.div_mod (n + 3) 4). pose proof (Z.mod_pos_bound (n + 3) 4). lia. Qed.

Lemma to_digit_nonneg radix c d : to_digit radix c = Some d -> 0 <= d.
Proof. unfold to_digit, within. intros H. repeat case_match; simplify_eq; lia. Qed.
Lemma from_hex_nonneg l v : from_hex l = Some v -> 0 <= v.
Proof.
  unfold from_hex. set (l' := match l with c :: l' => if c =? 43 then l' else l | [] => [] end). destruct l' as [|c l'']; [done|]. generalize (c :: l'').
  cut (forall l a v, 0 <= a -> foldl (fun acc c => v ← acc; d ← to_digit 16 c; Some (v * 16 + d)) (Some a) l = Some v -> 0 <= v).
  { intros H m. by apply H. }
  clear. intros l. induction l as [|c l IH]; intros a v Ha; cbn [foldl mbind option_bind]; [by intros [= <-]|].
  destruct (to_digit 16 c) as [d|] eqn:E; cbn [mbind option_bind].
  - apply IH. apply to_digit_nonneg in E. lia.
  - clear. induction l; cbn [foldl mbind option_bind]; [done|]. auto.
Qed.
Lemma field_nonneg header i v : field header i = Some v -> 0 <= v.
Proof. unfold field. destruct (is_utf8 _); [apply from_hex_nonneg|done]. Qed.

Lemma cpio_entry_next bytes at_ name data next :
  cpio_entry bytes at_ = inr (name, data, next) -> at_ + HEADER <= len bytes /\ at_ + HEADER <= next.
Proof.
  unfold cpio_entry. cbv zeta. destruct (len bytes <? at_ + HEADER) eqn:E0; [done|].
  destruct (slice _ at_ _) as [h|]; [|done]. destruct (negb _); [done|].
  destruct (field h 11) as [ns|] eqn:En; [|done]. destruct (field h 6) as [fs|] eqn:Ef; [|done].
  destruct (len bytes <? at_ + HEADER + ns); [done|]. destruct (slice _ (at_ + HEADER) _); [|done]. destruct (negb _); [done|].
  destruct (len bytes <? align4 _ + fs); [done|]. case_bool_decide; [done|]. destruct (slice _ _ _); [|done]. intros [= <- <- <-].
  apply field_nonneg in En, Ef. pose proof (align4_bounds (at_ + HEADER + ns)).
  pose proof (align4_bounds (align4 (at_ + HEADER + ns) + fs)). lia.
Qed.

(** A walk always ends: its fuel, one round per byte and one more, is enough. *)
Lemma cpio_walk_ends fuel bytes at_ :
  0 <= at_ -> (1 <= fuel)%nat -> len bytes < Z.of_nat fuel + at_ -> exists w, cpio_walk fuel bytes at_ = Some w.
Proof.
  revert at_. induction fuel as [|fuel IH]; intros at_ Ha Hf Hl; [lia|]. cbn [cpio_walk].
  destruct (cpio_entry bytes at_) as [w|[[name data] next]] eqn:E; [eauto|].
  apply cpio_entry_next in E as [H1 H2]. unfold HEADER in *. destruct (IH next) as [w ->]; [lia..|]. cbn. eauto.
Qed.
Lemma cpio_entries_total bytes : exists w, cpio_entries bytes = Some w.
Proof. apply cpio_walk_ends; unfold len; lia. Qed.

(** The walk panics only at a member that gives its name no length, not even a terminator. *)
Lemma cpio_entry_panics bytes at_ :
  0 <= at_ -> cpio_entry bytes at_ = inl Panicked ->
  exists header, slice bytes at_ (at_ + HEADER) = Some header /\ field header 11 = Some 0.
Proof.
  intros Ha. unfold cpio_entry. cbv zeta. destruct (len bytes <? at_ + HEADER) eqn:E0; [done|].
  destruct (slice bytes at_ (at_ + HEADER)) as [h|] eqn:Eh; cycle 1.
  { unfold slice in Eh. exfalso. revert Eh. unfold HEADER in *. by replace (_ && _ && _) with true by lia. }
  destruct (negb _); [done|]. destruct (field h 11) as [ns|] eqn:En; [|done]. destruct (field h 6) as [fs|] eqn:Ef; [|done].
  destruct (len bytes <? at_ + HEADER + ns) eqn:E1; [done|]. unfold HEADER in *. pose proof (field_nonneg _ _ _ En). pose proof (field_nonneg _ _ _ Ef).
  destruct (slice _ _ (Z.max _ _)) as [name|] eqn:Es.
  - destruct (negb _); [done|]. destruct (len bytes <? align4 _ + fs) eqn:E2; [done|]. case_bool_decide; [done|].
    destruct (slice _ (align4 _) _) eqn:Ed; [done|]. exfalso. revert Ed. unfold slice.
    pose proof (align4_bounds (at_ + 110 + ns)). by replace (_ && _ && _) with true by lia.
  - intros _. exists h. split; [done|]. destruct (decide (ns = 0)) as [->|]; [done|]. exfalso. revert Es. unfold slice.
    by replace (_ && _ && _) with true by lia.
Qed.

(** * Archives are read back *)

(** An archive of the given members, as the format has it (and as the source's own tests
    write it). *)
Definition pad4 (l : list Z) : list Z := l ++ repeat 0 ((4 - length l mod 4) mod 4).
Definition header_fields (name data : list Z) : list Z := [0; 0; 0; 0; 1; 0; len data; 0; 0; 0; 0; len name + 1; 0].
Definition cpio_header (name data : list Z) : list Z := bytes_of "070701" ++ mjoin (fmt_08X <$> header_fields name data).
Definition fake_entry (out : list Z) (member : list Z * list Z) : list Z :=
  pad4 (pad4 (out ++ cpio_header member.1 member.2 ++ member.1 ++ [0]) ++ member.2).
Definition fake_cpio (members : list (list Z * list Z)) : list Z := foldl fake_entry [] (members ++ [(TRAILER, [])]).

(** What fits the format: a name that is text, and sizes of 32 bits. *)
Definition fits (member : list Z * list Z) : Prop :=
  is_utf8 member.1 = true /\ len member.1 + 1 < 2 ^ 32 /\ len member.2 < 2 ^ 32.

Lemma to_digit_hex_char letter d : letter = 65 \/ letter = 97 -> 0 <= d < 16 -> to_digit 16 (hex_char letter d) = Some d.
Proof.
  intros Hl Hd. unfold to_digit, hex_char, within.
  destruct Hl as [->| ->]; repeat case_match; try lia; f_equal; lia.
Qed.
Lemma length_hex_digits letter w n : length (hex_digits letter w n) = w.
Proof. revert n. induction w as [|w IH]; intros n; [done|]. cbn [hex_digits]. rewrite length_app, IH. simpl. lia. Qed.
Lemma hex_digits_value w n a : 0 <= n < 16 ^ Z.of_nat w ->
  foldl (fun acc c => v ← acc; d ← to_digit 16 c; Some (v * 16 + d)) (Some a) (hex_digits 65 w n) = Some (a * 16 ^ Z.of_nat w + n).
Proof.
  revert n a. induction w as [|w IH]; intros n a Hn; cbn [hex_digits]; [simpl in *; f_equal; lia|].
  rewrite Nat2Z.inj_succ, Z.pow_succ_r in Hn by lia. rewrite foldl_app, IH by (Z.div_mod_to_equations; lia). cbn [foldl mbind option_bind].
  rewrite to_digit_hex_char by (auto || apply Z.mod_pos_bound; lia). cbn [mbind option_bind].
  f_equal. rewrite Nat2Z.inj_succ, Z.pow_succ_r by lia. pose proof (Z.div_mod n 16). lia.
Qed.
Lemma hex_digits_ascii w n : 0 <= n -> Forall (fun c => within 0 127 c = true /\ c <> 43) (hex_digits 65 w n).
Proof.
  revert n. induction w as [|w IH]; intros n Hn; cbn [hex_digits]; [constructor|]. apply Forall_app. split; [apply IH; apply Z.div_pos; lia|].
  pose proof (Z.mod_pos_bound n 16). apply Forall_singleton. unfold hex_char, within. case_match; lia.
Qed.

Lemma fmt_08X_small n : 0 <= n < 2 ^ 32 -> fmt_08X n = hex_digits 65 8 n.
Proof.
  intros Hn. unfold fmt_08X. f_equal. unfold hex_length.
  assert (Z.log2 n / 4 < 8); [|lia]. apply Z.div_lt_upper_bound; [lia|].
  destruct (decide (n = 0)) as [->|]; [simpl; lia|]. assert (Z.log2 n < 32) by (apply Z.log2_lt_pow2; lia). lia.
Qed.
Lemma from_hex_fmt n : 0 <= n < 2 ^ 32 -> from_hex (fmt_08X n) = Some n.
Proof.
  intros Hn. rewrite fmt_08X_small by done. pose proof (hex_digits_ascii 8 n) as Ha. pose proof (length_hex_digits 65 8 n) as Hl.
  pose proof (hex_digits_value 8 n 0) as Hv. unfold from_hex. destruct (hex_digits 65 8 n) as [|c l]; [done|].
  cbv zeta. replace (c =? 43) with false; cycle 1.
  { specialize (Ha ltac:(lia)). apply Forall_cons in Ha as [[_ Hc] _]. symmetry. by apply Z.eqb_neq. }
  apply Hv. change (16 ^ Z.of_nat 8) with (2 ^ 32). lia.
Qed.
Lemma fmt_is_utf8 n : 0 <= n < 2 ^ 32 -> is_utf8 (fmt_08X n) = true.
Proof.
  intros Hn. rewrite fmt_08X_small by done. rewrite <- (app_nil_r (hex_digits 65 8 n)), is_utf8_ascii; [done|].
  eapply Forall_impl; [apply hex_digits_ascii; lia|]. by intros c [? _].
Qed.

Lemma len_app l l' : len (l ++ l') = len l + len l'.
Proof. unfold len. rewrite length_app. lia. Qed.
Lemma len_nonneg l : 0 <= len l.
Proof. unfold len. lia. Qed.
Lemma slice_middle a b c x y : x = len a -> y = len a + len b -> slice (a ++ b ++ c) x y = Some b.
Proof.
  intros -> ->. unfold slice. rewrite !len_app. pose proof (len_nonneg a). pose proof (len_nonneg b). pose proof (len_nonneg c).
  replace (_ && _ && _) with true by lia. f_equal. unfold len. rewrite Nat2Z.id, drop_app_length.
  replace (Z.to_nat _) with (length b) by lia. by rewrite take_app_length.
Qed.

Lemma field_mjoin (fs : list (list Z)) i f : Forall (fun f => length f = 8%nat) fs -> fs !! i = Some f ->
  take 8 (drop (8 * i) (mjoin fs)) = f.
Proof.
  intros Hf. revert i. induction Hf as [|g fs Hg _ IH]; intros [|i]; cbn [lookup list_lookup]; [done..| |].
  - intros [= ->]. change (mjoin (f :: fs)) with (f ++ mjoin fs). rewrite Nat.mul_0_r, drop_0. by rewrite <- Hg, take_app_length.
  - intros H. change (mjoin (g :: fs)) with (g ++ mjoin fs). rewrite drop_app_ge by lia. rewrite Hg.
    replace (8 * S i - 8)%nat with (8 * i)%nat by lia. by apply IH.
Qed.

Lemma length_mjoin_8 (fs : list (list Z)) : Forall (fun f => length f = 8%nat) fs -> length (mjoin fs) = (8 * length fs)%nat.
Proof.
  induction 1 as [|f fs Hf _ IH]; [done|]. change (mjoin (f :: fs)) with (f ++ mjoin fs). rewrite length_app, Hf, IH. simpl. lia.
Qed.

Section Header.
Context (name data : list Z).
Hypothesis Hfits : len name + 1 < 2 ^ 32 /\ len data < 2 ^ 32.

Lemma header_fields_range : Forall (fun n => 0 <= n < 2 ^ 32) (header_fields name data).
Proof. pose proof (len_nonneg name). pose proof (len_nonneg data). unfold header_fields. repeat (apply Forall_cons_2; [lia|]). constructor. Qed.
Lemma header_fields_length : Forall (fun f => length f = 8%nat) (fmt_08X <$> header_fields name data).
Proof.
  apply Forall_fmap. eapply Forall_impl; [apply header_fields_range|]. intros n Hn. simpl.
  by rewrite fmt_08X_small, length_hex_digits.
Qed.
Lemma header_field i n : header_fields name data !! i = Some n -> field (cpio_header name data) i = Some n.
Proof.
  intros Hi. unfold field, cpio_header. rewrite drop_app_ge by (simpl; lia).
  replace (6 + 8 * i - length (bytes_of "070701"))%nat with (8 * i)%nat by (simpl; lia).
  rewrite (field_mjoin _ i (fmt_08X n)); [|apply header_fields_length|by rewrite list_lookup_fmap, Hi].
  pose proof header_fields_range as Hr. rewrite Forall_lookup in Hr. specialize (Hr _ _ Hi). cbv beta in Hr.
  by rewrite fmt_is_utf8, from_hex_fmt.
Qed.
Lemma len_header : len (cpio_header name data) = HEADER.
Proof.
  unfold cpio_header. rewrite len_app. unfold len at 2. by rewrite (length_mjoin_8 _ header_fields_length).
Qed.
Lemma header_is_newc : is_newc (cpio_header name data) = true.
Proof. reflexivity. Qed.
End Header.

Lemma pad4_spec l : exists z, pad4 l = l ++ z /\ len (pad4 l) = align4 (len l).
Proof.
  exists (repeat 0 ((4 - length l mod 4) mod 4)). split; [done|]. unfold pad4. rewrite len_app, align4_eq. unfold len. rewrite repeat_length.
  rewrite Nat2Z.inj_mod, Nat2Z.inj_sub, Nat2Z.inj_mod by (pose proof (Nat.mod_upper_bound (length l) 4); lia).
  change (Z.of_nat 4) with 4. generalize (Z.of_nat (length l)). intros n. Z.div_mod_to_equations. lia.
Qed.

(** One member is read where it was written, and the next begins at the end of it. *)
Lemma fake_entry_read out name data rest :
  fits (name, data) -> len out = align4 (len out) ->
  let out' := fake_entry out (name, data) in
  len out' = align4 (len out') /\
  cpio_entry (out' ++ rest) (len out) =
    if bool_decide (name = TRAILER) then inl (Entries []) else inr (name, data, len out').
Proof.
  intros (Hu & Hn & Hd) Ho out'. cbn [fst snd] in *. unfold out', fake_entry. cbn [fst snd].
  set (h := cpio_header name data). destruct (pad4_spec (out ++ h ++ name ++ [0])) as (z1 & E1 & L1).
  destruct (pad4_spec (pad4 (out ++ h ++ name ++ [0]) ++ data)) as (z2 & E2 & L2).
  assert (len h = HEADER) as Lh by (by apply len_header).
  assert (len (out ++ h ++ name ++ [0]) = len out + HEADER + (len name + 1)) as La.
  { rewrite !len_app, Lh. change (len [0]) with 1. lia. }
  rewrite La in L1. rewrite len_app, L1 in L2. split.
  { rewrite L2, !align4_eq. f_equal. Z.div_mod_to_equations. lia. }
  assert (field h 11 = Some (len name + 1)) as F11 by (by apply header_field).
  assert (field h 6 = Some (len data)) as F6 by (by apply header_field).
  rewrite E2, E1, <- !app_assoc. unfold cpio_entry. cbv zeta.
  pose proof (len_nonneg out). pose proof (len_nonneg name). pose proof (len_nonneg data). pose proof (len_nonneg rest).
  assert (len (out ++ h ++ name ++ [0] ++ z1 ++ data ++ z2 ++ rest) =
            align4 (align4 (len out + HEADER + (len name + 1)) + len data) + len rest) as Lb.
  { rewrite <- L2, E2, E1, !len_app. lia. }
  pose proof (align4_bounds (len out + HEADER + (len name + 1))).
  pose proof (align4_bounds (align4 (len out + HEADER + (len name + 1)) + len data)).
  rewrite Lb. unfold HEADER in *.
  replace (_ <? len out + 110) with false by lia. rewrite (slice_middle out h) by lia.
  assert (is_newc h = true) as -> by apply header_is_newc. rewrite F11, F6. cbn [negb]. replace (_ <? len out + 110 + (len name + 1)) with false by lia.
  rewrite (app_assoc out h). rewrite (slice_middle (out ++ h) name) by (rewrite ?len_app; lia). rewrite Hu. cbn [negb].
  replace (_ <? align4 (len out + 110 + (len name + 1)) + len data) with false by lia. case_bool_decide; [done|].
  rewrite <- !app_assoc, (app_assoc out), (app_assoc (out ++ h)), (app_assoc ((out ++ h) ++ name)), (app_assoc (((out ++ h) ++ name) ++ [0])).
  rewrite (slice_middle _ data).
  - do 2 f_equal. rewrite <- L2, E2, E1. by rewrite <- !app_assoc.
  - rewrite <- L1, E1, !len_app. lia.
  - rewrite <- L1, E1, !len_app. lia.
Qed.

Lemma fake_entry_grows out m : exists t, fake_entry out m = out ++ t.
Proof.
  unfold fake_entry. destruct (pad4_spec (out ++ cpio_header m.1 m.2 ++ m.1 ++ [0])) as (z1 & -> & _).
  destruct (pad4_spec ((out ++ cpio_header m.1 m.2 ++ m.1 ++ [0]) ++ z1 ++ m.2)) as (z2 & E & _).
  rewrite <- app_assoc, E, <- !app_assoc. eauto.
Qed.
Lemma fake_entries_grow ms out : exists t, foldl fake_entry out ms = out ++ t.
Proof.
  revert out. induction ms as [|m ms IH]; intros out; cbn [foldl]; [exists []; by rewrite app_nil_r|].
  destruct (fake_entry_grows out m) as [t ->]. destruct (IH (out ++ t)) as [t' ->]. rewrite <- app_assoc. eauto.
Qed.

Lemma trailer_fits : fits (TRAILER, []).
Proof. split_and!; [vm_compute; reflexivity|vm_compute; reflexivity|vm_compute; reflexivity]. Qed.

(** Members that follow what was already written are read back, whatever comes after the
    trailer. *)
Lemma fake_cpio_walk members out junk fuel :
  Forall fits members -> Forall (fun m => m.1 <> TRAILER) members -> len out = align4 (len out) ->
  (length members < fuel)%nat ->
  cpio_walk fuel (foldl fake_entry out (members ++ [(TRAILER, [])]) ++ junk) (len out) = Some (Entries members).
Proof.
  intros Hf. revert out fuel. induction Hf as [|[name data] ms Hm _ IH]; intros out fuel Ht Ho Hl.
  - destruct fuel as [|fuel]; [simpl in Hl; lia|]. cbn [app foldl cpio_walk].
    destruct (fake_entry_read out TRAILER [] junk trailer_fits Ho) as [_ ->]. by rewrite bool_decide_eq_true_2.
  - destruct fuel as [|fuel]; [simpl in Hl; lia|]. apply Forall_cons in Ht as [Hn Ht]. cbn [app foldl cpio_walk fst] in *.
    destruct (fake_entries_grow (ms ++ [(TRAILER, [])]) (fake_entry out (name, data))) as [t Et].
    destruct (fake_entry_read out name data (t ++ junk) Hm Ho) as [Ho' Er]. rewrite bool_decide_eq_false_2 in Er by done.
    rewrite app_assoc, <- Et in Er. rewrite Er, IH; [done|done|done|simpl in Hl; lia].
Qed.

(** An entry is longer than nothing, so an archive has fewer members than bytes. *)
Lemma length_fake_entry out m : (length out < length (fake_entry out m))%nat.
Proof.
  unfold fake_entry, pad4. rewrite !length_app. unfold cpio_header. rewrite !length_app. simpl. lia.
Qed.
Lemma length_fake_cpio ms out : (length out + length ms <= length (foldl fake_entry out ms))%nat.
Proof.
  revert out. induction ms as [|m ms IH]; intros out; cbn [foldl length]; [lia|].
  specialize (IH (fake_entry out m)). pose proof (length_fake_entry out m). lia.
Qed.

Lemma fake_cpio_entries members junk :
  Forall fits members -> Forall (fun m => m.1 <> TRAILER) members -> cpio_entries (fake_cpio members ++ junk) = Some (Entries members).
Proof.
  intros Hf Ht. unfold cpio_entries. change 0 with (len []) at 1. apply fake_cpio_walk; [done|done|done|].
  pose proof (length_fake_cpio (members ++ [(TRAILER, [])]) []) as Hl. unfold fake_cpio. rewrite length_app in *. simpl in *. lia.
Qed.

(** an archive in the format the substrate uses is read back member for member, whatever
    follows its trailer, and the inspection then reports exactly the guest binaries whose
    first member of that name is an ELF image for a machine other than the host's. *)
Theorem initrd_is_inspected (arch : string) (members : list (list Z * list Z)) (junk : list Z) :
  Forall fits members -> Forall (fun m => m.1 <> TRAILER) members ->
  cpio_entries (fake_cpio members ++ junk) = Some (Entries members) /\
  exists ps, inspect_initrd arch (fake_cpio members ++ junk) = Some ps /\
    forall p, p ∈ ps <->
      exists name i found data machine, name ∈ GUEST_BINARIES /\
        list_find (fun m => m.1 = bytes_of name) members = Some (i, (found, data)) /\
        elf_machine data = Some machine /\ machine <> elf_machine_for arch /\
        p = wrong_architecture name machine (elf_machine_for arch).
Proof.
  intros Hf Ht. pose proof (fake_cpio_entries members junk Hf Ht) as E. split; [done|]. unfold inspect_initrd. rewrite E.
  eexists. split; [reflexivity|]. intros p. rewrite list_elem_of_omap. apply exist_proper. intros name. unfold binary_problem. split.
  - intros [Hn H]. destruct (list_find _ members) as [[i [found data]]|]; [|done]. cbn [mbind option_bind] in H.
    destruct (elf_machine data) as [machine|] eqn:Em; [|done]. cbn [mbind option_bind] in H.
    destruct (Z.eqb_spec machine (elf_machine_for arch)); [done|]. injection H as <-. eauto 10.
  - intros (i & found & data & machine & Hn & -> & Hm & Hne & ->). split; [done|]. cbn [mbind option_bind]. rewrite Hm.
    cbn [mbind option_bind]. by rewrite (proj2 (Z.eqb_neq _ _) Hne).
Qed.

(** An initrd whose agent was built for another machine. *)
Definition elf_for (machine : Z) : list Z := (127 :: bytes_of "ELF") ++ repeat 0 14 ++ [machine mod 256; machine / 256] ++ repeat 0 4.
Definition mixed_initrd : list (list Z * list Z) :=
  [(bytes_of "etc", []); (bytes_of "init.bin", elf_for 183); (bytes_of "usr/local/bin/guest-agent", elf_for 62)].

Lemma initrd_is_inspected_witness :
  Forall fits mixed_initrd /\
  inspect_initrd "aarch64" (fake_cpio mixed_initrd ++ [1; 2; 3]) = Some [wrong_architecture "usr/local/bin/guest-agent" 62 183] /\
  exists ps, inspect_initrd "aarch64" (fake_cpio mixed_initrd ++ [1; 2; 3]) = Some ps /\
    wrong_architecture "usr/local/bin/guest-agent" 62 183 ∈ ps.
Proof.
  assert (Forall fits mixed_initrd) as Hf by (repeat (apply Forall_cons_2; [split_and!; vm_compute; reflexivity|]); apply Forall_nil_2).
  assert (Forall (fun m => m.1 <> TRAILER) mixed_initrd) as Ht by (repeat (apply Forall_cons_2; [by vm_compute|]); apply Forall_nil_2).
  destruct (initrd_is_inspected "aarch64" mixed_initrd [1; 2; 3] Hf Ht) as (_ & ps & Hp & Hi).
  split; [exact Hf|]. split; [vm_compute; reflexivity|]. exists ps. split; [exact Hp|]. apply Hi.
  exists "usr/local/bin/guest-agent", 2%nat, (bytes_of "usr/local/bin/guest-agent"), (elf_for 62), 62.
  split_and!; [apply list_elem_of_further, list_elem_of_here|vm_compute; reflexivity|vm_compute; reflexivity|by vm_compute|reflexivity].
Defined.

(** A member whose header gives its name no length stops the node's start with a panic, where
    an archive that cannot be read is meant to be reported as a problem. *)
Definition nameless : list Z := bytes_of "070701" ++ mjoin (repeat (bytes_of "00000000") 13).
Lemma empty_name_panics arch : inspect_initrd arch nameless = None.
Proof. unfold inspect_initrd. by replace (cpio_entries nameless) with (Some Panicked) by (vm_compute; reflexivity). Qed.

(** No other archive does. *)
Lemma cpio_walk_panics fuel bytes at_ :
  0 <= at_ -> cpio_walk fuel bytes at_ = Some Panicked ->
  exists pos header, slice bytes pos (pos + HEADER) = Some header /\ field header 11 = Some 0.
Proof.
  revert at_. induction fuel as [|fuel IH]; intros at_ Ha; [done|]. cbn [cpio_walk].
  destruct (cpio_entry bytes at_) as [w|[[name data] next]] eqn:E.
  - intros [= ->]. eauto using cpio_entry_panics.
  - apply cpio_entry_next in E as [_ Hn]. unfold HEADER in Hn.
    destruct (cpio_walk fuel bytes next) as [[]|] eqn:Ew; cbn; try done. intros _. by apply (IH next); [lia|].
Qed.
Lemma only_nameless_panics arch bytes :
  inspect_initrd arch bytes = None -> exists pos header, slice bytes pos (pos + HEADER) = Some header /\ field header 11 = Some 0.
Proof.
  unfold inspect_initrd. destruct (cpio_entries_total bytes) as [w E]. rewrite E. cbn [mbind option_bind].
  destruct w; try done. intros _. by apply (cpio_walk_panics (S (length bytes)) _ 0).
Qed.
