(* ===== verification/Startup.v ===== *)
(** The start of a node: main.rs, lib.rs and node_info.rs of src/crates/barista-node-agent.

    The process's environment and files are parameters, Docker's client and the bucket's
    too; the substrate's server and the agent's world are those of [Hypeman] and [Runtime]. *)

From S2P Require Import Prelude Text Proto StateMachine Journal Events Operations Capsules Codec Objects Runtime Ops Executor Service Pages HypemanClient Logs Hypeman HypemanSafety Docker Net Preflight.
From Stdlib Require Import Ascii.

(** * Configuration: lib.rs *)

(** [str::parse::<u64>] *)
Definition parse_u64 (s : string) : option Z :=
  let s := match s with String c s' => if bool_decide (c = "+"%char) then s' else s | _ => s end in
  if is_empty s then None else v ← digits 0 s; if v <=? u64_max then Some v else None.

Record AgentConfig := {
  cfg_data_dir : string;
  test_step_delay_ms : Z;
  test_submit_delay_ms : Z;
  event_retention : duration;
  retention_sweep_interval : duration;
  credential_sweep_interval : duration;
  capsule_bucket_url : option string }.

Section Config.
Context (var : string -> option string) (debug_assertions : bool).

Definition env_secs (name : string) (default_secs : Z) : duration :=
  from_secs (default default_secs (v ← var name; parse_u64 (trim_by ascii_space v))).

Definition agent_config (data_dir : string) : AgentConfig := {|
  cfg_data_dir := data_dir;
  test_step_delay_ms := if debug_assertions then default 0 (v ← var "BARISTA_TEST_STEP_DELAY_MS"; parse_u64 v) else 0;
  test_submit_delay_ms := 0;
  event_retention := env_secs "BARISTA_EVENT_RETENTION_SECS" (7 * 24 * 60 * 60);
  retention_sweep_interval := env_secs "BARISTA_RETENTION_SWEEP_SECS" (60 * 60);
  credential_sweep_interval := env_secs "BARISTA_CREDENTIAL_SWEEP_SECS" (5 * 60);
  capsule_bucket_url := option_filter (fun v => negb (is_empty (trim_by ascii_space v))) (var "BARISTA_CAPSULE_BUCKET") |}.
End Config.

(** * The node's name: node_info.rs *)

Record NodeIdentity := { node_id : string; node_arch : string; cpu_class : string }.

Section NodeInfo.
Context (sha256 : list Z -> list Z) (arch : string).

Definition hex16 (bytes : list Z) : string := text_of (to_lower (take (Nat.min (length bytes) 8) bytes)).

(** [str::lines], of a text's bytes: each without its end. *)
Definition lines_of (text : string) : list (list Z) := log_lines (bytes_of text).

Definition cpu_class_of (cpuinfo : option string) : string :=
  let flags := default (bytes_of arch)
    (text ← cpuinfo;
     snd <$> list_find (fun l => take 5 l = bytes_of "flags" \/ take 8 l = bytes_of "Features") (lines_of text)) in
  "cpu-" +:+ hex16 (sha256 flags).

(** A file system with the calls made of it. *)
Context {L : Type} (exists_file : L -> string -> bool) (read_text : L -> string -> res string string)
        (write_text : L -> string -> string -> L * res string unit).

Definition load_or_create (data_dir ulid : string) (cpuinfo : option string) : Call L (res string NodeIdentity) := fun l =>
  let id_file := path_join data_dir "node-id" in
  let '(l', id) :=
    if exists_file l id_file then (l, let? text := read_text l id_file in Ok (trim_by ascii_space text))
    else let '(l', w) := write_text l id_file ulid in (l', let? _ := w in Ok ulid) in
  (l', let? id := id in Ok {| node_id := id; node_arch := arch; cpu_class := cpu_class_of cpuinfo |}).
End NodeInfo.

(** * Choosing the runtime: main.rs *)

Record Args := {
  listen : string;
  uds : option string;
  data_dir : string;
  runtime : string;
  hypervisor : string;
  allow_open_substrate : bool;
  guest_bin : option string;
  fleet_bucket : option string;
  fleet_advertise : option string;
  ingress_advertise : option string;
  ingress_ports : string }.

Inductive Chosen : Type :=
| OnDocker (rt : FakeRuntime)
| OnHypeman (rt : HypemanRuntime).

(** A start that does not happen: the message it ends with, or a panic. *)
Inductive Stop : Type := Refused (message : string) | Crashed.

Section Choose.
Context {S : Type} (host : Host S).
(** The environment, the files the process reads, [Path::is_file], [std::fs::canonicalize],
    and whether Docker's client can be made. *)
Context (platform : Platform) (arch : string) (var : string -> option string).
Context (read_text : string -> res string string) (read_file : string -> res string (list Z)).
Context (metadata : string -> option (bool * Z)) (canonicalize : string -> option string) (docker_client : res string unit).
#[local] Abbreviation H A := (Call (HState S) A).

Definition is_file (path : string) : bool := match metadata path with Some (b, _) => b | None => false end.

Definition fake_connect (node_id : string) (guest_bin : option string) : res string FakeRuntime :=
  let? _ := match guest_bin with
            | Some path => if is_file path then Ok tt
                           else Err ("guest agent binary not found at " +:+ path +:+ " (build it with `task guest-bin`)")
            | None => Ok tt
            end in
  let? _ := res_map_err (fun _ => "connecting to the Docker daemon (fake runtime)") docker_client in
  Ok {| fr_node_id := node_id; fr_guest_bin := (fun p => default p (canonicalize p)) <$> guest_bin |}.

Definition hypeman_connect (config : Config) (node_id hypervisor guest_bin : string) (ingress : option IngressConfig)
    : H (res string HypemanRuntime) :=
  let client := config_client config in
  let@? bytes := pass_back (res_map_err (fun e => "reading the guest agent at " +:+ guest_bin +:+ " (" +:+ e +:+ "); build it with `task guest-bin`")
                              (read_file guest_bin)) or (fun e => e) in
  let@? agent := agent_ensure host client bytes or (fun e => e) in
  pass_back (Ok {| h_client := client; h_node_id := node_id; h_hypervisor := hypervisor; h_agent := agent;
                   h_egress_control := false; h_ingress := ingress |}).

Definition ingress_of (args : Args) : res string (option IngressConfig) :=
  match ingress_advertise args with
  | Some host => let? ports := parse_ports (ingress_ports args) in
                 let? config := ingress_config_new host ports.1 ports.2 in Ok (Some config)
  | None => Ok None
  end.

(** A substrate that serves anyone is refused, unless the operator accepts it by name. *)
Definition open_door (args : Args) (report : Report) : res Stop unit :=
  match open_substrate report with
  | Some problem =>
      if allow_open_substrate args then Ok tt
      else Err (Refused ("refusing --runtime hypeman on an open substrate: " +:+ problem_text problem +:+
                         String (ascii_of_nat 10) "Pass --allow-open-substrate to boot anyway — doing so accepts that " +:+
                         "anything able to route to this host controls every guest on it."))
  | None => Ok tt
  end.

Definition choose_hypeman (args : Args) (node_id : string) (ingress : option IngressConfig) : H (res Stop Chosen) :=
  match guest_bin args with
  | None => pass_back (Err (Refused ("--guest-bin is required with --runtime hypeman: the agent travels " +:+
                                     "into the VM as a volume, and there is no bind mount to fall back on")))
  | Some bin =>
      let@? config := pass_back (config_from_env var read_text) or Refused in
      match local_prerequisites platform arch var metadata (fun p => res_ok (read_file p)) with
      | None => pass_back (Err Crashed)
      | Some local =>
          let@ report := preflight (http_call host) (json_reader host) (json_trouble host) local config in
          let@? _ := pass_back (open_door args report) or (fun e => e) in
          let@? rt := hypeman_connect config node_id (hypervisor args) bin ingress or Refused in
          pass_back (Ok (OnHypeman rt))
      end
  end.

Definition choose_runtime (args : Args) (node_id : string) : H (res Stop Chosen) :=
  let@? ingress := pass_back (ingress_of args) or Refused in
  if match ingress with Some _ => true | None => false end && negb (bool_decide (runtime args = "hypeman")) then
    pass_back (Err (Refused ("--ingress-advertise needs --runtime hypeman: publishing rides the substrate's " +:+
                             "ingress, and the '" +:+ runtime args +:+ "' runtime has none")))
  else if bool_decide (runtime args = "fake") then
    let@? rt := pass_back (fake_connect node_id (guest_bin args)) or Refused in pass_back (Ok (OnDocker rt))
  else if bool_decide (runtime args = "hypeman") then choose_hypeman args node_id ingress
  else pass_back (Err (Refused ("unknown runtime '" +:+ runtime args +:+ "' (Phase 1 supports: hypeman, fake)"))).
End Choose.

(** * Where the node listens *)

Inductive Listener : Type := OnSocket (path : string) | OnTcp (addr : IpAddr * Z).

Definition listener_of (show_addr : IpAddr * Z -> string) (args : Args) : res string Listener :=
  match uds args with
  | Some path => Ok (OnSocket path)
  | None => let? addr := check_listen_addr show_addr (listen args) in Ok (OnTcp addr)
  end.

(** The address a fleet is told. *)
Definition advertised (args : Args) : string := default (listen args) (fleet_advertise args).

(** * Taking up the journal: Agent::bootstrap *)

Section Boot.
Context {W R : Type} (rt : Runtime W) (clock : nat -> Z) (faults : nat -> option string).

Definition startup_gc : M W R (res string (Z * Z * Z)) := fun w =>
  let '(db, s, r) := run_startup_gc (w_db w) (w_store w) in (w <| w_db := db |> <| w_store := s |>, r).

(** [opened]: the directory, the journal's file, the node's name and the object store. A
    collection that fails is only reported. *)
Definition bootstrap (opened : res string unit) (failed_at : string -> Z) : M W R (res string unit) :=
  match opened with
  | Err e => ret (Err e)
  | Ok _ =>
      let! r := recover rt clock faults failed_at in
      match r with
      | Err e => ret (Err e)
      | Ok _ =>
          let! t := now_ms clock in
          let! c := journal faults (recover_capsule_ops t) in
          match c with
          | Err e => ret (Err e)
          | Ok _ => let! _ := startup_gc in ret (Ok tt)
          end
      end
  end.
End Boot.

(** * A substrate that answers anyone is not used *)

(** The exchange was answered with a list of instances. *)
Definition served {S} (host : Host S) (a : res string HttpResponse) : Prop :=
  exists r j l, a = Ok r /\ is_success (rs_status r) = true /\ (rs_body r ≫= fun t => json_reader host (bytes_of t)) = Some j /\
    de_vec de_instance j = Some l.

Section Door.
Context {S : Type} (host : Host S) (config : Config).
#[local] Abbreviation client := (config_client config).
#[local] Abbreviation anonymous := (config_client (config_new (base_url config) None)).

(** The exchanges of a preflight: its health, its instances with the node's token, and its
    instances without. *)
Definition probes (new : list Exchange) (opened : bool) : Prop :=
  exists a1 a2 a3, new = [(request client GET "/health" NoBody, a1); (request client GET "/instances" NoBody, a2);
                          (request anonymous GET "/instances" NoBody, a3)] /\
    (opened = true <-> served host a3).

Lemma got_served a : (exists l, got (json_reader host) (json_trouble host) anonymous (de_vec de_instance) GET "/instances" a = Ok l) <-> served host a.
Proof.
  unfold got, decoded, served. split.
  - intros [l E]. destruct a as [r|]; [|done]. destruct (is_success (rs_status r)) eqn:Es; [|done].
    destruct (rs_body r) as [t|] eqn:Eb; cbn [mbind option_bind] in E; [|done].
    destruct (json_reader host (bytes_of t)) as [j|] eqn:Ej; cbn [mbind option_bind] in E; [|done].
    destruct (de_vec de_instance j) as [l'|] eqn:El; [|done]. exists r, j, l'. rewrite Eb. cbn. by rewrite Ej.
  - intros (r & j & l & -> & -> & E & El). destruct (rs_body r) as [t|]; [|done]. cbn [mbind option_bind] in *.
    rewrite E. cbn [mbind option_bind]. rewrite El. eauto.
Qed.

Lemma traced_map {A B} (m : Call (HState S) A) (f : A -> B) Q (Q' : list Exchange -> B -> Prop) :
  traced m Q -> (forall new a, Q new a -> Q' new (f a)) -> traced (then_ m (fun a => pass_back (f a))) Q'.
Proof. intros Hm Hf. eapply traced_then; [exact Hm|]. intros new a Ha. apply traced_ret. rewrite app_nil_r. by apply Hf. Qed.

Lemma check_reachable_traced url :
  traced (check_reachable (http_call host) (json_reader host) (json_trouble host) client url)
    (fun new _ => exists a, new = [(request client GET "/health" NoBody, a)]).
Proof. eapply traced_map; [apply send_traced|]. intros new r (a & -> & _). eauto. Qed.
Lemma check_authorized_traced url :
  traced (check_authorized (http_call host) (json_reader host) (json_trouble host) client url)
    (fun new _ => exists a, new = [(request client GET "/instances" NoBody, a)]).
Proof. eapply traced_map; [apply send_traced|]. intros new r (a & -> & _). eauto. Qed.
Lemma check_auth_traced :
  traced (check_api_requires_auth (http_call host) (json_reader host) (json_trouble host) config)
    (fun new r => exists a, new = [(request anonymous GET "/instances" NoBody, a)] /\ (is_Some r.1 <-> served host a)).
Proof.
  eapply traced_map; [apply send_traced|]. intros new r (a & -> & Hr). exists a. split; [done|]. rewrite <- got_served.
  change (tagged "/instances" None) with "/instances" in Hr. rewrite <- Hr. destruct r as [l|e].
  - split; [eauto|]. intros _. by eexists.
  - split; [|by intros [l [=]]]. intros [x Hx]. by destruct (is_refusal e), (is_unreachable e).
Qed.

Lemma preflight_traced local :
  traced (preflight (http_call host) (json_reader host) (json_trouble host) local config)
    (fun new report => probes new (is_some (open_substrate report))).
Proof.
  eapply traced_then; [apply check_reachable_traced|]. intros n1 p1 [a1 ->].
  eapply traced_then; [apply check_authorized_traced|]. intros n2 p2 [a2 ->].
  eapply traced_then; [apply check_auth_traced|]. intros n3 [o u] (a3 & -> & Ho).
  apply traced_ret. exists a1, a2, a3. split; [done|]. cbn [open_substrate fst] in *. rewrite <- Ho.
  destruct o; cbn; (split; [intros H|intros [x H]]); [by eexists|done|done|done].
Qed.

(** Every request goes to the client's server. *)
Definition to_server (new : list Exchange) : Prop :=
  Forall (fun x : Exchange => exists path, rq_url x.1 = hc_base_url client +:+ String "/"%char path) new.

Lemma probes_to_server new o : probes new o -> to_server new.
Proof. intros (a1 & a2 & a3 & -> & _). repeat (apply Forall_cons_2; [by eexists|]). apply Forall_nil_2. Qed.

Lemma exchange_to_server {A} m path body (f : res string HttpResponse -> A) new r :
  (exists p, path = String "/"%char p) -> one_exchange (request client m path body) f new r -> to_server new.
Proof. intros [p ->] (a & -> & _). apply Forall_cons_2; [by eexists|apply Forall_nil_2]. Qed.

Lemma agent_ensure_to_server bytes : traced (agent_ensure host client bytes) (fun new _ => to_server new).
Proof.
  unfold agent_ensure. eapply traced_then; [apply send_traced|]. intros n1 r1 Q1%exchange_to_server; [|by eexists].
  destruct r1 as [v|e]; [apply traced_ret; by rewrite app_nil_r|].
  apply traced_if; intros _; [|apply traced_ret; by rewrite app_nil_r].
  eapply traced_try; [apply traced_silent; intros h; reflexivity| |].
  { intros new e2 ->. by rewrite app_nil_r. }
  intros new gz ->. cbn [app].
  eapply traced_then; [apply archive_traced|]. intros n2 r2 Q2%exchange_to_server; [|by eexists].
  assert (to_server (n1 ++ n2)) as Q12 by (by apply Forall_app).
  destruct r2 as [v|e']; [apply traced_ret; by rewrite app_nil_r|].
  apply traced_if; intros _; [|apply traced_ret; by rewrite app_nil_r].
  eapply traced_then; [apply send_traced|]. intros n3 r3 Q3%exchange_to_server; [|by eexists]. apply traced_ret.
  rewrite app_nil_r. rewrite app_assoc. by apply Forall_app.
Qed.

Lemma hypeman_connect_traced read_file node_id hypervisor bin ingress :
  traced (hypeman_connect host read_file config node_id hypervisor bin ingress)
    (fun new r => to_server new /\ forall rt, r = Ok rt -> h_client rt = client /\ h_node_id rt = node_id).
Proof.
  unfold hypeman_connect. eapply traced_try; [apply traced_silent; intros h; reflexivity| |].
  { intros new e ->. split; [apply Forall_nil_2|done]. }
  intros new bytes ->. cbn [app]. eapply traced_try; [apply agent_ensure_to_server| |].
  { intros new e Hs. by split. }
  intros new agent Hs. apply traced_ret. rewrite app_nil_r. split; [done|]. by intros rt [= <-].
Qed.
End Door.

Lemma traced_try_pass {S E F A B} (x : res E A) (f : E -> F) (k : A -> Call (HState S) (res F B)) Q :
  (forall a, x = Ok a -> traced (k a) Q) -> (forall e, x = Err e -> Q [] (Err (f e))) -> traced (try_ (pass_back x) f k) Q.
Proof.
  intros Hk He. destruct x as [a|e].
  - intros h. exact (Hk a eq_refl h).
  - apply (traced_ret (S := S)). by apply He.
Qed.

(** What a start on the substrate has seen: a loopback URL, and the answers of the probes. *)
Definition behind_a_door {S} (host : Host S) var read_text (args : Args) (rt : HypemanRuntime) (new : list Exchange) : Prop :=
  exists config probing rest opened,
    config_from_env var read_text = Ok config /\ check_base_url (base_url config) = Ok tt /\ h_client rt = config_client config /\
    new = probing ++ rest /\ probes host config probing opened /\ to_server config new /\
    (opened = true -> allow_open_substrate args = true).

Lemma config_checked var read_text config : config_from_env var read_text = Ok config -> check_base_url (base_url config) = Ok tt.
Proof.
  unfold config_from_env. destruct (check_base_url _) as [[]|] eqn:E; [|done]. cbn [res_bind].
  destruct (match var ENV_TOKEN_FILE with Some _ => _ | None => _ end) as [t|]; [|done]. intros [= <-]. exact E.
Qed.

Lemma choose_hypeman_traced {S} (host : Host S) platform arch var read_text read_file metadata args node_id ingress :
  traced (choose_hypeman host platform arch var read_text read_file metadata args node_id ingress)
    (fun new r => forall rt, r = Ok (OnHypeman rt) -> behind_a_door host var read_text args rt new).
Proof.
  unfold choose_hypeman. destruct (guest_bin args) as [bin|]; [|by apply traced_ret].
  apply traced_try_pass; [|done]. intros config Ec.
  destruct (local_prerequisites _ _ _ _ _) as [local|]; [|by apply traced_ret].
  eapply traced_then; [apply preflight_traced|]. intros probing report Hp. apply traced_try_pass; [|done]. intros [] Ed.
  eapply traced_try; [apply hypeman_connect_traced|by intros|]. intros rest rt [Hs Hr]. apply traced_ret.
  intros rt' [= <-]. destruct (Hr rt eq_refl) as [Hc _]. rewrite app_nil_r.
  exists config, probing, rest, (is_some (open_substrate report)). split_and!; try done.
  - by eapply config_checked.
  - apply Forall_app. split; [exact (probes_to_server host config _ _ Hp)|done].
  - unfold open_door in Ed. destruct (open_substrate report); [|done]. by destruct (allow_open_substrate args).
Qed.

(** What may follow the authority of a URL. *)
Definition delimited (tail : string) : Prop := tail = empty_str \/ exists c t, tail = String c t /\ is_delimiter c = true.

Lemma trim_end_slashes_app a b :
  trim_end_slashes (a +:+ b) = if is_empty (trim_end_slashes b) then trim_end_slashes a else a +:+ trim_end_slashes b.
Proof.
  induction a as [|c a IH].
  - change (empty_str +:+ b) with b. change (empty_str +:+ trim_end_slashes b) with (trim_end_slashes b).
    destruct (is_empty (trim_end_slashes b)) eqn:E; [by apply is_empty_true in E|done].
  - change (String c a +:+ b) with (String c (a +:+ b)). cbn [trim_end_slashes]. rewrite IH.
    destruct (is_empty (trim_end_slashes b)) eqn:E; [done|].
    assert (is_empty (a +:+ trim_end_slashes b) = false) as ->.
    { apply is_empty_false in E. apply is_empty_false. intros H. apply E. by destruct a. }
    by rewrite andb_false_r.
Qed.

Lemma trim_end_slashes_plain s : any_char is_delimiter s = false -> trim_end_slashes s = s.
Proof.
  induction s as [|c s IH]; [done|]. cbn [any_char trim_end_slashes]. intros [Hc Hs]%orb_false_iff. rewrite IH by done.
  unfold is_delimiter in Hc. by destruct (bool_decide (c = "/"%char)).
Qed.

(** Trimming a URL takes nothing from its authority. *)
Lemma trimmed_keeps_authority host tail :
  host <> empty_str -> any_char is_delimiter host = false -> delimited tail ->
  exists t, trim_end_slashes ("http://" +:+ host +:+ tail) = "http://" +:+ host +:+ t /\ delimited t.
Proof.
  intros Hne Hh Ht. exists (trim_end_slashes tail). split.
  - rewrite (trim_end_slashes_app "http://"), (trim_end_slashes_app host), (trim_end_slashes_plain host) by done.
    destruct (is_empty (trim_end_slashes tail)) eqn:E.
    + apply is_empty_true in E. rewrite E. apply is_empty_false in Hne. rewrite Hne. by rewrite append_empty_r.
    + assert (is_empty (host +:+ trim_end_slashes tail) = false) as -> by (apply is_empty_false; by destruct host). done.
  - destruct Ht as [->|(c & t & -> & Hc)]; [by left|]. cbn [trim_end_slashes].
    destruct (_ && _); [by left|right; eauto].
Qed.

Lemma loopback_not_empty host : v4_loopback host \/ v6_loopback host -> host <> empty_str.
Proof.
  intros H ->. destruct H as [(b & c & d & port & _ & _ & _ & H & _)|[H|[p H]]]; [|by vm_compute in H|by vm_compute in H].
  unfold dotted in H. symmetry in H. apply app_eq_nil in H as [H _]. by apply (f_equal length) in H; rewrite ?length_app in H; simpl in H; lia.
Qed.

(** C21: a node that starts on the substrate speaks plain http to a loopback address only: every
    request of the start has a URL whose authority, all that stands between the scheme and
    the first slash, question mark or hash, is the text of an address of 127.0.0.0/8 or of
    ::1, with or without a port, and nothing else. Before it uses the substrate it asks for
    the instances without a token, and unless the operator accepted an open substrate by
    name that request was not answered with a list of instances. Only such an answer keeps
    the node from starting: an error of another kind, a refusal or junk alike, does not. *)
Theorem hypeman_starts_behind_a_door {S} (host : Host S) platform arch var read_text read_file metadata canonicalize docker_client
    (args : Args) (node_id : string) (h h' : HState S) (rt : HypemanRuntime) :
  choose_runtime host platform arch var read_text read_file metadata canonicalize docker_client args node_id h = (h', Ok (OnHypeman rt)) ->
  exists config a1 a2 a3 rest loopback tail,
    h_client rt = config_client config /\
    (v4_loopback loopback \/ v6_loopback loopback) /\
    base_url config = "http://" +:+ loopback +:+ tail /\ delimited tail /\
    hs_log h' = hs_log h ++
      [(request (config_client config) GET "/health" NoBody, a1); (request (config_client config) GET "/instances" NoBody, a2);
       (mkHttpRequest GET (hc_base_url (config_client config) +:+ "/instances") None NoBody, a3)] ++ rest /\
    Forall (fun x : Exchange => exists t, rq_url x.1 = "http://" +:+ loopback +:+ t /\ delimited t) (drop (length (hs_log h)) (hs_log h')) /\
    (allow_open_substrate args = false -> ~ served host a3).
Proof.
  intros H. assert (traced (choose_runtime host platform arch var read_text read_file metadata canonicalize docker_client args node_id)
    (fun new r => forall rt, r = Ok (OnHypeman rt) -> behind_a_door host var read_text args rt new)) as Ht.
  { unfold choose_runtime. apply traced_try_pass; [|done]. intros ingress _. apply traced_if; intros _; [by apply traced_ret|].
    apply traced_if; intros _; [apply traced_try_pass; [intros; by apply traced_ret|done]|].
    apply traced_if; intros _; [apply choose_hypeman_traced|by apply traced_ret]. }
  destruct (Ht h) as (new & Hl & Hn). rewrite H in *. cbn [fst snd] in *.
  destruct (Hn rt eq_refl) as (config & probing & rest & opened & _ & Hu & Hc & -> & (a1 & a2 & a3 & -> & Ho) & Hs & Ha).
  apply base_url_is_loopback in Hu as (loopback & tail & Eu & Hd & Htail & Hb).
  destruct (trimmed_keeps_authority loopback tail (loopback_not_empty _ Hb) Hd Htail) as (t & Et & Ht').
  exists config, a1, a2, a3, rest, loopback, tail. split_and!; try done.
  - rewrite Hl, drop_app_length. eapply Forall_impl; [exact Hs|]. intros x [path Ex]. exists (t +:+ String "/"%char path). split.
    + rewrite Ex. unfold config_client, new_client. cbn [hc_base_url]. rewrite Eu, Et. by rewrite !append_assoc.
    + destruct Ht' as [->|(c & t' & -> & Hc')]; right; [by exists "/"%char, path|by exists c, (t' +:+ String "/"%char path)].
  - intros Hf Hserved. destruct opened; [by rewrite (Ha eq_refl) in Hf|]. apply Ho in Hserved. done.
Qed.

(** A start on a substrate that wants a token. *)
Definition start_args : Args := {|
  listen := "127.0.0.1:7070"; uds := None; data_dir := "/d"; runtime := "hypeman"; hypervisor := "qemu"; allow_open_substrate := false;
  guest_bin := Some "/g"; fleet_bucket := None; fleet_advertise := None; ingress_advertise := None; ingress_ports := "30000-30999" |}.
Definition start_var (name : string) : option string := if bool_decide (name = ENV_TOKEN) then Some "t" else None.
Definition no_text (path : string) : res string string := Err "no file".
Definition start_files (path : string) : res string (list Z) := if bool_decide (path = "/g") then Ok [1] else Err "no file".
Definition no_metadata (path : string) : option (bool * Z) := None.
Definition no_path (path : string) : option string := None.
Definition try_start (answers : list (res string HttpResponse)) :=
  choose_runtime script_host OtherPlatform "x86_64" start_var no_text start_files no_metadata no_path (Ok tt)
    start_args "n" (script_state answers).
Definition closed_substrate : list (res string HttpResponse) := [answer 200 "x"; answer 200 "none"; answer 401 "no"; answer 200 "volume"].
Definition started : HypemanRuntime :=
  {| h_client := {| hc_base_url := DEFAULT_BASE_URL; hc_token := Some "t" |}; h_node_id := "n"; h_hypervisor := "qemu";
     h_agent := {| av_volume_id := "v"; agent_hash := "01" |}; h_egress_control := false; h_ingress := None |}.

Lemma closed_start : try_start closed_substrate = (fst (try_start closed_substrate), Ok (OnHypeman started)).
Proof. vm_compute. reflexivity. Qed.

Lemma hypeman_starts_behind_a_door_witness :
  exists a3, nth_error (hs_log (fst (try_start closed_substrate))) 2 =
      Some (mkHttpRequest GET (DEFAULT_BASE_URL +:+ "/instances") None NoBody, a3) /\ ~ served script_host a3.
Proof.
  destruct (hypeman_starts_behind_a_door script_host OtherPlatform "x86_64" start_var no_text start_files no_metadata no_path (Ok tt)
    start_args "n" (script_state closed_substrate) (fst (try_start closed_substrate)) started closed_start)
    as (config & a1 & a2 & a3 & rest & loopback & tail & Hc & _ & _ & _ & Hl & _ & Hd).
  exists a3. split; [|apply Hd; reflexivity]. rewrite Hl. rewrite <- Hc. reflexivity.
Defined.

(** The same substrate without a lock is not used. *)
Lemma open_start : exists m, snd (try_start [answer 200 "x"; answer 200 "none"; answer 200 "none"; answer 200 "volume"]) = Err (Refused m).
Proof. eexists. vm_compute. reflexivity. Qed.

(** * After the start nothing is in flight *)

Section Boot.
Context {W R : Type} (rt : Runtime W) (clock : nat -> Z) (faults : nat -> option string).

Lemma finalize_keeps d db :
  operations (finalize_object_gc d db) = operations db /\ instances (finalize_object_gc d db) = instances db /\
  capsule_operations (finalize_object_gc d db) = capsule_operations db.
Proof. unfold finalize_object_gc. destruct (object_refs db !! d); [|done]. by case_decide. Qed.
Lemma gc_loop_keeps ds db (s : ObjectStore R) :
  let db' := (gc_loop ds db s).1.1 in
  operations db' = operations db /\ instances db' = instances db /\ capsule_operations db' = capsule_operations db.
Proof.
  revert db s. induction ds as [|d ds IH]; intros db s; [done|]. cbn [gc_loop]. destruct (remove d s) as [s' [[]|e]]; [|done].
  specialize (IH (finalize_object_gc d db) s'). destruct (finalize_keeps d db) as (<- & <- & <-).
  by destruct (gc_loop ds (finalize_object_gc d db) s') as [[db2 s2] r].
Qed.
Lemma startup_gc_keeps (w : World W R) :
  let w' := (startup_gc w).1 in
  operations (w_db w') = operations (w_db w) /\ instances (w_db w') = instances (w_db w) /\
  capsule_operations (w_db w') = capsule_operations (w_db w).
Proof.
  unfold startup_gc, run_startup_gc, run_gc. cbn.
  pose proof (gc_loop_keeps (collectable_objects (w_db w)) (w_db w)) as H.
  match goal with |- context [gc_loop ?ds ?db ?s] => specialize (H s); destruct (gc_loop ds db s) as [[db2 s2] r] end. exact H.
Qed.

(** C22: a node that has started on its journal has nothing left in flight: no operation is
    running or holds its instance, no instance is between two states, and no capsule
    operation is running. When what it opens opens and the journal answers, it starts. *)
Theorem boot_leaves_nothing_in_flight opened failed_at (w w' : World W R) d r :
  keyed (w_db w) -> w_db w = open d -> bootstrap rt clock faults opened failed_at w = (w', r) ->
  ((forall n, faults n = None) -> opened = Ok tt -> r = Ok tt) /\
  (r = Ok tt ->
   (forall k o, operations (w_db w') !! k = Some o -> op_is_in_flight (o_state o) = false /\ o_executor_active o = false) /\
   (forall j i, instances (w_db w') !! j = Some i -> is_transitional (Journal.i_state i) = false) /\
   (forall k c, capsule_operations (w_db w') !! k = Some c -> co_state c <> OperationState.Running)).
Proof.
  intros Hk Ho. unfold bootstrap. destruct opened as [[]|e]; [|intros [= <- <-]; split; intros; simplify_eq].
  unfold bind at 1. destruct (recover rt clock faults failed_at w) as [w1 r1] eqn:E1.
  destruct (recover_spec _ _ _ _ _ _ _ Hk E1) as [Hlive Hrec].
  destruct r1 as [[]|e]; [|intros [= <- <-]; split; [intros Hf _; specialize (Hlive Hf); done|done]].
  destruct (Hrec eq_refl) as [Hops Hins]. unfold bind at 1. unfold now_ms at 1. set (w2 := w1 <| w_ticks := _ |>).
  unfold bind at 1. unfold journal. destruct (faults (w_calls w2)) as [e|] eqn:Ef.
  { intros [= <- <-]. split; [intros Hf; by rewrite Hf in Ef|done]. }
  destruct (recover_capsule_ops (clock (w_ticks w1)) (w_db w2)) as [db3 n] eqn:E3. unfold bind at 1.
  set (w3 := w2 <| w_calls := _ |> <| w_db := db3 |>). pose proof (startup_gc_keeps w3) as Hgc.
  destruct (startup_gc w3) as [w4 g]. intros [= <- <-]. split; [done|]. intros _. cbn in Hgc. destruct Hgc as (G1 & G2 & G3).
  assert (operations db3 = operations (w_db w1) /\ instances db3 = instances (w_db w1)) as [D1 D2].
  { change (w_db w2) with (w_db w1) in E3. unfold recover_capsule_ops in E3. injection E3 as <- _. done. }
  rewrite G1, G2, G3, D1, D2. split_and!.
  - intros k o. rewrite Hops, Ho. apply fail_inflight_settles.
  - intros j i Hi. specialize (Hins j). rewrite Hi in Hins. destruct (instances (w_db w) !! j); [|done]. by eapply recovered_settled.
  - intros k c. unfold recover_capsule_ops in E3. injection E3 as <- _. simpl. rewrite lookup_fmap.
    intros (c0 & _ & ->)%fmap_Some. case_decide; [by simpl|done].
Qed.
End Boot.

(** The start after a crash in the middle of a create, with a capsule operation running too. *)
Definition interrupted : World (list string) unit :=
  crashed <| w_db := open ((w_db toy_submitted) <| capsule_operations :=
    {["c" := mkCapsuleOp "EXPORT" empty_str "k" empty_str OperationState.Running ErrorReason.Unspecified empty_str 0 None]} |>) |>.
Definition booted := bootstrap toy_runtime toy_clock no_faults (Ok tt) (fun _ => 9) interrupted.

Lemma interrupted_keyed : keyed (w_db interrupted).
Proof. apply (bool_decide_unpack (keyed _)). vm_compute. exact I. Qed.
Lemma booted_world : booted = (fst booted, Ok tt).
Proof. vm_compute. reflexivity. Qed.

Lemma boot_leaves_nothing_in_flight_witness :
  (co_state <$> capsule_operations (w_db interrupted) !! "c") = Some OperationState.Running /\
  forall k c, capsule_operations (w_db (fst booted)) !! k = Some c -> co_state c <> OperationState.Running.
Proof.
  split; [vm_compute; reflexivity|].
  destruct (boot_leaves_nothing_in_flight toy_runtime toy_clock no_faults (Ok tt) (fun _ => 9) interrupted (fst booted)
    ((w_db toy_submitted) <| capsule_operations :=
       {["c" := mkCapsuleOp "EXPORT" empty_str "k" empty_str OperationState.Running ErrorReason.Unspecified empty_str 0 None]} |>)
    (Ok tt) interrupted_keyed eq_refl booted_world) as [_ H].
  destruct (H eq_refl) as (_ & _ & Hc). exact Hc.
Defined.
