(* ===== verification/Wake.v ===== *)
(** The times an operator types: wake.rs of src/crates/barista-cli. Text is the list of its
    bytes, in UTF-8; a slice off a character boundary is a panic, [None]. *)

From S2P Require Import Prelude Codec Service Pages.

(** * Text *)

Definition is_space (c : Z) : bool := (c =? 32) || within 9 13 c.
Fixpoint trim_start (l : list Z) : list Z := match l with c :: l' => if is_space c then trim_start l' else l | [] => [] end.
Definition trim (l : list Z) : list Z := reverse (trim_start (reverse (trim_start l))).

(** [str::is_char_boundary] *)
Definition is_char_boundary (l : list Z) (i : nat) : bool :=
  (i =? 0)%nat || (i =? length l)%nat || match l !! i with Some b => negb (within 128 191 b) | None => false end.

(** [&s[a..b]] *)
Definition str_slice (l : list Z) (a b : nat) : option (list Z) :=
  if (a <=? b)%nat && is_char_boundary l a && is_char_boundary l b then Some (take (b - a) (drop a l)) else None.

Definition byte_at (l : list Z) (i : nat) : Z := default 0 (l !! i).

(** [checked_mul] and [checked_add] of [i64]. *)
Definition checked (z : Z) : option Z := if (i64_min <=? z) && (z <=? i64_max) then Some z else None.

(** What is returned, or a panic. *)
Definition Run (A : Type) : Type := option (res string A).
Definition run_then {A B} (m : Run A) (k : A -> Run B) : Run B :=
  match m with None => None | Some (Err e) => Some (Err e) | Some (Ok a) => k a end.
Notation "'let#' x := m 'in' k" := (run_then m (fun x => k)) (at level 10, x pattern, m at level 100, k at level 200).
Definition ensure (b : bool) (msg : string) : Run unit := Some (if b then Ok tt else Err msg).
Definition fails {A} (msg : string) : Run A := Some (Err msg).

(** [{:?}] of text, without its escapes. *)
Definition shown (l : list Z) : string := quoted (text_of l).

(** * The calendar *)

Definition days_from_civil (year month day : Z) : Z :=
  let y := year - (if month <=? 2 then 1 else 0) in
  let era := Z.quot (if 0 <=? y then y else y - 399) 400 in
  let yoe := y - era * 400 in
  let doy := Z.quot (153 * (month + (if 2 <? month then -3 else 9)) + 2) 5 + day - 1 in
  let doe := yoe * 365 + Z.quot yoe 4 - Z.quot yoe 100 + doy in
  era * 146097 + doe - 719468.

Definition leap (year : Z) : bool :=
  (Z.rem year 4 =? 0) && (negb (Z.rem year 100 =? 0) || (Z.rem year 400 =? 0)).

Definition days_in_month (year month : Z) : Z :=
  if (month =? 1) || (month =? 3) || (month =? 5) || (month =? 7) || (month =? 8) || (month =? 10) || (month =? 12) then 31
  else if (month =? 4) || (month =? 6) || (month =? 9) || (month =? 11) then 30
  else if leap year then 29 else 28.

(** * Parsing *)

Fixpoint skip_digits (l : list Z) : list Z := match l with c :: l' => if is_ascii_digit c then skip_digits l' else l | [] => [] end.

Section Timestamp.
Context (s : list Z).

Definition number (slice : option (list Z)) (what : string) : Run Z :=
  match slice with
  | None => None
  | Some l => match parse_i64 l with Some n => Some (Ok n) | None => fails (shown s +:+ ": " +:+ what +:+ " is not a number") end
  end.

(** The offset east of UTC, in seconds. *)
Definition parse_zone (zone : list Z) : Run Z :=
  let zone := match zone with 46 :: rest => skip_digits rest | _ => zone end in
  match zone with
  | [90] | [122] => Some (Ok 0)
  | [] => fails (shown s +:+ " has no time zone, so it could mean several different moments; write Z for UTC or an offset like +02:00")
  | c :: rest =>
      let# sign := (if c =? 43 then Some (Ok 1) else if c =? 45 then Some (Ok (-1))
                    else fails (shown s +:+ ": " +:+ shown zone +:+ " is not an offset. Named zones need a tz database this tool does not carry — use Z or a numeric offset like +02:00")) in
      let rest := filter (fun c => c <> 58) rest in
      let# _ := ensure (length rest =? 4)%nat (shown s +:+ ": " +:+ shown zone +:+ " is not an offset like +02:00") in
      let# hours := number (str_slice rest 0 2) "the offset hours" in
      let# minutes := number (str_slice rest 2 4) "the offset minutes" in
      Some (Ok (sign * (hours * 3600 + minutes * 60)))
  end.

Definition parse_rfc3339 : Run (option Z) :=
  if (length s <? 19)%nat || negb (is_char_boundary s 19) || negb (byte_at s 4 =? 45) then Some (Ok None)
  else
    let date_time := take 19 s in
    let zone := drop 19 s in
    let# _ := ensure ((byte_at date_time 7 =? 45) && ((byte_at date_time 10 =? 84) || (byte_at date_time 10 =? 116)) &&
                      (byte_at date_time 13 =? 58) && (byte_at date_time 16 =? 58))
                     (shown s +:+ " is not a timestamp: expected YYYY-MM-DDTHH:MM:SS with an offset, e.g. 2026-08-09T09:00:00Z") in
    let# year := number (str_slice date_time 0 4) "the year" in
    let# month := number (str_slice date_time 5 7) "the month" in
    let# day := number (str_slice date_time 8 10) "the day" in
    let# hour := number (str_slice date_time 11 13) "the hour" in
    let# minute := number (str_slice date_time 14 16) "the minute" in
    let# second := number (str_slice date_time 17 19) "the second" in
    let# _ := ensure (within 1 12 month && within 1 31 day && (hour <? 24) && (minute <? 60) && (second <? 60))
                     (shown s +:+ " is not a real time") in
    let# _ := ensure (day <=? days_in_month year month)
                     (shown s +:+ " is not a real date: month " +:+ pretty month +:+ " has no day " +:+ pretty day) in
    let# offset_secs := parse_zone zone in
    Some (Ok (Some (days_from_civil year month day * 86400 + hour * 3600 + minute * 60 + second - offset_secs))).
End Timestamp.

(** [now] is the clock's seconds since the epoch, unless it is before it. *)
Definition parse_when (when : list Z) (now : option Z) : Run Z :=
  let when := trim when in
  let body := match when with 43 :: rest => rest | _ => when end in
  let# _ := ensure (negb (length body =? 0)%nat) "wake-at needs a time; see --help" in
  let# timestamp := (if bool_decide (when = body) then parse_rfc3339 body else Some (Ok None)) in
  match timestamp with
  | Some seconds => Some (Ok seconds)
  | None =>
      match now with
      | None => fails "this machine's clock is before the Unix epoch"
      | Some now_secs =>
          let multiplier :=
            match last body with
            | Some 115 => Some 1
            | Some 109 => Some 60
            | Some 104 => Some 3600
            | Some 100 => Some 86400
            | _ => None
            end in
          let relative := m ← multiplier; n ← parse_i64 (take (length body - 1) body); Some (n, m) in
          match relative with
          | Some (n, m) =>
              match d ← checked (n * m); checked (now_secs + d) with
              | Some t => Some (Ok t)
              | None => fails (shown when +:+ " is further away than time goes")
              end
          | None => fails (shown when +:+ " is neither a timestamp (2026-08-09T09:00:00Z) nor a duration (90s, 5m, 2h, 3d)")
          end
      end
  end.

Definition until (target_secs : Z) (now : option Z) : string :=
  let delta := wrap_i64 (target_secs - default 0 now) in
  if delta <=? 0 then "due"
  else if delta <? 60 then "in " +:+ pretty delta +:+ "s"
  else if delta <? 3600 then "in " +:+ pretty (Z.quot delta 60) +:+ "m"
  else if delta <? 86400 then "in " +:+ pretty (Z.quot delta 3600) +:+ "h"
  else "in " +:+ pretty (Z.quot delta 86400) +:+ "d".

(** * The calendar, counted *)

Record Date := mkDate { d_year : Z; d_month : Z; d_day : Z }.
Definition valid_date (d : Date) : Prop := 1 <= d_month d <= 12 /\ 1 <= d_day d <= days_in_month (d_year d) (d_month d).

(** The day after. *)
Definition next_day (d : Date) : Date :=
  if d_day d <? days_in_month (d_year d) (d_month d) then mkDate (d_year d) (d_month d) (d_day d + 1)
  else if d_month d <? 12 then mkDate (d_year d) (d_month d + 1) 1
  else mkDate (d_year d + 1) 1 1.

Definition day_number (d : Date) : Z := days_from_civil (d_year d) (d_month d) (d_day d).
Definition epoch : Date := mkDate 1970 1 1.

(** The days before the first of March of a year, from the year 0. *)
Definition march_days (y : Z) : Z := 365 * y + y / 4 - y / 100 + y / 400.

(** The days of a March-based year before a month. *)
Definition month_start (month : Z) : Z := Z.quot (153 * (month + (if 2 <? month then -3 else 9)) + 2) 5.

Lemma days_from_civil_march year month day :
  days_from_civil year month day =
  march_days (year - (if month <=? 2 then 1 else 0)) + month_start month + day - 1 - 719468.
Proof.
  unfold days_from_civil. cbv zeta. set (y := year - _). fold (month_start month). set (q := month_start month).
  assert (Z.quot (if 0 <=? y then y else y - 399) 400 = y / 400) as ->.
  { destruct (0 <=? y) eqn:E; [by rewrite Z.quot_div_nonneg by lia|].
    rewrite <- (Z.opp_involutive (y - 399)), Z.quot_opp_l, Z.quot_div_nonneg by lia. Z.to_euclidean_division_equations. lia. }
  unfold march_days. set (e := y / 400).
  assert (0 <= y - e * 400 < 400) as Hy by (unfold e; Z.to_euclidean_division_equations; lia).
  rewrite !Z.quot_div_nonneg by lia.
  assert ((y - e * 400) / 4 = y / 4 - e * 100) as -> by (Z.to_euclidean_division_equations; lia).
  assert ((y - e * 400) / 100 = y / 100 - e * 4) as -> by (Z.to_euclidean_division_equations; lia).
  lia.
Qed.

(** A year's length shows in the next one's first of March. *)
Lemma march_days_next y : march_days y = march_days (y - 1) + (if leap y then 366 else 365).
Proof.
  unfold march_days, leap.
  destruct (Z.rem y 4 =? 0) eqn:E4, (Z.rem y 100 =? 0) eqn:E100, (Z.rem y 400 =? 0) eqn:E400; cbn [andb orb negb];
    Z.to_euclidean_division_equations; lia.
Qed.

Lemma month_cases m : 1 <= m <= 12 ->
  m = 1 \/ m = 2 \/ m = 3 \/ m = 4 \/ m = 5 \/ m = 6 \/ m = 7 \/ m = 8 \/ m = 9 \/ m = 10 \/ m = 11 \/ m = 12.
Proof. lia. Qed.

(** The months from March follow each other, and so do January and February. *)
Lemma month_start_next y m : 1 <= m < 12 -> m <> 2 ->
  (m + 1 <=? 2) = (m <=? 2) /\ month_start (m + 1) = month_start m + days_in_month y m.
Proof.
  intros Hm H2. destruct (month_cases m) as [->|[->|[->|[->|[->|[->|[->|[->|[->|[->|[->| ->]]]]]]]]]]];
    try lia; split; reflexivity.
Qed.

Lemma days_in_month_pos y m : 28 <= days_in_month y m <= 31.
Proof. unfold days_in_month. repeat case_match; lia. Qed.

Lemma next_day_counts d : valid_date d -> valid_date (next_day d) /\ day_number (next_day d) = day_number d + 1.
Proof.
  destruct d as [y m n]. unfold valid_date, next_day, day_number. cbn [d_year d_month d_day]. intros [Hm Hn].
  pose proof (days_in_month_pos y (m + 1)) as Hp. pose proof (days_in_month_pos (y + 1) 1) as Hp1.
  destruct (n <? days_in_month y m) eqn:En; cbn [d_year d_month d_day].
  { split; [lia|]. rewrite !days_from_civil_march. lia. }
  assert (n = days_in_month y m) as -> by lia. rewrite !days_from_civil_march.
  destruct (m <? 12) eqn:Em; cbn [d_year d_month d_day]; (split; [lia|]).
  - destruct (decide (m = 2)) as [->|H2].
    + change (2 + 1) with 3. change (month_start 3) with 0. change (month_start 2) with 337. change (3 <=? 2) with false.
      change (days_in_month y 2) with (if leap y then 29 else 28). rewrite Z.sub_0_r, (march_days_next y).
      change (2 <=? 2) with true. cbv iota. destruct (leap y); lia.
    + destruct (month_start_next y m) as [-> ->]; [lia|done|]. lia.
  - assert (m = 12) as -> by lia. change (month_start 1) with 306. change (month_start 12) with 275.
    change (days_in_month y 12) with 31. change (1 <=? 2) with true. change (12 <=? 2) with false. cbv iota. rewrite Z.sub_0_r. replace (y + 1 - 1) with y by lia. lia.
Qed.

(** the day number of a date is the number of days since the first of January 1970, counted
    one by one on the calendar, with its month lengths and leap years; and from any date, in
    any year, the number moves with the days. *)
Theorem days_are_counted (n : nat) (d : Date) :
  day_number epoch = 0 /\ day_number (Nat.iter n next_day epoch) = Z.of_nat n /\
  (valid_date d -> valid_date (Nat.iter n next_day d) /\ day_number (Nat.iter n next_day d) = day_number d + Z.of_nat n).
Proof.
  assert (forall d, valid_date d -> valid_date (Nat.iter n next_day d) /\
            day_number (Nat.iter n next_day d) = day_number d + Z.of_nat n) as Hall.
  { clear d. intros d Hd. induction n as [|n [IHv IHn]]; [split; [done|cbn; lia]|].
    change (Nat.iter (S n) next_day d) with (next_day (Nat.iter n next_day d)).
    destruct (next_day_counts _ IHv) as [? ->]. split; [done|]. rewrite Nat2Z.inj_succ. rewrite IHn. lia. }
  split_and!; [reflexivity| |apply Hall].
  destruct (Hall epoch) as [_ ->]; [|reflexivity]. vm_compute. split; split; discriminate.
Qed.

Lemma days_are_counted_witness :
  valid_date (mkDate 2000 2 28) /\ day_number (Nat.iter 2 next_day (mkDate 2000 2 28)) = day_number (mkDate 2000 3 1).
Proof.
  assert (valid_date (mkDate 2000 2 28)) as Hv by (vm_compute; split; split; discriminate). split; [done|].
  destruct (days_are_counted 2 (mkDate 2000 2 28)) as (_ & _ & H). destruct (H Hv) as [_ ->]. reflexivity.
Defined.

(** * Timestamps, written and read *)

Definition digit_of (n : Z) : Z := 48 + n.
Definition two (n : Z) : list Z := [digit_of (n / 10); digit_of (n mod 10)].
Definition four (n : Z) : list Z := two (n / 100) ++ two (n mod 100).
(** [YYYY-MM-DDTHH:MM:SSZ] *)
Definition stamp (d : Date) (hour minute second : Z) : list Z :=
  four (d_year d) ++ [45] ++ two (d_month d) ++ [45] ++ two (d_day d) ++ [84] ++
  two hour ++ [58] ++ two minute ++ [58] ++ two second ++ [90].

Lemma parse_two n : 0 <= n <= 99 -> parse_i64 (two n) = Some n.
Proof.
  intros Hn. apply parse_positive; [|done| |unfold is_i64, i64_min, i64_max; lia].
  - unfold two, digit_of. repeat constructor; unfold digit; Z.to_euclidean_division_equations; lia.
  - unfold two, digit_of. cbn [parse_digits].
    repeat (case_match; [|Z.to_euclidean_division_equations; lia]). f_equal. Z.to_euclidean_division_equations; lia.
Qed.

Lemma parse_four n : 0 <= n <= 9999 -> parse_i64 (four n) = Some n.
Proof.
  intros Hn. apply parse_positive; [|done| |unfold is_i64, i64_min, i64_max; lia].
  - unfold four, two, digit_of. cbn [app]. repeat constructor; unfold digit; Z.to_euclidean_division_equations; lia.
  - unfold four, two, digit_of. cbn [app parse_digits].
    repeat (case_match; [|Z.to_euclidean_division_equations; lia]). f_equal. Z.to_euclidean_division_equations; lia.
Qed.

(** Every place in ASCII text is a character boundary. *)
Lemma ascii_boundary l i : Forall (fun c => 0 <= c < 128) l -> (i <= length l)%nat -> is_char_boundary l i = true.
Proof.
  intros Hl Hi. unfold is_char_boundary. destruct (l !! i) as [c|] eqn:E.
  - rewrite Forall_lookup in Hl. specialize (Hl _ _ E). unfold within. replace (128 <=? c) with false by lia.
    by rewrite !orb_true_r.
  - apply lookup_ge_None in E. replace (i =? length l)%nat with true by (symmetry; apply Nat.eqb_eq; lia). by rewrite orb_true_r.
Qed.
Lemma ascii_slice l a b : Forall (fun c => 0 <= c < 128) l -> (a <= b <= length l)%nat ->
  str_slice l a b = Some (take (b - a) (drop a l)).
Proof.
  intros Hl Hab. unfold str_slice. rewrite !ascii_boundary by (done || lia).
  replace (a <=? b)%nat with true by (symmetry; apply Nat.leb_le; lia). done.
Qed.

Lemma two_ascii n : 0 <= n <= 99 -> Forall (fun c => 0 <= c < 128) (two n).
Proof. intros Hn. unfold two, digit_of. repeat constructor; Z.to_euclidean_division_equations; lia. Qed.
Lemma four_ascii n : 0 <= n <= 9999 -> Forall (fun c => 0 <= c < 128) (four n).
Proof. intros Hn. apply Forall_app; split; apply two_ascii; Z.to_euclidean_division_equations; lia. Qed.

(** A timestamp in UTC is read as the moment it names. *)
Theorem timestamps_are_read d hour minute second :
  valid_date d -> 0 <= d_year d <= 9999 -> 0 <= hour < 24 -> 0 <= minute < 60 -> 0 <= second < 60 ->
  parse_rfc3339 (stamp d hour minute second) =
    Some (Ok (Some (day_number d * 86400 + hour * 3600 + minute * 60 + second))).
Proof.
  intros [Hm Hd] Hy Hh Hmi Hs. pose proof (days_in_month_pos (d_year d) (d_month d)) as Hp.
  assert (Forall (fun c => 0 <= c < 128) (stamp d hour minute second)) as Hall.
  { unfold stamp. repeat first [apply two_ascii; lia | apply four_ascii; lia | apply Forall_singleton; lia | apply Forall_app; split]. }
  unfold parse_rfc3339. rewrite (ascii_boundary _ 19 Hall) by (cbn; lia).
  change (length (stamp d hour minute second) <? 19)%nat with false.
  change (byte_at (stamp d hour minute second) 4) with 45. cbn [orb negb Z.eqb].
  assert (Forall (fun c => 0 <= c < 128) (take 19 (stamp d hour minute second))) as Hd19 by by apply Forall_take.
  change (byte_at (take 19 (stamp d hour minute second)) 7) with 45.
  change (byte_at (take 19 (stamp d hour minute second)) 10) with 84.
  change (byte_at (take 19 (stamp d hour minute second)) 13) with 58.
  change (byte_at (take 19 (stamp d hour minute second)) 16) with 58.
  rewrite !ascii_slice by (done || cbn; lia).
  change (take _ (drop 0 _)) with (four (d_year d)). change (take _ (drop 5 _)) with (two (d_month d)).
  change (take _ (drop 8 _)) with (two (d_day d)). change (take _ (drop 11 _)) with (two hour).
  change (take _ (drop 14 _)) with (two minute). change (take _ (drop 17 _)) with (two second).
  unfold number. rewrite parse_four, !parse_two by lia. cbn [run_then ensure andb orb Z.eqb Pos.eqb].
  unfold within. repeat (rewrite (proj2 (Z.leb_le _ _)) by lia). repeat (rewrite (proj2 (Z.ltb_lt _ _)) by lia).
  cbn [andb ensure run_then]. change (drop 19 _) with [90]. cbn [parse_zone run_then]. unfold day_number. do 3 f_equal. lia.
Qed.

Lemma timestamps_are_read_witness :
  parse_rfc3339 (bytes_of "2026-08-09T09:00:00Z") = Some (Ok (Some (day_number (mkDate 2026 8 9) * 86400 + 9 * 3600 + 0 * 60 + 0))).
Proof.
  change (bytes_of "2026-08-09T09:00:00Z") with (stamp (mkDate 2026 8 9) 9 0 0). apply timestamps_are_read; cbn; try lia.
  vm_compute. split; split; discriminate.
Defined.

(** A duration is added to the clock exactly, or refused. *)
Lemma durations_are_exact digits n unit m now :
  Forall digit digits -> digits <> [] -> parse_digits 0 digits = Some n -> n <= i64_max ->
  (unit, m) ∈ [(115, 1); (109, 60); (104, 3600); (100, 86400)] ->
  parse_when (43 :: digits ++ [unit]) (Some now) =
    match d ← checked (n * m); checked (now + d) with
    | Some t => Some (Ok t)
    | None => fails (shown (43 :: digits ++ [unit]) +:+ " is further away than time goes")
    end.
Proof.
  intros Hd Hne Hp Hn Hu.
  assert (0 <= n) as Hn0.
  { assert (forall l acc z, 0 <= acc -> parse_digits acc l = Some z -> 0 <= z) as Hpos; [|by eapply Hpos].
    induction l as [|c l IH]; intros acc z Ha; cbn [parse_digits]; [by intros [= <-]|].
    destruct (_ && _) eqn:E; [|done]. apply IH. lia. }
  assert (unit = 115 \/ unit = 109 \/ unit = 104 \/ unit = 100) as Hunit by set_solver.
  assert (is_space unit = false) as Hsp by (unfold is_space, within; lia).
  assert (trim (43 :: digits ++ [unit]) = 43 :: digits ++ [unit]) as Et.
  { unfold trim. cbn [trim_start]. change (is_space 43) with false. cbv iota.
    change (43 :: digits ++ [unit]) with ((43 :: digits) ++ [unit]). rewrite reverse_app, reverse_singleton. cbn [app trim_start].
    rewrite Hsp. change (unit :: reverse (43 :: digits)) with (reverse [unit] ++ reverse (43 :: digits)).
    by rewrite <- reverse_app, reverse_involutive. }
  unfold parse_when. rewrite Et. cbv zeta iota.
  rewrite length_app. cbn [length]. replace (length digits + 1 =? 0)%nat with false by (symmetry; apply Nat.eqb_neq; lia).
  cbn [negb ensure run_then].
  rewrite bool_decide_false by (intros E; apply (f_equal length) in E; cbn in E; lia). cbn [run_then].
  rewrite last_snoc, Nat.add_sub, take_app_length.
  rewrite (parse_positive _ n) by (done || (unfold is_i64, i64_min in *; lia)).
  assert (match Some unit with Some 115 => Some 1 | Some 109 => Some 60 | Some 104 => Some 3600 | Some 100 => Some 86400 | _ => None end
          = Some m) as ->.
  { rewrite !elem_of_cons in Hu. destruct Hu as [[= -> ->]|[[= -> ->]|[[= -> ->]|[[= -> ->]|Hu]]]]; [done..|by apply not_elem_of_nil in Hu]. }
  reflexivity.
Qed.

(** An hour below zero is a number below 24, and is read. *)
Lemma negative_hours_are_read :
  parse_rfc3339 (bytes_of "2026-08-09T-1:00:00Z") = parse_rfc3339 (bytes_of "2026-08-08T23:00:00Z") /\
  parse_rfc3339 (bytes_of "2026-08-08T23:00:00Z") = Some (Ok (Some 1786230000)).
Proof. split; vm_compute; reflexivity. Qed.

(** An offset of four bytes that are not four characters is sliced inside one. *)
Lemma offsets_can_panic : parse_rfc3339 (bytes_of "2026-08-09T09:00:00+1" ++ [195; 169] ++ bytes_of "1") = None.
Proof. vm_compute. reflexivity. Qed.
