(* ===== verification/Cli.v ===== *)
(** The client's side of a request: follow.rs and exec.rs of src/crates/barista-cli. An
    operator's command waits for its operation, relays an exec and copies files. *)

From S2P Require Import Prelude Text Proto Journal Events Codec Objects Runtime Ops Executor Reconcile Fleet Service Guest GuestSafety GuestExec Passthrough.
From Stdlib Require Import Ascii.

(** * Following an operation: follow.rs *)

Definition succeeded (op : Operation) : bool := po_state op =? OperationState.to_i32 OperationState.Done.
Definition canceled (op : Operation) : bool := po_state op =? OperationState.to_i32 OperationState.Canceled.

Definition CANCELED_EXIT_CODE : Z := 7.

Definition exit_code_for (reason : ErrorReason.t) : Z :=
  match reason with
  | ErrorReason.CapabilityMissing => 3
  | ErrorReason.ConcurrentOperation => 4
  | ErrorReason.SubstrateUnavailable => 5
  | ErrorReason.InvalidSpec | ErrorReason.TemplateNotFound => 6
  | _ => 1
  end.

Section Follow.
Context {W : Type}.
(** The node's answer about an operation. *)
Context (get_operation : string -> Call W (res Status Operation)).
Context (status_text : Status -> string).

Definition op_reason (op : Operation) : ErrorReason.t := default ErrorReason.Unspecified (reason <$> po_error op).

Definition exit_code (op : Operation) : Z :=
  if succeeded op then 0 else if canceled op then CANCELED_EXIT_CODE else exit_code_for (op_reason op).

Definition is_terminal_state (s : Z) : bool :=
  (s =? OperationState.to_i32 OperationState.Done) || (s =? OperationState.to_i32 OperationState.Failed) ||
  (s =? OperationState.to_i32 OperationState.Canceled).

Definition settled (op_id : string) : Call W (res string (option Operation)) :=
  let@? op := get_operation op_id or status_text in
  pass_back (Ok (if is_terminal_state (po_state op) then Some op else None)).

(** [now] is the time of the latest arrival, [stream] the items to come with their times and
    [closed] when the stream ends, if it does. *)
Fixpoint wait_loop (op_id : string) (timeout deadline now : Z) (stream : list (Z * res Status Event)) (closed : option Z)
    : Call W (res string Operation) :=
  let too_late : Call W (res string Operation) :=
    pass_back (Err ("operation " +:+ op_id +:+ " did not finish within " +:+ pretty (Z.quot timeout 1000) +:+
                    "s; it is still running on the node — `barista events` will show its progress")) in
  if deadline <=? now then too_late
  else
    match stream with
    | [] =>
        match closed with
        | Some at_ =>
            if deadline <? at_ then too_late
            else
              let@? s := settled op_id or id in
              pass_back match s with
                        | Some op => Ok op
                        | None => Err ("the node closed the event stream before " +:+ op_id +:+ " finished")
                        end
        | None => too_late
        end
    | (at_, item) :: stream =>
        if deadline <? at_ then too_late
        else
          match item with
          | Ok event =>
              if bool_decide (ev_op_id event = op_id) then
                let@? s := settled op_id or id in
                match s with
                | Some op => pass_back (Ok op)
                | None => wait_loop op_id timeout deadline at_ stream closed
                end
              else wait_loop op_id timeout deadline at_ stream closed
          | Err e => pass_back (Err ("the event stream failed: " +:+ status_text e))
          end
    end.

Definition wait (op_id : string) (timeout now : Z) (stream : list (Z * res Status Event)) (closed : option Z)
    : Call W (res string Operation) :=
  let@? s := settled op_id or id in
  match s with
  | Some op => pass_back (Ok op)
  | None => wait_loop op_id timeout (now + timeout) now stream closed
  end.
End Follow.

(** * An exec's answer: exec.rs *)

(** What is written to the two outputs, and the code the client exits with. *)
Fixpoint exec_loop (stream : list (res Status NodePb.ExecFrame)) (code : option Z) : list Z * list Z * res Status (option Z) :=
  match stream with
  | [] => ([], [], Ok code)
  | Err s :: _ => ([], [], Err s)
  | Ok frame :: stream =>
      match frame with
      | Some (NodePb.Stdout data) => let '(o, e, r) := exec_loop stream code in (data ++ o, e, r)
      | Some (NodePb.Stderr data) => let '(o, e, r) := exec_loop stream code in (o, data ++ e, r)
      | Some (NodePb.Exit c) => exec_loop stream (Some c)
      | _ => exec_loop stream code
      end
  end.

Definition exec_result (status_text : Status -> string) (stream : list (res Status NodePb.ExecFrame)) : res string Z :=
  match snd (exec_loop stream None) with
  | Err s => Err (status_text s)
  | Ok None => Err "the exec stream ended without an exit status; the command's fate is unknown"
  | Ok (Some code) => Ok code
  end.

(** * Copying files: exec.rs *)

Inductive Location : Type :=
| AtInstance (instance_id path : string)
| Local (path : string).

Definition location_parse (raw : string) : Location :=
  match split_once ":" raw with
  | Some (instance, path) =>
      if (match path with String c _ => bool_decide (c = "/"%char) | EmptyString => false end) && negb (is_empty instance)
      then AtInstance instance path else Local raw
  | None => Local raw
  end.

Definition CP_CHUNK : nat := Z.to_nat 32768.

(** [bytes.chunks(n)], for a list shorter than the fuel. *)
Fixpoint chunks (fuel n : nat) (l : list Z) : list (list Z) :=
  match fuel, l with
  | O, _ | _, [] => []
  | S fuel, l => take n l :: chunks fuel n (drop n l)
  end.

Definition upload_frames (instance_id path : string) (mode : Z) (bytes : list Z) : list NodePb.WriteFileRequest :=
  Some (NodePb.Open {| NodePb.wo_instance_id := instance_id; NodePb.wo_path := path; NodePb.wo_mode := mode |}) ::
  ((fun c => Some (NodePb.Chunk c)) <$> chunks (S (length bytes)) CP_CHUNK bytes).

(** What is received, and the error that ends it, if one does. *)
Fixpoint receive (items : list (res Status NodePb.FileChunk)) : list Z * option Status :=
  match items with
  | [] => ([], None)
  | Err s :: _ => ([], Some s)
  | Ok c :: items => let '(rest, e) := receive items in (NodePb.data c ++ rest, e)
  end.

Section Copy.
Context {W : Type}.
(** The node's handlers at the other end of the connection. *)
Context (node_read_file : NodePb.ReadFileRequest -> Call W (res Status (list (res Status NodePb.FileChunk)))).
Context (node_write_file : list NodePb.WriteFileRequest -> Call W (res Status Z)).
Context (status_text : Status -> string).
(** The local files with their modes; the errors, if any, of creating one, and of writing it,
    with how much was written then. *)
Context (create_error : option string) (write_error : option (string * nat)).
Abbreviation LocalFiles := (gmap string (list Z * Z)).

Definition file_mode (files : LocalFiles) (path : string) : Z :=
  match files !! path with Some (_, mode) => Z.land mode 4095 | None => 0 end.

Definition cp (from to : Location) (files : LocalFiles) : Call W (LocalFiles * res string unit) :=
  match from, to with
  | AtInstance instance_id path, Local local =>
      let@ r := node_read_file {| NodePb.rf_instance_id := instance_id; NodePb.rf_path := path; NodePb.rf_offset := 0; NodePb.rf_limit := 0 |} in
      pass_back
        match r with
        | Err s => (files, Err (status_text s))
        | Ok items =>
            match create_error with
            | Some e => (files, Err e)
            | None =>
                let mode := match files !! local with Some (_, m) => m | None => 420 end in
                let '(bytes, failed) := receive items in
                match write_error, failed with
                | Some (e, n), _ => (<[local := (take n bytes, mode)]> files, Err e)
                | None, Some s => (<[local := (bytes, mode)]> files, Err (status_text s))
                | None, None => (<[local := (bytes, mode)]> files, Ok tt)
                end
            end
        end
  | Local local, AtInstance instance_id path =>
      match files !! local with
      | None => pass_back (files, Err "No such file or directory (os error 2)")
      | Some (bytes, _) =>
          let@ r := node_write_file (upload_frames instance_id path (file_mode files local) bytes) in
          pass_back (files, match r with Ok _ => Ok tt | Err s => Err (status_text s) end)
      end
  | Local _, Local _ =>
      pass_back (files, Err "both paths are local; `barista cp` copies to or from an instance (use `cp`)")
  | AtInstance _ _, AtInstance _ _ =>
      pass_back (files, Err "instance-to-instance copy is not supported; copy out and back in")
  end.
End Copy.

(** * What the client is told *)

(** Waiting for an operation ends, and its answer is the node's: an operation that is
    returned is the one the node last gave for that id, and it is done, failed or canceled;
    and the process exits with zero exactly for one that is done. *)
Theorem wait_is_truthful {W} (get_operation : string -> Call W (res Status Operation)) status_text op_id timeout now stream closed w w' op :
  wait get_operation status_text op_id timeout now stream closed w = (w', Ok op) ->
  (exists w1, get_operation op_id w1 = (w', Ok op)) /\ is_terminal_state (po_state op) = true /\
  (exit_code op = 0 <-> po_state op = OperationState.to_i32 OperationState.Done).
Proof.
  assert (forall w w' o, settled get_operation status_text op_id w = (w', Ok (Some o)) ->
            get_operation op_id w = (w', Ok o) /\ is_terminal_state (po_state o) = true) as Hs.
  { intros v v' o H. unfold settled in H. step_in H. apply pass_inv in H as [-> [= H]].
    destruct (is_terminal_state (po_state x0)) eqn:E; [|done]. injection H as ->. done. }
  assert (forall deadline n v, wait_loop get_operation status_text op_id timeout deadline n stream closed v = (w', Ok op) ->
            (exists w1, get_operation op_id w1 = (w', Ok op)) /\ is_terminal_state (po_state op) = true) as Hl.
  { intros deadline. induction stream as [|[at_ [event|e]] stream IH]; intros n v; cbn [wait_loop];
      (destruct (deadline <=? n); [done|]).
    - destruct closed as [c|]; [|done]. destruct (deadline <? c); [done|]. intros H. step_in H.
      destruct x0 as [o|]; [|done]. injection H as <- <-. apply Hs in H0 as [? ?]. eauto.
    - destruct (deadline <? at_); [done|]. case_bool_decide; [|apply IH]. intros H'. step_in H'.
      destruct x0 as [o|]; [|by apply IH in H']. injection H' as <- <-. apply Hs in H0 as [? ?]. eauto.
    - destruct (deadline <? at_); done. }
  intros H. assert ((exists w1, get_operation op_id w1 = (w', Ok op)) /\ is_terminal_state (po_state op) = true) as [H1 H2].
  { unfold wait in H. step_in H. destruct x0 as [o|]; [|by eapply Hl].
    injection H as <- <-. apply Hs in H0 as [? ?]. eauto. }
  split_and!; [done|done|]. unfold exit_code, succeeded. destruct (po_state op =? _) eqn:E; [split; lia|].
  split; [|lia]. destruct (canceled op); [done|]. unfold exit_code_for. by destruct (op_reason op).
Qed.

(** * Copies *)

Lemma chunks_join fuel n l : (0 < n)%nat -> (length l < fuel)%nat -> mjoin (chunks fuel n l) = l.
Proof.
  intros Hn. revert l. induction fuel as [|fuel IH]; intros l Hl; [lia|]. destruct l as [|a l]; [done|].
  cbn [chunks mjoin list_join]. change (take n (a :: l) ++ mjoin (chunks fuel n (drop n (a :: l))) = a :: l).
  rewrite IH; [apply take_drop|]. rewrite length_drop. cbn [length] in *. lia.
Qed.

Lemma upload_payload_chunks l : upload_payload (Ok ∘ (fun c => Some (NodePb.Chunk c)) <$> l) = Some (mjoin l).
Proof. induction l as [|c l IH]; [done|]. cbn. by rewrite IH. Qed.

Lemma upload_payload_cut l s : upload_payload (l ++ [Err s]) = None.
Proof. induction l as [|[[[o|b]|]|e] l IH]; cbn [app upload_payload]; try done. by rewrite IH. Qed.

Lemma receive_chunks cs last :
  receive ((Ok ∘ to_node_chunk ∘ chunk_of <$> cs) ++ [last]) =
  match last with Ok c => (mjoin cs ++ NodePb.data c, None) | Err s => (mjoin cs, Some s) end.
Proof.
  induction cs as [|c cs IH].
  - destruct last; cbn; by rewrite ?app_nil_r.
  - cbn. cbn in IH. rewrite IH. destruct last; by rewrite ?app_assoc.
Qed.

Section RoundTrip.
Context {W R Os : Type} `{Mc : Machine Os} (rt : Runtime (W * Guest Os)).
Context (clock : nat -> Z) (faults : nat -> option string) (guest_channel failure_first : bool).
(** What the connection of the node to the guest carries, and that of the client to the node. *)
Context (up : list GuestPb.WriteFileRequest -> list (Arrival GuestPb.WriteFileRequest)).
Context (down : list (res Status GuestPb.FileChunk) -> list (res Status GuestPb.FileChunk)).
Context (reply : forall A, res Status A -> res Status A).
Context (client_up : list NodePb.WriteFileRequest -> list (res Status NodePb.WriteFileRequest)).
Context (client_down : list (res Status NodePb.FileChunk) -> list (res Status NodePb.FileChunk)).
Hypothesis up_carries : forall frames, carried frames (up frames).
Hypothesis down_carries : forall items, down items = items \/ exists k s, (k < length items)%nat /\ down items = take k items ++ [Err s].
Hypothesis reply_or_error : forall A (r : res Status A), reply A r = r \/ exists s, reply A r = Err s.
Hypothesis client_up_carries : forall frames, client_up frames = Ok <$> frames \/ exists k s, client_up frames = (Ok <$> take k frames) ++ [Err s].
Hypothesis client_down_carries :
  forall items, client_down items = items \/ exists k s, (k < length items)%nat /\ client_down items = take k items ++ [Err s].
Context (status_text : Status -> string) (create_error : option string) (write_error : option (string * nat)).

#[local] Abbreviation World := (World (W * Guest Os) R).
Definition client_write_file (frames : list NodePb.WriteFileRequest) : Call World (res Status Z) :=
  let@ r := write_file rt clock faults guest_channel (agent_write_file up reply) failure_first (client_up frames) in
  pass_back (reply Z r).
Definition client_read_file (r : NodePb.ReadFileRequest) : Call World (res Status (list (res Status NodePb.FileChunk))) :=
  let@ a := read_file rt clock faults guest_channel (agent_read_file down reply) r in
  pass_back (reply _ (let? items := a in Ok (client_down items))).
(** [cp], with the node and the guest agent at the other end. *)
Definition relayed_cp (from to : Location) (locals : gmap string (list Z * Z)) : Call World (gmap string (list Z * Z) * res string unit) :=
  cp client_read_file client_write_file status_text create_error write_error from to locals.
#[local] Abbreviation files w := (g_files (snd (w_sub w))).

(** A file copied in is the local one. *)
Lemma copied_in local iid path locals locals' bytes mode (w w' : World) :
  locals !! local = Some (bytes, mode) ->
  relayed_cp (Local local) (AtInstance iid path) locals w = (w', (locals', Ok tt)) ->
  locals' = locals /\ exists f, files w' = <[path := f]> (files w) /\ f_data f = bytes.
Proof.
  intros Hl. unfold relayed_cp, cp. rewrite Hl. intros H. apply then_inv in H as (w1 & r & Hr & H). apply pass_inv in H as [-> [= -> Hok]].
  split; [done|]. destruct r as [n|s]; [|done].
  unfold client_write_file in Hr. apply then_inv in Hr as (w2 & r & Hr & H). apply pass_inv in H as [-> Hn].
  destruct (reply_or_error Z r) as [Er|[s Er]]; rewrite Er in Hn; [|done]. subst r.
  eapply write_file_whole in Hr as (o & rest & bytes' & f & row & Ei & Hp & _ & Hf & Hd & _); [|done|done].
  exists f. unfold upload_frames in Ei.
  destruct (client_up_carries (upload_frames iid path (file_mode locals local) bytes)) as [E|(k & s & E)];
    unfold upload_frames in E; rewrite E in Ei; clear E;
    pose proof (chunks_join (S (length bytes)) CP_CHUNK bytes ltac:(unfold CP_CHUNK; lia) ltac:(lia)) as Hj;
    generalize dependent (chunks (S (length bytes)) CP_CHUNK bytes); intros cs Ei Hj.
  - rewrite fmap_cons in Ei. injection Ei as <- <-. rewrite <- list_fmap_compose, upload_payload_chunks, Hj in Hp.
    injection Hp as <-. done.
  - destruct k as [|k]; [done|]. cbn [take] in Ei. rewrite fmap_cons in Ei. injection Ei as _ <-.
    by rewrite upload_payload_cut in Hp.
Qed.

(** Items cut short end in an error that the copy reports. *)
Lemma receive_cut (items : list (res Status NodePb.FileChunk)) k s : snd (receive (take k items ++ [Err s])) <> None.
Proof.
  revert k. induction items as [|[c|e] items IH]; intros [|k]; cbn [take app receive]; try done.
  specialize (IH k). by destruct (receive (take k items ++ [Err s])).
Qed.

(** A file copied out is the guest's. *)
Lemma copied_out local iid path locals locals' (w w' : World) :
  relayed_cp (AtInstance iid path) (Local local) locals w = (w', (locals', Ok tt)) ->
  files w' = files w /\ exists f mode, files w !! path = Some f /\ locals' = <[local := (f_data f, mode)]> locals.
Proof.
  unfold relayed_cp, cp. intros H. apply then_inv in H as (w1 & r & Hr & H). apply pass_inv in H as [-> H].
  destruct r as [items|s]; [|done]. destruct create_error; [done|].
  unfold client_read_file in Hr. apply then_inv in Hr as (w2 & a & Ha & Hr). apply pass_inv in Hr as [-> Hr].
  destruct (reply_or_error _ (let? items := a in Ok (client_down items))) as [Er|[s Er]]; rewrite Er in Hr; [|done].
  destruct a as [its|]; [|done]. injection Hr as ->.
  eapply read_file_slice in Ha as (f & cs & Hf & Hw & _ & Hcs); [|done|done|done]. split; [done|].
  exists f, (match locals !! local with Some (_, m) => m | None => 420 end). split; [done|].
  destruct write_error as [[e n]|]; [by destruct (receive _)|].
  destruct (receive (client_down its)) as [bytes failed] eqn:E. destruct failed; [done|]. injection H as ->. do 2 f_equal.
  destruct (client_down_carries its) as [Ed|(k & s & _ & Ed)]; rewrite Ed in E;
    [|by pose proof (receive_cut its k s) as Hn; rewrite E in Hn].
  destruct Hcs as [[Hj ->]|[_ [s ->]]]; rewrite receive_chunks in E; [|done].
  injection E as <-. cbn [NodePb.data to_node_chunk eof_chunk GuestPb.data]. by rewrite app_nil_r, Hj.
Qed.

(** C32: a file that was copied into an instance and copied out again is the file it was: if
    both copies are reported as made, the second local file holds exactly the bytes of the
    first, whatever happened on the two connections, in the node and in the guest, and the
    first is as it was. *)
Theorem copies_come_back local local2 iid path locals locals1 locals2 bytes mode (w w1 w2 : World) :
  locals !! local = Some (bytes, mode) ->
  relayed_cp (Local local) (AtInstance iid path) locals w = (w1, (locals1, Ok tt)) ->
  relayed_cp (AtInstance iid path) (Local local2) locals1 w1 = (w2, (locals2, Ok tt)) ->
  exists mode2, locals2 = <[local2 := (bytes, mode2)]> locals.
Proof.
  intros Hl H1 H2. eapply copied_in in H1 as (-> & f & Hf & Hd); [|done].
  apply copied_out in H2 as (_ & f' & mode2 & Hf' & ->). rewrite Hf, lookup_insert_eq in Hf'. injection Hf' as <-.
  exists mode2. by rewrite Hd.
Qed.
End RoundTrip.

(** * A concrete copy *)

Definition text_of_status (s : Status) : string := status_message s.
Definition sent_whole (frames : list NodePb.WriteFileRequest) : list (res Status NodePb.WriteFileRequest) := Ok <$> frames.
Definition kept_whole (items : list (res Status NodePb.FileChunk)) : list (res Status NodePb.FileChunk) := items.
Definition plain_cp :=
  cp (client_read_file (R := unit) (with_fleet (Guest unit) toy_runtime) toy_clock no_faults true unchanged as_answered kept_whole)
     (client_write_file (with_fleet (Guest unit) toy_runtime) toy_clock no_faults true false as_sent as_answered sent_whole)
     text_of_status None None.
Definition home : gmap string (list Z * Z) := <["a" := ([1; 2; 3; 4; 5], 493)]> ∅.
Definition copied_world : World (list string * Guest unit) unit :=
  fst (plain_cp (Local "a") (AtInstance "i" "/x") home transfer_world).
Definition returned_world : World (list string * Guest unit) unit :=
  fst (plain_cp (AtInstance "i" "/x") (Local "b") home copied_world).
Definition home_after : gmap string (list Z * Z) := <["b" := ([1; 2; 3; 4; 5], 420)]> home.

Lemma plain_cp_in : plain_cp (Local "a") (AtInstance "i" "/x") home transfer_world = (copied_world, (home, Ok tt)).
Proof. vm_compute. reflexivity. Qed.
Lemma plain_cp_out : plain_cp (AtInstance "i" "/x") (Local "b") home copied_world = (returned_world, (home_after, Ok tt)).
Proof. vm_compute. reflexivity. Qed.

Lemma copies_come_back_witness : exists mode2, home_after = <["b" := ([1; 2; 3; 4; 5], mode2)]> home.
Proof.
  refine (copies_come_back (with_fleet (Guest unit) toy_runtime) toy_clock no_faults true false as_sent unchanged as_answered
            sent_whole kept_whole (fun fs => carried_whole fs) (fun _ => or_introl eq_refl) (fun _ _ => or_introl eq_refl)
            (fun _ => or_introl eq_refl) (fun _ => or_introl eq_refl) text_of_status None None
            "a" "b" "i" "/x" home home home_after _ 493 _ _ _ eq_refl plain_cp_in plain_cp_out).
Defined.

(** An operation that is already done is found before the stream is read. *)
Definition done_op : Operation :=
  {| po_op_id := "op"; po_kind := "stop"; po_instance_id := "i"; po_state := 3; po_current_step := empty_str; po_error := None;
     po_degraded := empty_str; po_created_at := None; po_finished_at := None; po_froze_workload := false;
     po_actual_fork_mode := 0; po_capsule_id := empty_str |}.
Lemma wait_is_truthful_witness :
  exit_code done_op = 0 <-> po_state done_op = OperationState.to_i32 OperationState.Done.
Proof.
  apply (wait_is_truthful (fun _ => pass_back (Ok done_op)) text_of_status "op" 1000 0 [] None tt tt done_op). reflexivity.
Defined.
