(* ===== verification/Commands.v ===== *)
(** The operator's commands: main.rs, node.rs, instances.rs, doctor.rs and the
    plain texts of render.rs, in src/crates/barista-cli. Arguments arrive parsed; JSON output
    is left out.

    The node's answers are parameters; [Cli] has the waiting and the copying. *)

From S2P Require Import Prelude Text Proto Journal Events Operations Codec Runtime Service Pages Requests Guest GuestSafety Cli.
From Stdlib Require Import Ascii.

(** * The node's address: node.rs *)

Inductive Address : Type := Tcp (addr : string) | Uds (path : string).
Definition address_parse (raw : string) : Address := if contains_char "/" raw then Uds raw else Tcp raw.
Definition address_text (a : Address) : string := match a with Tcp addr => addr | Uds path => path end.
Definition unreachable_text (a : Address) (source : string) : string :=
  "cannot reach a barista node at " +:+ address_text a +:+ " (" +:+ source +:+ ")." +:+
  String (ascii_of_nat 10) "Is `barista-node-agent` running? Set --node or BARISTA_NODE to point somewhere else.".

(** * Arguments *)

Module EgressMode.
Inductive t : Type := Unspecified | All | HttpHttpsOnly.
Definition to_i32 (m : t) : Z := match m with Unspecified => 0 | All => 1 | HttpHttpsOnly => 2 end.
Definition of_i32 (z : Z) : t := if z =? 1 then All else if z =? 2 then HttpHttpsOnly else Unspecified.
End EgressMode.

Definition parse_egress (value : string) : res string EgressPolicy :=
  let '(kind, mode) := default (value, "all") (split_once ":" value) in
  if negb (bool_decide (kind = "mediated")) then
    Err ("expected `mediated` or `mediated:<mode>`, got " +:+ quoted value +:+ ". Omit --egress " +:+
         "for the runtime's default networking")
  else
    let? mode := if bool_decide (mode = "all") then Ok EgressMode.All
                 else if bool_decide (mode = "http-https-only") then Ok EgressMode.HttpHttpsOnly
                 else Err ("unknown egress mode " +:+ quoted mode +:+ "; expected `all` (no direct TCP egress) " +:+
                           "or `http-https-only` (no direct egress on TCP 80/443)") in
    Ok {| mediated := true; egress_mode := EgressMode.to_i32 mode |}.

Definition parse_idle_action (value : string) : res string TtlAction.t :=
  if bool_decide (value = "pause") then Ok TtlAction.Pause
  else if bool_decide (value = "stop") then Ok TtlAction.Stop
  else if bool_decide (value = "destroy") then Ok TtlAction.Destroy
  else Err ("unknown idle action " +:+ quoted value +:+ "; expected `pause`, `stop`, or `destroy`. Omit " +:+
            "--idle-action to ignore idle declarations").
Definition ttl_action_i32 (a : TtlAction.t) : Z :=
  match a with TtlAction.Unspecified => 0 | TtlAction.Pause => 1 | TtlAction.Stop => 2 | TtlAction.Destroy => 3 end.

Definition parse_tier (tier : string) : CapsuleStorage.t :=
  if bool_decide (tier = "object-store") then CapsuleStorage.ObjectStore else CapsuleStorage.LocalDir.

(** * Plain texts: render.rs *)

Definition PREFIXES : list string :=
  ["ERROR_REASON_"; "INSTANCE_STATE_"; "OPERATION_STATE_"; "SNAPSHOT_KIND_"; "SNAPSHOT_TIER_"; "SUBSTRATE_HEALTH_"; "EVENT_TYPE_"; "TTL_ACTION_"].
Definition short (name : string) : string := default name (find_map (fun p => Operations.strip_prefix p name) PREFIXES).

Definition state_name (state : Z) : string := InstanceState.as_str_name (default InstanceState.Unspecified (InstanceState.try_from state)).
Definition state_cell (i : Instance_) : string :=
  let state := short (state_name (in_state i)) in
  match in_stop_reason i ≫= Proto.exit_code with Some code => state +:+ "(" +:+ pretty code +:+ ")" | None => state end.

Definition egress_label (policy : option EgressPolicy) : string :=
  match policy with
  | Some p => if mediated p then match EgressMode.of_i32 (egress_mode p) with
                                 | EgressMode.HttpHttpsOnly => "mediated:http-https-only"
                                 | _ => "mediated"
                                 end
              else "-"
  | None => "-"
  end.

Definition quiesced (hook : option HookOutcome) : string :=
  match hook with
  | None => "unknown"
  | Some h => if Proto.timed_out h then "timed out"
              else if Proto.ran h && (hook_exit_code h =? 0) then "yes"
              else if Proto.ran h then "failed" else "no hook"
  end.

(** [ErrorReason::from_str_name], and the reason of a refusal (follow.rs). *)
Definition REASONS : list ErrorReason.t :=
  [ErrorReason.Unspecified; ErrorReason.InvalidSpec; ErrorReason.TemplateNotFound; ErrorReason.BundleMismatch;
   ErrorReason.CpuClassMismatch; ErrorReason.CapabilityMissing; ErrorReason.ConcurrentOperation; ErrorReason.GuestUnreachable;
   ErrorReason.HookTimeout; ErrorReason.ResourcesExhausted; ErrorReason.SnapshotInvalidated; ErrorReason.SubstrateUnavailable;
   ErrorReason.CursorTooOld; ErrorReason.SnapshotNameConflict; ErrorReason.ForkModeUnavailable;
   ErrorReason.CapsuleVerificationFailed; ErrorReason.CapsuleIncompatible; ErrorReason.CapsuleNotFound;
   ErrorReason.ObjectStoreUnavailable; ErrorReason.EpochRevoked].
Definition reason_from_str_name (s : string) : option ErrorReason.t :=
  snd <$> list_find (fun e => ErrorReason.as_str_name e = s) REASONS.
Definition reason_of (s : Status) : ErrorReason.t := default ErrorReason.Unspecified (status_reason s ≫= reason_from_str_name).

(** [trim_start_matches([':', ' '])] *)
Definition is_joint (c : ascii) : bool := bool_decide (c = ":"%char) || bool_decide (c = " "%char).
Definition status_line (s : Status) : string :=
  let reason := ErrorReason.as_str_name (reason_of s) in
  let message := match Operations.strip_prefix reason (status_message s) with
                 | Some rest => trim_start_by is_joint rest
                 | None => status_message s
                 end in
  "barista: " +:+ short reason +:+ " — " +:+ message.

(** What an operation's end prints, to standard output and to standard error. *)
Definition outcome_lines (op : Operation) (iid : string) : list string * list string :=
  if succeeded op then
    ([po_kind op +:+ " " +:+ iid]
     ++ (if po_froze_workload op then ["  the workload was stopped while it was copied, and is running again"] else [])
     ++ (if negb (is_empty (po_degraded op)) then ["  degraded: " +:+ po_degraded op] else []), [])
  else if canceled op then ([], [po_kind op +:+ " " +:+ iid +:+ " canceled"])
  else ([], [po_kind op +:+ " " +:+ iid +:+ " failed: " +:+ short (ErrorReason.as_str_name (op_reason op)) +:+ " — " +:+
             default empty_str (message <$> po_error op)]).

(** * The commands: main.rs *)

Definition OPERATION_TIMEOUT : Z := 300 * 1000.

(** The commands that submit an operation and wait for it. *)
Inductive Command : Type :=
| Create (instance_id : option string) (image : string) (digest : option string) (vcpu mem_mib ttl_seconds : Z)
    (egress : option EgressPolicy) (idle_action : option TtlAction.t) (require_hardware_isolation : bool) (command : list string)
| Start (instance_id : string)
| Stop (instance_id : string) (grace_seconds : Z)
| Pause (instance_id : string) (require_memory : bool)
| Resume (instance_id : string) (snapshot : option string) (require_memory : bool)
| Checkpoint (instance_id : string)
| Destroy (instance_id : string) (keep_snapshots : bool)
| SnapshotCreate (instance_id : string) (name : option string)
| SnapshotDelete (snapshot_id : string)
| Fork (source_snapshot_id : string) (target_instance_id : option string) (require_cow : bool).

Definition split_image (image : string) (digest : option string) : string * string :=
  match split_once "@" image with Some p => p | None => (image, default empty_str digest) end.

Definition create_spec (id image : string) (digest : option string) (vcpu mem_mib ttl_seconds : Z)
    (egress : option EgressPolicy) (idle_action : option TtlAction.t) (command : list string) : InstanceSpec :=
  let '(image, digest) := split_image image digest in
  mkInstanceSpec id
    (Some {| oci := Some {| Proto.image := image; Proto.digest := digest |}; runtime_bundle_ref := empty_str;
             template_hash_field := empty_str; arch := empty_str |})
    (Some {| Proto.vcpu := vcpu; Proto.mem_mib := mem_mib; disk_mib := 0 |})
    (Some {| start_cmd := command; ready_cmd := []; Proto.env := ∅; workdir := empty_str |})
    None ttl_seconds 0 ∅ egress (ttl_action_i32 <$> idle_action).

(** The instance a command follows and the request it sends, with the names it generates. *)
Definition request_of (c : Command) (ulid key : string) : string * Request :=
  match c with
  | Create iid image digest vcpu mem ttl egress idle hw command =>
      let id := default ulid iid in
      (id, RCreate {| ci_spec := Some (create_spec id image digest vcpu mem ttl egress idle command); ci_idempotency_key := key;
                      ci_require_hardware_isolation := hw |})
  | Start iid => (iid, RStart {| si_instance_id := iid; si_idempotency_key := key |})
  | Stop iid grace => (iid, RStop {| st_instance_id := iid; st_idempotency_key := key; st_grace_seconds := grace |})
  | Pause iid mem => (iid, RPause {| pi_instance_id := iid; pi_idempotency_key := key; pi_keep_memory := None; pi_require_memory := mem |})
  | Resume iid snapshot mem =>
      (iid, RResume {| ru_target := Some match snapshot with Some sid => TargetSnapshotId sid | None => TargetInstanceId iid end;
                       ru_idempotency_key := key; ru_require_memory := mem |})
  | Checkpoint iid => (iid, RCheckpoint)
  | Destroy iid keep => (iid, RDestroy {| di_instance_id := iid; di_idempotency_key := key; di_keep_snapshots := keep |})
  | SnapshotCreate iid name => (iid, RCreateSnapshot {| cs_instance_id := iid; cs_idempotency_key := key; cs_name := default empty_str name |})
  | SnapshotDelete sid => (empty_str, RDeleteSnapshot {| ds_snapshot_id := sid; ds_idempotency_key := key |})
  | Fork source target cow =>
      let target := default ulid target in
      (target, RFork {| fr_source_snapshot_id := source; fr_target_instance_id := target; fr_idempotency_key := key;
                        fr_require_cow := cow; fr_target_spec := None |})
  end.

(** How a command ends: an exit code, a refusal of the node, or another failure. *)
Inductive Failure : Type := Refusal (s : Status) | Trouble (message : string).
Definition process_exit (r : res Failure Z) : Z :=
  match r with
  | Ok code => code
  | Err (Refusal s) => exit_code_for (reason_of s)
  | Err (Trouble _) => 1
  end.

Section Node.
Context {W : Type}.
(** The node, as the client reaches it: a request answered with an operation, an operation's
    state, and a page of instances. *)
Context (submit : Request -> Call W (res Status Operation)).
Context (get_operation : string -> Call W (res Status Operation)).
Context (list_instances : ListInstancesRequest -> Call W (res Status ListInstancesResponse)).
Context (status_text : Status -> string).

(** The event stream of a watch: refused, or what arrives on it, with times, until it closes. *)
Definition Watched : Type := res Status (list (Z * res Status Event) * option Z).

(** [submit!]: watch first, then ask, then wait. *)
Definition run_submit (c : Command) (ulid key : string) (watch : string -> Watched) (now : Z) : Call W (res Failure (Z * (list string * list string))) :=
  let '(iid, req) := request_of c ulid key in
  let@? w := pass_back (watch iid) or Refusal in
  let@? op := submit req or Refusal in
  let@? outcome := wait get_operation status_text (po_op_id op) OPERATION_TIMEOUT now (fst w) (snd w) or Trouble in
  let shown := match c with SnapshotDelete _ => po_instance_id op | _ => iid end in
  pass_back (Ok (exit_code outcome, outcome_lines outcome shown)).

(** ** Listing: instances.rs *)

(** [None] is out of fuel. *)
Fixpoint list_all_from (fuel : nat) (page_token : string) : Call W (option (res Status (list Instance_))) :=
  match fuel with
  | O => pass_back None
  | S fuel =>
      let@ r := list_instances (mkListInstancesRequest [] ∅ 256 page_token) in
      match r with
      | Err e => pass_back (Some (Err e))
      | Ok response =>
          if is_empty (li_next_page_token response) then pass_back (Some (Ok (li_instances response)))
          else let@ rest := list_all_from fuel (li_next_page_token response) in
               pass_back ((fun rest => let? rest := rest in Ok (li_instances response ++ rest)) <$> rest)
      end
  end.
Definition list_all (fuel : nat) : Call W (option (res Status (list Instance_))) := list_all_from fuel empty_str.

(** ** The doctor: doctor.rs *)

Record Finding := { ok : bool; what : string; detail : string }.

Definition pause_finding (runtime : string) (memory_snapshot : bool) : Finding := {|
  ok := memory_snapshot;
  what := "pause/resume for '" +:+ runtime +:+ "'";
  detail := if memory_snapshot then "memory snapshots available: pause keeps the session"
            else "disk-only: memory snapshots are unavailable. Select a memory-capable " +:+
                 "runtime such as hypeman on a supported host; use `barista node info` " +:+
                 "when you only need capability inventory" |}.

Definition health_of (z : Z) : SubstrateHealth.t :=
  if z =? 1 then SubstrateHealth.Healthy else if z =? 2 then SubstrateHealth.Unreachable else SubstrateHealth.Unspecified.
Definition is_unreachable_health (h : SubstrateHealth.t) : bool := match h with SubstrateHealth.Unreachable => true | _ => false end.

Definition runtime_findings (r : RuntimeInfo) : list Finding :=
  let health := health_of (ri_health r) in
  let has f := match ri_capabilities r with Some caps => f caps | None => false end in
  [{| ok := negb (is_unreachable_health health);
      what := "substrate for '" +:+ ri_name r +:+ "'";
      detail := match health with
                | SubstrateHealth.Healthy => "healthy (" +:+ ri_version r +:+ ")"
                | SubstrateHealth.Unreachable =>
                    "unreachable — " +:+ ri_health_detail r +:+ ". Instances already running are unaffected, but " +:+
                    "nothing can be created, started or destroyed until it returns"
                | SubstrateHealth.Unspecified => "not reported by this agent"
                end |};
   {| ok := has guest_agent;
      what := "guest channel for '" +:+ ri_name r +:+ "'";
      detail := if has guest_agent then "available: exec, file access and readiness probes will work"
                else "absent: `barista exec`, `barista cp` and readiness will all fail. The node was " +:+
                     "most likely started without --guest-bin" |};
   pause_finding (ri_name r) (has memory_snapshot)].

Definition doctor (get_node_info : Call W (res Status NodeInfo)) (fuel : nat) (address : string) : Call W (option (list Finding)) :=
  let reachable := {| ok := true; what := "node reachable"; detail := address |} in
  let@ r := get_node_info in
  match r with
  | Err e =>
      pass_back (Some [reachable; {| ok := false; what := "node answers GetNodeInfo";
                                     detail := status_text e +:+ "; the node is listening but not serving Contract A" |}])
  | Ok info =>
      let identity := {| ok := true; what := "node identity";
                         detail := ni_node_id info +:+ " (" +:+ ni_arch info +:+ ", " +:+ ni_cpu_class info +:+ ")" |} in
      match ni_runtimes info with
      | [] => pass_back (Some [reachable; identity;
                 {| ok := false; what := "a runtime is registered"; detail := "the node reports no runtimes, so it can run nothing" |}])
      | runtimes =>
          let@ listed := list_all fuel in
          pass_back (
            (fun l =>
               [reachable; identity] ++ mjoin (runtime_findings <$> runtimes) ++
               [match l with
                | Ok instances => {| ok := true; what := "journal readable"; detail := pretty (length instances) +:+ " instance(s)" |}
                | Err e => {| ok := false; what := "journal readable"; detail := status_text e +:+ "; the node cannot list its own instances" |}
                end]) <$> listed)
      end
  end.

Definition doctor_exit (findings : list Finding) : Z :=
  if (0 <? length (filter (fun f => ok f = false) findings))%nat then 1 else 0.
End Node.

(** * What the commands promise *)

(** A command that waits asks for what it shows, and its exit code is its operation's: it is
    given only once the node has answered that the operation the request was answered with
    is done, failed or canceled, and it is zero exactly when that operation is done. *)
Theorem commands_exit_with_their_operation {W} (submit : Request -> Call W (res Status Operation)) get_operation status_text
    c ulid key watch now (w w' : W) code shown :
  run_submit submit get_operation status_text c ulid key watch now w = (w', Ok (code, shown)) ->
  exists w1 w2 w3 op outcome,
    submit (snd (request_of c ulid key)) w1 = (w2, Ok op) /\ get_operation (po_op_id op) w3 = (w', Ok outcome) /\
    is_terminal_state (po_state outcome) = true /\ code = exit_code outcome /\
    (code = 0 <-> po_state outcome = OperationState.to_i32 OperationState.Done).
Proof.
  unfold run_submit. destruct (request_of c ulid key) as [iid req]. intros H.
  step_in H. step_in H. step_in H. apply pass_inv in H as [-> [= -> _]].
  match goal with Hw : wait _ _ _ _ _ _ _ _ = _ |- _ => destruct (wait_is_truthful _ _ _ _ _ _ _ _ _ _ Hw) as ([w3 Hg] & Ht & Hz) end.
  cbn [snd]. eauto 12.
Qed.

(** A refusal ends the process as the same failure of an accepted operation would. *)
Lemma reason_of_refusal code reason msg : reason_of (status_with_reason code reason msg) = reason.
Proof. by destruct reason. Qed.
Lemma refusals_exit_like_failures code (op : Operation) e msg :
  po_state op = OperationState.to_i32 OperationState.Failed -> po_error op = Some e ->
  process_exit (Err (Refusal (status_with_reason code (reason e) msg))) = exit_code op.
Proof.
  intros Hs He. unfold exit_code, succeeded, canceled, op_reason. rewrite Hs, He. cbn [process_exit]. by rewrite reason_of_refusal.
Qed.

(** What is printed for a policy is read back as that policy. *)
Lemma egress_is_read_back value p : parse_egress value = Ok p -> parse_egress (egress_label (Some p)) = Ok p.
Proof.
  unfold parse_egress. destruct (default _ (split_once ":" value)) as [kind mode]. destruct (negb _); [done|].
  case_bool_decide; [by intros [= <-]|]. case_bool_decide; [by intros [= <-]|done].
Qed.

(** The doctor's exit code is zero exactly when every finding is good. *)
Lemma doctor_exit_zero findings : doctor_exit findings = 0 <-> Forall (fun f => ok f = true) findings.
Proof.
  unfold doctor_exit. induction findings as [|f fs IH]; [done|]. rewrite filter_cons, Forall_cons. destruct (ok f) eqn:E.
  - rewrite decide_False by done. rewrite <- IH. naive_solver.
  - rewrite decide_True by done. cbn [length]. split; [|by intros [? _]]. by intros.
Qed.

(** The doctor passes only a node that answers, has a runtime, and whose runtimes are all
    reachable, with a guest channel and memory snapshots, and that lists its instances. *)
Theorem doctor_is_strict {W} list_instances status_text get_node_info fuel address (w w' : W) findings :
  doctor list_instances status_text get_node_info fuel address w = (w', Some findings) -> doctor_exit findings = 0 ->
  exists w1 info instances, get_node_info w = (w1, Ok info) /\ ni_runtimes info <> [] /\
    list_all list_instances fuel w1 = (w', Some (Ok instances)) /\
    forall r, r ∈ ni_runtimes info -> health_of (ri_health r) <> SubstrateHealth.Unreachable /\
      exists caps, ri_capabilities r = Some caps /\ guest_agent caps = true /\ memory_snapshot caps = true.
Proof.
  intros H Hz%doctor_exit_zero. unfold doctor in H. apply then_inv in H as (w1 & a & Hi & H). destruct a as [info|e].
  2: { apply pass_inv in H as [-> [= ->]]. rewrite !Forall_cons in Hz. naive_solver. }
  destruct (ni_runtimes info) as [|r0 rs] eqn:Er.
  { apply pass_inv in H as [-> [= ->]]. rewrite !Forall_cons in Hz. naive_solver. }
  apply then_inv in H as (w2 & l & Hl & H). apply pass_inv in H as [-> H].
  symmetry in H. apply fmap_Some in H as (r & -> & ->). cbv beta in Hz. destruct r as [instances|e].
  2: { apply Forall_app in Hz as [_ Hz]. apply Forall_app in Hz as [_ Hz]. apply Forall_cons in Hz as [Hz _]. done. }
  apply Forall_app in Hz as [_ Hz]. apply Forall_app in Hz as [Hz _].
  exists w1, info, instances. rewrite Er. split_and!; try done. intros r Hr.
  rewrite Forall_forall in Hz. assert (forall f, f ∈ runtime_findings r -> ok f = true) as Hf.
  { intros f Hf. apply Hz. apply list_elem_of_join. exists (runtime_findings r). split; [done|]. by apply list_elem_of_fmap_2. }
  unfold runtime_findings in Hf. pose proof (Hf _ (list_elem_of_here _ _)) as H1.
  pose proof (Hf _ (list_elem_of_further _ _ _ (list_elem_of_here _ _))) as H2.
  pose proof (Hf _ (list_elem_of_further _ _ _ (list_elem_of_further _ _ _ (list_elem_of_here _ _)))) as H3. cbn [ok pause_finding] in *.
  split; [by destruct (health_of (ri_health r))|]. destruct (ri_capabilities r) as [caps|]; [eauto|done].
Qed.
