(* ===== verification/Bucket.v ===== *)
(** The bucket a fleet meets in: src/crates/barista-fleet/src/store.rs, which reads its
    URL; the joining of a fleet and the writing of desired records in [fleet.rs] of the node
    agent and [desired.rs]; and the fleet verbs of the command line
    (src/crates/barista-cli/src/fleet.rs), whose records the nodes of [Fleet] read. JSON
    output is left out. *)

From S2P Require Import Prelude Text Net Lease Stores Proto Journal Operations Fleet Codec Pages GuestSafety Delivery.
From Stdlib Require Import Ascii.

(** * The bucket's URL: store.rs *)

(** [str::find] of a text: what is before its first occurrence and what is after it. *)
Fixpoint cut_at (pat s : string) : option (string * string) :=
  match Operations.strip_prefix pat s with
  | Some rest => Some (EmptyString, rest)
  | None => match s with
            | EmptyString => None
            | String c s' => '(a, b) ← cut_at pat s'; Some (String c a, b)
            end
  end.
Definition contains_str (pat s : string) : bool := match cut_at pat s with Some _ => true | None => false end.
Definition starts_with_str (pat s : string) : bool := match Operations.strip_prefix pat s with Some _ => true | None => false end.
(** [str::split] at a character. *)
Fixpoint split_char (c : ascii) (s : string) : list string :=
  match s with
  | EmptyString => [EmptyString]
  | String d s' => if bool_decide (c = d) then EmptyString :: split_char c s'
                   else match split_char c s' with w :: ws => String d w :: ws | [] => [String d EmptyString] end
  end.
Definition is_slash (c : ascii) : bool := bool_decide (c = "/"%char).

Record Parts := { bucket_name : string; endpoint : option string }.

Definition parse (url : string) : option Parts :=
  match Operations.strip_prefix "https://" url with
  | Some rest =>
      '(host, bucket) ← split_once "/" rest;
      if negb (is_empty host) && negb (is_empty bucket) then
        Some {| bucket_name := trim_end_by is_slash bucket;
                endpoint := Some (String.substring 0 (String.length url - String.length bucket - 1) url) |}
      else None
  | None =>
      rest ← Operations.strip_prefix "s3://" url;
      let '(head, query) := match split_once "?" rest with
                            | Some (head, query) => (head, Some query)
                            | None => (rest, None)
                            end in
      if is_empty head then None
      else match split_once "/" head with
      | Some (host, bucket) =>
          let bucket := trim_end_by is_slash bucket in
          if is_empty bucket then None else Some {| bucket_name := bucket; endpoint := Some host |}
      | None =>
          Some {| bucket_name := head;
                  endpoint := q ← query;
                              option_filter (fun e => negb (is_empty e))
                                (find_map (Operations.strip_prefix "endpoint=") (split_char "&" q)) |}
      end
  end.

(** What [from_url] asks of the S3 client it builds; credentials come from its environment. *)
Record StoreConfig := { sc_bucket : string; sc_conditional_put : bool; sc_endpoint : option string; sc_allow_http : bool }.

Definition endpoint_url (e : string) : string := if contains_str "://" e then e else "https://" +:+ e.

Definition store_config (url : string) : res FleetError StoreConfig :=
  match parse url with
  | None => Err (Config ("fleet bucket URL '" +:+ url +:+ "' is not understood. Accepted: s3://<bucket>?endpoint=<url>, " +:+
                         "s3://<host>/<bucket>, or https://<host>/<bucket>"))
  | Some parts =>
      let e := endpoint_url <$> endpoint parts in
      Ok {| sc_bucket := bucket_name parts; sc_conditional_put := true; sc_endpoint := e;
            sc_allow_http := match e with Some e => starts_with_str "http://" e | None => false end |}
  end.

(** [warn_if_unverified]: whether the start warns of a backend nobody measured. *)
Definition unverified (e : option string) : bool :=
  negb match e with
       | Some e => contains_str "127.0.0.1" e || contains_str "localhost" e || contains_str "r2.cloudflarestorage.com" e
       | None => false
       end.

Definition from_url {St} (build : StoreConfig -> res StoreError St) (url : string) : res FleetError St :=
  let? c := store_config url in
  match build c with Ok st => Ok st | Err e => Err (Backend e) end.

(** * Joining: fleet.rs *)

Definition ends_authority (c : ascii) : bool :=
  bool_decide (c = "/"%char) || bool_decide (c = "?"%char) || bool_decide (c = "&"%char) || bool_decide (c = "#"%char).
Fixpoint span_authority (s : string) : string * string :=
  match s with
  | EmptyString => (EmptyString, EmptyString)
  | String c s' => if ends_authority c then (EmptyString, s) else let '(a, t) := span_authority s' in (String c a, t)
  end.
(** What follows the last such character, or all of it. *)
Fixpoint after_last (c : ascii) (s : string) : string :=
  match s with
  | EmptyString => EmptyString
  | String d s' => if contains_char c s' then after_last c s' else if bool_decide (c = d) then s' else s
  end.

Fixpoint strip_loop (fuel : nat) (rest : string) : string :=
  match fuel with
  | O => rest
  | S fuel =>
      match cut_at "://" rest with
      | Some (head, tail) =>
          let '(authority, rest) := span_authority tail in
          head +:+ "://" +:+ after_last "@" authority +:+ strip_loop fuel rest
      | None => rest
      end
  end.
Definition without_credentials (url : string) : string := strip_loop (S (String.length url)) url.

Record FleetConfig := { fc_bucket_url : string; fc_advertise : string; fc_timing : Timing }.

(** [Fleet::new]: the fleet's state and the bucket's name as operators see it. *)
Definition fleet_new {St} (build : StoreConfig -> res StoreError St) (config : FleetConfig) : res FleetError (Fleet St * string) :=
  let? _ := validate (fc_timing config) in
  let? store := from_url build (fc_bucket_url config) in
  Ok (mkFleet store ∅ ∅ None, without_credentials (fc_bucket_url config)).

(** * Cutting texts *)

Lemma cut_at_inv pat s a b : cut_at pat s = Some (a, b) -> s = a +:+ pat +:+ b.
Proof.
  revert a b. induction s as [|c s IH]; intros a b; cbn [cut_at];
    (destruct (Operations.strip_prefix pat _) as [rest|] eqn:E; [intros [= <- <-]; by apply strip_prefix_inv in E|]); [done|].
  destruct (cut_at pat s) as [[a' b']|]; [|done]. cbn. intros [= <- <-].
  change (String c a' +:+ pat +:+ b') with (String c (a' +:+ pat +:+ b')). by rewrite <- (IH _ _ eq_refl).
Qed.
Lemma span_authority_eq s a t : span_authority s = (a, t) -> s = a +:+ t.
Proof.
  revert a t. induction s as [|c s IH]; intros a t; cbn [span_authority]; [by intros [= <- <-]|].
  destruct (ends_authority c); [by intros [= <- <-]|]. destruct (span_authority s) as [a' t']. intros [= <- <-].
  change (String c a' +:+ t') with (String c (a' +:+ t')). by rewrite <- (IH _ _ eq_refl).
Qed.

(** The fuel is enough: a round takes the separator off what is left. *)
Lemma strip_loop_fuel n m s : (String.length s < n)%nat -> (String.length s < m)%nat -> strip_loop n s = strip_loop m s.
Proof.
  revert m s. induction n as [|n IH]; intros m s Hn Hm; [lia|]. destruct m as [|m]; [lia|]. cbn [strip_loop].
  destruct (cut_at "://" s) as [[head tail]|] eqn:E; [|done]. destruct (span_authority tail) as [au rest] eqn:Es.
  apply cut_at_inv in E. apply span_authority_eq in Es. subst. rewrite !length_append in Hn, Hm. cbn in Hn, Hm.
  by rewrite (IH m) by lia.
Qed.
Lemma without_credentials_eq s :
  without_credentials s = match cut_at "://" s with
                          | Some (head, tail) => head +:+ "://" +:+ after_last "@" (fst (span_authority tail)) +:+
                                                 without_credentials (snd (span_authority tail))
                          | None => s
                          end.
Proof.
  unfold without_credentials at 1. cbn [strip_loop]. destruct (cut_at "://" s) as [[head tail]|] eqn:E; [|done].
  destruct (span_authority tail) as [au rest] eqn:Es. cbn [fst snd].
  apply cut_at_inv in E. apply span_authority_eq in Es. unfold without_credentials.
  rewrite (strip_loop_fuel (String.length s) (S (String.length rest))); [done|..]; subst; rewrite ?length_append; cbn; lia.
Qed.

(** * What the URL says *)

Lemma split_once_inv c s a b : split_once c s = Some (a, b) -> s = a +:+ String c b /\ contains_char c a = false.
Proof.
  revert a b. induction s as [|d s IH]; intros a b; cbn [split_once]; [done|].
  destruct (bool_decide (c = d)) eqn:E; [apply bool_decide_eq_true in E; subst; by intros [= <- <-]|].
  destruct (split_once c s) as [[a' b']|]; [|done]. cbn. intros [= <- <-]. destruct (IH _ _ eq_refl) as [-> Ha].
  split; [done|]. cbn [contains_char]. by rewrite E, Ha.
Qed.
Lemma contains_char_append c a b : contains_char c (a +:+ b) = contains_char c a || contains_char c b.
Proof.
  induction a as [|d a IH]; [done|]. change (String d a +:+ b) with (String d (a +:+ b)). cbn [contains_char].
  by rewrite IH, orb_assoc.
Qed.
Lemma no_slash_no_scheme s : contains_char "/" s = false -> contains_str "://" s = false.
Proof.
  intros Hs. unfold contains_str. destruct (cut_at "://" s) as [[a b]|] eqn:E; [|done]. apply cut_at_inv in E. subst.
  by rewrite !contains_char_append, orb_true_r in Hs.
Qed.
Lemma substring_prefix a b : String.substring 0 (String.length a) (a +:+ b) = a.
Proof.
  induction a as [|c a IH]; [by destruct b|]. change (String c a +:+ b) with (String c (a +:+ b)).
  cbn [String.length String.substring]. by rewrite IH.
Qed.
Lemma https_endpoint host bucket :
  let url := "https://" +:+ host +:+ "/" +:+ bucket in
  String.substring 0 (String.length url - String.length bucket - 1) url = "https://" +:+ host.
Proof.
  intros url. assert (url = ("https://" +:+ host) +:+ ("/" +:+ bucket)) as Eu.
  { unfold url. generalize (("/" +:+ bucket)). intros t. done. }
  replace (String.length url - String.length bucket - 1)%nat with (String.length ("https://" +:+ host))
    by (rewrite Eu, !length_append; cbn; lia).
  rewrite Eu. apply substring_prefix.
Qed.
Lemma split_once_none c s : split_once c s = None -> contains_char c s = false.
Proof.
  induction s as [|d s IH]; cbn [split_once contains_char]; [done|]. destruct (bool_decide (c = d)); [done|].
  by destruct (split_once c s) as [[]|]; [|intros _; apply IH].
Qed.
Lemma endpoint_url_plain e : starts_with_str "http://" (endpoint_url e) = true -> exists x, e = "http://" +:+ x /\ endpoint_url e = e.
Proof.
  unfold endpoint_url. destruct (contains_str "://" e); [|done]. unfold starts_with_str.
  destruct (Operations.strip_prefix "http://" e) as [x|] eqn:E; [|done]. intros _. exists x. by apply strip_prefix_inv in E.
Qed.

(** Plain HTTP to the bucket is allowed only by a URL that spells it out, as the endpoint of
    its query; no other form of URL leads to it. Whatever the URL, conditional writes are
    asked for. *)
Theorem plaintext_is_spelled_out url c :
  store_config url = Ok c ->
  sc_conditional_put c = true /\
  (sc_allow_http c = true ->
   exists query e,
     url = "s3://" +:+ sc_bucket c +:+ "?" +:+ query /\ contains_char "/" (sc_bucket c) = false /\
     find_map (Operations.strip_prefix "endpoint=") (split_char "&" query) = Some ("http://" +:+ e) /\
     sc_endpoint c = Some ("http://" +:+ e)).
Proof.
  unfold store_config. destruct (parse url) as [parts|] eqn:Ep; [|done]. intros [= <-]. split; [done|]. simpl.
  unfold parse in Ep. destruct (Operations.strip_prefix "https://" url) as [rest|] eqn:E.
  { apply strip_prefix_inv in E. destruct (split_once "/" rest) as [[host bucket]|] eqn:Es; [|done]. cbn in Ep.
    apply split_once_inv in Es as [-> _]. destruct (negb _ && negb _); [|done]. injection Ep as <-. simpl.
    subst url. change (String "/" bucket) with ("/" +:+ bucket). rewrite https_endpoint. unfold endpoint_url. by destruct (contains_str _ _). }
  destruct (Operations.strip_prefix "s3://" url) as [rest|] eqn:E3; [|done]. cbn in Ep. apply strip_prefix_inv in E3.
  destruct (match split_once "?" rest with Some p => _ | None => _ end) as [head query] eqn:Eq.
  destruct (is_empty head); [done|]. destruct (split_once "/" head) as [[host bucket]|] eqn:Es.
  { apply split_once_inv in Es as [_ Hh]. destruct (is_empty _); [done|]. injection Ep as <-. simpl.
    unfold endpoint_url. by rewrite no_slash_no_scheme. }
  injection Ep as <-. simpl. destruct query as [q|]; [|done]. cbn.
  destruct (split_once "?" rest) as [[h q']|] eqn:Er; [|done]. injection Eq as -> ->. apply split_once_inv in Er as [-> _].
  destruct (find_map _ _) as [e|] eqn:Ef; [|done]. cbn. destruct (negb (is_empty e)); [|done]. simpl.
  intros (x & -> & He)%endpoint_url_plain. rewrite He. exists q, x. split_and!; [done|by apply split_once_none|done|done].
Qed.

(** Two URLs that name no usable bucket and are taken nevertheless. *)
Lemma empty_bucket_is_understood : parse "https://h//" = Some {| bucket_name := empty_str; endpoint := Some "https://h" |}.
Proof. reflexivity. Qed.
Lemma empty_host_is_understood : option_map sc_endpoint (res_ok (store_config "s3:///b")) = Some (Some "https://").
Proof. reflexivity. Qed.

(** * What operators see of it *)

(** A URL by its authorities: the text before each, its user information and its host. *)
Record Authority := mkAuthority { before : string; userinfo : option string; host : string }.
Definition user_text (u : option string) : string := match u with Some u => u +:+ "@" | None => empty_str end.
Fixpoint url_of (l : list Authority) (tail : string) : string :=
  match l with
  | [] => tail
  | a :: l => before a +:+ "://" +:+ user_text (userinfo a) +:+ host a +:+ url_of l tail
  end.
Definition anonymous (a : Authority) : Authority := mkAuthority (before a) None (host a).

Definition ended (s : string) : Prop := s = empty_str \/ exists c t, s = String c t /\ ends_authority c = true.
Definition inside (s : string) : Prop := any_char ends_authority s = false.
(** No text before an authority has a separator of its own, a host ends where the next text
    begins, and has no user information. *)
Fixpoint well_cut (l : list Authority) (tail : string) : Prop :=
  match l with
  | [] => contains_str "://" tail = false
  | a :: l => contains_str "://" (before a) = false /\ inside (user_text (userinfo a)) /\ inside (host a) /\
              contains_char "@" (host a) = false /\
              ended (url_of l tail) /\ well_cut l tail
  end.

Lemma cut_at_first a b : contains_str "://" a = false -> cut_at "://" (a +:+ "://" +:+ b) = Some (a, b).
Proof.
  induction a as [|c a IH]; [done|]. unfold contains_str. rewrite append_cons. cbn [cut_at].
  destruct (Operations.strip_prefix "://" (String c a)) as [r|] eqn:E; [done|].
  assert (Operations.strip_prefix "://" (String c (a +:+ "://" +:+ b)) = None) as ->.
  { cbn [Operations.strip_prefix] in E |- *. case_decide; [|done]. destruct a as [|d a]; [done|]. rewrite append_cons.
    cbn [Operations.strip_prefix] in E |- *. case_decide; [|done]. destruct a as [|f a]; [done|]. rewrite append_cons.
    cbn [Operations.strip_prefix] in E |- *. by case_decide. }
  destruct (cut_at "://" a) as [[]|] eqn:Ea; [done|]. intros _. rewrite IH; [done|]. unfold contains_str. by rewrite Ea.
Qed.
Lemma span_authority_inside a t : inside a -> ended t -> span_authority (a +:+ t) = (a, t).
Proof.
  unfold inside. intros Ha Ht. induction a as [|c a IH].
  - destruct Ht as [->|(c & t' & -> & Hc)]; [done|]. change (span_authority (String c t') = (EmptyString, String c t')). cbn [span_authority]. by rewrite Hc.
  - cbn [any_char] in Ha. apply orb_false_iff in Ha as [Hc Ha]. rewrite append_cons. cbn [span_authority].
    by rewrite Hc, IH.
Qed.
Lemma any_char_append p a b : any_char p (a +:+ b) = any_char p a || any_char p b.
Proof. induction a as [|c a IH]; [done|]. rewrite append_cons. cbn [any_char]. by rewrite IH, orb_assoc. Qed.
Lemma after_last_none c s : contains_char c s = false -> after_last c s = s.
Proof.
  destruct s as [|d s]; [done|]. cbn [contains_char after_last]. intros [Hd ->]%orb_false_iff. by rewrite Hd.
Qed.
Lemma after_last_app c u s : contains_char c s = false -> after_last c (u +:+ String c s) = s.
Proof.
  intros Hs. induction u as [|d u IH].
  - change (after_last c (String c s) = s). cbn [after_last]. by rewrite Hs, bool_decide_true.
  - rewrite append_cons. cbn [after_last]. rewrite contains_char_append. cbn [contains_char].
    by rewrite bool_decide_true, orb_true_r.
Qed.
Lemma after_user u h : contains_char "@" h = false -> after_last "@" (user_text u +:+ h) = h.
Proof.
  destruct u as [u|]; [|apply after_last_none]. intros Hh. cbn [user_text]. rewrite append_assoc. by apply after_last_app.
Qed.

(** Of a URL whose authorities are set apart, the operator is shown every part but the user
    information of each authority, wherever in the URL the authority is. *)
Theorem credentials_are_removed (l : list Authority) (tail : string) :
  well_cut l tail -> without_credentials (url_of l tail) = url_of (anonymous <$> l) tail.
Proof.
  induction l as [|a l IH]; intros Hw.
  - cbn in Hw. rewrite without_credentials_eq. cbn [url_of]. unfold contains_str in Hw. by destruct (cut_at _ _).
  - destruct Hw as (Hb & Hu & Hh & Hat & He & Hw). rewrite without_credentials_eq. cbn [url_of fmap list_fmap].
    rewrite cut_at_first by done. rewrite <- (append_assoc (user_text (userinfo a)) (host a)), span_authority_inside; [|unfold inside; by rewrite any_char_append, Hu, Hh|done].
    cbn [fst snd]. rewrite after_user by done. by rewrite IH.
Qed.

(** A second scheme right after the first hides the authority that follows it. *)
Lemma credentials_can_remain :
  without_credentials "s3://http://user:pass@h/b" = "s3://http://user:pass@h/b" /\
  exists c, store_config "s3://http://user:pass@h/b" = Ok c.
Proof. split; [reflexivity|]. eexists. reflexivity. Qed.

(** * Writing desired records *)

(** The unconditional write of the bucket and the JSON of a record. *)
Class DesiredWriter (St Body : Type) := {
  os_overwrite : St -> string -> Body -> St * res StoreError unit;
  desired_to_vec : Desired -> res string Body }.

Definition fleet_error_text (store_error_text : StoreError -> string) (corrupt_text : string -> string) (e : FleetError) : string :=
  match e with
  | Backend e => "coordination backend unavailable: " +:+ store_error_text e
  | Corrupt key => key +:+ " is present but unreadable: " +:+ corrupt_text key
  | Encode m => "could not encode a fleet record: " +:+ m
  | Lease.Config m => "fleet configuration is unusable: " +:+ m
  end.

Definition ENV_BUCKET : string := "BARISTA_FLEET_BUCKET".

Inductive FleetCommand : Type :=
| Apply (name image digest : string) (vcpu mem_mib ttl_seconds : Z) (on_owner_loss : string) (command : list string)
| Ls
| Resolve (name : string).

Definition apply_spec (ulid image digest : string) (vcpu mem_mib ttl_seconds : Z) (command : list string) : InstanceSpec :=
  mkInstanceSpec ulid
    (Some {| oci := Some {| Proto.image := image; Proto.digest := digest |}; runtime_bundle_ref := empty_str;
             template_hash_field := empty_str; arch := empty_str |})
    (Some {| Proto.vcpu := vcpu; Proto.mem_mib := mem_mib; disk_mib := 0 |})
    (Some {| start_cmd := command; ready_cmd := []; Proto.env := ∅; workdir := empty_str |})
    None ttl_seconds 0 ∅ None None.
Definition policy_of (on_owner_loss : string) : OnOwnerLoss := if bool_decide (on_owner_loss = "hold") then Hold else Coldboot.

(** [{:<w}]: padding to a number of characters. *)
Fixpoint chars_in (s : string) : nat :=
  match s with
  | EmptyString => O
  | String c s' => let n := Ascii.nat_of_ascii c in
                   if ((128 <=? n) && (n <=? 191))%nat then chars_in s' else S (chars_in s')
  end.
Fixpoint spaces (n : nat) : string := match n with O => EmptyString | S n => String " " (spaces n) end.
Definition padded (w : nat) (s : string) : string := s +:+ spaces (w - chars_in s).
Definition columns (a b c d : string) : string := padded 28 a +:+ " " +:+ padded 24 b +:+ " " +:+ padded 7 c +:+ " " +:+ d.
Definition row_line (row : string * option Lease) : string :=
  match snd row with
  | Some l => columns (fst row) (owner l) (pretty (epoch l)) (if is_empty (Lease.endpoint l) then "-" else Lease.endpoint l)
  | None => columns (fst row) "(unowned)" "-" "-"
  end.

Section Verbs.
Context {St Body : Type} {OS : Lease.ObjectStore St Body} {LC : LeaseCodec Body} {DS : DesiredStore St Body} {DW : DesiredWriter St Body}.
Context (encode_spec : InstanceSpec -> list Z).
(** The environment; whether a client can be built; the texts of the libraries' errors. *)
Context (var : string -> option string) (build : StoreConfig -> res StoreError unit).
Context (store_error_text : StoreError -> string) (corrupt_text : string -> string).
#[local] Abbreviation text_of_error := (fleet_error_text store_error_text corrupt_text).

Definition desired_new (name : string) (spec : InstanceSpec) : Desired :=
  {| schema_version := DESIRED_SCHEMA_VERSION; desired_name := name; desired_spec := encode_spec spec; on_owner_loss := Coldboot |}.

(** [Fleet::apply] *)
Definition apply (d : Desired) : Call St (res FleetError unit) :=
  let path := os_path ("desired/" +:+ desired_name d) in
  match desired_to_vec d with
  | Err e => pass_back (Err (Encode e))
  | Ok body => let@? _ := (fun st => os_overwrite st path body) or Backend in pass_back (Ok tt)
  end.

Definition open_store : res string unit :=
  match var ENV_BUCKET with
  | None => Err (ENV_BUCKET +:+ " is not set. A fleet verb reads and writes the coordination bucket directly — there is no " +:+
                 "control plane to ask — so it needs to know which bucket. Example: " +:+ ENV_BUCKET +:+
                 "=s3://barista?endpoint=http://127.0.0.1:9000")
  | Some url => match from_url build url with Ok _ => Ok tt | Err e => Err (text_of_error e) end
  end.

(** The names under [desired/] with the lease of each. *)
Fixpoint listed_rows (st : St) (l : list (res StoreError string)) : res string (list (string * option Lease)) :=
  match l with
  | [] => Ok []
  | Err e :: _ => Err (store_error_text e)
  | Ok location :: l =>
      let name := default empty_str (os_filename location) in
      match resolve st name with
      | Err e => Err (text_of_error e)
      | Ok lease => let? rows := listed_rows st l in Ok ((name, lease) :: rows)
      end
  end.

(** A verb's lines and exit code. *)
Definition fleet_run (what : FleetCommand) (ulid : string) : Call St (res string (list string * Z)) :=
  match what with
  | Apply name image digest vcpu mem_mib ttl_seconds loss command =>
      let d := desired_new name (apply_spec ulid image digest vcpu mem_mib ttl_seconds command) in
      let d := {| schema_version := schema_version d; desired_name := desired_name d; desired_spec := desired_spec d;
                  on_owner_loss := policy_of loss |} in
      let@? _ := pass_back open_store or id in
      let path := os_path ("desired/" +:+ name) in
      let@? body := pass_back (desired_to_vec d) or id in
      let@? _ := (fun st => os_overwrite st path body) or store_error_text in
      pass_back (Ok (["applied " +:+ name; "  a node will pick it up on its next fleet pass; nothing here chose one"], 0))
  | Ls =>
      let@? _ := pass_back open_store or id in
      let@? rows := (fun st => (st, listed_rows st (os_list st "desired"))) or id in
      pass_back (Ok (match rows with
                     | [] => ["no sessions desired"]
                     | _ => columns "NAME" "OWNER" "EPOCH" "ENDPOINT" :: (row_line <$> rows)
                     end, 0))
  | Resolve name =>
      let@? _ := pass_back open_store or id in
      let@? lease := (fun st => (st, resolve st name)) or text_of_error in
      pass_back (Ok match lease with
                    | Some l => ((name +:+ " is owned by " +:+ owner l +:+ " at epoch " +:+ pretty (epoch l))
                                 :: (if is_empty (Lease.endpoint l) then [] else ["  reach it at " +:+ Lease.endpoint l]), 0)
                    | None => ([name +:+ " is not owned by any node"], 1)
                    end)
  end.
End Verbs.

(** * A session applied is a session desired *)

(** A name that is one segment of a path and needs no escape. *)
Definition plain_char (c : ascii) : bool :=
  let n := Ascii.nat_of_ascii c in
  ((48 <=? n) && (n <=? 57) || (65 <=? n) && (n <=? 90) || (97 <=? n) && (n <=? 122) || (n =? 45) || (n =? 95))%nat.
Definition plain_name (name : string) : Prop := name <> empty_str /\ any_char (fun c => negb (plain_char c)) name = false.
Definition below (prefix k : string) : Prop := exists n, n <> empty_str /\ k = prefix +:+ "/" +:+ n.

(** What the verbs rely on: a read answers with what is stored, a write that is answered
    stored its bytes, one that is not may have, and no write touches another key; a listing
    that is not cut short has exactly the keys below its prefix; a plain name is a path's last segment
    as it stands; a record's JSON is read back. *)
Class DesiredLaws (St Body : Type) {OS : Lease.ObjectStore St Body} {DS : DesiredStore St Body} {DW : DesiredWriter St Body} := {
  stored : St -> string -> option Body;
  stored_get st k b t v : os_get st k = Ok (b, t, v) -> stored st k = Some b;
  stored_ok st k b st' : os_overwrite st k b = (st', Ok tt) -> stored st' k = Some b;
  stored_err st k b st' e : os_overwrite st k b = (st', Err e) -> stored st' k = stored st k \/ stored st' k = Some b;
  stored_other st k b st' r k' : os_overwrite st k b = (st', r) -> k' <> k -> stored st' k' = stored st k';
  listing_exact st l : os_list st "desired" = Ok <$> l -> forall k, k ∈ l <-> below "desired" k /\ is_Some (stored st k);
  path_plain n : plain_name n -> os_path ("desired/" +:+ n) = "desired/" +:+ n;
  filename_plain n : plain_name n -> os_filename ("desired/" +:+ n) = Some n;
  desired_read_back d b : desired_to_vec d = Ok b -> desired_from_slice b = Ok d }.

Section Applied.
Context {St Body : Type} {OS : Lease.ObjectStore St Body} {LC : LeaseCodec Body} {DS : DesiredStore St Body} {DW : DesiredWriter St Body}.
Context {DL : DesiredLaws St Body}.

(** The names and records of a listing, by what is stored. *)
Definition names_key (st : St) (name : string) : Prop :=
  exists k, below "desired" k /\ is_Some (stored st k) /\ os_filename k = Some name.
Definition records_key (st : St) (d : Desired) : Prop :=
  exists k b, below "desired" k /\ stored st k = Some b /\ desired_from_slice b = Ok d.

Lemma desired_entries_spec st l out set :
  desired_entries st l out = Ok set ->
  exists ks, l = Ok <$> ks /\
    (forall n, n ∈ ds_names set <-> n ∈ ds_names out \/ exists k, k ∈ ks /\ os_filename k = Some n) /\
    (forall d, d ∈ ds_records set <-> d ∈ ds_records out \/ exists k b, k ∈ ks /\ stored st k = Some b /\ desired_from_slice b = Ok d).
Proof.
  revert out. induction l as [|[k|e] l IH]; intros out; cbn [desired_entries]; [|..|done].
  - intros [= <-]. exists []. setoid_rewrite elem_of_nil. naive_solver.
  - destruct (os_get st k) as [[[b t] v]|e] eqn:Eg; [|done]. apply stored_get in Eg.
    intros (ks & -> & Hn & Hr)%IH. exists (k :: ks). split; [done|]. setoid_rewrite elem_of_cons. split.
    + intros n. rewrite Hn. destruct (desired_from_slice b); destruct (os_filename k) eqn:Ef; cbn [ds_names];
        rewrite ?elem_of_union, ?elem_of_singleton; naive_solver.
    + intros d. rewrite Hr. destruct (desired_from_slice b) as [d'|] eqn:Ed; destruct (os_filename k) eqn:Ef; cbn [ds_records];
        rewrite ?elem_of_app, ?list_elem_of_singleton; naive_solver congruence.
Qed.

Lemma below_name name : name <> empty_str -> below "desired" ("desired/" +:+ name).
Proof. intros Hn. by exists name. Qed.

Lemma desired_by_key st set :
  desired st = Ok set ->
  (forall n, n ∈ ds_names set <-> names_key st n) /\ (forall d, d ∈ ds_records set <-> records_key st d).
Proof.
  unfold desired. intros (ks & El & Hn & Hr)%desired_entries_spec. pose proof (listing_exact _ _ El) as Hl.
  unfold names_key, records_key. cbn [ds_names ds_records] in Hn, Hr. split.
  - intros n. rewrite Hn. setoid_rewrite Hl. split; [intros [[]%not_elem_of_empty|H]|right]; naive_solver.
  - intros d. rewrite Hr. setoid_rewrite Hl. split; [intros [[]%not_elem_of_nil|H]|right]; naive_solver.
Qed.

Lemma names_key_after st st' key name body n :
  below "desired" key -> os_filename key = Some name -> stored st' key = Some body ->
  (forall k, k <> key -> stored st' k = stored st k) ->
  names_key st' n <-> n = name \/ names_key st n.
Proof.
  intros Hb Hf Hs Ho. split.
  - intros (k & Hk & Hst & Hfk). destruct (decide (k = key)) as [->|Hne]; [left; congruence|].
    rewrite Ho in Hst by done. right. by exists k.
  - intros [->|(k & Hk & Hst & Hfk)]; [by exists key; rewrite Hs|]. exists k. split_and!; [done| |done].
    destruct (decide (k = key)) as [->|Hne]; [by rewrite Hs|by rewrite Ho].
Qed.

Lemma listed_rows_in {store_error_text corrupt_text} st l rows k name :
  listed_rows store_error_text corrupt_text st l = Ok rows -> Ok k ∈ l -> os_filename k = Some name ->
  exists lease, resolve st name = Ok lease /\ (name, lease) ∈ rows.
Proof.
  revert rows. induction l as [|[k'|e] l IH]; intros rows; cbn [listed_rows]; [by intros _ []%not_elem_of_nil|..|done].
  destruct (resolve st (default empty_str (os_filename k'))) as [lease|] eqn:Er; [|done].
  destruct (listed_rows _ _ _ l) as [rows'|]; [|done]. cbn. intros [= <-] [[= ->]|Hk]%elem_of_cons Hf.
  - rewrite Hf in Er |- *. exists lease. split; [done|]. left.
  - destruct (IH _ eq_refl Hk Hf) as (lease' & ? & ?). exists lease'. split; [done|]. by right.
Qed.
Lemma listed_rows_ok {store_error_text corrupt_text} st l rows :
  listed_rows store_error_text corrupt_text st l = Ok rows -> exists ks, l = Ok <$> ks.
Proof.
  revert rows. induction l as [|[k|e] l IH]; intros rows; cbn [listed_rows]; [by exists []|..|done].
  destruct (resolve _ _); [|done]. destruct (listed_rows _ _ _ l) as [rows'|]; [|done].
  destruct (IH _ eq_refl) as [ks ->]. by exists (k :: ks).
Qed.

Section Session.
Context (encode_spec : InstanceSpec -> list Z) (decode_spec : list Z -> res string InstanceSpec).
Context (Hspec : forall spec, decode_spec (encode_spec spec) = Ok spec).
Context (var : string -> option string) (build : StoreConfig -> res StoreError unit).
Context (store_error_text : StoreError -> string) (corrupt_text : string -> string).
#[local] Abbreviation fleet_run := (fleet_run encode_spec var build store_error_text corrupt_text).

Definition applied (name loss : string) (spec : InstanceSpec) : Desired :=
  {| schema_version := DESIRED_SCHEMA_VERSION; desired_name := name; desired_spec := encode_spec spec; on_owner_loss := policy_of loss |}.

Lemma apply_writes name image digest vcpu mem_mib ttl loss command ulid st st' r :
  fleet_run (Apply name image digest vcpu mem_mib ttl loss command) ulid st = (st', r) ->
  (st' = st /\ exists e, r = Err e) \/
  exists body w, desired_to_vec (applied name loss (apply_spec ulid image digest vcpu mem_mib ttl command)) = Ok body /\
    os_overwrite st (os_path ("desired/" +:+ name)) body = (st', w) /\
    (w = Ok tt <-> exists lines, r = Ok (lines, 0)) /\ ((exists e, w = Err e) <-> exists e, r = Err e).
Proof.
  cbn [Bucket.fleet_run]. unfold try_, then_, pass_back. destruct (open_store _ _ _ _) as [u|e]; [|intros [= <- <-]; by eauto].
  cbv zeta. cbn [desired_new schema_version desired_name desired_spec].
  change {| schema_version := _; on_owner_loss := _ |} with (applied name loss (apply_spec ulid image digest vcpu mem_mib ttl command)).
  destruct (desired_to_vec _) as [body|e]; [|intros [= <- <-]; by eauto].
  destruct (os_overwrite st _ body) as [st1 [[]|e]] eqn:Ew; intros [= <- <-]; right; exists body; eexists;
    (split; [done|]; split; [exact Ew|]); naive_solver.
Qed.

(** C25: for a name of letters, digits, dashes and underscores, [barista fleet apply] writes the one
    record of its session and nothing else. Once it reports success, every node that can
    list the desired sessions finds the session among them, every other that was there, and
    a record whose spec is the one asked for, with the policy asked for; and [barista fleet
    ls] shows it with the lease it is held under. A failed one leaves the record it was or
    the one asked for. (A name with a slash is accepted and not found again:
    [slashed_name_is_not_desired].) *)
Theorem applied_sessions_are_desired name image digest vcpu mem_mib ttl loss command ulid st st' r :
  plain_name name ->
  fleet_run (Apply name image digest vcpu mem_mib ttl loss command) ulid st = (st', r) ->
  let key := "desired/" +:+ name in
  let spec := apply_spec ulid image digest vcpu mem_mib ttl command in
  (forall k, k <> key -> stored st' k = stored st k) /\
  (forall e, r = Err e -> stored st' key = stored st key \/
     exists body, stored st' key = Some body /\ desired_from_slice body = Ok (applied name loss spec)) /\
  (forall lines code, r = Ok (lines, code) ->
   (forall want, desired st' = Ok want ->
     (forall n, n ∈ ds_names want <-> n = name \/ names_key st n) /\
     (exists d, d ∈ ds_records want /\ desired_name d = name /\ on_owner_loss d = policy_of loss /\ spec_of decode_spec d = Ok spec) /\
     (forall k body d, below "desired" k -> k <> key -> stored st k = Some body -> desired_from_slice body = Ok d -> d ∈ ds_records want)) /\
   (forall any lines' code', snd (fleet_run Ls any st') = Ok (lines', code') ->
     exists lease, resolve st' name = Ok lease /\ row_line (name, lease) ∈ lines')).
Proof.
  intros Hname Hrun key spec. pose proof Hname as [Hne _].
  assert (below "desired" key) as Hb by by apply below_name.
  pose proof (filename_plain _ Hname : os_filename key = Some name) as Hf.
  apply apply_writes in Hrun as [[-> [e ->]]|(body & w & Hv & Hw & Hok & Herr)]; [split_and!; by eauto|].
  rewrite path_plain in Hw by done. fold key in Hw. apply desired_read_back in Hv.
  pose proof (fun k => stored_other _ _ _ _ _ k Hw) as Ho. split_and!; [done|..].
  { intros e ->. destruct w as [[]|e']; [by destruct (proj1 Hok eq_refl)|]. destruct (stored_err _ _ _ _ _ Hw) as [?|?]; eauto. }
  intros lines code ->. assert (w = Ok tt) as ->. { destruct w as [[]|e']; [done|]. by destruct (proj1 Herr (ex_intro _ _ eq_refl)). }
  pose proof (stored_ok _ _ _ _ Hw) as Hs. split.
  - intros want [Hn Hr]%desired_by_key. split_and!.
    + intros n. rewrite Hn. by apply (names_key_after st st' key name body).
    + exists (applied name loss spec). split_and!; [|done..|].
      * apply Hr. by exists key, body.
      * unfold spec_of. cbn. by rewrite Hspec.
    + intros k b d Hk Hne' Hst Hd. apply Hr. exists k, b. by rewrite Ho.
  - intros any lines' code'. cbn [Bucket.fleet_run]. unfold try_, then_, pass_back. destruct (open_store _ _ _ _); [|done].
    destruct (listed_rows _ _ st' _) as [rows|] eqn:El; [|done]. cbn. intros [= <- _].
    destruct (listed_rows_ok _ _ _ El) as [ks Eks]. destruct (listed_rows_in _ _ _ key name El) as (lease & Hl & Hrow); [|done|].
    { rewrite Eks. apply list_elem_of_fmap_2. apply (listing_exact _ _ Eks). by rewrite Hs. }
    exists lease. split; [done|]. destruct rows; [by apply not_elem_of_nil in Hrow|]. right. by apply list_elem_of_fmap_2.
Qed.
End Session.
End Applied.

(** * A concrete bucket *)

Definition Doc : Type := Lease + Desired.
#[local] Instance doc_codec : LeaseCodec Doc :=
  {| to_vec := fun l => Ok (inl l); from_slice := fun b => match b with inl l => Ok l | inr _ => Err "not a lease" end |}.
Definition listed (k : string) : bool := match Operations.strip_prefix "desired/" k with Some n => negb (is_empty n) | None => false end.
#[local] Instance doc_desired : DesiredStore (LogStore Doc) Doc :=
  {| os_list := fun st _ => Ok <$> List.filter listed (fst <$> st);
     os_filename := fun k => Some (after_last "/" k);
     desired_from_slice := fun b => match b with inr d => Ok d | inl _ => Err "not a desired record" end |}.
#[local] Instance doc_writer : DesiredWriter (LogStore Doc) Doc :=
  {| os_overwrite := fun st k b => ((k, b) :: st, Ok tt); desired_to_vec := fun d => Ok (inr d) |}.

Lemma listed_below k : listed k = true <-> below "desired" k.
Proof.
  unfold listed, below. destruct (Operations.strip_prefix "desired/" k) as [n|] eqn:E.
  - apply strip_prefix_inv in E as ->. rewrite negb_true_iff, is_empty_false. split; [by exists n|].
    intros (m & Hm & E). change ("desired/" +:+ n = "desired/" +:+ m) in E. apply (f_equal (Operations.strip_prefix "desired/")) in E.
    rewrite !strip_prefix_app in E. by injection E as ->.
  - split; [done|]. intros (n & _ & ->). change (Operations.strip_prefix "desired/" ("desired/" +:+ n) = None) in E.
    by rewrite strip_prefix_app in E.
Qed.
Lemma log_contents_key (st : LogStore Doc) k : is_Some (log_contents st k) <-> k ∈ fst <$> st.
Proof.
  induction st as [|[k' b] st IH]; cbn [log_contents fmap list_fmap]; [rewrite elem_of_nil, is_Some_alt; done|].
  rewrite elem_of_cons, <- IH. case_decide as E; cbn [fst]; split; intros H; [by left|by eauto|by right|].
  by destruct H as [->|H].
Qed.
Lemma plain_no_slash n : plain_name n -> contains_char "/" n = false.
Proof.
  intros [_ H]. induction n as [|c n IH]; [done|]. cbn [any_char contains_char] in *. apply orb_false_iff in H as [Hc H].
  rewrite (IH H), orb_false_r. apply bool_decide_eq_false. by intros <-.
Qed.

#[local] Program Instance doc_laws : DesiredLaws (LogStore Doc) Doc := {| stored := fun st k => fst <$> log_contents st k |}.
Next Obligation. cbn. unfold log_get. intros st k b t v. destruct (log_contents st k) as [[]|]; by intros [= <- _ _]. Qed.
Next Obligation. cbn. intros st k b st' [= <-]. cbn. by rewrite decide_True. Qed.
Next Obligation. done. Qed.
Next Obligation. cbn. intros st k b st' r k' [= <- _] Hk. cbn. by rewrite decide_False. Qed.
Next Obligation.
  cbn. intros st l El k. apply list_fmap_eq_inj in El; [|by intros ?? [= ->]]. subst l. rewrite list_elem_of_In, filter_In, <- list_elem_of_In, listed_below, fmap_is_Some,
    log_contents_key. tauto.
Qed.
Next Obligation. done. Qed.
Next Obligation. cbn. intros n Hn%plain_no_slash. f_equal. change ("desired/" +:+ n) with ("desired" +:+ String "/" n). by apply after_last_app. Qed.
Next Obligation. cbn. by intros d b [= <-]. Qed.

Definition template_parts (t : TemplateRef) := ((fun o => (image o, digest o)) <$> oci t, runtime_bundle_ref t, template_hash_field t, arch t).
Definition template_of (t : option (string * string) * string * string * string) : TemplateRef :=
  let '(o, r, h, a) := t in
  {| oci := (fun p => {| image := p.1; digest := p.2 |}) <$> o; runtime_bundle_ref := r; template_hash_field := h; arch := a |}.
Definition resources_parts (r : Resources) := (vcpu r, mem_mib r, disk_mib r).
Definition resources_of (t : Z * Z * Z) : Resources := let '(v, m, d) := t in {| vcpu := v; mem_mib := m; disk_mib := d |}.
Definition egress_parts (e : EgressPolicy) := (mediated e, egress_mode e).
Definition egress_of (t : bool * Z) : EgressPolicy := {| mediated := t.1; egress_mode := t.2 |}.
Definition spec_parts (s : InstanceSpec) :=
  (Proto.instance_id s, template_parts <$> template s, resources_parts <$> resources s, process_parts <$> process s,
   hooks_parts <$> hooks s, (ttl_seconds s, ttl_action s, labels s, egress_parts <$> egress s, idle_action s)).
Definition spec_of_parts t : InstanceSpec :=
  let '(i, t, r, p, h, (ts, ta, l, e, ia)) := t in
  mkInstanceSpec i (template_of <$> t) (resources_of <$> r) (process_of <$> p) (hooks_of <$> h) ts ta l (egress_of <$> e) ia.
Lemma fmap_back {A B} (into : A -> B) back (o : option A) : (forall a, back (into a) = a) -> back <$> (into <$> o) = o.
Proof. intros H. destruct o; [|done]. cbn. by rewrite H. Qed.
Lemma spec_parts_back s : spec_of_parts (spec_parts s) = s.
Proof.
  destruct s as [i t r p h ts ta l e ia]. unfold spec_parts, spec_of_parts. cbn. f_equal; apply fmap_back.
  - intros [o ???]. unfold template_of, template_parts. cbn. f_equal. apply fmap_back. by intros [].
  - by intros [].
  - apply process_parts_back.
  - apply hooks_parts_back.
  - by intros [].
Qed.
Definition encode_spec (s : InstanceSpec) : list Z := bytes_of (toy_encode spec_parts s).
Definition decode_spec : list Z -> res string InstanceSpec := toy_decode spec_of_parts.
Lemma spec_read_back s : decode_spec (encode_spec s) = Ok s.
Proof.
  unfold decode_spec, encode_spec, toy_decode, toy_encode. rewrite text_of_bytes_of, text_pos_text. cbn [mbind option_bind].
  rewrite countable.decode_encode. exact (f_equal Ok (spec_parts_back s)).
Qed.

Definition bucket_var (name : string) : option string := if bool_decide (name = ENV_BUCKET) then Some "s3://b" else None.
Definition can_build (_ : StoreConfig) : res StoreError unit := Ok tt.
Definition any_store_error (_ : StoreError) : string := "down".
Definition any_corrupt (_ : string) : string := "bad".
Definition run_verb (what : FleetCommand) : LogStore Doc -> LogStore Doc * res string (list string * Z) :=
  fleet_run encode_spec bucket_var can_build any_store_error any_corrupt what "u".
Definition apply_web (name : string) : FleetCommand := Apply name "img" "sha256:0" 1 512 0 "hold" ["app"].
Definition one_session : LogStore Doc :=
  [("desired/old", inr (applied encode_spec "old" "coldboot" served_spec));
   ("sessions/web", inl (mkLease "n1" 3 99 "n1:1" "i1" None))].

Lemma web_is_applied : run_verb (apply_web "web") one_session =
  (fst (run_verb (apply_web "web") one_session), Ok (["applied web"; "  a node will pick it up on its next fleet pass; nothing here chose one"], 0)).
Proof. reflexivity. Qed.

Lemma applied_sessions_are_desired_witness :
  let st := fst (run_verb (apply_web "web") one_session) in
  exists want lines, desired st = Ok want /\ snd (run_verb Ls st) = Ok (lines, 0) /\
    "web" ∈ ds_names want /\ "old" ∈ ds_names want /\
    (exists d, d ∈ ds_records want /\ on_owner_loss d = Hold /\
       spec_of decode_spec d = Ok (apply_spec "u" "img" "sha256:0" 1 512 0 ["app"])) /\
    row_line ("web", Some (mkLease "n1" 3 99 "n1:1" "i1" None)) ∈ lines.
Proof.
  intros st. assert (plain_name "web") as Hn by by split.
  destruct (applied_sessions_are_desired encode_spec decode_spec spec_read_back bucket_var can_build any_store_error any_corrupt
              _ _ _ _ _ _ _ _ _ _ _ _ Hn web_is_applied) as (_ & _ & H).
  destruct (H _ _ eq_refl) as [Hd Hl]. do 2 eexists. split; [reflexivity|]. split; [reflexivity|].
  destruct (Hd _ eq_refl) as (Hnames & (d & Hd1 & _ & Hd2 & Hd3) & _). destruct (Hl "u" _ _ eq_refl) as (lease & Hres & Hrow).
  split_and!; [by apply Hnames; left| |by exists d|].
  - apply Hnames. right. exists "desired/old". split_and!; [by exists "old"|by eexists|done].
  - by injection Hres as <-.
Defined.

(** A name with a slash in it is read back under its last segment alone: the record is
    there, and the session it names is not among the desired ones. *)
Lemma slashed_name_is_not_desired :
  exists want d, desired (fst (run_verb (apply_web "a/b") [])) = Ok want /\ ds_names want = {["b"]} /\
    ds_records want = [d] /\ desired_name d = "a/b" /\
    release_intent (bool_decide (desired_name d ∈ ds_names want)) false (Some IS.Running) <> RKeep.
Proof. do 2 eexists. split; [reflexivity|]. split; [set_solver|]. split; [reflexivity|]. by vm_compute. Qed.
