(* ===== verification/Verbs.v ===== *)
(** The operator's other commands: the capsule verbs, the listings, the log and the event
    stream of src/crates/barista-cli (main.rs, render.rs), with the lines they print. JSON
    output is left out. *)

From S2P Require Import Prelude Text Proto Events Operations Codec Service Requests Wake Cli Commands Bucket.

(** * Names on the wire *)

Definition health_name (h : SubstrateHealth.t) : string :=
  match h with
  | SubstrateHealth.Unspecified => "SUBSTRATE_HEALTH_UNSPECIFIED"
  | SubstrateHealth.Healthy => "SUBSTRATE_HEALTH_HEALTHY"
  | SubstrateHealth.Unreachable => "SUBSTRATE_HEALTH_UNREACHABLE"
  end.
Definition event_name (e : EventType.t) : string :=
  match e with
  | EventType.Unspecified => "EVENT_TYPE_UNSPECIFIED"
  | EventType.StateChanged => "EVENT_TYPE_STATE_CHANGED"
  | EventType.OperationProgress => "EVENT_TYPE_OPERATION_PROGRESS"
  | EventType.ReadyChanged => "EVENT_TYPE_READY_CHANGED"
  | EventType.TtlWarning => "EVENT_TYPE_TTL_WARNING"
  | EventType.Degradation => "EVENT_TYPE_DEGRADATION"
  | EventType.Restored => "EVENT_TYPE_RESTORED"
  | EventType.WakeFired => "EVENT_TYPE_WAKE_FIRED"
  | EventType.Fenced => "EVENT_TYPE_FENCED"
  | EventType.IdleFired => "EVENT_TYPE_IDLE_FIRED"
  | EventType.LineageRecorded => "EVENT_TYPE_LINEAGE_RECORDED"
  | EventType.EpochRotated => "EVENT_TYPE_EPOCH_ROTATED"
  | EventType.CapsuleExported => "EVENT_TYPE_CAPSULE_EXPORTED"
  | EventType.CapsuleImported => "EVENT_TYPE_CAPSULE_IMPORTED"
  end.
Definition operation_state (z : Z) : OperationState.t :=
  default OperationState.Unspecified
    (snd <$> list_find (fun s => OperationState.to_i32 s = z)
       [OperationState.Queued; OperationState.Running; OperationState.Done; OperationState.Failed; OperationState.AwaitingInput; OperationState.Canceled]).

(** * Lines: render.rs *)

Definition or_dash (s : string) : string := if is_empty s then "-" else s.
(** [{:>w}] *)
Definition padded_left (w : nat) (s : string) : string := spaces (w - chars_in s) +:+ s.

Definition capability_labels (c : RuntimeCapabilities) : list (string * bool) :=
  [("memory-snapshot", memory_snapshot c); ("disk-snapshot", disk_snapshot c); ("live-checkpoint", live_checkpoint c);
   ("guest-agent", guest_agent c); ("hardware-isolation", hardware_isolation c); ("lazy-restore", lazy_restore c);
   ("cow-fork", cow_fork c); ("egress-control", egress_control c); ("full-copy-fork", full_copy_fork c);
   ("object-store-snapshots", object_store_snapshots c); ("capsule-export", capsule_export c);
   ("capsule-import", capsule_import c); ("safe-grant-rebind", safe_grant_rebind c)].
Definition abilities (c : RuntimeCapabilities) : list string := (filter (fun p => snd p = true) (capability_labels c)).*1.

Definition runtime_lines (r : RuntimeInfo) : list string :=
  [empty_str; "runtime    " +:+ ri_name r +:+ " " +:+ ri_version r;
   "substrate  " +:+ short (health_name (health_of (ri_health r))) +:+
     (if is_empty (ri_health_detail r) then empty_str else " — " +:+ ri_health_detail r)] ++
  match ri_capabilities r with
  | Some c => ["can        " +:+ match abilities c with [] => "nothing beyond the basics" | yes => String.concat ", " yes end]
  | None => []
  end.
Definition node_info_lines (info : NodeInfo) : list string :=
  ["node       " +:+ ni_node_id info; "arch       " +:+ ni_arch info; "cpu class  " +:+ ni_cpu_class info;
   "agent      " +:+ ni_agent_version info] ++ mjoin (runtime_lines <$> ni_runtimes info).

Definition instance_line (now : option Z) (i : Instance_) : string :=
  padded 28 (default "?" (instance_id <$> in_spec i)) +:+ " " +:+ padded 14 (state_cell i) +:+ " " +:+
  padded 7 (if in_ready i then "yes" else "no") +:+ " " +:+
  padded 8 (default "-" ((fun at_ => until (seconds at_) now) <$> in_wake_at i)) +:+ " " +:+
  padded 24 (egress_label (in_spec i ≫= egress)) +:+ " " +:+ or_dash (in_latest_snapshot_id i).
Definition instances_lines (now : option Z) (l : list Instance_) : list string :=
  match l with
  | [] => ["no instances"]
  | _ => (padded 28 "INSTANCE" +:+ " " +:+ padded 14 "STATE" +:+ " " +:+ padded 7 "READY" +:+ " " +:+ padded 8 "WAKE" +:+ " " +:+
          padded 24 "EGRESS" +:+ " SNAPSHOT") :: (instance_line now <$> l)
  end.

Definition snapshot_line (s : Snapshot) : string :=
  padded 28 (sn_snapshot_id s) +:+ " " +:+ padded 20 (or_dash (sn_name s)) +:+ " " +:+ padded 28 (sn_instance_id s) +:+ " " +:+
  padded 16 (short (SnapshotKind.as_str_name (default SnapshotKind.Unspecified (SnapshotKind.try_from (sn_kind s))))) +:+ " " +:+
  quiesced (sn_pre_snapshot_hook s).
Definition snapshots_lines (l : list Snapshot) : list string :=
  match l with
  | [] => ["no snapshots"]
  | _ => (padded 28 "SNAPSHOT" +:+ " " +:+ padded 20 "NAME" +:+ " " +:+ padded 28 "INSTANCE" +:+ " " +:+ padded 16 "KIND" +:+ " QUIESCED")
         :: (snapshot_line <$> l)
  end.

Definition capsule_line (c : Capsule) : string :=
  padded 71 (pc_capsule_id c) +:+ " " +:+
  padded 14 (short (CapsuleStorage.as_str_name (default CapsuleStorage.Unspecified (CapsuleStorage.try_from (pc_storage c))))) +:+ " " +:+
  padded 10 (pretty (pc_total_size_bytes c)) +:+ " " +:+ or_dash (default empty_str (cm_lineage_id <$> pc_manifest c)).
Definition capsules_lines (l : list Capsule) : list string :=
  match l with
  | [] => ["no capsules"]
  | _ => (padded 71 "CAPSULE" +:+ " " +:+ padded 14 "STORAGE" +:+ " " +:+ padded 10 "SIZE" +:+ " LINEAGE") :: (capsule_line <$> l)
  end.
Definition object_line (o : CapsuleObject) : string :=
  "  object " +:+ obj_digest o +:+ " " +:+ padded_left 12 (pretty (obj_length o)) +:+ " " +:+
  short (CapsuleObjectType.as_str_name (default CapsuleObjectType.Unspecified (CapsuleObjectType.try_from (obj_type o)))).
Definition capsule_lines (c : Capsule) : list string :=
  capsules_lines [c] ++ match pc_manifest c with Some m => object_line <$> cm_objects m | None => [] end.

Definition capsule_op_line (op : Operation) : string :=
  let state := short (OperationState.as_str_name (operation_state (po_state op))) in
  match po_error op with
  | Some e => po_kind op +:+ " " +:+ state +:+ ": " +:+ message e
  | None => po_kind op +:+ " " +:+ state +:+ " " +:+ po_capsule_id op
  end.

Definition event_line (e : Event) : string :=
  let detail := if is_empty (ev_message e) then short (InstanceState.as_str_name (ev_state e)) else ev_message e in
  let detail := match ev_stop_reason e with
                | Some r => detail +:+ match Proto.exit_code r with Some code => " (workload exited " +:+ pretty code +:+ ")" | None => empty_str end
                                   +:+ (if is_empty (Proto.detail r) then empty_str else " (" +:+ Proto.detail r +:+ ")")
                | None => detail
                end in
  padded 8 (pretty (ev_cursor e)) +:+ " " +:+ padded 20 (short (event_name (ev_type e))) +:+ " " +:+ padded 28 (ev_instance_id e) +:+ " " +:+ detail.
(** The lines of a stream and its error, if it ended with one. *)
Fixpoint events_lines (stream : list (res Status Event)) : list string * option Status :=
  match stream with
  | [] => ([], None)
  | Err e :: _ => ([], Some e)
  | Ok ev :: l => let '(lines, e) := events_lines l in (event_line ev :: lines, e)
  end.
(** The bytes of a log, a line feed after each entry, and its error. *)
Fixpoint log_bytes (stream : list (res Status (list Z))) : list Z * option Status :=
  match stream with
  | [] => ([], None)
  | Err e :: _ => ([], Some e)
  | Ok data :: l => let '(out, e) := log_bytes l in (data ++ 10 :: out, e)
  end.

(** * The capsule verbs: main.rs *)

Inductive CapsuleCommand : Type :=
| Export (snapshot_id tier : string) (manifest_out : option string)
| Import (manifest tier : string)
| Inspect (capsule_id : string) (manifest_out : option string)
| LsCapsules (lineage : option string)
| DeleteCapsule (capsule_id : string).

(** The operator's files, and what happens to a call on one. *)
Abbreviation Files := (gmap string (list Z)).

Section CapsuleVerbs.
Context {W : Type}.
Context (ask_capsule : CapsuleRequest -> Call W (res Status Operation)).
Context (get_capsule : string -> Call W (res Status Capsule)) (list_capsules : string -> Call W (res Status (list Capsule))).
(** The protobuf library on a manifest; the fault, if any, of a call on a file. *)
Context (encode_manifest : CapsuleManifest -> list Z) (decode_manifest : list Z -> res string CapsuleManifest).
Context (file_fault : string -> option string).

#[local] Abbreviation C A := (Call (W * Files) (res Failure A)).
Definition node_call {A} (m : Call W (res Status A)) : C A := fun wf =>
  let '(w, r) := m (fst wf) in ((w, snd wf), match r with Ok a => Ok a | Err s => Err (Refusal s) end).
Definition fs_write (path : string) (bytes : list Z) : C unit := fun wf =>
  match file_fault path with
  | Some e => (wf, Err (Trouble ("writing manifest to " +:+ path +:+ ": " +:+ e)))
  | None => ((fst wf, <[path := bytes]> (snd wf)), Ok tt)
  end.
Definition fs_read (path : string) : C (list Z) := fun wf =>
  (wf, match file_fault path, snd wf !! path with
       | Some e, _ => Err (Trouble ("reading manifest " +:+ path +:+ ": " +:+ e))
       | None, None => Err (Trouble ("reading manifest " +:+ path +:+ ": No such file or directory (os error 2)"))
       | None, Some b => Ok b
       end).

Definition write_manifest (capsule_id path : string) : C unit :=
  let@? capsule := node_call (get_capsule capsule_id) or id in
  match pc_manifest capsule with
  | None => pass_back (Err (Trouble ("capsule " +:+ capsule_id +:+ " has no manifest to write")))
  | Some m => fs_write path (encode_manifest m)
  end.

Definition capsule_cmd (what : CapsuleCommand) (key : string) : C (list string * Z) :=
  match what with
  | Export snapshot_id tier manifest_out =>
      let@? op := node_call (ask_capsule (CExport {| ec_snapshot_id := snapshot_id; ec_idempotency_key := key;
                                                     ec_tier := CapsuleStorage.to_i32 (parse_tier tier) |})) or id in
      let@? _ := match manifest_out with Some path => write_manifest (po_capsule_id op) path | None => pass_back (Ok tt) end or id in
      pass_back (Ok ([capsule_op_line op], 0))
  | Import manifest tier =>
      let@? bytes := fs_read manifest or id in
      let@? m := pass_back (decode_manifest bytes) or (fun e => Trouble ("decoding manifest " +:+ manifest +:+ ": " +:+ e)) in
      let@? op := node_call (ask_capsule (CImport {| ic_manifest := Some m; ic_storage := CapsuleStorage.to_i32 (parse_tier tier);
                                                     ic_idempotency_key := key |})) or id in
      pass_back (Ok ([capsule_op_line op], 0))
  | Inspect capsule_id manifest_out =>
      let@? capsule := node_call (get_capsule capsule_id) or id in
      let@? _ := match manifest_out, pc_manifest capsule with
                 | Some path, Some m => fs_write path (encode_manifest m)
                 | _, _ => pass_back (Ok tt)
                 end or id in
      pass_back (Ok (capsule_lines capsule, 0))
  | LsCapsules lineage =>
      let@? l := node_call (list_capsules (default empty_str lineage)) or id in
      pass_back (Ok (capsules_lines l, 0))
  | DeleteCapsule capsule_id =>
      let@? op := node_call (ask_capsule (CDelete {| dc_capsule_id := capsule_id; dc_idempotency_key := key |})) or id in
      pass_back (Ok ([capsule_op_line op], 0))
  end.
End CapsuleVerbs.

(** * The verbs that only ask *)

Section Asking.
Context {W : Type}.
Context (set_wake : SetWakeRequest -> Call W (res Status Instance_)) (get_node_info : Call W (res Status NodeInfo)).
Context (list_instances : ListInstancesRequest -> Call W (res Status ListInstancesResponse)).
Context (get_instance : string -> Call W (res Status Instance_)) (list_snapshots : string -> Call W (res Status (list Snapshot))).

Inductive Asking : Type :=
| AskWake (instance_id : string) (when : option string)
| AskNodeInfo
| AskLs
| AskGet (instance_id : string)
| AskSnapshots (instance : option string).

(** The clock is read once to read a time and once to show one. [None] is a panic of the parser of times, or a listing out of fuel. *)
Definition asked (what : Asking) (fuel : nat) (now shown_at : option Z) : Call W (option (res Failure (list string * Z))) :=
  let lines {A} (f : A -> list string) (r : res Status A) :=
    Some match r with Ok a => Ok (f a, 0) | Err s => Err (Refusal s) end in
  match what with
  | AskWake iid when =>
      let wake_at := match when with
                     | Some when => match parse_when (bytes_of when) now with
                                    | Some (Ok secs) => Some (Ok (Some {| seconds := secs; nanos := 0 |}))
                                    | Some (Err e) => Some (Err e)
                                    | None => None
                                    end
                     | None => Some (Ok None)
                     end in
      match wake_at with
      | None => pass_back None
      | Some (Err e) => pass_back (Some (Err (Trouble e)))
      | Some (Ok wake_at) =>
          let@ r := set_wake {| sw_instance_id := iid; sw_wake_at := wake_at |} in
          pass_back (lines (fun i => instances_lines shown_at [i]) r)
      end
  | AskNodeInfo => let@ r := get_node_info in pass_back (lines node_info_lines r)
  | AskLs => let@ r := list_all list_instances fuel in pass_back (r ≫= lines (instances_lines shown_at))
  | AskGet iid => let@ r := get_instance iid in pass_back (lines (fun i => instances_lines shown_at [i]) r)
  | AskSnapshots instance => let@ r := list_snapshots (default empty_str instance) in pass_back (lines snapshots_lines r)
  end.
End Asking.

(** * A manifest that travels *)

Section Travel.
Context (encode_manifest : CapsuleManifest -> list Z) (decode_manifest : list Z -> res string CapsuleManifest).
Context (Hback : forall m, decode_manifest (encode_manifest m) = Ok m).

(** An export that reports success wrote to the operator's file the manifest of the very
    capsule it made, and an import of that file, on whatever node, asks for exactly that
    manifest. *)
Theorem exported_manifest_is_imported {W} ask get ls fault sid tier path key (w w' : W) fs fs' out :
  capsule_cmd ask get ls encode_manifest decode_manifest fault (Export sid tier (Some path)) key (w, fs) = ((w', fs'), Ok out) ->
  exists op w1 c m,
    ask (CExport {| ec_snapshot_id := sid; ec_idempotency_key := key; ec_tier := CapsuleStorage.to_i32 (parse_tier tier) |}) w = (w1, Ok op) /\
    get (po_capsule_id op) w1 = (w', Ok c) /\ pc_manifest c = Some m /\ fs' = <[path := encode_manifest m]> fs /\
    forall W' ask' get' ls' fault' tier' key' (v : W') (files : Files),
      files !! path = fs' !! path -> fault' path = None ->
      capsule_cmd ask' get' ls' encode_manifest decode_manifest fault' (Import path tier') key' (v, files) =
      let '(v', r) := ask' (CImport {| ic_manifest := Some m; ic_storage := CapsuleStorage.to_i32 (parse_tier tier');
                                       ic_idempotency_key := key' |}) v in
      ((v', files), match r with Ok op => Ok ([capsule_op_line op], 0) | Err s => Err (Refusal s) end).
Proof.
  cbn [capsule_cmd]. unfold try_, then_, pass_back, node_call, write_manifest. cbn [fst snd].
  destruct (ask _ w) as [w1 [op|s]] eqn:E1; [|done]. unfold try_, then_, pass_back, node_call. cbn [fst snd].
  destruct (get (po_capsule_id op) w1) as [w2 [c|s]] eqn:E2; [|done]. destruct (pc_manifest c) as [m|] eqn:Em; [|done].
  unfold fs_write. cbn [fst snd]. destruct (fault path); [done|]. intros [= <- <- <-]. exists op, w1, c, m. split_and!; try done.
  intros W' ask' get' ls' fault' tier' key' v files Hf Hn. cbn [capsule_cmd]. unfold try_, then_, pass_back, fs_read, node_call. cbn [fst snd].
  rewrite Hn, Hf, lookup_insert_eq. cbn [fst snd]. rewrite Hback. cbn [fst snd]. by destruct (ask' _ v) as [v' [o|s]].
Qed.
End Travel.

(** What an operator reads of a node's abilities is what it declares. *)
Lemma abilities_exact c label on : (label, on) ∈ capability_labels c -> label ∈ abilities c <-> on = true.
Proof.
  intros Hin. unfold abilities. rewrite list_elem_of_fmap. setoid_rewrite list_elem_of_filter. split.
  - intros ([l b] & -> & Hb & Hin'). cbn in Hb. subst. unfold capability_labels in Hin, Hin'.
    rewrite !elem_of_cons, elem_of_nil in Hin, Hin'. cbn in Hin. naive_solver.
  - intros ->. by exists (label, true).
Qed.

(** The prefixes of the capsules' enumerations are not among those that are dropped. *)
Lemma storage_keeps_its_prefix : short (CapsuleStorage.as_str_name CapsuleStorage.LocalDir) = "CAPSULE_STORAGE_LOCAL_DIR".
Proof. reflexivity. Qed.
